(** * ProjectYouTube: [scripts/version.py] and [formats.py]

    A shallow embedding of the two command-line scripts of the repository
    and the properties their specification states about them.

    Conventions of the embedding.
    - Python [str] is Rocq's [string].  A string literal of this file is the
      UTF-8 encoding of the Python literal; the character classes of Python
      that look at code points ([\d], [\s], [int()], [str.lower]) are modelled
      on ASCII, which is exact for every text whose non-ASCII characters are
      neither decimal digits nor white space.
    - Python [int] is [Z]; a Python [float] is the rational it denotes ([Q]);
      the interpreter's optional limit on the number of digits of an integer
      literal is a runtime setting and not part of the model.
    - An exception is a value of [exn]; a computation that may raise returns
      a [result].  [OutOfModel] marks the places where the embedding does not
      follow the interpreter (documented at each use); no theorem below
      holds because of it.
    - Code that prints and touches files runs in the monad [IO]: a state of
      the manifest files and of the lines printed so far, plus [result].
    - What [json.loads] and the metadata library hand over is a dynamically
      typed value ([pyval]).  The JSON library and the metadata library are
      interfaces ([Json], [Ydl]); the theorems about the format reporter
      say which records of the data model they cover ([descriptor_ok],
      [info_ok]). *)

From Stdlib Require Import ZArith NArith QArith String Ascii List Bool Lia.
From Stdlib Require Import DecimalString DecimalN DecimalPos Sorted.
From stdpp Require Import base option list strings gmap.

Local Open Scope Z_scope.
Local Open Scope string_scope.
(* [++] is list concatenation throughout; strings are joined with [+:+]. *)
#[local] Disable Notation "_ ++ _" : string_scope.

(** ** Python runtime: exceptions, values, built-ins *)

Module Py.

(** The reason carried by a [ValueError] (the message of the source, kept
    structured instead of formatted). *)
Inductive value_error : Type :=
  | InvalidVersionFormat (version : string)  (* Invalid version format: {version} *)
  | UnknownBumpType (bump_type : string)     (* Unknown bump type: {bump_type} *)
  | VersionNotFound (path : string)          (* Version not found in {path} *)
  | InvalidIntLiteral (s : string)           (* int(): invalid literal for int() with base 10 *)
  | MaxEmptySequence                         (* max() arg is an empty sequence *)
  | UnknownFormatCode.                       (* format(): Unknown format code for the type *)

Inductive exn : Type :=
  | ValueError (why : value_error)
  | TypeError
  | AttributeError
  | KeyError (key : string)
  | FileNotFoundError (path : string)
  | JSONDecodeError
  | ReError                                  (* re.error: bad replacement template *)
  | SystemExit (code : Z)
  | OutOfModel.

Inductive result (A : Type) : Type :=
  | Ok (a : A)
  | Raise (e : exn).
Arguments Ok {A} a.
Arguments Raise {A} e.

Definition rbind {A B} (m : result A) (k : A → result B) : result B :=
  match m with Ok a => k a | Raise e => Raise e end.

#[global] Instance result_ret : MRet result := @Ok.
#[global] Instance result_bind : MBind result := λ A B k m, rbind m k.

(** *** Characters and strings *)

Definition dq : ascii := ascii_of_nat 34.          (* the double quote *)
Definition backslash : ascii := ascii_of_nat 92.
Definition LF : ascii := ascii_of_nat 10.
Definition CR : ascii := ascii_of_nat 13.

Definition code (c : ascii) : N := N_of_ascii c.

Definition is_digit (c : ascii) : bool := (48 <=? code c)%N && (code c <=? 57)%N.
Definition digit_value (c : ascii) : N := (code c - 48)%N.

(** White space skipped by [int()] around a literal: [Py_ISSPACE]. *)
Definition is_int_space (c : ascii) : bool :=
  ((9 <=? code c)%N && (code c <=? 13)%N) || (code c =? 32)%N.

(** White space of [str.isspace] and of [\s] in a [str] pattern (ASCII part). *)
Definition is_space (c : ascii) : bool :=
  ((9 <=? code c)%N && (code c <=? 13)%N)
  || ((28 <=? code c)%N && (code c <=? 32)%N).

Definition ascii_eqb (a b : ascii) : bool := Ascii.eqb a b.

Fixpoint lstrip (p : ascii → bool) (s : string) : string :=
  match s with
  | String c s' => if p c then lstrip p s' else s
  | EmptyString => EmptyString
  end.

Fixpoint rstrip (p : ascii → bool) (s : string) : string :=
  match s with
  | String c s' =>
      match rstrip p s' with
      | EmptyString => if p c then EmptyString else String c EmptyString
      | r => String c r
      end
  | EmptyString => EmptyString
  end.

(** [s.split(sep)] for a one-character separator: never the empty list. *)
Fixpoint split (sep : ascii) (s : string) : list string :=
  match s with
  | EmptyString => [EmptyString]
  | String c s' =>
      if ascii_eqb c sep then EmptyString :: split sep s'
      else match split sep s' with
           | h :: t => String c h :: t
           | [] => [String c EmptyString]
           end
  end.

Fixpoint startswith (p s : string) : bool :=
  match p, s with
  | EmptyString, _ => true
  | String a p', String b s' => ascii_eqb a b && startswith p' s'
  | String _ _, EmptyString => false
  end.

(** [sub in s] *)
Fixpoint contains (sub s : string) : bool :=
  startswith sub s ||
  match s with
  | String _ s' => contains sub s'
  | EmptyString => false
  end.

Definition lower_char (c : ascii) : ascii :=
  if (65 <=? code c)%N && (code c <=? 90)%N then ascii_of_N (code c + 32) else c.

Fixpoint lower (s : string) : string :=
  match s with
  | String c s' => String (lower_char c) (lower s')
  | EmptyString => EmptyString
  end.

Fixpoint repeat_char (c : ascii) (n : nat) : string :=
  match n with O => EmptyString | S n' => String c (repeat_char c n') end.

(** [len(s)]: the number of code points of the UTF-8 text, that is of the
    bytes that are not continuation bytes. *)
Fixpoint len (s : string) : nat :=
  match s with
  | String c s' =>
      (if (128 <=? code c)%N && (code c <? 192)%N then 0 else 1)%nat + len s'
  | EmptyString => 0%nat
  end.

(** [s.ljust(w)] and the format specification [>w] on a string. *)
Definition ljust (w : nat) (s : string) : string :=
  s +:+ repeat_char " " (w - len s).
Definition rjust (w : nat) (s : string) : string :=
  repeat_char " " (w - len s) +:+ s.

(** *** Integers and their decimal text *)

(** [str(n)] *)
Definition str_of_Z (z : Z) : string := NilEmpty.string_of_int (Z.to_int z).
Definition str_of_N (n : N) : string := NilEmpty.string_of_uint (N.to_uint n).

(** The digits of an [int()] literal after white space and sign: decimal
    digits with single underscores between digits. *)
Fixpoint int_digits (s : string) (acc : N) (after_digit : bool) : option N :=
  match s with
  | EmptyString => if after_digit then Some acc else None
  | String c s' =>
      if is_digit c then int_digits s' (10 * acc + digit_value c)%N true
      else if ascii_eqb c "_" && after_digit then int_digits s' acc false
      else None
  end.

(** [int(s)]: surrounding white space, an optional sign, the digits. *)
Definition py_int (s : string) : option Z :=
  match rstrip is_int_space (lstrip is_int_space s) with
  | String "-" d => (λ n, - Z.of_N n) <$> int_digits d 0%N false
  | String "+" d => Z.of_N <$> int_digits d 0%N false
  | d => Z.of_N <$> int_digits d 0%N false
  end.

Definition int (s : string) : result Z :=
  match py_int s with
  | Some z => Ok z
  | None => Raise (ValueError (InvalidIntLiteral s))
  end.

(** *** Dynamically typed values

    What [json.loads] returns and what the metadata library hands over:
    [None], booleans, integers, floats, strings, lists, and dictionaries
    with string keys (insertion-ordered, so an association list). *)

#[warnings="-register-all"]
Inductive pyval : Type :=
  | PNone
  | PBool (b : bool)
  | PInt (z : Z)
  | PFloat (q : Q)
  | PStr (s : string)
  | PList (l : list pyval)
  | PDict (d : list (string * pyval)).

(** [d.get(k)] on the entries of a dictionary *)
Fixpoint dict_get (k : string) (d : list (string * pyval)) : option pyval :=
  match d with
  | [] => None
  | (k', v) :: d' => if String.eqb k k' then Some v else dict_get k d'
  end.

(** [d[k] = v]: an existing key keeps its place, a new key goes last. *)
Fixpoint dict_set (k : string) (v : pyval) (d : list (string * pyval))
  : list (string * pyval) :=
  match d with
  | [] => [(k, v)]
  | (k', v') :: d' =>
      if String.eqb k k' then (k, v) :: d' else (k', v') :: dict_set k v d'
  end.

(** [x.get(k, default)]: only dictionaries have the method. *)
Definition get (x : pyval) (k : string) (default : pyval) : result pyval :=
  match x with
  | PDict d => Ok (match dict_get k d with Some v => v | None => default end)
  | _ => Raise AttributeError
  end.

(** The numeric value of a number ([bool] is a subtype of [int]). *)
Definition num_value (v : pyval) : option Q :=
  match v with
  | PBool b => Some (inject_Z (if b then 1 else 0))
  | PInt z => Some (inject_Z z)
  | PFloat q => Some q
  | _ => None
  end.

(** Truth value of [if v], [not v], [v or w]. *)
Definition truthy (v : pyval) : bool :=
  match v with
  | PNone => false
  | PBool b => b
  | PInt z => negb (z =? 0)%Z
  | PFloat q => negb (Qeq_bool q 0)
  | PStr s => negb (String.eqb s "")
  | PList l => match l with [] => false | _ => true end
  | PDict d => match d with [] => false | _ => true end
  end.

(** [v or w] *)
Definition py_or (v w : pyval) : pyval := if truthy v then v else w.

(** [v == w] on the values that can be members of a [set]: numbers compare
    by value across [bool], [int] and [float]. *)
Definition py_eqb (v w : pyval) : bool :=
  match v, w with
  | PNone, PNone => true
  | PStr a, PStr b => String.eqb a b
  | _, _ =>
      match num_value v, num_value w with
      | Some a, Some b => Qeq_bool a b
      | _, _ => false
      end
  end.

Definition hashable (v : pyval) : bool :=
  match v with PList _ | PDict _ => false | _ => true end.

(** The parts of [str()] and [format()] that depend on the binary
    representation of floats or on the Unicode tables are parameters. *)
Class Runtime : Type := {
  float_repr : Q → string;            (* repr(x) of a float *)
  float_fixed : nat → Q → string;     (* format(x, '.nf') *)
  str_repr : string → string          (* repr(s) of a string *)
}.

Section Text.
Context `{Runtime}.

Fixpoint join (sep : string) (l : list string) : string :=
  match l with
  | [] => ""
  | [x] => x
  | x :: l' => x +:+ sep +:+ join sep l'
  end.

(** [repr(v)] *)
Fixpoint py_repr (v : pyval) : string :=
  match v with
  | PNone => "None"
  | PBool b => if b then "True" else "False"
  | PInt z => str_of_Z z
  | PFloat q => float_repr q
  | PStr s => str_repr s
  | PList l => "[" +:+ join ", " (map py_repr l) +:+ "]"
  | PDict d =>
      "{" +:+ join ", " (map (λ kv, str_repr kv.1 +:+ ": " +:+ py_repr kv.2) d)
          +:+ "}"
  end.

(** [str(v)], also what an f-string field without a format gives. *)
Definition py_str (v : pyval) : string :=
  match v with
  | PStr s => s
  | _ => py_repr v
  end.

End Text.

End Py.
Export Py.

(** ** The part of Python's [re] that the scripts use

    A backtracking matcher for patterns that are a sequence of anchors,
    literal characters, greedy repetitions of a character class and group
    marks: the three patterns of [version.py] have this shape. *)

Module Re.

Inductive item : Type :=
  | Bol                          (* ^ *)
  | Eol                          (* $ *)
  | Lit (c : ascii)
  | Star (p : ascii → bool)      (* [class]* *)
  | Plus (p : ascii → bool)      (* [class]+ *)
  | Open (g : nat)               (* ( of group g *)
  | Close (g : nat).             (* ) of group g *)

Definition regex : Type := list item.

Fixpoint lits (s : string) : regex :=
  match s with
  | String c s' => Lit c :: lits s'
  | EmptyString => []
  end.

(** A mark: group number, whether it closes the group, position. *)
Definition mark : Type := nat * bool * nat.

(** The end of the match and the marks met on the way, latest first. *)
Definition found : Type := nat * list mark.

(** [^]: at the start of the text, and in MULTILINE mode after a newline. *)
Definition at_bol (multiline : bool) (prev : option ascii) : bool :=
  match prev with
  | None => true
  | Some c => multiline && ascii_eqb c LF
  end.

(** [$]: at the end of the text or before a newline that ends it; in
    MULTILINE mode before any newline. *)
Definition at_eol (multiline : bool) (s : string) : bool :=
  match s with
  | EmptyString => true
  | String c r => ascii_eqb c LF && (multiline || String.eqb r "")
  end.

(** Greedy repetition: the longest run first, then shorter ones. *)
Fixpoint star (p : ascii → bool) (k : option ascii → nat → string → option found)
    (prev : option ascii) (pos : nat) (s : string) : option found :=
  match s with
  | String c s' =>
      if p c then
        match star p k (Some c) (S pos) s' with
        | Some r => Some r
        | None => k prev pos s
        end
      else k prev pos s
  | EmptyString => k prev pos s
  end.

(** Match [r] at the position [pos] of the text, [prev] being the character
    before it and [s] the rest of the text. *)
Fixpoint run (multiline : bool) (r : regex) (marks : list mark)
    (prev : option ascii) (pos : nat) (s : string) : option found :=
  match r with
  | [] => Some (pos, marks)
  | Bol :: r' =>
      if at_bol multiline prev then run multiline r' marks prev pos s else None
  | Eol :: r' =>
      if at_eol multiline s then run multiline r' marks prev pos s else None
  | Lit c :: r' =>
      match s with
      | String c' s' =>
          if ascii_eqb c c' then run multiline r' marks (Some c') (S pos) s'
          else None
      | EmptyString => None
      end
  | Star p :: r' => star p (run multiline r' marks) prev pos s
  | Plus p :: r' =>
      match s with
      | String c s' =>
          if p c then star p (run multiline r' marks) (Some c) (S pos) s'
          else None
      | EmptyString => None
      end
  | Open g :: r' => run multiline r' ((g, false, pos) :: marks) prev pos s
  | Close g :: r' => run multiline r' ((g, true, pos) :: marks) prev pos s
  end.

(** [re.match(r, s)] (no flags): the match at position 0, if any. *)
Definition rematch (r : regex) (s : string) : option found :=
  run false r [] None 0%nat s.

(** [re.search]: the leftmost position with a match. *)
Fixpoint search_from (multiline : bool) (r : regex)
    (prev : option ascii) (pos : nat) (s : string) : option (nat * found) :=
  match run multiline r [] prev pos s with
  | Some f => Some (pos, f)
  | None =>
      match s with
      | String c s' => search_from multiline r (Some c) (S pos) s'
      | EmptyString => None
      end
  end.

Definition search (multiline : bool) (r : regex) (s : string)
  : option (nat * found) :=
  search_from multiline r None 0%nat s.

Fixpoint mark_pos (g : nat) (closing : bool) (marks : list mark) : option nat :=
  match marks with
  | [] => None
  | (g', c', p) :: m' =>
      if (g =? g')%nat && Bool.eqb closing c' then Some p else mark_pos g closing m'
  end.

Definition slice (a b : nat) (s : string) : string := substring a (b - a) s.
Definition drop (n : nat) (s : string) : string := substring n (String.length s - n) s.

(** [m.group(g)] for a match found in [s] from [start]. *)
Definition group (s : string) (start : nat) (f : found) (g : nat) : option string :=
  match g with
  | O => Some (slice start f.1 s)
  | _ =>
      a ← mark_pos g false f.2;
      b ← mark_pos g true f.2;
      Some (slice a b s)
  end.

(** *** The longest run of a class at the head of a text

    Used to describe what a greedy repetition consumes when what follows it
    cannot start with a character of the class. *)

Fixpoint take_while (p : ascii → bool) (s : string) : string :=
  match s with
  | String c s' => if p c then String c (take_while p s') else EmptyString
  | EmptyString => EmptyString
  end.

(** The character before the position reached after the run. *)
Fixpoint run_prev (p : ascii → bool) (prev : option ascii) (s : string)
  : option ascii :=
  match s with
  | String c s' => if p c then run_prev p (Some c) s' else prev
  | EmptyString => prev
  end.

(** [rejects p r]: no match of [r] starts with a character of [p]. *)
Fixpoint rejects (p : ascii → bool) (r : regex) : bool :=
  match r with
  | Lit c :: _ => negb (p c)
  | Eol :: _ => negb (p LF)
  | Open _ :: r' | Close _ :: r' | Bol :: r' => rejects p r'
  | Plus q :: _ => false
  | Star q :: _ => false
  | [] => false
  end.

(** [no_bol r]: [r] has no [^], so that its matches do not depend on the
    character before the position where they start. *)
Fixpoint no_bol (r : regex) : bool :=
  match r with
  | Bol :: _ => false
  | _ :: r' => no_bol r'
  | [] => true
  end.

(** The character before the position reached after the text [x]. *)
Fixpoint prev_after (prev : option ascii) (x : string) : option ascii :=
  match x with
  | String c x' => prev_after (Some c) x'
  | EmptyString => prev
  end.

(** *** Replacement templates ([re.sub])

    The template is read as [sre_parse.parse_template] reads it: a backslash
    starts a group reference ([\g<n>], [\n]), an octal escape, one of the
    character escapes, or, before a character that is not an ASCII letter,
    stays as it is. *)

Inductive tpl_item : Type :=
  | TLit (c : ascii)
  | TGroup (g : nat).

Inductive tpl_state : Type :=
  | TNormal
  | TEscape                       (* after a backslash *)
  | TG                            (* after \g *)
  | TName (digits : string)       (* in \g<...>, reversed *)
  | TZero (n : N) (more : nat)    (* in \0oo *)
  | TDigit (d : N)                (* after \d, d in 1..9 *)
  | TDigit2 (d1 d2 : N).          (* after \dd *)

Definition is_octdigit (c : ascii) : bool := (48 <=? code c)%N && (code c <=? 55)%N.
Definition is_ascii_letter (c : ascii) : bool :=
  ((65 <=? code c)%N && (code c <=? 90)%N) || ((97 <=? code c)%N && (code c <=? 122)%N).

(** The character escapes of a template. *)
Definition template_escape (c : ascii) : option ascii :=
  if ascii_eqb c "a" then Some (ascii_of_nat 7)
  else if ascii_eqb c "b" then Some (ascii_of_nat 8)
  else if ascii_eqb c "f" then Some (ascii_of_nat 12)
  else if ascii_eqb c "n" then Some (ascii_of_nat 10)
  else if ascii_eqb c "r" then Some (ascii_of_nat 13)
  else if ascii_eqb c "t" then Some (ascii_of_nat 9)
  else if ascii_eqb c "v" then Some (ascii_of_nat 11)
  else if ascii_eqb c backslash then Some backslash
  else None.

Definition group_ref (groups : nat) (n : N) : result tpl_item :=
  if (N.to_nat n <=? groups)%nat then Ok (TGroup (N.to_nat n)) else Raise ReError.

(** A character value given by an octal escape; values above 127 are not
    single bytes of the UTF-8 text and are left out of the model. *)
Definition octal_char (n : N) : result tpl_item :=
  if (n <? 128)%N then Ok (TLit (ascii_of_N n)) else Raise OutOfModel.

Fixpoint all_digits (s : string) : bool :=
  match s with
  | String c s' => is_digit c && all_digits s'
  | EmptyString => true
  end.

(** The value of a string of digits read from its last digit. *)
Fixpoint rev_digits_value (s : string) : N :=
  match s with
  | String c s' => (digit_value c + 10 * rev_digits_value s')%N
  | EmptyString => 0%N
  end.

Definition cons_item (i : result tpl_item) (r : result (list tpl_item))
  : result (list tpl_item) :=
  x ← i; l ← r; Ok (x :: l).

(** [groups] is the number of groups of the pattern.  A group name that is
    not a string of ASCII digits is an identifier the pattern does not
    define ([IndexError], rendered as [KeyError] of the name) or is treated
    differently by different versions of the interpreter ([OutOfModel]). *)
Fixpoint parse_template (groups : nat) (st : tpl_state) (s : string)
  : result (list tpl_item) :=
  match s with
  | EmptyString =>
      match st with
      | TNormal => Ok []
      | TEscape | TG | TName _ => Raise ReError
      | TZero n _ => cons_item (octal_char (N.land n 255)) (Ok [])
      | TDigit d => cons_item (group_ref groups d) (Ok [])
      | TDigit2 d1 d2 => cons_item (group_ref groups (10 * d1 + d2)) (Ok [])
      end
  | String c s' =>
      (* what the character [c] starts when no escape is pending *)
      let normal :=
        if ascii_eqb c backslash then parse_template groups TEscape s'
        else cons_item (Ok (TLit c)) (parse_template groups TNormal s') in
      match st with
      | TNormal => normal
      | TEscape =>
          if ascii_eqb c "g" then parse_template groups TG s'
          else if ascii_eqb c "0" then parse_template groups (TZero 0 2) s'
          else if is_digit c then parse_template groups (TDigit (digit_value c)) s'
          else match template_escape c with
               | Some e => cons_item (Ok (TLit e)) (parse_template groups TNormal s')
               | None =>
                   if is_ascii_letter c then Raise ReError
                   else cons_item (Ok (TLit backslash))
                          (cons_item (Ok (TLit c)) (parse_template groups TNormal s'))
               end
      | TG =>
          if ascii_eqb c "<" then parse_template groups (TName "") s'
          else Raise ReError
      | TName acc =>
          if ascii_eqb c ">" then
            match acc with
            | EmptyString => Raise ReError
            | _ =>
                if all_digits acc then
                  cons_item (group_ref groups (rev_digits_value acc))
                    (parse_template groups TNormal s')
                else Raise OutOfModel
            end
          else parse_template groups (TName (String c acc)) s'
      | TZero n more =>
          match more with
          | S more' =>
              if is_octdigit c then
                parse_template groups (TZero (8 * n + digit_value c) more') s'
              else cons_item (octal_char (N.land n 255)) normal
          | O => cons_item (octal_char (N.land n 255)) normal
          end
      | TDigit d =>
          if is_digit c then parse_template groups (TDigit2 d (digit_value c)) s'
          else cons_item (group_ref groups d) normal
      | TDigit2 d1 d2 =>
          if (d1 <=? 7)%N && (d2 <=? 7)%N && is_octdigit c then
            let v := (64 * d1 + 8 * d2 + digit_value c)%N in
            if (255 <? v)%N then Raise ReError
            else cons_item (octal_char v) (parse_template groups TNormal s')
          else cons_item (group_ref groups (10 * d1 + d2)) normal
      end
  end.

(** The template items of a text without escapes. *)
Fixpoint tlits (s : string) : list tpl_item :=
  match s with
  | String c s' => TLit c :: tlits s'
  | EmptyString => []
  end.

Fixpoint expand (s : string) (start : nat) (f : found) (t : list tpl_item) : string :=
  match t with
  | [] => ""
  | TLit c :: t' => String c (expand s start f t')
  | TGroup g :: t' =>
      match group s start f g with Some x => x | None => "" end
        +:+ expand s start f t'
  end.

(** [re.sub(r, template, s, count=1, flags)]; [groups] is the number of
    groups of [r].  The template is compiled before the text is searched. *)
Definition sub1 (multiline : bool) (r : regex) (groups : nat)
    (template : string) (s : string) : result string :=
  t ← parse_template groups TNormal template;
  match search multiline r s with
  | None => Ok s
  | Some (start, f) =>
      Ok (slice 0 start s +:+ expand s start f t +:+ drop f.1 s)
  end.

End Re.

(** ** Files and the terminal *)

Module Sys.

(** The manifest files by their path relative to the project root, with
    their contents as stored, and the lines printed so far (latest last). *)
Record world : Type := World {
  files : gmap string string;
  stdout : list string
}.

Definition IO (A : Type) : Type := world → world * result A.

Definition io_ret {A} (a : A) : IO A := λ w, (w, Ok a).
Definition io_bind {A B} (m : IO A) (k : A → IO B) : IO B :=
  λ w, match m w with
       | (w', Ok a) => k a w'
       | (w', Raise e) => (w', Raise e)
       end.

#[global] Instance IO_ret : MRet IO := @io_ret.
#[global] Instance IO_bind : MBind IO := λ A B k m, io_bind m k.

Definition raise {A} (e : exn) : IO A := λ w, (w, Raise e).
Definition lift {A} (r : result A) : IO A := λ w, (w, r).

(** [print(line)] *)
Definition print (line : string) : IO unit :=
  λ w, (World (files w) (stdout w ++ [line]), Ok tt).

(** [path.exists()] *)
Definition path_exists (path : string) : IO bool :=
  λ w, (w, Ok (bool_decide (is_Some (files w !! path)))).

(** Text files are opened with universal newlines: [\r\n] and [\r] are
    read as [\n]. *)
Fixpoint universal_newlines (s : string) : string :=
  match s with
  | String c s' =>
      if ascii_eqb c CR then
        match s' with
        | String d s'' =>
            if ascii_eqb d LF then String LF (universal_newlines s'')
            else String LF (universal_newlines s')
        | EmptyString => String LF EmptyString
        end
      else String c (universal_newlines s')
  | EmptyString => EmptyString
  end.

(** [path.read_text(encoding='utf-8')] *)
Definition read_text (path : string) : IO string :=
  λ w, match files w !! path with
       | Some content => (w, Ok (universal_newlines content))
       | None => (w, Raise (FileNotFoundError path))
       end.

(** [path.write_text(text, encoding='utf-8')] on a system whose line
    separator is [\n]. *)
Definition write_text (path : string) (text : string) : IO unit :=
  λ w, (World (<[path := text]> (files w)) (stdout w), Ok tt).

(** The status a process ends with: 0 after a normal return, the code of
    [sys.exit], 1 after an exception nobody caught. *)
Definition exit_status {A} (r : result A) : Z :=
  match r with
  | Ok _ => 0
  | Raise (SystemExit c) => c
  | Raise _ => 1
  end.

End Sys.
Export Sys.

(** ** The [json] module of the standard library

    [json.loads] and [json.dumps(_, indent=2)] are taken as an interface.
    [is_float] tells which rationals are floats. *)

Class Json : Type := {
  json_loads : string → option pyval;     (* [None]: JSONDecodeError *)
  json_dumps : pyval → string;            (* json.dumps(data, indent=2) *)
  is_float : Q → bool
}.

Fixpoint no_dup_keys (seen : list string) (d : list (string * pyval)) : bool :=
  match d with
  | [] => true
  | (k, _) :: d' =>
      negb (bool_decide (k ∈ seen)) && no_dup_keys (k :: seen) d'
  end.

(** The values a JSON text denotes: the keys of an object are distinct,
    a float is a float. *)
Fixpoint json_value `{Json} (v : pyval) : bool :=
  match v with
  | PNone | PBool _ | PInt _ | PStr _ => true
  | PFloat q => is_float q
  | PList l => forallb json_value l
  | PDict d => no_dup_keys [] d && forallb (λ kv, json_value kv.2) d
  end.

(** What the scripts rely on: a text that parses denotes a JSON value, and
    a JSON value written with [json.dumps] and a final newline, then read
    back as a text file, parses to itself. *)
Class JsonLaws (J : Json) : Prop := {
  loads_value : ∀ s v, json_loads s = Some v → json_value v = true;
  loads_dumps : ∀ v, json_value v = true →
    json_loads (universal_newlines (json_dumps v +:+ String LF "")) = Some v
}.

(** ** [scripts/version.py] *)

Module Version.

Import Re.

(** [VERSION_FILES]: logical name to path relative to the project root. *)
Definition VERSION_FILES : list (string * string) :=
  [ ("npm", "youtube-downloader/package.json");
    ("tauri_cargo", "youtube-downloader/src-tauri/Cargo.toml");
    ("tauri_conf", "youtube-downloader/src-tauri/tauri.conf.json") ].

Fixpoint assoc {A} (k : string) (l : list (string * A)) : option A :=
  match l with
  | [] => None
  | (k', v) :: l' => if String.eqb k k' then Some v else assoc k l'
  end.

(** [VERSION_FILES.get(name, name)], also [VERSION_FILES[name]] for the
    three names the script uses. *)
Definition version_file (name : string) : string :=
  match assoc name VERSION_FILES with Some p => p | None => name end.

Definition not_dq (c : ascii) : bool := negb (ascii_eqb c dq).

(** [r'^version\s*=\s*Q([^Q]+)Q'], with Q for the double quote *)
Definition CARGO_READ_RE : regex :=
  [Bol] ++ lits "version" ++
  [Star is_space; Lit "="; Star is_space; Lit dq;
   Open 1; Plus not_dq; Close 1; Lit dq].

(** [r'^(version\s*=\s*Q)[^Q]+(Q)'], with Q for the double quote *)
Definition CARGO_WRITE_RE : regex :=
  [Bol; Open 1] ++ lits "version" ++
  [Star is_space; Lit "="; Star is_space; Lit dq; Close 1;
   Plus not_dq; Open 2; Lit dq; Close 2].

(** [r'^\d+\.\d+\.\d+$'] *)
Definition VERSION_RE : regex :=
  [Bol; Plus is_digit; Lit "."; Plus is_digit; Lit "."; Plus is_digit; Eol].

Section Scripts.
Context `{Runtime} `{Json}.

(** [read_cargo_version(path)] *)
Definition read_cargo_version (path : string) : IO string :=
  content ← read_text path;
  match search true CARGO_READ_RE content with
  | Some (start, f) =>
      match group content start f 1 with
      | Some v => mret v
      | None => raise OutOfModel    (* group 1 is part of every match *)
      end
  | None => raise (ValueError (VersionNotFound path))
  end.

(** [write_cargo_version(path, version)]; the f-string puts [str(version)]
    between the two group references of the template. *)
Definition write_cargo_version (path : string) (version : pyval) : IO unit :=
  content ← read_text path;
  new_content ← lift (sub1 true CARGO_WRITE_RE 2
                        ("\g<1>" +:+ py_str version +:+ "\g<2>") content);
  write_text path new_content.

Definition loads (text : string) : IO pyval :=
  match json_loads text with
  | Some v => mret v
  | None => raise JSONDecodeError
  end.

(** [data[k] = v] *)
Definition setitem (data : pyval) (k : string) (v : pyval) : result pyval :=
  match data with
  | PDict d => Ok (PDict (dict_set k v d))
  | _ => Raise TypeError
  end.

(** [read_package_json_version(path)] *)
Definition read_package_json_version (path : string) : IO pyval :=
  text ← read_text path;
  data ← loads text;
  lift (get data "version" (PStr "0.0.0")).

(** [write_package_json_version(path, version)] *)
Definition write_package_json_version (path : string) (version : pyval) : IO unit :=
  text ← read_text path;
  data ← loads text;
  data ← lift (setitem data "version" version);
  write_text path (json_dumps data +:+ String LF "").

(** [read_tauri_conf_version(path)] *)
Definition read_tauri_conf_version (path : string) : IO pyval :=
  text ← read_text path;
  data ← loads text;
  lift (get data "version" (PStr "0.0.0")).

(** [write_tauri_conf_version(path, version)] *)
Definition write_tauri_conf_version (path : string) (version : pyval) : IO unit :=
  text ← read_text path;
  data ← loads text;
  data ← lift (setitem data "version" version);
  write_text path (json_dumps data +:+ String LF "").

(** [get_all_versions(root)]: the dictionary in insertion order. *)
Definition get_all_versions : IO (list (string * pyval)) :=
  let versions := [] in
  let npm_path := version_file "npm" in
  e ← path_exists npm_path;
  versions ← (if e : bool then
                v ← read_package_json_version npm_path;
                mret (versions ++ [("npm", v)])
              else mret versions);
  let tauri_cargo_path := version_file "tauri_cargo" in
  e ← path_exists tauri_cargo_path;
  versions ← (if e : bool then
                v ← read_cargo_version tauri_cargo_path;
                mret (versions ++ [("tauri_cargo", PStr v)])
              else mret versions);
  let tauri_conf_path := version_file "tauri_conf" in
  e ← path_exists tauri_conf_path;
  versions ← (if e : bool then
                v ← read_tauri_conf_version tauri_conf_path;
                mret (versions ++ [("tauri_conf", v)])
              else mret versions);
  mret versions.

(** [set_all_versions(root, version)] *)
Definition set_all_versions (version : pyval) : IO unit :=
  let npm_path := version_file "npm" in
  e ← path_exists npm_path;
  (if e : bool then
     write_package_json_version npm_path version;;
     print ("  ✓ " +:+ version_file "npm" +:+ ": " +:+ py_str version)
   else mret tt);;
  let tauri_cargo_path := version_file "tauri_cargo" in
  e ← path_exists tauri_cargo_path;
  (if e : bool then
     write_cargo_version tauri_cargo_path version;;
     print ("  ✓ " +:+ version_file "tauri_cargo" +:+ ": " +:+ py_str version)
   else mret tt);;
  let tauri_conf_path := version_file "tauri_conf" in
  e ← path_exists tauri_conf_path;
  (if e : bool then
     write_tauri_conf_version tauri_conf_path version;;
     print ("  ✓ " +:+ version_file "tauri_conf" +:+ ": " +:+ py_str version)
   else mret tt).

(** [bump_version(version, bump_type)] *)
Definition bump_version (version bump_type : string) : result string :=
  let parts := split "." version in
  if negb (length parts =? 3)%nat then
    Raise (ValueError (InvalidVersionFormat version))
  else
    match parts with
    | [a; b; c] =>
        major ← int a;
        minor ← int b;
        patch ← int c;
        '(major, minor, patch) ←
          (if String.eqb bump_type "major" then Ok (major + 1, 0, 0)
           else if String.eqb bump_type "minor" then Ok (major, minor + 1, 0)
           else if String.eqb bump_type "patch" then Ok (major, minor, patch + 1)
           else Raise (ValueError (UnknownBumpType bump_type)));
        Ok (str_of_Z major +:+ "." +:+ str_of_Z minor +:+ "." +:+ str_of_Z patch)
    | _ => Raise (ValueError (InvalidVersionFormat version))
    end.

Fixpoint repeat_str (s : string) (n : nat) : string :=
  match n with O => "" | S n' => s +:+ repeat_str s n' end.

(** The elements of [set(values)], one per class of equal values. *)
Fixpoint distinct (seen : list pyval) (l : list pyval) : list pyval :=
  match l with
  | [] => seen
  | v :: l' =>
      if existsb (py_eqb v) seen then distinct seen l'
      else distinct (seen ++ [v]) l'
  end.

(** [max(xs)] of a generator *)
Definition py_max (xs : list nat) : result nat :=
  match xs with
  | [] => Raise (ValueError MaxEmptySequence)
  | x :: xs' => Ok (foldl Nat.max x xs')
  end.

Fixpoint for_each {A} (l : list A) (body : A → IO unit) : IO unit :=
  match l with
  | [] => mret tt
  | x :: l' => body x;; for_each l' body
  end.

(** [cmd_status(root)] *)
Definition cmd_status : IO unit :=
  print "📦 YouTube Downloader Version Status";;
  print (repeat_str "━" 50);;
  versions ← get_all_versions;
  unique_versions ←
    (if forallb (λ nv, hashable nv.2) versions
     then mret (distinct [] (map snd versions))
     else raise TypeError);
  max_path_len ← lift (py_max (map (λ nv, len (version_file nv.1)) versions));
  for_each versions (λ nv,
    let file_path := version_file nv.1 in
    print ("  " +:+ ljust max_path_len file_path +:+ " : " +:+ py_str nv.2));;
  print "";;
  if (length unique_versions =? 1)%nat then
    print "✓ All versions synchronized"
  else
    print "⚠ Versions out of sync!";;
    print "";;
    print "To fix, run:";;
    print "  macOS:   make version-sync";;
    print "  Or:      python3 scripts/version.py sync".

(** [cmd_sync(root, target_version)]; [if target_version:] is false for
    [None] and for the empty string. *)
Definition cmd_sync (target_version : option string) : IO unit :=
  version ←
    match target_version with
    | Some t =>
        if truthy (PStr t) then mret (PStr t)
        else read_package_json_version (version_file "npm")
    | None => read_package_json_version (version_file "npm")
    end;
  print ("🔄 Syncing all files to version " +:+ py_str version);;
  set_all_versions version;;
  print "✓ Done!".

(** [cmd_bump(root, bump_type)]; [version.split] exists on strings only. *)
Definition cmd_bump (bump_type : string) : IO unit :=
  current ← read_package_json_version (version_file "npm");
  new_version ←
    lift (match current with
          | PStr v => bump_version v bump_type
          | _ => Raise AttributeError
          end);
  print ("⬆️  Bumping version: " +:+ py_str current +:+ " → " +:+ new_version);;
  set_all_versions (PStr new_version);;
  print "✓ Done!".

(** [cmd_set(root, version)] *)
Definition cmd_set (version : string) : IO unit :=
  (if negb (bool_decide (is_Some (rematch VERSION_RE version))) then
     print ("❌ Invalid version format: " +:+ version);;
     print "   Expected: X.Y.Z (e.g., 1.0.0)";;
     raise (SystemExit 1)
   else mret tt);;
  print ("📝 Setting version to " +:+ version);;
  set_all_versions (PStr version);;
  print "✓ Done!".

(** The parsed command line of [main]. *)
Inductive command : Type :=
  | Status
  | Sync (version : option string)
  | Bump (type : string)
  | Set_ (version : string).

Definition main (args : command) : IO unit :=
  match args with
  | Status => cmd_status
  | Sync v => cmd_sync v
  | Bump t => cmd_bump t
  | Set_ v => cmd_set v
  end.

End Scripts.

(** *** The project root *)

(** A resolved absolute path: its components, the innermost first; the
    root of the file system is the empty list, and it is its own parent. *)
Definition path : Type := list string.

Definition parent (p : path) : path := tail p.

(** The loop of [get_project_root()]: from [current] upwards, the first
    directory in which the entry [youtube-downloader] exists; the loop
    ends without a result when [current == current.parent]. *)
Fixpoint find_root (exists_in : path → string → bool) (current : path)
  : option path :=
  match current with
  | [] => None
  | _ :: up =>
      if exists_in current "youtube-downloader" then Some current
      else find_root exists_in up
  end.

(** [get_project_root()], for the file system's test
    [(current / name).exists()] and the directory of the script,
    [Path(__file__).resolve().parent]. *)
Definition get_project_root (exists_in : path → string → bool)
    (script_dir : path) : path :=
  match find_root exists_in script_dir with
  | Some root => root
  | None => parent script_dir
  end.

End Version.

(** ** [formats.py] *)

Module Formats.

(** The metadata library, an external collaborator: for a URL and an
    optional cookie file, [YoutubeDL(opts).extract_info(url, download=False)]
    returns a record or raises an exception whose text is [str(e)]. *)
Inductive fetched : Type :=
  | Returned (info : pyval)
  | Failed (message : string).

Class Ydl : Type := {
  extract_info : string → option string → fetched
}.

(** What the script sees of its surroundings: the path of the cookie file
    next to the script, its name, and its size when it exists. *)
Record environment : Type := Env {
  COOKIES_FILE : string;
  cookies_name : string;
  cookies_size : option N
}.

Definition DEFAULT_URL : string := "https://youtu.be/nt8cBMecQR0".

Definition QUOTE : string := String dq "".

Section Script.
Context `{Runtime} `{Ydl}.

(** *** Formatting of dynamically typed values *)

(** An f-string field [{v:>w}]. *)
Definition format_right (w : nat) (v : pyval) : result string :=
  match v with
  | PStr s => Ok (rjust w s)
  | PInt z => Ok (rjust w (str_of_Z z))
  | PBool b => Ok (rjust w (if b then "1" else "0"))
  | PFloat q => Ok (rjust w (float_repr q))
  | PNone | PList _ | PDict _ => Raise TypeError
  end.

(** An f-string field [{v:.nf}]. *)
Definition format_fixed (n : nat) (v : pyval) : result string :=
  match v with
  | PStr _ => Raise (ValueError UnknownFormatCode)
  | PNone | PList _ | PDict _ => Raise TypeError
  | _ => match num_value v with
         | Some q => Ok (float_fixed n q)
         | None => Raise TypeError
         end
  end.

(** An f-string field [{z:02d}] on an integer. *)
Definition format_02d (z : Z) : string :=
  let s := str_of_Z z in
  if (String.length s <? 2)%nat then "0" +:+ s else s.

(** The f-string of the duration line: [{duration // 60}:{duration % 60:02d}]. *)
Definition format_duration (duration : pyval) : result string :=
  match duration with
  | PInt z => Ok (str_of_Z (z / 60) +:+ ":" +:+ format_02d (z mod 60))
  | PBool b =>
      let z := if b then 1 else 0 in
      Ok (str_of_Z (z / 60) +:+ ":" +:+ format_02d (z mod 60))
  | PFloat _ => Raise (ValueError UnknownFormatCode)
  | PNone | PStr _ | PList _ | PDict _ => Raise TypeError
  end.

(** [f"{filesize / 1024 / 1024:.1f}MB" if filesize else "?"] *)
Definition size_str (filesize : pyval) : result string :=
  if truthy filesize then
    match num_value filesize with
    | Some q => Ok (float_fixed 1 (q / 1024 / 1024)%Q +:+ "MB")
    | None => Raise TypeError
    end
  else Ok "?".

(** [x > y]: numbers by value; [None], dictionaries and operands of
    different kinds are not ordered.  The order of two strings or of two
    lists is not part of the model. *)
Definition py_gt (x y : pyval) : result bool :=
  match num_value x, num_value y with
  | Some a, Some b => Ok (negb (Qle_bool a b))
  | _, _ =>
      match x, y with
      | PStr _, PStr _ | PList _, PList _ => Raise OutOfModel
      | _, _ => Raise TypeError
      end
  end.

(** [for f in v]: the elements of a list, the keys of a dictionary, the
    characters of a string. *)
Definition iterate (v : pyval) : result (list pyval) :=
  match v with
  | PList l => Ok l
  | PDict d => Ok (map (λ kv, PStr kv.1) d)
  | PStr s => Ok (map (λ c, PStr (String c "")) (list_ascii_of_string s))
  | PNone | PBool _ | PInt _ | PFloat _ => Raise TypeError
  end.

(** *** Classification *)

(** [codec != "none" and codec is not None] *)
Definition is_codec (codec : pyval) : bool :=
  match codec with
  | PNone => false
  | PStr s => negb (String.eqb s "none")
  | _ => true
  end.

Inductive kind : Type := Video | Audio | Neither.

(** The two tests of the loop body for one descriptor. *)
Definition classify (f : pyval) : result kind :=
  vcodec ← get f "vcodec" (PStr "none");
  acodec ← get f "acodec" (PStr "none");
  if is_codec vcodec then Ok Video
  else if is_codec acodec then Ok Audio
  else Ok Neither.

(** The loop that fills [video_formats] and [audio_formats]. *)
Fixpoint partition (formats : list pyval) (video audio : list pyval)
  : result (list pyval * list pyval) :=
  match formats with
  | [] => Ok (video, audio)
  | f :: rest =>
      k ← classify f;
      match k with
      | Video => partition rest (video ++ [f]) audio
      | Audio => partition rest video (audio ++ [f])
      | Neither => partition rest video audio
      end
  end.

(** *** Ordering of the tables *)

(** [x.get(k) or 0] *)
Definition get_or_0 (x : pyval) (k : string) : result pyval :=
  v ← get x k PNone;
  Ok (py_or v (PInt 0)).

(** The key of the audio table, [x.get("abr") or 0], when it is a number. *)
Definition audio_key (x : pyval) : result (option Q) :=
  v ← get_or_0 x "abr";
  Ok (num_value v).

(** The key of the video table, a pair, when both parts are numbers. *)
Definition video_key (x : pyval) : result (option (Q * Q)) :=
  h ← get_or_0 x "height";
  r ← get_or_0 x "fps";
  Ok (match num_value h, num_value r with
      | Some a, Some b => Some (a, b)
      | _, _ => None
      end).

Definition Q_geb (a b : Q) : bool := Qle_bool b a.

(** Tuples compare lexicographically: the first parts decide unless equal. *)
Definition pair_geb (a b : Q * Q) : bool :=
  if Qeq_bool a.1 b.1 then Qle_bool b.2 a.2 else Qle_bool b.1 a.1.

(** A stable sort in descending order of the keys: an element is put in
    front of the first one that is not greater.  [sorted] is a stable sort
    too, and the stable order of a list is unique. *)
Fixpoint insert_desc {K} (geb : K → K → bool) (x : K * pyval)
    (l : list (K * pyval)) : list (K * pyval) :=
  match l with
  | [] => [x]
  | y :: l' => if geb x.1 y.1 then x :: l else y :: insert_desc geb x l'
  end.

Fixpoint sort_desc {K} (geb : K → K → bool) (l : list (K * pyval))
  : list (K * pyval) :=
  match l with
  | [] => []
  | x :: l' => insert_desc geb x (sort_desc geb l')
  end.

Fixpoint keys_of {K} (key : pyval → result (option K)) (l : list pyval)
  : result (option (list (K * pyval))) :=
  match l with
  | [] => Ok (Some [])
  | x :: l' =>
      k ← key x;
      ks ← keys_of key l';
      Ok (match k, ks with
          | Some k, Some ks => Some ((k, x) :: ks)
          | _, _ => None
          end)
  end.

(** [sorted(l, key=key, reverse=True)].  The keys are computed first.  With
    fewer than two elements nothing is compared; otherwise the model covers
    keys that are numbers (pairs of numbers). *)
Definition sorted_desc {K} (geb : K → K → bool)
    (key : pyval → result (option K)) (l : list pyval) : result (list pyval) :=
  ks ← keys_of key l;
  match ks with
  | Some ks => Ok (map snd (sort_desc geb ks))
  | None => if (length l <=? 1)%nat then Ok l else Raise OutOfModel
  end.

(** *** The tables *)

Definition getitem (x : pyval) (k : string) : result pyval :=
  match x with
  | PDict d => match dict_get k d with
               | Some v => Ok v
               | None => Raise (KeyError k)
               end
  | PList _ | PStr _ => Raise TypeError
  | _ => Raise TypeError
  end.

(** One row of the audio table. *)
Definition audio_row (f : pyval) : result string :=
  fmt_id ← get f "format_id" (PStr "?");
  ext ← get f "ext" (PStr "?");
  abr ← get f "abr" PNone;
  abr_str ← (if truthy abr then s ← format_fixed 0 abr; Ok (s +:+ "k")
             else Ok "?");
  acodec ← get f "acodec" (PStr "?");
  fs ← get f "filesize" PNone;
  fa ← get f "filesize_approx" PNone;
  let filesize := py_or (py_or fs fa) (PInt 0) in
  size ← size_str filesize;
  c1 ← format_right 6 fmt_id;
  c2 ← format_right 5 ext;
  c3 ← format_right 10 (PStr abr_str);
  c4 ← format_right 12 acodec;
  c5 ← format_right 10 (PStr size);
  Ok (c1 +:+ " | " +:+ c2 +:+ " | " +:+ c3 +:+ " | " +:+ c4 +:+ " | " +:+ c5).

(** One row of the video table. *)
Definition video_row (f : pyval) : result string :=
  fmt_id ← get f "format_id" (PStr "?");
  ext ← get f "ext" (PStr "?");
  res ← get f "resolution" PNone;
  width ← get f "width" (PStr "?");
  height ← get f "height" (PStr "?");
  let resolution :=
    py_or res (PStr (py_str width +:+ "x" +:+ py_str height)) in
  fps ← get f "fps" (PStr "?");
  vcodec ← get f "vcodec" (PStr "?");
  vcodec ←
    (if truthy vcodec && contains "." (py_str vcodec) then
       match vcodec with
       | PStr s => Ok (PStr (hd "" (split "." s)))
       | _ => Raise AttributeError
       end
     else Ok vcodec);
  fs ← get f "filesize" PNone;
  fa ← get f "filesize_approx" PNone;
  let filesize := py_or (py_or fs fa) (PInt 0) in
  size ← size_str filesize;
  c1 ← format_right 6 fmt_id;
  c2 ← format_right 5 ext;
  c3 ← format_right 12 resolution;
  c4 ← format_right 4 fps;
  c5 ← format_right 10 vcodec;
  c6 ← format_right 10 (PStr size);
  Ok (c1 +:+ " | " +:+ c2 +:+ " | " +:+ c3 +:+ " | " +:+ c4 +:+ " | "
         +:+ c5 +:+ " | " +:+ c6).

Fixpoint print_rows (row : pyval → result string) (l : list pyval) : IO unit :=
  match l with
  | [] => mret tt
  | f :: l' => line ← lift (row f); print line;; print_rows row l'
  end.

Definition RULE : string := repeat_char "=" 70.
Definition DASHES : string := repeat_char "-" 70.

Definition AUDIO_HEADER : string :=
  rjust 6 "ID" +:+ " | " +:+ rjust 5 "EXT" +:+ " | " +:+ rjust 10 "BITRATE"
    +:+ " | " +:+ rjust 12 "CODEC" +:+ " | " +:+ rjust 10 "SIZE".

Definition VIDEO_HEADER : string :=
  rjust 6 "ID" +:+ " | " +:+ rjust 5 "EXT" +:+ " | " +:+ rjust 12 "RESOLUTION"
    +:+ " | " +:+ rjust 4 "FPS" +:+ " | " +:+ rjust 10 "CODEC" +:+ " | "
    +:+ rjust 10 "SIZE".

Definition audio_table (audio_formats : list pyval) : IO unit :=
  match audio_formats with
  | [] => mret tt
  | _ =>
      print "🎵 АУДИО форматы:";;
      print DASHES;;
      print AUDIO_HEADER;;
      print DASHES;;
      rows ← lift (sorted_desc Q_geb audio_key audio_formats);
      print_rows audio_row rows;;
      print ""
  end.

Definition video_table (video_formats : list pyval) : IO unit :=
  match video_formats with
  | [] => mret tt
  | _ =>
      print "🎬 ВИДЕО форматы:";;
      print DASHES;;
      print VIDEO_HEADER;;
      print DASHES;;
      rows ← lift (sorted_desc pair_geb video_key video_formats);
      print_rows video_row rows;;
      print ""
  end.

(** *** Recommendations *)

(** [not best or (f.get(k, 0) > best.get(k, 0))] *)
Definition improves (k : string) (best : option pyval) (f : pyval) : result bool :=
  match best with
  | None => Ok true
  | Some b =>
      if negb (truthy b) then Ok true
      else
        x ← get f k (PInt 0);
        y ← get b k (PInt 0);
        py_gt x y
  end.

(** The scan for the best H.264 video. *)
Fixpoint scan_video (video_formats : list pyval) (best_video : option pyval)
  : result (option pyval) :=
  match video_formats with
  | [] => Ok best_video
  | f :: rest =>
      vcodec ← get f "vcodec" (PStr "");
      match vcodec with
      | PStr c =>
          if startswith "avc1" c then
            b ← improves "height" best_video f;
            scan_video rest (if b : bool then Some f else best_video)
          else scan_video rest best_video
      | _ => Raise AttributeError
      end
  end.

(** The scan for the best AAC audio. *)
Fixpoint scan_audio (audio_formats : list pyval) (best_audio : option pyval)
  : result (option pyval) :=
  match audio_formats with
  | [] => Ok best_audio
  | f :: rest =>
      ext ← get f "ext" PNone;
      if py_eqb ext (PStr "m4a") then
        b ← improves "abr" best_audio f;
        scan_audio rest (if b : bool then Some f else best_audio)
      else scan_audio rest best_audio
  end.

Definition opt_truthy (v : option pyval) : bool :=
  match v with Some x => truthy x | None => false end.

(** The command of the best pair. *)
Definition combined_command (video_id audio_id url : string) : string :=
  "   yt-dlp --cookies cookies.txt -f " +:+ video_id +:+ "+" +:+ audio_id
    +:+ " " +:+ QUOTE +:+ url +:+ QUOTE.

Definition auto_command (url : string) : string :=
  "   yt-dlp --cookies cookies.txt -f " +:+ QUOTE
    +:+ "bv*[vcodec^=avc1]+ba[ext=m4a]/b" +:+ QUOTE +:+ " "
    +:+ QUOTE +:+ url +:+ QUOTE.

Definition mp3_command (url : string) : string :=
  "   yt-dlp --cookies cookies.txt -x --audio-format mp3 "
    +:+ QUOTE +:+ url +:+ QUOTE.

Definition recommendations (info : pyval) (video_formats audio_formats : list pyval)
  : IO unit :=
  print RULE;;
  print "💡 РЕКОМЕНДАЦИИ по скачиванию:";;
  print "";;
  best_video ← lift (scan_video video_formats None);
  best_audio ← lift (scan_audio audio_formats None);
  match best_video, best_audio with
  | Some bv, Some ba =>
      if truthy bv && truthy ba then
        print "   Лучшее H.264 + AAC (совместимо везде):";;
        vid ← lift (getitem bv "format_id");
        aid ← lift (getitem ba "format_id");
        url ← lift (get info "webpage_url" PNone);
        print (combined_command (py_str vid) (py_str aid) (py_str url));;
        print ""
      else mret tt
  | _, _ => mret tt
  end;;
  print "   Авто-выбор лучшего:";;
  url ← lift (get info "webpage_url" PNone);
  print (auto_command (py_str url));;
  print "";;
  print "   Только аудио (MP3):";;
  url ← lift (get info "webpage_url" PNone);
  print (mp3_command (py_str url));;
  print RULE.

(** [print_formats(info)] *)
Definition print_formats (info : pyval) : IO unit :=
  title ← lift (get info "title" (PStr "Unknown"));
  duration ← lift (get info "duration" (PInt 0));
  uploader ← lift (get info "uploader" (PStr "Unknown"));
  print RULE;;
  print ("📹 " +:+ py_str title);;
  print ("👤 " +:+ py_str uploader);;
  d ← lift (format_duration duration);
  print ("⏱️  " +:+ d);;
  print RULE;;
  print "";;
  formats ← lift (get info "formats" (PList []));
  if negb (truthy formats) then
    print "⚠️  Форматы не найдены!"
  else
    fs ← lift (iterate formats);
    '(video_formats, audio_formats) ← lift (partition fs [] []);
    audio_table audio_formats;;
    video_table video_formats;;
    recommendations info video_formats audio_formats.

(** [check_cookies()] *)
Definition check_cookies (env : environment) : IO bool :=
  match cookies_size env with
  | None =>
      print ("⚠️  Файл cookies не найден: " +:+ COOKIES_FILE env);;
      print "";;
      print "📋 Как создать cookies.txt:";;
      print "   1. Установи расширение 'Get cookies.txt (LOCALLY)' в Chrome";;
      print "   2. Зайди на youtube.com и залогинься";;
      print "   3. Нажми на расширение → 'Export' → сохрани как cookies.txt";;
      print ("   4. Положи файл сюда: " +:+ COOKIES_FILE env);;
      print "";;
      mret false
  | Some size =>
      if (size <? 100)%N then
        print ("⚠️  Файл cookies слишком маленький (" +:+ str_of_N size +:+ " байт)");;
        print "   Возможно, он пустой или повреждён";;
        mret false
      else
        print ("✅ Найден файл cookies: " +:+ COOKIES_FILE env +:+ " ("
                 +:+ str_of_N size +:+ " байт)");;
        mret true
  end.

(** [get_formats(url, use_cookies)]: [None] of the source is [PNone]. *)
Definition get_formats (env : environment) (url : string) (use_cookies : bool)
  : IO pyval :=
  cookies ←
    (if use_cookies && bool_decide (is_Some (cookies_size env)) then
       print ("🍪 Используем cookies: " +:+ cookies_name env);;
       mret (Some (COOKIES_FILE env))
     else
       print "🔓 Запрос без cookies";;
       mret None);
  print ("🔗 URL: " +:+ url);;
  print "";;
  print "⏳ Получаем информацию о видео...";;
  print "";;
  match extract_info url cookies with
  | Failed e =>
      print ("❌ Ошибка: " +:+ e);;
      print "";;
      (if contains "403" e then
         print "💡 Подсказка: HTTP 403 = YouTube блокирует запрос";;
         print "   Попробуй:";;
         print "   - Обновить cookies (залогиниться заново)";;
         print "   - Использовать VPN/прокси";;
         print "   - Подождать 5-10 минут"
       else if contains "Sign in" e || contains "login" (lower e) then
         print "💡 Подсказка: Требуется авторизация";;
         print "   Убедись, что cookies экспортированы с залогиненного аккаунта"
       else mret tt);;
      mret PNone
  | Returned info => mret info
  end.

(** [main()]; [argv] is [sys.argv[1:]]. *)
Definition main (env : environment) (argv : list string) : IO unit :=
  url ←
    match argv with
    | u :: _ => mret u
    | [] =>
        print ("ℹ️  Используем тестовый URL: " +:+ DEFAULT_URL);;
        print "   Можно указать свой: python3 formats.py <URL>";;
        print "";;
        mret DEFAULT_URL
    end;
  has_cookies ← check_cookies env;
  print "";;
  info ← get_formats env url has_cookies;
  if truthy info then print_formats info
  else
    print "❌ Не удалось получить информацию о видео";;
    raise (SystemExit 1).

End Script.

End Formats.

(** ** A small JSON codec

    An instance of the interface [Json], used to show that its laws can be
    met.  It covers [null], booleans, integers, strings, arrays and objects;
    it has no floats, writes characters outside ASCII as they are, and reads
    [\u] escapes of ASCII characters only. *)

Module MiniJson.

Definition is_ws (c : ascii) : bool :=
  ascii_eqb c " " || ascii_eqb c (ascii_of_nat 9) || ascii_eqb c LF || ascii_eqb c CR.

Definition skip_ws (s : string) : string := lstrip is_ws s.

Definition hex_digit (n : N) : ascii :=
  if (n <? 10)%N then ascii_of_N (48 + n) else ascii_of_N (87 + n).

Definition hex_value (c : ascii) : option N :=
  if is_digit c then Some (code c - 48)%N
  else if (97 <=? code c)%N && (code c <=? 102)%N then Some (code c - 87)%N
  else if (65 <=? code c)%N && (code c <=? 70)%N then Some (code c - 55)%N
  else None.

(** The text of one character inside a string literal. *)
Definition escape_char (c : ascii) : string :=
  if ascii_eqb c dq then String backslash (String dq "")
  else if ascii_eqb c backslash then String backslash (String backslash "")
  else if ascii_eqb c LF then String backslash "n"
  else if ascii_eqb c CR then String backslash "r"
  else if ascii_eqb c (ascii_of_nat 9) then String backslash "t"
  else if ascii_eqb c (ascii_of_nat 8) then String backslash "b"
  else if ascii_eqb c (ascii_of_nat 12) then String backslash "f"
  else if (code c <? 32)%N then
    String backslash
      (String "u" (String "0" (String "0"
         (String (hex_digit (code c / 16)) (String (hex_digit (code c mod 16)) "")))))
  else String c "".

Fixpoint escape (s : string) : string :=
  match s with
  | String c s' => escape_char c +:+ escape s'
  | EmptyString => EmptyString
  end.

Definition print_string (s : string) : string :=
  String dq (escape s +:+ String dq "").

(** The character a one-letter escape stands for. *)
Definition unescape (e : ascii) : option ascii :=
  if ascii_eqb e dq then Some dq
  else if ascii_eqb e backslash then Some backslash
  else if ascii_eqb e "/" then Some "/"%char
  else if ascii_eqb e "n" then Some LF
  else if ascii_eqb e "r" then Some CR
  else if ascii_eqb e "t" then Some (ascii_of_nat 9)
  else if ascii_eqb e "b" then Some (ascii_of_nat 8)
  else if ascii_eqb e "f" then Some (ascii_of_nat 12)
  else None.

Definition hex4 (a b c d : ascii) : option N :=
  x ← hex_value a; y ← hex_value b; z ← hex_value c; t ← hex_value d;
  Some (4096 * x + 256 * y + 16 * z + t)%N.

(** A string literal after its opening quote: the text and what follows
    the closing quote. *)
Fixpoint parse_string_body (s : string) : option (string * string) :=
  match s with
  | EmptyString => None
  | String c s' =>
      if ascii_eqb c dq then Some (EmptyString, s')
      else if ascii_eqb c backslash then
        match s' with
        | String e s'' =>
            if ascii_eqb e "u" then
              match s'' with
              | String h1 (String h2 (String h3 (String h4 s3))) =>
                  match hex4 h1 h2 h3 h4 with
                  | Some n =>
                      if (n <? 128)%N then
                        match parse_string_body s3 with
                        | Some (r, rest) => Some (String (ascii_of_N n) r, rest)
                        | None => None
                        end
                      else None
                  | None => None
                  end
              | _ => None
              end
            else
              match unescape e with
              | Some x =>
                  match parse_string_body s'' with
                  | Some (r, rest) => Some (String x r, rest)
                  | None => None
                  end
              | None => None
              end
        | EmptyString => None
        end
      else if (code c <? 32)%N then None
      else
        match parse_string_body s' with
        | Some (r, rest) => Some (String c r, rest)
        | None => None
        end
  end.

Fixpoint strip_prefix (p s : string) : option string :=
  match p, s with
  | EmptyString, _ => Some s
  | String a p', String b s' => if ascii_eqb a b then strip_prefix p' s' else None
  | String _ _, EmptyString => None
  end.

Definition is_float_mark (c : ascii) : bool :=
  ascii_eqb c "." || ascii_eqb c "e" || ascii_eqb c "E".

(** An integer literal; a fraction or an exponent makes it a float, which
    the codec does not have. *)
Definition parse_int (s : string) : option (Z * string) :=
  let '(negative, s1) :=
    match s with
    | String c s' => if ascii_eqb c "-" then (true, s') else (false, s)
    | EmptyString => (false, s)
    end in
  let digits := Re.take_while is_digit s1 in
  let rest := lstrip is_digit s1 in
  match rest with
  | String c _ => if is_float_mark c then None else
      n ← int_digits digits 0 false;
      Some (if negative : bool then (- Z.of_N n)%Z else Z.of_N n, rest)
  | EmptyString =>
      n ← int_digits digits 0 false;
      Some (if negative : bool then (- Z.of_N n)%Z else Z.of_N n, rest)
  end.

Fixpoint parse_value (fuel : nat) (s : string) : option (pyval * string) :=
  match fuel with
  | O => None
  | S f =>
      match skip_ws s with
      | EmptyString => None
      | String c s' =>
          if ascii_eqb c "{" then
            match skip_ws s' with
            | String c' r => if ascii_eqb c' "}" then Some (PDict [], r)
                             else parse_members f s' []
            | EmptyString => None
            end
          else if ascii_eqb c "[" then
            match skip_ws s' with
            | String c' r => if ascii_eqb c' "]" then Some (PList [], r)
                             else parse_elements f s' []
            | EmptyString => None
            end
          else if ascii_eqb c dq then
            match parse_string_body s' with
            | Some (x, r) => Some (PStr x, r)
            | None => None
            end
          else if ascii_eqb c "n" then
            r ← strip_prefix "ull" s'; Some (PNone, r)
          else if ascii_eqb c "t" then
            r ← strip_prefix "rue" s'; Some (PBool true, r)
          else if ascii_eqb c "f" then
            r ← strip_prefix "alse" s'; Some (PBool false, r)
          else
            match parse_int (String c s') with
            | Some (z, r) => Some (PInt z, r)
            | None => None
            end
      end
  end
with parse_elements (fuel : nat) (s : string) (acc : list pyval)
  : option (pyval * string) :=
  match fuel with
  | O => None
  | S f =>
      match parse_value f s with
      | Some (v, r) =>
          match skip_ws r with
          | String c r' =>
              if ascii_eqb c "," then parse_elements f r' (acc ++ [v])
              else if ascii_eqb c "]" then Some (PList (acc ++ [v]), r')
              else None
          | EmptyString => None
          end
      | None => None
      end
  end
with parse_members (fuel : nat) (s : string) (acc : list (string * pyval))
  : option (pyval * string) :=
  match fuel with
  | O => None
  | S f =>
      match skip_ws s with
      | String c s1 =>
          if ascii_eqb c dq then
            match parse_string_body s1 with
            | Some (k, r) =>
                match skip_ws r with
                | String c' r1 =>
                    if ascii_eqb c' ":" then
                      match parse_value f r1 with
                      | Some (v, r2) =>
                          match skip_ws r2 with
                          | String c'' r3 =>
                              if ascii_eqb c'' "," then
                                parse_members f r3 (dict_set k v acc)
                              else if ascii_eqb c'' "}" then
                                Some (PDict (dict_set k v acc), r3)
                              else None
                          | EmptyString => None
                          end
                      | None => None
                      end
                    else None
                | EmptyString => None
                end
            | None => None
            end
          else None
      | EmptyString => None
      end
  end.

(** [json.loads]: one value, white space around it. *)
Definition loads (s : string) : option pyval :=
  match parse_value (String.length s) s with
  | Some (v, r) => if String.eqb (skip_ws r) "" then Some v else None
  | None => None
  end.

Definition indent (level : nat) : string := repeat_char " " (2 * level).

(** The items after the first one, each after a comma, then the closing
    line. *)
Fixpoint print_more {A} (item : A → string) (closing : string) (l : list A)
  : string :=
  match l with
  | [] => closing
  | y :: l' => "," +:+ item y +:+ print_more item closing l'
  end.

(** [json.dumps(v, indent=2)] at a nesting level: an item per line. *)
Fixpoint print_value (level : nat) (v : pyval) : string :=
  match v with
  | PNone => "null"
  | PBool b => if b then "true" else "false"
  | PInt z => str_of_Z z
  | PFloat _ => "NaN"
  | PStr s => print_string s
  | PList l =>
      match l with
      | [] => "[]"
      | x :: l' =>
          "[" +:+ String LF (indent (S level)) +:+ print_value (S level) x
          +:+ print_more
                (λ y, String LF (indent (S level)) +:+ print_value (S level) y)
                (String LF (indent level) +:+ "]") l'
      end
  | PDict d =>
      match d with
      | [] => "{}"
      | (k, x) :: d' =>
          "{" +:+ String LF (indent (S level)) +:+ print_string k +:+ ": "
          +:+ print_value (S level) x
          +:+ print_more
                (λ ky, String LF (indent (S level)) +:+ print_string ky.1
                       +:+ ": " +:+ print_value (S level) ky.2)
                (String LF (indent level) +:+ "}") d'
      end
  end.

Definition dumps (v : pyval) : string := print_value 0 v.

#[global] Instance mini_json : Json := {|
  json_loads := loads;
  json_dumps := dumps;
  is_float := λ _, false
|}.

(** A runtime for the sample runs: floats are not printed by them. *)
Definition sample_runtime : Runtime := {|
  float_repr := λ q, str_of_Z (Qnum q) +:+ "/" +:+ str_of_Z (Zpos (Qden q));
  float_fixed := λ n q, str_of_Z (Qnum q / Zpos (Qden q));
  str_repr := λ s, "'" +:+ s +:+ "'"
|}.

(** What may follow an integer literal: neither a digit nor the start of
    a fraction or an exponent. *)
Definition tail_ok (rest : string) : Prop :=
  match rest with
  | String c _ => is_digit c = false ∧ is_float_mark c = false
  | EmptyString => True
  end.

(** The line of an array item and of an object member at a level. *)
Definition elem_item (level : nat) (y : pyval) : string :=
  String LF (indent (S level)) +:+ print_value (S level) y.

Definition member_item (level : nat) (ky : string * pyval) : string :=
  String LF (indent (S level)) +:+ print_string ky.1 +:+ ": "
  +:+ print_value (S level) ky.2.

Definition close_array (level : nat) : string := String LF (indent level) +:+ "]".
Definition close_object (level : nat) : string := String LF (indent level) +:+ "}".

(** A value that is read back from its printed text, whatever the level,
    with enough fuel, before a text that does not continue a number. *)
Definition round_trips (v : pyval) : Prop :=
  ∀ level fuel rest,
    (String.length (print_value level v) ≤ fuel)%nat →
    tail_ok rest →
    parse_value fuel (print_value level v +:+ rest) = Some (v, rest).

End MiniJson.

(** ** Vocabulary of the specification *)

Module Spec.
Import Version.

Fixpoint all_chars (p : ascii → bool) (s : string) : bool :=
  match s with
  | String c s' => p c && all_chars p s'
  | EmptyString => true
  end.

Definition is_not (c : ascii) (x : ascii) : bool := negb (ascii_eqb x c).

(** The text [X.Y.Z] of three non-negative integers. *)
Definition version_string (X Y Z : N) : string :=
  str_of_N X +:+ "." +:+ str_of_N Y +:+ "." +:+ str_of_N Z.

(** A component that reads as an integer: what [int()] accepts. *)
Definition integer_component (s : string) : Prop := is_Some (py_int s).

(** A text with exactly three dot-separated integer components. *)
Definition three_integer_components (version : string) : Prop :=
  ∃ a b c, version = a +:+ "." +:+ b +:+ "." +:+ c
           ∧ integer_component a ∧ integer_component b ∧ integer_component c.

(** The text of three components with dots between them. *)
Definition dotted (a b c : string) : string := a +:+ "." +:+ b +:+ "." +:+ c.

(** A decimal numeral: one or more digits. *)
Definition numeral (s : string) : bool :=
  negb (String.eqb s "") && all_chars is_digit s.

(** A version text: exactly three dot-separated numerals, nothing else. *)
Definition valid_version (v : string) : bool :=
  match split "." v with
  | [a; b; c] => numeral a && numeral b && numeral c
  | _ => false
  end.

(** The first character, if any, is outside the class. *)
Definition head_not (p : ascii → bool) (s : string) : Prop :=
  match s with String c _ => p c = false | EmptyString => True end.

(** The start of a version line of the key-assignment file, up to the
    opening quote: the key, white space, the equals sign, white space. *)
Definition cargo_head (h : string) : Prop :=
  ∃ ws1 ws2, h = "version" +:+ ws1 +:+ String "=" ws2
             ∧ all_chars is_space ws1 = true ∧ all_chars is_space ws2 = true.

(** A text that starts with a version assignment: head, quoted non-empty
    value without quotes, anything. *)
Definition cargo_line (s : string) : Prop :=
  ∃ h val rest, s = h +:+ String dq (val +:+ String dq rest)
                ∧ cargo_head h ∧ all_chars not_dq val = true ∧ val ≠ "".

(** A version assignment starts right after the text [pre], which ends a
    line (or is empty), and [s] is the text from there on. *)
Definition version_line_at (pre s : string) : Prop :=
  Re.at_bol true (Re.prev_after None pre) = true ∧ cargo_line s.

(** It is the first one of the text [pre +:+ s]. *)
Definition first_version_line (pre s : string) : Prop :=
  version_line_at pre s
  ∧ ∀ x y, pre = x +:+ y → y ≠ "" → ¬ version_line_at x (y +:+ s).

(** The key part of a version line up to and including the opening quote,
    and the text of a file around its version line. *)
Definition cargo_key (ws1 ws2 : string) : string :=
  "version" +:+ ws1 +:+ String "=" (ws2 +:+ String dq "").

Definition cargo_text (pre ws1 ws2 val rest : string) : string :=
  pre +:+ cargo_key ws1 ws2 +:+ val +:+ String dq rest.

(** No line of the text is a version assignment. *)
Definition no_version_line (T : string) : Prop :=
  ∀ pre s, T = pre +:+ s → ¬ version_line_at pre s.

(** *** What a command may do to the files *)

(** The world [w'] comes from [w] by changing files at paths in [P] only:
    every other path is as before, no file is created, and lines are only
    added to the output. *)
Definition touches_only (P : string → Prop) (w w' : world) : Prop :=
  (∀ p, ¬ P p → files w' !! p = files w !! p)
  ∧ (∀ p, files w !! p = None → files w' !! p = None)
  ∧ ∃ printed, stdout w' = stdout w ++ printed.

(** A computation that, however it ends, changes files at paths in [P]
    only. *)
Definition keeps {A} (P : string → Prop) (m : IO A) : Prop :=
  ∀ w, touches_only P w (m w).1.

(** The paths of the three manifests. *)
Definition is_manifest (p : string) : Prop := p ∈ map snd VERSION_FILES.

(** *** The state of the manifests *)

(** A text that can stand in all three manifests and be read back as it
    is: not empty, without double quote, backslash or carriage return. *)
Definition plain_version (v : string) : bool :=
  negb (String.eqb v "") && all_chars not_dq v
  && all_chars (is_not backslash) v && all_chars (is_not CR) v.

(** The file at [path] is missing ([None]), or it is there and [read]
    returns the value [Some v] from it. *)
Definition file_reads {A} (path : string) (read : string → IO A) (w : world)
    (o : option A) : Prop :=
  match o with
  | Some v => is_Some (files w !! path) ∧ read path w = (w, Ok v)
  | None => files w !! path = None
  end.

(** A reader that leaves the world as it is and whose result depends on
    the file at its path only. *)
Definition local {A} (path : string) (read : string → IO A) : Prop :=
  ∃ f, ∀ w, read path w = (w, f (files w !! path)).

(** The lines printed for a manifest that is there. *)
Definition if_present {A B} (o : option A) (l : list B) : list B :=
  match o with Some _ => l | None => [] end.

(** The entry of a manifest in the dictionary of versions. *)
Definition entry (name : string) (o : option pyval) : list (string * pyval) :=
  match o with Some v => [(name, v)] | None => [] end.

(** The line that [set_all_versions] prints for a manifest. *)
Definition updated_line `{Runtime} (name : string) (version : pyval) : string :=
  "  ✓ " +:+ version_file name +:+ ": " +:+ py_str version.

(** *** The status report *)

(** All the versions of the dictionary are the same. *)
Definition synchronised (versions : list (string * pyval)) : Prop :=
  ∀ a b, a ∈ versions → b ∈ versions → a.2 = b.2.

Definition STATUS_HEADING : list string :=
  ["📦 YouTube Downloader Version Status"; Version.repeat_str "━" 50].

(** The line of a manifest: its path, padded to [width], and its version. *)
Definition status_row `{Runtime} (width : nat) (nv : string * pyval) : string :=
  "  " +:+ ljust width (version_file nv.1) +:+ " : " +:+ py_str nv.2.

Definition IN_SYNC : list string := ["✓ All versions synchronized"].

Definition OUT_OF_SYNC : list string :=
  ["⚠ Versions out of sync!";
   "";
   "To fix, run:";
   "  macOS:   make version-sync";
   "  Or:      python3 scripts/version.py sync"].

(** The versions after every manifest has been set to [v]. *)
Definition all_set (v : string) (versions : list (string * pyval))
  : list (string * pyval) :=
  map (λ nv, (nv.1, PStr v)) versions.

(** A package manifest without a version field. *)
Definition package_without_version : string :=
  MiniJson.dumps (PDict [("name", PStr "youtube-downloader");
                         ("private", PBool true)]) +:+ String LF "".

(** *** Sample inputs *)

Definition NL : string := String LF "".

Definition CARGO_PATH : string := "youtube-downloader/src-tauri/Cargo.toml".

(** A native-build manifest with a version line. *)
Definition cargo_sample : string :=
  "[package]" +:+ NL +:+ "name = " +:+ Formats.QUOTE +:+ "demo" +:+ Formats.QUOTE +:+ NL
  +:+ "version = " +:+ Formats.QUOTE +:+ "0.1.0" +:+ Formats.QUOTE +:+ NL.

Definition cargo_sample_with (v : string) : string :=
  "[package]" +:+ NL +:+ "name = " +:+ Formats.QUOTE +:+ "demo" +:+ Formats.QUOTE +:+ NL
  +:+ "version = " +:+ Formats.QUOTE +:+ v +:+ Formats.QUOTE +:+ NL.

(** A native-build manifest with a second version line, of a dependency. *)
Definition cargo_two_versions (v : string) : string :=
  "[package]" +:+ NL +:+ "version = " +:+ Formats.QUOTE +:+ v +:+ Formats.QUOTE +:+ NL
  +:+ "[dependencies.serde]" +:+ NL
  +:+ "version = " +:+ Formats.QUOTE +:+ "1.0" +:+ Formats.QUOTE +:+ NL.

(** A native-build manifest without any version line. *)
Definition cargo_no_version : string :=
  "[package]" +:+ NL +:+ "name = " +:+ Formats.QUOTE +:+ "demo" +:+ Formats.QUOTE +:+ NL.

Definition NPM_PATH : string := "youtube-downloader/package.json".
Definition CONF_PATH : string := "youtube-downloader/src-tauri/tauri.conf.json".

(** A package manifest and an application configuration, as [json.dumps]
    of the small codec writes them. *)
Definition package_sample : string :=
  MiniJson.dumps (PDict [("name", PStr "youtube-downloader");
                         ("version", PStr "0.1.0");
                         ("private", PBool true)]) +:+ NL.

Definition conf_sample : string :=
  MiniJson.dumps (PDict [("productName", PStr "YouTube Downloader");
                         ("version", PStr "0.1.0");
                         ("app", PDict [("windows", PList [PDict [("width", PInt 800)]])])])
  +:+ NL.

(** A project with its three manifests. *)
Definition sample_world : world :=
  World {[ NPM_PATH := package_sample; CARGO_PATH := cargo_sample;
           CONF_PATH := conf_sample ]} [].

(** A project where only the native-build manifest exists. *)
Definition cargo_only (content : string) : world :=
  World {[ CARGO_PATH := content ]} [].

(** *** Format descriptors (data model of the report) *)

(** The value of a field of a descriptor, when it is there. *)
Definition field (k : string) (f : pyval) : option pyval :=
  match f with PDict d => dict_get k d | _ => None end.

Definition is_dict (f : pyval) : bool :=
  match f with PDict _ => true | _ => false end.

(** A codec field that is present, not the literal none and not null. *)
Definition codec_present (k : string) (f : pyval) : bool :=
  match field k f with
  | None | Some PNone => false
  | Some (PStr s) => negb (String.eqb s "none")
  | Some _ => true
  end.

Definition is_video (f : pyval) : bool := codec_present "vcodec" f.
Definition is_audio (f : pyval) : bool :=
  negb (is_video f) && codec_present "acodec" f.

(** The number in a field, a missing one counting as 0. *)
Definition number_or_0 (k : string) (f : pyval) : Q :=
  match field k f with
  | Some v => match num_value v with Some q => q | None => 0 end
  | None => 0
  end.

Definition bitrate (f : pyval) : Q := number_or_0 "abr" f.
Definition height (f : pyval) : Q := number_or_0 "height" f.
Definition frame_rate (f : pyval) : Q := number_or_0 "fps" f.

(** Descending order of the audio table and of the video table. *)
Definition audio_order (a b : pyval) : Prop := (bitrate b <= bitrate a)%Q.

Definition video_order (a b : pyval) : Prop :=
  (height b < height a)%Q
  ∨ ((height b == height a)%Q ∧ (frame_rate b <= frame_rate a)%Q).

(** The order of two rows by their keys. *)
Definition key_ge {K} (geb : K → K → bool) (x y : K * pyval) : Prop :=
  geb x.1 y.1 = true.

(** Two keys that the order of a table does not tell apart. *)
Definition same_key {K} (geb : K → K → bool) (a b : K) : bool :=
  geb a b && geb b a.

(** The descriptors of a table with a given bitrate, and with a given
    height and frame rate. *)
Definition has_bitrate (q : Q) (f : pyval) : bool := Qeq_bool (bitrate f) q.

Definition has_size (hr : Q * Q) (f : pyval) : bool :=
  Qeq_bool (height f) hr.1 && Qeq_bool (frame_rate f) hr.2.

(** Kinds of optional fields. *)
Definition opt_str (o : option pyval) : bool :=
  match o with None | Some (PStr _) => true | _ => false end.
Definition opt_str_or_none (o : option pyval) : bool :=
  match o with None | Some PNone | Some (PStr _) => true | _ => false end.
Definition opt_num (o : option pyval) : bool :=
  match o with None | Some (PInt _) | Some (PFloat _) => true | _ => false end.
Definition opt_num_or_none (o : option pyval) : bool :=
  match o with
  | None | Some PNone | Some (PInt _) | Some (PFloat _) => true
  | _ => false
  end.

(** A format descriptor as the data model has it: an identifier, optional
    texts and optional numbers.  An optional field may be missing or null:
    the metadata library gives null for what it does not know. *)
Definition descriptor_ok (f : pyval) : bool :=
  is_dict f
  && match field "format_id" f with Some (PStr _) => true | _ => false end
  && opt_str (field "ext" f)
  && opt_str_or_none (field "vcodec" f)
  && opt_str_or_none (field "acodec" f)
  && opt_str_or_none (field "resolution" f)
  && opt_num_or_none (field "filesize" f)
  && opt_num_or_none (field "filesize_approx" f)
  && opt_num_or_none (field "abr" f)
  && opt_num_or_none (field "height" f)
  && opt_num_or_none (field "fps" f).

(** A field that is there and null. *)
Definition null_field (k : string) (f : pyval) : bool :=
  match field k f with Some PNone => true | _ => false end.

Definition has_field (k : string) (f : pyval) : bool :=
  match field k f with Some _ => true | None => false end.

(** The formats of a fetch result. *)
Definition formats_of (info : pyval) : list pyval :=
  match field "formats" info with Some (PList l) => l | _ => [] end.

(** A fetch result as the collaborator contract has it: a record that is
    not empty, whose duration is an integer and whose formats are a
    sequence of descriptors. *)
Definition info_ok (info : pyval) : bool :=
  is_dict info && truthy info
  && match field "duration" info with
     | None | Some (PInt _) => true
     | _ => false
     end
  && match field "formats" info with
     | None => true
     | Some (PList l) => forallb descriptor_ok l
     | _ => false
     end.

(** The candidates of the recommendation. *)
Definition is_avc1 (f : pyval) : bool :=
  match field "vcodec" f with
  | Some (PStr c) => startswith "avc1" c
  | _ => false
  end.

Definition is_m4a (f : pyval) : bool :=
  match field "ext" f with
  | Some (PStr e) => String.eqb e "m4a"
  | _ => false
  end.

(** What the scan for the best video needs of a descriptor: a codec that
    is a text when it is there and, of a candidate, an identifier and a
    height that is a number when it is there.  Likewise for the scan for
    the best audio.  A height or a bitrate that is null is not in here: the
    scans compare it as it is. *)
Definition video_scannable (f : pyval) : bool :=
  is_dict f && opt_str (field "vcodec" f)
  && (if is_avc1 f
      then has_field "format_id" f && opt_num (field "height" f) else true).

Definition audio_scannable (f : pyval) : bool :=
  is_dict f
  && (if is_m4a f
      then has_field "format_id" f && opt_num (field "abr" f) else true).

(** A descriptor without a null where the report formats or compares a
    number: the frame rate of a video, the height of an avc1 video, the
    bitrate of an m4a audio. *)
Definition no_null_number (f : pyval) : bool :=
  if is_video f then
    negb (null_field "fps" f)
    && (if is_avc1 f then negb (null_field "height" f) else true)
  else if is_audio f then
    (if is_m4a f then negb (null_field "abr" f) else true)
  else true.

(** [b] is the best candidate of [l] for the number in field [k]: none
    when there is no candidate, else a candidate no other one exceeds. *)
Definition best_of (cand : pyval → bool) (k : string) (l : list pyval)
    (b : option pyval) : Prop :=
  match b with
  | None => Forall (λ f, cand f = false) l
  | Some x =>
      x ∈ l ∧ cand x = true
      ∧ Forall (λ f, cand f = true → (number_or_0 k f <= number_or_0 k x)%Q) l
  end.

(** [b] is the first of the best candidates of [l]: no candidate before
    it reaches its number and none after it exceeds it. *)
Definition first_best (cand : pyval → bool) (k : string) (l : list pyval)
    (b : option pyval) : Prop :=
  match b with
  | None => Forall (λ f, cand f = false) l
  | Some x =>
      ∃ l1 l2,
        l = l1 ++ x :: l2 ∧ cand x = true
        ∧ Forall (λ f, cand f = true →
                       (number_or_0 k f < number_or_0 k x)%Q) l1
        ∧ Forall (λ f, cand f = true →
                       (number_or_0 k f <= number_or_0 k x)%Q) l2
  end.

(** One step of a scan for the best candidate: a candidate replaces the
    best one so far when there is none or when its number is greater. *)
Definition better (cand : pyval → bool) (k : string) (best : option pyval)
    (f : pyval) : option pyval :=
  if cand f then
    match best with
    | None => Some f
    | Some x =>
        if negb (Qle_bool (number_or_0 k f) (number_or_0 k x)) then Some f
        else Some x
    end
  else best.

(** The text of a field in a command line. *)
Definition field_text `{Runtime} (k : string) (f : pyval) : string :=
  match field k f with Some v => py_str v | None => "None" end.

(** The text of a field with a default, as a line of the report shows it. *)
Definition text_or `{Runtime} (dflt k : string) (f : pyval) : string :=
  match field k f with Some v => py_str v | None => dflt end.

(** The minutes and seconds of the duration, 0 when it is missing. *)
Definition duration_text (info : pyval) : string :=
  let z := match field "duration" info with Some (PInt z) => z | _ => 0 end in
  str_of_Z (z / 60) +:+ ":" +:+ Formats.format_02d (z mod 60).

(** The lines of a report above its tables. *)
Definition report_head `{Runtime} (info : pyval) : list string :=
  [Formats.RULE;
   "📹 " +:+ text_or "Unknown" "title" info;
   "👤 " +:+ text_or "Unknown" "uploader" info;
   "⏱️  " +:+ duration_text info;
   Formats.RULE;
   ""].

Definition NO_FORMATS : string := "⚠️  Форматы не найдены!".

(** The lines of the recommendation part of a report: the command of the
    best pair, which names the identifiers of the best video and of the
    best audio, when there are both, and the two generic commands. *)
Definition DQ : string := String dq "".

Definition best_pair_lines `{Runtime} (info : pyval)
    (best_video best_audio : option pyval) : list string :=
  match best_video, best_audio with
  | Some bv, Some ba =>
      ["   Лучшее H.264 + AAC (совместимо везде):";
       "   yt-dlp --cookies cookies.txt -f " +:+ field_text "format_id" bv
         +:+ "+" +:+ field_text "format_id" ba
         +:+ " " +:+ DQ +:+ field_text "webpage_url" info +:+ DQ;
       ""]
  | _, _ => []
  end.

Definition generic_lines `{Runtime} (info : pyval) : list string :=
  ["   Авто-выбор лучшего:";
   "   yt-dlp --cookies cookies.txt -f " +:+ DQ
     +:+ "bv*[vcodec^=avc1]+ba[ext=m4a]/b" +:+ DQ +:+ " "
     +:+ DQ +:+ field_text "webpage_url" info +:+ DQ;
   "";
   "   Только аудио (MP3):";
   "   yt-dlp --cookies cookies.txt -x --audio-format mp3 "
     +:+ DQ +:+ field_text "webpage_url" info +:+ DQ;
   Formats.RULE].

Definition recommendation_lines `{Runtime} (info : pyval)
    (best_video best_audio : option pyval) : list string :=
  [Formats.RULE; "💡 РЕКОМЕНДАЦИИ по скачиванию:"; ""]
  ++ best_pair_lines info best_video best_audio
  ++ generic_lines info.

(** *** The run of the format reporter *)

(** The URL of the run: the first argument, else the built-in one. *)
Definition chosen_url (argv : list string) : string :=
  match argv with u :: _ => u | [] => Formats.DEFAULT_URL end.

(** The cookie file is used when it is there with at least 100 bytes. *)
Definition has_cookies (env : Formats.environment) : bool :=
  match Formats.cookies_size env with
  | Some size => negb (size <? 100)%N
  | None => false
  end.

Definition cookie_file (env : Formats.environment) : option string :=
  if has_cookies env then Some (Formats.COOKIES_FILE env) else None.

(** What is printed before the fetch. *)
Definition url_lines (argv : list string) : list string :=
  match argv with
  | _ :: _ => []
  | [] =>
      ["ℹ️  Используем тестовый URL: " +:+ Formats.DEFAULT_URL;
       "   Можно указать свой: python3 formats.py <URL>";
       ""]
  end.

Definition cookie_lines (env : Formats.environment) : list string :=
  match Formats.cookies_size env with
  | None =>
      ["⚠️  Файл cookies не найден: " +:+ Formats.COOKIES_FILE env;
       "";
       "📋 Как создать cookies.txt:";
       "   1. Установи расширение 'Get cookies.txt (LOCALLY)' в Chrome";
       "   2. Зайди на youtube.com и залогинься";
       "   3. Нажми на расширение → 'Export' → сохрани как cookies.txt";
       "   4. Положи файл сюда: " +:+ Formats.COOKIES_FILE env;
       ""]
  | Some size =>
      if (size <? 100)%N then
        ["⚠️  Файл cookies слишком маленький (" +:+ str_of_N size +:+ " байт)";
         "   Возможно, он пустой или повреждён"]
      else
        ["✅ Найден файл cookies: " +:+ Formats.COOKIES_FILE env +:+ " ("
           +:+ str_of_N size +:+ " байт)"]
  end.

Definition fetch_lines (env : Formats.environment) (url : string) : list string :=
  [if has_cookies env then "🍪 Используем cookies: " +:+ Formats.cookies_name env
   else "🔓 Запрос без cookies";
   "🔗 URL: " +:+ url;
   "";
   "⏳ Получаем информацию о видео...";
   ""].

Definition prelude (env : Formats.environment) (argv : list string) : list string :=
  url_lines argv ++ cookie_lines env ++ [""] ++ fetch_lines env (chosen_url argv).

(** What is printed after a fetch that raised the error [msg]. *)
Definition HINT_403 : list string :=
  ["💡 Подсказка: HTTP 403 = YouTube блокирует запрос";
   "   Попробуй:";
   "   - Обновить cookies (залогиниться заново)";
   "   - Использовать VPN/прокси";
   "   - Подождать 5-10 минут"].

Definition HINT_AUTH : list string :=
  ["💡 Подсказка: Требуется авторизация";
   "   Убедись, что cookies экспортированы с залогиненного аккаунта"].

Definition hint (msg : string) : list string :=
  if contains "403" msg then HINT_403
  else if contains "Sign in" msg || contains "login" (lower msg) then HINT_AUTH
  else [].

Definition FETCH_FAILED : string := "❌ Не удалось получить информацию о видео".

Definition failure_lines (msg : string) : list string :=
  ["❌ Ошибка: " +:+ msg; ""] ++ hint msg ++ [FETCH_FAILED].

(** A computation that prints [lines], touches no file and returns [a]. *)
Definition emits {A} (m : IO A) (lines : list string) (a : A) : Prop :=
  ∀ w, m w = (World (files w) (stdout w ++ lines), Ok a).

(** A computation that prints [lines], touches no file and raises [e]. *)
Definition fails_after {A} (m : IO A) (lines : list string) (e : exn) : Prop :=
  ∀ w, m w = (World (files w) (stdout w ++ lines), Raise e).

(** The lines of the tables above their rows. *)
Definition audio_heading : list string :=
  ["🎵 АУДИО форматы:"; Formats.DASHES; Formats.AUDIO_HEADER; Formats.DASHES].

Definition video_heading : list string :=
  ["🎬 ВИДЕО форматы:"; Formats.DASHES; Formats.VIDEO_HEADER; Formats.DASHES].

(** The lines of a table: nothing for no row, else the heading, the rows
    and an empty line. *)
Definition table_lines (heading rows : list string) : list string :=
  match rows with
  | [] => []
  | _ => heading ++ rows ++ [""]
  end.

(** *** Runs that end with an exception *)

Definition is_exit (e : exn) : bool :=
  match e with SystemExit _ => true | _ => false end.

(** A result, and a computation, that never ends with [SystemExit]. *)
Definition no_exit {A} (r : result A) : Prop :=
  ∀ e, r = Raise e → is_exit e = false.

Definition never_exits {A} (m : IO A) : Prop :=
  ∀ w w' e, m w = (w', Raise e) → is_exit e = false.

(** A result, and a computation, that never ends normally. *)
Definition not_ok {A} (r : result A) : Prop := ∀ a, r ≠ Ok a.

Definition never_returns {A} (m : IO A) : Prop :=
  ∀ w w' a, m w ≠ (w', Ok a).

(** A descriptor whose sort keys are numbers, null or missing. *)
Definition sortable (f : pyval) : bool :=
  is_dict f && opt_num_or_none (field "abr" f)
  && opt_num_or_none (field "height" f) && opt_num_or_none (field "fps" f).

(** A fetch result with one video format whose frame rate is null, and a
    metadata library that returns it. *)
Definition null_fps_info : pyval :=
  PDict [("title", PStr "Sample"); ("duration", PInt 125);
         ("webpage_url", PStr "https://youtu.be/nt8cBMecQR0");
         ("formats",
          PList [PDict [("format_id", PStr "137");
                        ("vcodec", PStr "avc1.640028");
                        ("height", PInt 1080); ("fps", PNone)]])].

Definition null_fps_ydl : Formats.Ydl :=
  {| Formats.extract_info := λ _ _, Formats.Returned null_fps_info |}.

(** A project whose application configuration is not JSON. *)
Definition broken_conf_world : world :=
  World {[ NPM_PATH := package_sample; CONF_PATH := "{ not json" ]} [].

(** The descriptors of the example of the specification. *)
Definition example_formats : list pyval :=
  [ PDict [("format_id", PStr "140"); ("acodec", PStr "mp4a.40.2");
           ("ext", PStr "m4a"); ("abr", PInt 128)];
    PDict [("format_id", PStr "251"); ("acodec", PStr "opus");
           ("ext", PStr "webm"); ("abr", PInt 160)];
    PDict [("format_id", PStr "137"); ("vcodec", PStr "avc1.640028");
           ("height", PInt 1080); ("fps", PInt 30)];
    PDict [("format_id", PStr "248"); ("vcodec", PStr "vp9");
           ("height", PInt 1080); ("fps", PInt 30)] ].

Definition example_info : pyval :=
  PDict [("title", PStr "Sample"); ("duration", PInt 125);
         ("uploader", PStr "Somebody");
         ("webpage_url", PStr "https://youtu.be/nt8cBMecQR0");
         ("formats", PList example_formats)].

(** A metadata library that returns the example, and one whose fetch is
    refused. *)
Definition example_ydl : Formats.Ydl :=
  {| Formats.extract_info := λ _ _, Formats.Returned example_info |}.

Definition forbidden_ydl : Formats.Ydl :=
  {| Formats.extract_info := λ _ _, Formats.Failed "HTTP Error 403: Forbidden" |}.

Definition example_env : Formats.environment :=
  Formats.Env "/opt/tools/cookies.txt" "cookies.txt" (Some 2048%N).

(** Descriptors some of whose numbers are null: an audio without a known
    bitrate, a video without a known height and one without a known frame
    rate. *)
Definition mixed_formats : list pyval :=
  [ PDict [("format_id", PStr "140"); ("acodec", PStr "mp4a.40.2");
           ("ext", PStr "m4a"); ("abr", PInt 128)];
    PDict [("format_id", PStr "233"); ("acodec", PStr "mp4a.40.5");
           ("ext", PStr "mp4"); ("abr", PNone)];
    PDict [("format_id", PStr "251"); ("acodec", PStr "opus");
           ("ext", PStr "webm"); ("abr", PInt 160)];
    PDict [("format_id", PStr "137"); ("vcodec", PStr "avc1.640028");
           ("height", PInt 1080); ("fps", PInt 30)];
    PDict [("format_id", PStr "616"); ("vcodec", PStr "vp09.00.40.08");
           ("height", PNone); ("fps", PInt 25)];
    PDict [("format_id", PStr "248"); ("vcodec", PStr "vp9");
           ("height", PInt 1080); ("fps", PNone)];
    PDict [("format_id", PStr "136"); ("vcodec", PStr "avc1.4d401f");
           ("height", PInt 720); ("fps", PInt 30)] ].

(** Descriptors with several candidates of each kind, some of them with
    the same height or bitrate, and rows with the same sort key. *)
Definition tie_formats : list pyval :=
  [ PDict [("format_id", PStr "139"); ("acodec", PStr "mp4a.40.5");
           ("ext", PStr "m4a"); ("abr", PInt 48)];
    PDict [("format_id", PStr "251"); ("acodec", PStr "opus");
           ("ext", PStr "webm"); ("abr", PNone)];
    PDict [("format_id", PStr "140"); ("acodec", PStr "mp4a.40.2");
           ("ext", PStr "m4a"); ("abr", PInt 128)];
    PDict [("format_id", PStr "141"); ("acodec", PStr "mp4a.40.2");
           ("ext", PStr "m4a"); ("abr", PInt 128)];
    PDict [("format_id", PStr "136"); ("vcodec", PStr "avc1.4d401f");
           ("height", PInt 720); ("fps", PInt 30)];
    PDict [("format_id", PStr "616"); ("vcodec", PStr "vp09.00.40.08");
           ("height", PNone); ("fps", PInt 60)];
    PDict [("format_id", PStr "137"); ("vcodec", PStr "avc1.640028");
           ("height", PInt 1080); ("fps", PInt 30)];
    PDict [("format_id", PStr "248"); ("vcodec", PStr "vp9");
           ("height", PInt 1080); ("fps", PInt 30)];
    PDict [("format_id", PStr "299"); ("vcodec", PStr "avc1.64002a");
           ("height", PInt 1080); ("fps", PInt 60)];
    PDict [("format_id", PStr "135"); ("vcodec", PStr "avc1.4d401e");
           ("height", PInt 480); ("fps", PInt 30)] ].

Definition tie_info : pyval :=
  PDict [("title", PStr "Sample"); ("duration", PInt 125);
         ("webpage_url", PStr "https://youtu.be/nt8cBMecQR0");
         ("formats", PList tie_formats)].

(** A fetch result with two m4a audio formats, the bitrate of the second
    one null, and a metadata library that returns it. *)
Definition null_abr_info : pyval :=
  PDict [("title", PStr "Sample"); ("duration", PInt 125);
         ("uploader", PStr "Somebody");
         ("webpage_url", PStr "https://youtu.be/nt8cBMecQR0");
         ("formats",
          PList [PDict [("format_id", PStr "140"); ("acodec", PStr "mp4a.40.2");
                        ("ext", PStr "m4a"); ("abr", PInt 128)];
                 PDict [("format_id", PStr "233"); ("acodec", PStr "mp4a.40.5");
                        ("ext", PStr "m4a"); ("abr", PNone)];
                 PDict [("format_id", PStr "137");
                        ("vcodec", PStr "avc1.640028");
                        ("height", PInt 1080); ("fps", PInt 30)]])].

Definition null_abr_ydl : Formats.Ydl :=
  {| Formats.extract_info := λ _ _, Formats.Returned null_abr_info |}.

End Spec.

(** * Properties *)

Import Version Spec.

(** ** Texts *)

Lemma app_String c s t : String c s +:+ t = String c (s +:+ t).
Proof. reflexivity. Qed.

Lemma app_empty_l s : "" +:+ s = s.
Proof. reflexivity. Qed.

Lemma app_empty_r s : s +:+ "" = s.
Proof. induction s as [|c s IH]; [done|]. by rewrite app_String, IH. Qed.

Lemma app_assoc' s t u : (s +:+ t) +:+ u = s +:+ (t +:+ u).
Proof. induction s as [|c s IH]; [done|]. by rewrite !app_String, IH. Qed.

Lemma ascii_eqb_eq a b : ascii_eqb a b = true ↔ a = b.
Proof. apply Ascii.eqb_eq. Qed.

Lemma ascii_eqb_neq a b : ascii_eqb a b = false ↔ a ≠ b.
Proof. apply Ascii.eqb_neq. Qed.

Lemma ascii_eqb_refl a : ascii_eqb a a = true.
Proof. by apply ascii_eqb_eq. Qed.

Lemma all_chars_app p s t :
  all_chars p (s +:+ t) = all_chars p s && all_chars p t.
Proof.
  induction s as [|c s IH]; [done|].
  rewrite app_String. simpl. by rewrite IH, andb_assoc.
Qed.

Lemma all_chars_impl (p q : ascii → bool) s :
  (∀ c, p c = true → q c = true) → all_chars p s = true → all_chars q s = true.
Proof.
  intros Hpq. induction s as [|c s IH]; [done|]. simpl.
  intros [Hc Hs]%andb_prop. rewrite (Hpq _ Hc). by apply IH.
Qed.

(** ** [str.split] *)

Lemma split_nonempty sep s : split sep s ≠ [].
Proof.
  destruct s as [|c s]; [done|]. simpl.
  destruct (ascii_eqb c sep); [done|]. by destruct (split sep s).
Qed.

Lemma split_without sep s :
  all_chars (is_not sep) s = true → split sep s = [s].
Proof.
  induction s as [|c s IH]; [done|]. simpl. unfold is_not at 1.
  intros [Hc Hs]%andb_prop. apply negb_true_iff in Hc. rewrite Hc.
  by rewrite (IH Hs).
Qed.

Lemma split_app sep a b :
  all_chars (is_not sep) a = true →
  split sep (a +:+ String sep b) = a :: split sep b.
Proof.
  induction a as [|c a IH]; simpl.
  - intros _. by rewrite ascii_eqb_refl.
  - unfold is_not at 1. intros [Hc Ha]%andb_prop. apply negb_true_iff in Hc.
    rewrite Hc. by rewrite (IH Ha).
Qed.

(** The components of a text, joined by the separator, give the text back,
    and no component contains the separator. *)
Lemma split_join sep s :
  join (String sep "") (split sep s) = s.
Proof.
  induction s as [|c s IH]; [done|]. simpl.
  destruct (ascii_eqb c sep) eqn:E.
  - apply ascii_eqb_eq in E as ->.
    pose proof (split_nonempty sep s) as Hne.
    destruct (split sep s) as [|h t] eqn:Hs; [done|].
    change (join (String sep "") ("" :: h :: t))
      with ("" +:+ String sep "" +:+ join (String sep "") (h :: t)).
    by rewrite IH.
  - pose proof (split_nonempty sep s) as Hne.
    destruct (split sep s) as [|h t] eqn:Hs; [done|].
    destruct t as [|h' t].
    + simpl in *. by rewrite IH.
    + change (join (String sep "") (String c h :: h' :: t))
        with (String c h +:+ String sep "" +:+ join (String sep "") (h' :: t)).
      change (join (String sep "") (h :: h' :: t))
        with (h +:+ String sep "" +:+ join (String sep "") (h' :: t)) in IH.
      by rewrite app_String, IH.
Qed.

Lemma split_three s a b c :
  split "." s = [a; b; c] → s = a +:+ "." +:+ b +:+ "." +:+ c.
Proof.
  intros Hs. rewrite <- (split_join "." s), Hs. reflexivity.
Qed.

Example bump1 : Version.bump_version "0.1.9" "patch" = Ok "0.1.10".
Proof. reflexivity. Qed.
Example bump2 : Version.bump_version " 01.1_0.-9 " "minor" = Ok "1.11.0".
Proof. reflexivity. Qed.
Example bump3 : Version.bump_version "1.2" "minor" = Raise (ValueError (InvalidVersionFormat "1.2")).
Proof. reflexivity. Qed.
Example bump4 : Version.bump_version "1.2.x" "minor" = Raise (ValueError (InvalidIntLiteral "x")).
Proof. reflexivity. Qed.
(** ** Decimal text of integers *)

(** [int()] reads a numeral as the library reads it. *)
Lemma int_digits_uint_gen d :
  ∀ acc b,
    d ≠ Decimal.Nil ∨ b = true →
    int_digits (NilEmpty.string_of_uint d) acc b
    = Some (Unsigned.of_lu (Decimal.rev d) + acc * 10 ^ Unsigned.usize d)%N.
Proof.
  induction d as [|d IH|d IH|d IH|d IH|d IH|d IH|d IH|d IH|d IH|d IH];
    intros acc b Hb.
  { destruct Hb as [?| ->]; [done|]. cbn. f_equal. lia. }
  all: cbn [NilEmpty.string_of_uint int_digits].
  all: match goal with |- context [is_digit ?c] => change (is_digit c) with true end.
  all: cbn iota; rewrite IH by (by right).
  all: unfold Decimal.rev; cbn [Decimal.revapp].
  all: rewrite (Unsigned.of_lu_revapp d (_ Decimal.Nil)).
  all: cbn [Unsigned.usize]; rewrite N.pow_succ_r'.
  all: f_equal; unfold Decimal.rev, digit_value; cbn [Unsigned.of_lu code N_of_ascii N_of_digits]; lia.
Qed.

Lemma uint_digits d : all_chars is_digit (NilEmpty.string_of_uint d) = true.
Proof. induction d; cbn [NilEmpty.string_of_uint all_chars]; try done. Qed.

Lemma to_uint_not_nil n : N.to_uint n ≠ Decimal.Nil.
Proof. destruct n as [|p]; [done|]. apply Unsigned.to_uint_nonnil. Qed.

Lemma str_of_N_digits n : all_chars is_digit (str_of_N n) = true.
Proof. apply uint_digits. Qed.

Lemma str_of_N_nonempty n : str_of_N n ≠ "".
Proof.
  unfold str_of_N. pose proof (to_uint_not_nil n).
  by destruct (N.to_uint n).
Qed.

Lemma int_digits_str_of_N n : int_digits (str_of_N n) 0 false = Some n.
Proof.
  unfold str_of_N. rewrite int_digits_uint_gen by (left; apply to_uint_not_nil).
  rewrite <- Unsigned.of_uint_alt. f_equal.
  rewrite N.mul_0_l, N.add_0_r. apply DecimalN.Unsigned.of_to.
Qed.

Lemma str_of_Z_of_N n : str_of_Z (Z.of_N n) = str_of_N n.
Proof. by destruct n. Qed.

Lemma lstrip_id p s :
  match s with String c _ => p c = false | EmptyString => True end →
  lstrip p s = s.
Proof. destruct s as [|c s]; [done|]. simpl. by intros ->. Qed.

Lemma rstrip_id p s :
  all_chars (λ c, negb (p c)) s = true → rstrip p s = s.
Proof.
  induction s as [|c s IH]; [done|]. simpl.
  intros [Hc Hs]%andb_prop. apply negb_true_iff in Hc.
  rewrite (IH Hs), Hc. by destruct s.
Qed.

Lemma digit_facts c :
  is_digit c = true →
  is_int_space c = false ∧ c ≠ "-"%char ∧ c ≠ "+"%char ∧ c ≠ "."%char.
Proof. destruct c as [[] [] [] [] [] [] [] []]; by cbn. Qed.

(** On a numeral, [int()] has neither white space nor a sign to remove. *)
Lemma py_int_numeral s :
  all_chars is_digit s = true → s ≠ "" →
  py_int s = Z.of_N <$> int_digits s 0 false.
Proof.
  intros Hs Hne. unfold py_int.
  rewrite lstrip_id.
  2:{ destruct s as [|c s]; [done|]. simpl in Hs.
      apply andb_prop in Hs as [Hc _]. by apply digit_facts in Hc as [? _]. }
  rewrite rstrip_id.
  2:{ eapply all_chars_impl; [|exact Hs]. intros c Hc. cbn beta.
      apply digit_facts in Hc as [-> _]. done. }
  destruct s as [|c s]; [done|]. simpl in Hs. apply andb_prop in Hs as [Hc _].
  destruct c as [[] [] [] [] [] [] [] []]; try done.
Qed.

Lemma py_int_str_of_N n : py_int (str_of_N n) = Some (Z.of_N n).
Proof.
  rewrite py_int_numeral by auto using str_of_N_digits, str_of_N_nonempty.
  by rewrite int_digits_str_of_N.
Qed.

Lemma str_of_N_no_dot n : all_chars (is_not ".") (str_of_N n) = true.
Proof.
  eapply all_chars_impl; [|apply str_of_N_digits]. intros c Hc.
  apply digit_facts in Hc as (_ & _ & _ & Hc). unfold is_not.
  apply negb_true_iff. by apply ascii_eqb_neq.
Qed.

Lemma split_version_string X Y Z :
  split "." (version_string X Y Z) = [str_of_N X; str_of_N Y; str_of_N Z].
Proof.
  unfold version_string.
  change (str_of_N X +:+ "." +:+ str_of_N Y +:+ "." +:+ str_of_N Z)
    with (str_of_N X +:+ String "." (str_of_N Y +:+ String "." (str_of_N Z))).
  rewrite !split_app, split_without by apply str_of_N_no_dot. done.
Qed.

(** ** [bump_version] *)

(** C1.  For all non-negative integers X, Y, Z, bumping the text X.Y.Z
    gives X.Y.(Z+1) for patch, X.(Y+1).0 for minor and (X+1).0.0 for major;
    a text that does not consist of exactly three dot-separated integer
    components makes [bump_version] raise [ValueError], whatever the kind. *)
Theorem bump_version_spec :
  (∀ X Y Z : N,
     bump_version (version_string X Y Z) "patch" = Ok (version_string X Y (Z + 1))
     ∧ bump_version (version_string X Y Z) "minor" = Ok (version_string X (Y + 1) 0)
     ∧ bump_version (version_string X Y Z) "major" = Ok (version_string (X + 1) 0 0))
  ∧ (∀ version kind : string,
       ¬ three_integer_components version →
       ∃ why, bump_version version kind = Raise (ValueError why)).
Proof.
  split.
  - intros X Y Z. unfold bump_version.
    rewrite split_version_string. cbn [length Nat.eqb negb].
    unfold int. rewrite !py_int_str_of_N. unfold version_string.
    repeat split; cbn;
      rewrite <- ?(N2Z.inj_add _ 1), ?str_of_Z_of_N; reflexivity.
  - intros version kind Hnot. unfold bump_version.
    destruct (split "." version) as [|a [|b [|c [|d l]]]] eqn:Hs; cbn; eauto.
    unfold int.
    destruct (py_int a) as [x|] eqn:Ha; cbn; [|eauto].
    destruct (py_int b) as [y|] eqn:Hb; cbn; [|eauto].
    destruct (py_int c) as [z|] eqn:Hc; cbn; [|eauto].
    destruct Hnot. exists a, b, c. unfold integer_component.
    rewrite Ha, Hb, Hc. eauto using split_three.
Qed.

(** ** The matcher *)

Import Re.

Lemma take_while_lstrip p s : take_while p s +:+ lstrip p s = s.
Proof.
  induction s as [|c s IH]; [done|]. simpl.
  destruct (p c); [|done]. by rewrite app_String, IH.
Qed.

Lemma take_while_all p s : all_chars p (take_while p s) = true.
Proof.
  induction s as [|c s IH]; [done|]. simpl.
  destruct (p c) eqn:E; [|done]. simpl. by rewrite E.
Qed.

Lemma lstrip_head p s :
  match lstrip p s with String c _ => p c = false | EmptyString => True end.
Proof.
  induction s as [|c s IH]; [done|]. simpl.
  destruct (p c) eqn:E; [done|]. by simpl.
Qed.

Lemma take_while_app p a b :
  all_chars p a = true →
  match b with String c _ => p c = false | EmptyString => True end →
  take_while p (a +:+ b) = a ∧ lstrip p (a +:+ b) = b.
Proof.
  intros Ha Hb. induction a as [|c a IH]; simpl.
  - destruct b as [|c b]; [done|]. simpl. by rewrite Hb.
  - simpl in Ha. apply andb_prop in Ha as [Hc Ha]. rewrite Hc.
    destruct (IH Ha) as [-> ->]. done.
Qed.

Lemma length_app' (s t : string) :
  String.length (s +:+ t) = (String.length s + String.length t)%nat.
Proof. induction s as [|c s IH]; [done|]. rewrite app_String. simpl. by rewrite IH. Qed.

(** What starts with a character of [p] is not matched by a pattern that
    rejects [p]. *)
Lemma run_rejects ml p r :
  rejects p r = true →
  ∀ marks prev pos c s, p c = true →
    run ml r marks prev pos (String c s) = None.
Proof.
  induction r as [|i r IH]; [done|]. intros Hr marks prev pos c s Hc.
  destruct i; simpl in *; try done.
  - destruct (at_bol ml prev); [|done]. by apply (IH Hr).
  - apply negb_true_iff in Hr.
    destruct (ascii_eqb c LF) eqn:E; [|done].
    apply ascii_eqb_eq in E as ->. congruence.
  - destruct (ascii_eqb c0 c) eqn:E; [|done].
    apply ascii_eqb_eq in E as ->. apply negb_true_iff in Hr. congruence.
  - by apply (IH Hr).
  - by apply (IH Hr).
Qed.

(** A greedy repetition before such a pattern never backtracks: it takes
    the longest run. *)
Lemma star_greedy ml p r marks :
  rejects p r = true →
  ∀ s prev pos,
    star p (run ml r marks) prev pos s
    = run ml r marks (run_prev p prev s)
        (pos + String.length (take_while p s)) (lstrip p s).
Proof.
  intros Hr. induction s as [|c s IH]; intros prev pos.
  - simpl. by rewrite Nat.add_0_r.
  - simpl. destruct (p c) eqn:E.
    + rewrite IH. simpl. rewrite Nat.add_succ_r.
      destruct (run ml r marks _ _ _) eqn:Hk; [done|].
      by apply (run_rejects ml p).
    + simpl. by rewrite Nat.add_0_r.
Qed.

Lemma star_prev_irrelevant p k :
  (∀ prev prev' pos s, k prev pos s = k prev' pos s) →
  ∀ s prev prev' pos, star p k prev pos s = star p k prev' pos s.
Proof.
  intros Hk. induction s as [|c s IH]; intros prev prev' pos; simpl.
  - apply Hk.
  - destruct (p c); [|apply Hk].
    by rewrite (Hk prev prev').
Qed.

Lemma run_prev_irrelevant ml r :
  no_bol r = true →
  ∀ marks prev prev' pos s,
    run ml r marks prev pos s = run ml r marks prev' pos s.
Proof.
  induction r as [|i r IH]; [done|]. intros Hr marks prev prev' pos s.
  destruct i; simpl in *; try done.
  - destruct (at_eol ml s); [by apply IH|done].
  - apply star_prev_irrelevant. intros. by apply IH.
  - by apply IH.
  - by apply IH.
Qed.

Lemma run_lit ml c r marks prev pos s :
  no_bol r = true →
  run ml (Lit c :: r) marks prev pos (String c s) = run ml r marks None (S pos) s.
Proof.
  intros Hr. simpl. rewrite ascii_eqb_refl. by apply run_prev_irrelevant.
Qed.

Lemma run_lit_inv ml c r marks prev pos s f :
  no_bol r = true →
  run ml (Lit c :: r) marks prev pos s = Some f →
  ∃ s', s = String c s' ∧ run ml r marks None (S pos) s' = Some f.
Proof.
  intros Hr. simpl. destruct s as [|c' s']; [done|].
  destruct (ascii_eqb c c') eqn:E; [|done]. apply ascii_eqb_eq in E as <-.
  intros Hf. exists s'. split; [done|].
  by rewrite (run_prev_irrelevant ml r Hr marks None (Some c)).
Qed.

Lemma run_star_app ml p r marks prev pos a rest :
  rejects p r = true → no_bol r = true →
  all_chars p a = true → head_not p rest →
  run ml (Star p :: r) marks prev pos (a +:+ rest)
  = run ml r marks None (pos + String.length a) rest.
Proof.
  intros Hr Hb Ha Hrest. cbn [run]. rewrite star_greedy by done.
  destruct (take_while_app p a rest Ha Hrest) as [-> ->].
  by apply run_prev_irrelevant.
Qed.

Lemma run_star_inv ml p r marks prev pos s f :
  rejects p r = true → no_bol r = true →
  run ml (Star p :: r) marks prev pos s = Some f →
  ∃ a rest, s = a +:+ rest ∧ all_chars p a = true ∧ head_not p rest
            ∧ run ml r marks None (pos + String.length a) rest = Some f.
Proof.
  intros Hr Hb. cbn [run]. rewrite star_greedy by done. intros Hf.
  exists (take_while p s), (lstrip p s).
  split; [by rewrite take_while_lstrip|].
  split; [apply take_while_all|]. split; [apply lstrip_head|].
  by rewrite (run_prev_irrelevant ml r Hb marks None (run_prev p prev s)).
Qed.

Lemma run_plus_app ml p r marks prev pos a rest :
  rejects p r = true → no_bol r = true →
  all_chars p a = true → a ≠ "" → head_not p rest →
  run ml (Plus p :: r) marks prev pos (a +:+ rest)
  = run ml r marks None (pos + String.length a) rest.
Proof.
  intros Hr Hb Ha Hne Hrest. destruct a as [|c a]; [done|].
  simpl in Ha. apply andb_prop in Ha as [Hc Ha].
  rewrite app_String. cbn [run]. rewrite Hc, star_greedy by done.
  destruct (take_while_app p a rest Ha Hrest) as [-> ->].
  cbn [String.length]. rewrite Nat.add_succ_r.
  by apply run_prev_irrelevant.
Qed.

Lemma run_plus_inv ml p r marks prev pos s f :
  rejects p r = true → no_bol r = true →
  run ml (Plus p :: r) marks prev pos s = Some f →
  ∃ a rest, s = a +:+ rest ∧ all_chars p a = true ∧ a ≠ "" ∧ head_not p rest
            ∧ run ml r marks None (pos + String.length a) rest = Some f.
Proof.
  intros Hr Hb. cbn [run]. destruct s as [|c s]; [done|].
  destruct (p c) eqn:Hc; [|done]. rewrite star_greedy by done. intros Hf.
  exists (String c (take_while p s)), (lstrip p s).
  split; [by rewrite app_String, take_while_lstrip|].
  split; [simpl; by rewrite Hc, take_while_all|]. split; [done|].
  split; [apply lstrip_head|].
  cbn [String.length]. rewrite Nat.add_succ_r.
  by rewrite (run_prev_irrelevant ml r Hb marks None (run_prev p (Some c) s)).
Qed.

Lemma run_bol ml r marks prev pos s :
  run ml (Bol :: r) marks prev pos s
  = if at_bol ml prev then run ml r marks prev pos s else None.
Proof. reflexivity. Qed.

Lemma run_eol ml r marks prev pos s :
  run ml (Eol :: r) marks prev pos s
  = if at_eol ml s then run ml r marks prev pos s else None.
Proof. reflexivity. Qed.

Lemma run_open ml g r marks prev pos s :
  run ml (Open g :: r) marks prev pos s
  = run ml r ((g, false, pos) :: marks) prev pos s.
Proof. reflexivity. Qed.

Lemma run_close ml g r marks prev pos s :
  run ml (Close g :: r) marks prev pos s
  = run ml r ((g, true, pos) :: marks) prev pos s.
Proof. reflexivity. Qed.

Lemma run_nil ml marks prev pos s : run ml [] marks prev pos s = Some (pos, marks).
Proof. reflexivity. Qed.

(** ** The version pattern of [cmd_set] *)

Lemma numeral_spec a :
  numeral a = true ↔ a ≠ "" ∧ all_chars is_digit a = true.
Proof.
  unfold numeral. rewrite andb_true_iff, negb_true_iff.
  split; intros [Ha ?]; (split; [|done]).
  - intros ->. done.
  - destruct a; [done|reflexivity].
Qed.

Lemma digits_no_dot a :
  all_chars is_digit a = true → all_chars (is_not ".") a = true.
Proof.
  apply all_chars_impl. intros c Hc.
  apply digit_facts in Hc as (_ & _ & _ & Hc). unfold is_not.
  apply negb_true_iff. by apply ascii_eqb_neq.
Qed.

Lemma valid_version_iff v :
  valid_version v = true ↔
  ∃ a b c, v = a +:+ "." +:+ b +:+ "." +:+ c
           ∧ numeral a = true ∧ numeral b = true ∧ numeral c = true.
Proof.
  unfold valid_version. split.
  - destruct (split "." v) as [|a [|b [|c [|d l]]]] eqn:Hs; try done.
    intros [[Ha Hb]%andb_prop Hc]%andb_prop.
    exists a, b, c. eauto using split_three.
  - intros (a & b & c & -> & Ha & Hb & Hc).
    change (a +:+ "." +:+ b +:+ "." +:+ c)
      with (a +:+ String "." (b +:+ String "." c)).
    pose proof Ha as [_ Ha']%numeral_spec.
    pose proof Hb as [_ Hb']%numeral_spec.
    pose proof Hc as [_ Hc']%numeral_spec.
    rewrite !split_app, split_without by auto using digits_no_dot.
    by rewrite Ha, Hb, Hc.
Qed.

Lemma at_eol_spec s :
  at_eol false s = true ↔ s = "" ∨ s = String LF "".
Proof.
  destruct s as [|c s]; simpl; [naive_solver|].
  rewrite andb_true_iff, ascii_eqb_eq. split.
  - intros [-> Hs]. right. destruct s; [done|discriminate].
  - intros [|[= -> ->]]; done.
Qed.

(** What [re.match] accepts for the version pattern: a version text, or a
    version text followed by one newline. *)
Lemma VERSION_RE_accepts s :
  is_Some (rematch VERSION_RE s) ↔
  valid_version s = true ∨ ∃ v, s = v +:+ String LF "" ∧ valid_version v = true.
Proof.
  unfold rematch, VERSION_RE. rewrite run_bol. cbn [at_bol]. split.
  - intros [f Hf].
    apply run_plus_inv in Hf as (a & s1 & -> & Ha & Hane & _ & Hf); [|done..].
    apply run_lit_inv in Hf as (s2 & -> & Hf); [|done].
    apply run_plus_inv in Hf as (b & s3 & -> & Hb & Hbne & _ & Hf); [|done..].
    apply run_lit_inv in Hf as (s4 & -> & Hf); [|done].
    apply run_plus_inv in Hf as (c & e & -> & Hc & Hcne & _ & Hf); [|done..].
    rewrite run_eol in Hf. destruct (at_eol false e) eqn:He; [|done].
    assert (Hv : valid_version (a +:+ "." +:+ b +:+ "." +:+ c) = true).
    { apply valid_version_iff. exists a, b, c.
      rewrite !numeral_spec. done. }
    apply at_eol_spec in He as [-> | ->].
    + left. rewrite app_empty_r. exact Hv.
    + right. exists (a +:+ "." +:+ b +:+ "." +:+ c). split; [|done].
      by rewrite !app_assoc'.
  - intros Hs.
    assert (∃ a b c e, s = a +:+ String "." (b +:+ String "." (c +:+ e))
              ∧ numeral a = true ∧ numeral b = true ∧ numeral c = true
              ∧ at_eol false e = true) as (a & b & c & e & -> & Ha & Hb & Hc & He).
    { destruct Hs as [Hs | (v & -> & Hs)];
        apply valid_version_iff in Hs as (a & b & c & -> & ? & ? & ?).
      - exists a, b, c, "". rewrite app_empty_r. done.
      - exists a, b, c, (String LF ""). by rewrite !app_assoc'. }
    apply numeral_spec in Ha as [Hane Ha], Hb as [Hbne Hb], Hc as [Hcne Hc].
    rewrite run_plus_app; [|done..].
    rewrite run_lit by done.
    rewrite run_plus_app; [|done..].
    rewrite run_lit by done.
    rewrite run_plus_app; [|try done..].
    + rewrite run_eol, He. done.
    + apply at_eol_spec in He as [-> | ->]; done.
Qed.

(** ** Slices *)

Lemma substring_skip x n t :
  substring (String.length x) n (x +:+ t) = substring 0 n t.
Proof. induction x as [|c x IH]; [done|]. rewrite app_String. simpl. exact IH. Qed.

Lemma substring_take y z :
  substring 0 (String.length y) (y +:+ z) = y.
Proof.
  induction y as [|c y IH]; simpl.
  - by destruct z.
  - by rewrite IH.
Qed.

Lemma slice_app x y z a b :
  a = String.length x → b = (a + String.length y)%nat →
  slice a b (x +:+ y +:+ z) = y.
Proof.
  intros -> ->. unfold slice.
  replace (String.length x + String.length y - String.length x)%nat
    with (String.length y) by lia.
  rewrite substring_skip. apply substring_take.
Qed.

Lemma slice_prefix x z a :
  a = String.length x → slice 0 a (x +:+ z) = x.
Proof.
  intros ->. unfold slice. rewrite Nat.sub_0_r. apply substring_take.
Qed.

Lemma drop_app x z a :
  a = String.length x → drop a (x +:+ z) = z.
Proof.
  intros ->. unfold drop. rewrite substring_skip, length_app'.
  replace (String.length x + String.length z - String.length x)%nat
    with (String.length z) by lia.
  rewrite <- (app_empty_r z) at 2. apply substring_take.
Qed.

(** ** [re.search] *)

Lemma search_from_unfold ml r prev pos s :
  search_from ml r prev pos s
  = match run ml r [] prev pos s with
    | Some f => Some (pos, f)
    | None =>
        match s with
        | String c s' => search_from ml r (Some c) (S pos) s'
        | EmptyString => None
        end
    end.
Proof. by destruct s. Qed.

Lemma search_from_skip ml r s :
  ∀ pre prev pos,
    (∀ x y, pre = x +:+ y → y ≠ "" →
            run ml r [] (prev_after prev x) (pos + String.length x) (y +:+ s) = None) →
    search_from ml r prev pos (pre +:+ s)
    = search_from ml r (prev_after prev pre) (pos + String.length pre) s.
Proof.
  induction pre as [|c pre IH]; intros prev pos Hfail.
  - simpl. by rewrite Nat.add_0_r.
  - pose proof (Hfail "" (String c pre) eq_refl ltac:(done)) as H0.
    cbn [prev_after String.length] in H0. rewrite Nat.add_0_r in H0.
    rewrite search_from_unfold, H0, app_String, IH.
    + cbn [prev_after String.length]. by rewrite Nat.add_succ_r.
    + intros x y -> Hy. specialize (Hfail (String c x) y eq_refl Hy).
      cbn [prev_after String.length] in Hfail.
      by rewrite Nat.add_succ_r in Hfail.
Qed.

Lemma search_from_inv ml r :
  ∀ T prev pos start f,
    search_from ml r prev pos T = Some (start, f) →
    ∃ pre s, T = pre +:+ s ∧ start = (pos + String.length pre)%nat
             ∧ run ml r [] (prev_after prev pre) start s = Some f
             ∧ ∀ x y, pre = x +:+ y → y ≠ "" →
                 run ml r [] (prev_after prev x) (pos + String.length x) (y +:+ s)
                 = None.
Proof.
  induction T as [|c T IH]; intros prev pos start f.
  - simpl. destruct (run ml r [] prev pos "") eqn:E; [|done].
    intros [= <- <-]. exists "", "". simpl. rewrite Nat.add_0_r.
    repeat split; try done. intros x y Hxy Hy. by destruct x, y.
  - simpl. destruct (run ml r [] prev pos (String c T)) eqn:E.
    + intros [= <- <-]. exists "", (String c T). simpl. rewrite Nat.add_0_r.
      repeat split; try done. intros x y Hxy Hy. by destruct x, y.
    + intros (pre & s & -> & -> & Hrun & Hfail)%IH.
      exists (String c pre), s. rewrite app_String.
      cbn [prev_after String.length]. rewrite Nat.add_succ_r.
      repeat split; try done.
      intros x y Hxy Hy. destruct x as [|c' x].
      * rewrite app_empty_l in Hxy. subst y.
        cbn [prev_after String.length]. by rewrite Nat.add_0_r, app_String.
      * rewrite app_String in Hxy. injection Hxy as <- ->.
        cbn [prev_after String.length]. rewrite Nat.add_succ_r. by apply Hfail.
Qed.

(** Two patterns that match at the same places are found at the same
    place. *)
Lemma search_from_same_start ml r1 r2 :
  (∀ prev pos s, is_Some (run ml r1 [] prev pos s) ↔ is_Some (run ml r2 [] prev pos s)) →
  ∀ T prev pos,
    fst <$> search_from ml r1 prev pos T = fst <$> search_from ml r2 prev pos T.
Proof.
  intros Hsame. induction T as [|c T IH]; intros prev pos; simpl.
  - specialize (Hsame prev pos "").
    destruct (run ml r1 [] prev pos "") eqn:E1, (run ml r2 [] prev pos "") eqn:E2;
      try done.
    + destruct Hsame as [Hs _]. by destruct (Hs ltac:(eauto)).
    + destruct Hsame as [_ Hs]. by destruct (Hs ltac:(eauto)).
  - specialize (Hsame prev pos (String c T)).
    destruct (run ml r1 [] prev pos _) eqn:E1, (run ml r2 [] prev pos _) eqn:E2;
      try done.
    + destruct Hsame as [Hs _]. by destruct (Hs ltac:(eauto)).
    + destruct Hsame as [_ Hs]. by destruct (Hs ltac:(eauto)).
Qed.

(** ** The two patterns of the key-assignment file *)

Ltac run_forward :=
  repeat first
    [ rewrite run_bol | rewrite run_open | rewrite run_close | rewrite run_nil
    | rewrite run_lit by done
    | rewrite run_star_app by done
    | rewrite run_plus_app by done ].

(** The read pattern on a text that starts with a version assignment. *)
Lemma run_cargo_read prev pos ws1 ws2 val rest :
  at_bol true prev = true →
  all_chars is_space ws1 = true → all_chars is_space ws2 = true →
  all_chars not_dq val = true → val ≠ "" →
  ∃ p1 p2,
    run true CARGO_READ_RE [] prev pos
      ("version" +:+ ws1 +:+ String "=" (ws2 +:+ String dq (val +:+ String dq rest)))
    = Some (S p2, [(1, true, p2); (1, false, p1)]%nat)
    ∧ p1 = (pos + (7 + String.length ws1 + 1 + String.length ws2 + 1))%nat
    ∧ p2 = (p1 + String.length val)%nat.
Proof.
  intros Hbol Hw1 Hw2 Hval Hne. eexists _, _. split.
  - unfold CARGO_READ_RE. cbn [lits app]. rewrite !app_String, app_empty_l.
    rewrite run_bol, Hbol. run_forward. reflexivity.
  - lia.
Qed.

(** The write pattern on the same text. *)
Lemma run_cargo_write prev pos ws1 ws2 val rest :
  at_bol true prev = true →
  all_chars is_space ws1 = true → all_chars is_space ws2 = true →
  all_chars not_dq val = true → val ≠ "" →
  ∃ p1 p2,
    run true CARGO_WRITE_RE [] prev pos
      ("version" +:+ ws1 +:+ String "=" (ws2 +:+ String dq (val +:+ String dq rest)))
    = Some (S p2, [(2, true, S p2); (2, false, p2); (1, true, p1); (1, false, pos)]%nat)
    ∧ p1 = (pos + (7 + String.length ws1 + 1 + String.length ws2 + 1))%nat
    ∧ p2 = (p1 + String.length val)%nat.
Proof.
  intros Hbol Hw1 Hw2 Hval Hne. eexists _, _. split.
  - unfold CARGO_WRITE_RE. cbn [lits app]. rewrite !app_String, app_empty_l.
    rewrite run_bol, Hbol. run_forward. reflexivity.
  - lia.
Qed.

Ltac run_backward H :=
  repeat first
    [ rewrite run_open in H | rewrite run_close in H
    | apply run_lit_inv in H as (? & -> & H); [|done]
    | apply run_star_inv in H as (? & ? & -> & ? & _ & H); [|done..]
    | apply run_plus_inv in H as (? & ? & -> & ? & ? & _ & H); [|done..] ].

Lemma cargo_line_intro ws1 ws2 val rest :
  all_chars is_space ws1 = true → all_chars is_space ws2 = true →
  all_chars not_dq val = true → val ≠ "" →
  cargo_line ("version" +:+ ws1 +:+ String "=" (ws2 +:+ String dq (val +:+ String dq rest))).
Proof.
  intros. exists ("version" +:+ ws1 +:+ String "=" ws2), val, rest.
  split; [by rewrite !app_assoc'|]. split; [|done]. by exists ws1, ws2.
Qed.

Lemma cargo_line_elim s :
  cargo_line s →
  ∃ ws1 ws2 val rest,
    s = "version" +:+ ws1 +:+ String "=" (ws2 +:+ String dq (val +:+ String dq rest))
    ∧ all_chars is_space ws1 = true ∧ all_chars is_space ws2 = true
    ∧ all_chars not_dq val = true ∧ val ≠ "".
Proof.
  intros (h & val & rest & -> & (ws1 & ws2 & -> & ? & ?) & ? & ?).
  exists ws1, ws2, val, rest. split; [by rewrite !app_assoc'|done].
Qed.

(** Both patterns match exactly at the start of a line that is a version
    assignment. *)
Lemma cargo_read_matches prev pos s :
  is_Some (run true CARGO_READ_RE [] prev pos s)
  ↔ at_bol true prev = true ∧ cargo_line s.
Proof.
  split.
  - intros [f Hf]. unfold CARGO_READ_RE in Hf. cbn [lits app] in Hf.
    rewrite run_bol in Hf. destruct (at_bol true prev); [|done].
    split; [done|]. run_backward Hf.
    match goal with
    | |- context [?w1 +:+ String "=" (?w2 +:+ String dq (?v +:+ String dq ?r))] =>
        by apply (cargo_line_intro w1 w2 v r)
    end.
  - intros [Hbol (ws1 & ws2 & val & rest & -> & ? & ? & ? & ?)%cargo_line_elim].
    destruct (run_cargo_read prev pos ws1 ws2 val rest) as (? & ? & -> & _); done.
Qed.

Lemma cargo_write_matches prev pos s :
  is_Some (run true CARGO_WRITE_RE [] prev pos s)
  ↔ at_bol true prev = true ∧ cargo_line s.
Proof.
  split.
  - intros [f Hf]. unfold CARGO_WRITE_RE in Hf. cbn [lits app] in Hf.
    rewrite run_bol in Hf. destruct (at_bol true prev); [|done].
    split; [done|]. run_backward Hf.
    match goal with
    | |- context [?w1 +:+ String "=" (?w2 +:+ String dq (?v +:+ String dq ?r))] =>
        by apply (cargo_line_intro w1 w2 v r)
    end.
  - intros [Hbol (ws1 & ws2 & val & rest & -> & ? & ? & ? & ?)%cargo_line_elim].
    destruct (run_cargo_write prev pos ws1 ws2 val rest) as (? & ? & -> & _); done.
Qed.

Lemma is_Some_None {A} (o : option A) : ¬ is_Some o → o = None.
Proof. destruct o; [|done]. intros []. eauto. Qed.

(** [re.search] with either pattern stops at the first version line. *)
Lemma search_first_version_line r pre s :
  (∀ prev pos t, is_Some (run true r [] prev pos t)
                 ↔ at_bol true prev = true ∧ cargo_line t) →
  first_version_line pre s →
  search true r (pre +:+ s)
  = (λ f, (String.length pre, f))
      <$> run true r [] (prev_after None pre) (String.length pre) s.
Proof.
  intros Hr [[Hbol Hline] Hfirst]. unfold search.
  rewrite search_from_skip.
  - rewrite search_from_unfold. cbn [Nat.add].
    destruct (Hr (prev_after None pre) (String.length pre) s) as [_ Hs].
    destruct (Hs (conj Hbol Hline)) as [f ->]. done.
  - intros x y Hxy Hy. apply is_Some_None. rewrite Hr.
    by apply (Hfirst x y).
Qed.

Lemma search_inv_first_version_line r T start f :
  (∀ prev pos t, is_Some (run true r [] prev pos t)
                 ↔ at_bol true prev = true ∧ cargo_line t) →
  search true r T = Some (start, f) →
  ∃ pre s, T = pre +:+ s ∧ start = String.length pre ∧ first_version_line pre s.
Proof.
  intros Hr (pre & s & -> & -> & Hrun & Hfail)%search_from_inv.
  exists pre, s. split; [done|]. split; [done|]. split.
  - unfold version_line_at. rewrite <- Hr. eauto.
  - intros x y Hxy Hy Hat. unfold version_line_at in Hat.
    rewrite <- (Hr _ (0 + String.length x)%nat) in Hat.
    rewrite (Hfail x y Hxy Hy) in Hat. by destruct Hat.
Qed.

(** ** Replacing the value keeps the first version line first *)

Lemma first_dq x :
  all_chars not_dq x = true
  ∨ ∃ x1 x2, x = x1 +:+ String dq x2 ∧ all_chars not_dq x1 = true.
Proof.
  induction x as [|c x IH]; [by left|].
  destruct (not_dq c) eqn:Hc.
  - destruct IH as [IH | (x1 & x2 & -> & Hx1)].
    + left. simpl. by rewrite Hc.
    + right. exists (String c x1), x2. split; [done|]. simpl. by rewrite Hc.
  - right. exists "", x. split; [|done].
    apply negb_false_iff, ascii_eqb_eq in Hc as ->. done.
Qed.

Lemma dq_split_unique a b c d :
  all_chars not_dq a = true → all_chars not_dq c = true →
  a +:+ String dq b = c +:+ String dq d → a = c ∧ b = d.
Proof.
  revert c. induction a as [|x a IH]; intros [|y c] Ha Hc Heq.
  - by injection Heq.
  - rewrite app_String, app_empty_l in Heq. injection Heq as <- _.
    cbn [all_chars] in Hc. apply andb_prop in Hc as [Hc _]. by vm_compute in Hc.
  - rewrite app_String, app_empty_l in Heq. injection Heq as -> _.
    cbn [all_chars] in Ha. apply andb_prop in Ha as [Ha _]. by vm_compute in Ha.
  - rewrite !app_String in Heq. injection Heq as -> Heq.
    simpl in Ha, Hc. apply andb_prop in Ha as [_ Ha], Hc as [_ Hc].
    destruct (IH c Ha Hc Heq) as [-> ->]. done.
Qed.

Lemma space_facts c :
  is_space c = true → not_dq c = true ∧ is_not "v" c = true.
Proof. destruct c as [[] [] [] [] [] [] [] []]; by cbn. Qed.

Lemma cargo_head_no_dq h : cargo_head h → all_chars not_dq h = true.
Proof.
  intros (ws1 & ws2 & -> & H1 & H2).
  assert (Hs : ∀ ws, all_chars is_space ws = true → all_chars not_dq ws = true).
  { intros ws. apply all_chars_impl. intros c Hc. by destruct (space_facts c Hc). }
  rewrite !all_chars_app. cbn [all_chars].
  rewrite (Hs ws1 H1), (Hs ws2 H2). reflexivity.
Qed.

Lemma cargo_head_v h :
  cargo_head h → ∃ t, h = String "v" t ∧ all_chars (is_not "v") t = true.
Proof.
  intros (ws1 & ws2 & -> & H1 & H2).
  exists ("ersion" +:+ ws1 +:+ String "=" ws2). split; [done|].
  assert (Hs : ∀ ws, all_chars is_space ws = true → all_chars (is_not "v") ws = true).
  { intros ws. apply all_chars_impl. intros c Hc. by destruct (space_facts c Hc). }
  rewrite !all_chars_app. cbn [all_chars].
  rewrite (Hs ws1 H1), (Hs ws2 H2). reflexivity.
Qed.

(** A head cannot be a proper suffix of a head: the key starts with the
    only [v] of it. *)
Lemma cargo_head_suffix y h : cargo_head h → cargo_head (y +:+ h) → y = "".
Proof.
  intros (t & -> & Ht)%cargo_head_v (t' & Heq & Ht')%cargo_head_v.
  destruct y as [|c y]; [done|]. rewrite app_String in Heq.
  injection Heq as -> <-. rewrite all_chars_app in Ht'.
  apply andb_prop in Ht' as [_ Ht']. done.
Qed.

Lemma cargo_line_earlier y h val v rest :
  y ≠ "" → cargo_head h →
  cargo_line (y +:+ h +:+ String dq (v +:+ String dq rest)) →
  cargo_line (y +:+ h +:+ String dq (val +:+ String dq rest)).
Proof.
  intros Hy Hh (h' & val' & rest' & Heq & Hh' & Hval' & Hne').
  pose proof (cargo_head_no_dq _ Hh) as Hq.
  pose proof (cargo_head_no_dq _ Hh') as Hq'.
  destruct (first_dq y) as [Hyq | (y1 & y2 & -> & Hy1)].
  - (* the first quote ends [h]: the head would be [y +:+ h] *)
    rewrite <- app_assoc' in Heq.
    apply dq_split_unique in Heq as [<- _];
      [|by rewrite all_chars_app, Hyq, Hq|done].
    destruct Hy. by apply (cargo_head_suffix y h).
  - rewrite !app_assoc', app_String in Heq.
    apply dq_split_unique in Heq as [<- Heq]; [|done..].
    destruct (first_dq y2) as [Hy2 | (y3 & y4 & -> & Hy3)].
    + rewrite <- app_assoc' in Heq.
      apply dq_split_unique in Heq as [<- _];
        [|by rewrite all_chars_app, Hy2, Hq|done].
      exists y1, (y2 +:+ h), (val +:+ String dq rest).
      split; [by rewrite ?app_assoc', ?app_String, ?app_assoc'|done].
    + rewrite !app_assoc', app_String in Heq.
      apply dq_split_unique in Heq as [<- _]; [|done..].
      exists y1, y3, (y4 +:+ h +:+ String dq (val +:+ String dq rest)).
      split; [by rewrite ?app_assoc', ?app_String, ?app_assoc', ?app_String|done].
Qed.

Lemma first_version_line_subst pre h val v rest :
  cargo_head h →
  all_chars not_dq v = true → v ≠ "" →
  first_version_line pre (h +:+ String dq (val +:+ String dq rest)) →
  first_version_line pre (h +:+ String dq (v +:+ String dq rest)).
Proof.
  intros Hh Hv Hne [[Hbol Hline] Hfirst]. split.
  - split; [done|]. by exists h, v, rest.
  - intros x y Hxy Hy [Hb Hl]. apply (Hfirst x y Hxy Hy). split; [done|].
    by apply (cargo_line_earlier y h val v rest).
Qed.

(** ** The replacement template of [write_cargo_version] *)

Lemma parse_template_literal g v t :
  all_chars (is_not backslash) v = true →
  parse_template g TNormal (v +:+ t)
  = match parse_template g TNormal t with
    | Ok l => Ok (tlits v ++ l)
    | Raise e => Raise e
    end.
Proof.
  induction v as [|c v IH]; intros Hv.
  - rewrite app_empty_l. by destruct (parse_template g TNormal t).
  - simpl in Hv. apply andb_prop in Hv as [Hc Hv].
    unfold is_not in Hc. apply negb_true_iff in Hc.
    rewrite app_String. cbn [parse_template]. rewrite Hc, (IH Hv).
    by destruct (parse_template g TNormal t).
Qed.

(** A version text without backslash stands for itself between the two
    group references. *)
Lemma parse_cargo_template v :
  all_chars (is_not backslash) v = true →
  parse_template 2 TNormal ("\g<1>" +:+ v +:+ "\g<2>")
  = Ok (TGroup 1 :: tlits v ++ [TGroup 2]).
Proof.
  intros Hv.
  change (parse_template 2 TNormal ("\g<1>" +:+ v +:+ "\g<2>"))
    with (cons_item (group_ref 2 1) (parse_template 2 TNormal (v +:+ "\g<2>"))).
  rewrite (parse_template_literal 2 v "\g<2>" Hv). reflexivity.
Qed.

Lemma expand_tlits T start f v l :
  expand T start f (tlits v ++ l) = v +:+ expand T start f l.
Proof. induction v as [|c v IH]; [done|]. simpl. by rewrite IH. Qed.

(** ** Universal newlines *)

Lemma universal_newlines_no_cr_aux s :
  all_chars (is_not CR) (universal_newlines s) = true
  ∧ ∀ c, all_chars (is_not CR) (universal_newlines (String c s)) = true.
Proof.
  induction s as [|d s [IH1 IH2]].
  - split; [done|]. intros c. simpl. destruct (ascii_eqb c CR) eqn:E; [done|].
    simpl. unfold is_not at 1. by rewrite E.
  - split; [apply IH2|]. intros c.
    change (universal_newlines (String c (String d s)))
      with (if ascii_eqb c CR then
              if ascii_eqb d LF then String LF (universal_newlines s)
              else String LF (universal_newlines (String d s))
            else String c (universal_newlines (String d s))).
    destruct (ascii_eqb c CR) eqn:E.
    + destruct (ascii_eqb d LF); cbn [all_chars]; by rewrite ?IH1, ?IH2.
    + cbn [all_chars]. unfold is_not at 1. by rewrite E, IH2.
Qed.

Lemma universal_newlines_no_cr s :
  all_chars (is_not CR) (universal_newlines s) = true.
Proof. apply universal_newlines_no_cr_aux. Qed.

Lemma universal_newlines_id s :
  all_chars (is_not CR) s = true → universal_newlines s = s.
Proof.
  induction s as [|c s IH]; [done|]. simpl. unfold is_not at 1.
  intros [Hc Hs]%andb_prop. apply negb_true_iff in Hc.
  by rewrite Hc, (IH Hs).
Qed.

(** ** Reading and writing the key-assignment file *)

Ltac reassoc :=
  repeat (rewrite ?app_assoc', ?app_String, ?app_empty_l); try reflexivity.

Lemma cargo_key_line ws1 ws2 val rest :
  cargo_key ws1 ws2 +:+ val +:+ String dq rest
  = "version" +:+ ws1 +:+ String "=" (ws2 +:+ String dq (val +:+ String dq rest)).
Proof. unfold cargo_key. reassoc. Qed.

Lemma cargo_key_length ws1 ws2 :
  String.length (cargo_key ws1 ws2)
  = (7 + String.length ws1 + 1 + String.length ws2 + 1)%nat.
Proof.
  unfold cargo_key. rewrite !length_app'. cbn [String.length].
  rewrite length_app'. cbn [String.length]. lia.
Qed.

Section Cargo.
Context `{Runtime} `{Json}.

Lemma bind_read_text {A} path (k : string → IO A) w content :
  files w !! path = Some content →
  (read_text path ≫= k) w = k (universal_newlines content) w.
Proof.
  intros Hf. unfold mbind, IO_bind, io_bind, read_text. by rewrite Hf.
Qed.

Lemma search_read_cargo_text pre ws1 ws2 val rest :
  all_chars is_space ws1 = true → all_chars is_space ws2 = true →
  all_chars not_dq val = true → val ≠ "" →
  first_version_line pre (cargo_key ws1 ws2 +:+ val +:+ String dq rest) →
  ∃ f, search true CARGO_READ_RE (cargo_text pre ws1 ws2 val rest)
       = Some (String.length pre, f)
       ∧ group (cargo_text pre ws1 ws2 val rest) (String.length pre) f 1 = Some val.
Proof.
  intros Hw1 Hw2 Hv Hne Hfirst. unfold cargo_text.
  rewrite (search_first_version_line CARGO_READ_RE) by auto using cargo_read_matches.
  destruct Hfirst as [[Hbol _] _]. rewrite cargo_key_line.
  destruct (run_cargo_read (prev_after None pre) (String.length pre) ws1 ws2 val rest)
    as (p1 & p2 & -> & Hp1 & Hp2); try done.
  eexists. split; [done|].
  unfold group. cbn [mark_pos snd Nat.eqb Bool.eqb andb mbind option_bind].
  f_equal. rewrite <- cargo_key_line, <- app_assoc'.
  apply slice_app; [|done].
  rewrite length_app', cargo_key_length. lia.
Qed.

Lemma sub_cargo_text pre ws1 ws2 val rest v :
  all_chars is_space ws1 = true → all_chars is_space ws2 = true →
  all_chars not_dq val = true → val ≠ "" →
  first_version_line pre (cargo_key ws1 ws2 +:+ val +:+ String dq rest) →
  all_chars (is_not backslash) v = true →
  sub1 true CARGO_WRITE_RE 2 ("\g<1>" +:+ v +:+ "\g<2>")
    (cargo_text pre ws1 ws2 val rest)
  = Ok (cargo_text pre ws1 ws2 v rest).
Proof.
  intros Hw1 Hw2 Hv Hne Hfirst Hbs. unfold sub1.
  rewrite parse_cargo_template by done. cbn [mbind result_bind rbind].
  unfold cargo_text at 1.
  rewrite (search_first_version_line CARGO_WRITE_RE) by auto using cargo_write_matches.
  destruct Hfirst as [[Hbol _] _]. rewrite cargo_key_line.
  destruct (run_cargo_write (prev_after None pre) (String.length pre) ws1 ws2 val rest)
    as (p1 & p2 & -> & Hp1 & Hp2); try done.
  cbn [fmap option_fmap option_map fst snd].
  f_equal. cbn [expand]. rewrite expand_tlits. cbn [expand].
  unfold group. cbn [mark_pos snd fst Nat.eqb Bool.eqb andb mbind option_bind].
  assert (Hlen : String.length (pre +:+ cargo_key ws1 ws2) = p1).
  { rewrite length_app', cargo_key_length. lia. }
  set (T := cargo_text pre ws1 ws2 val rest).
  assert (E0 : slice 0 (String.length pre) T = pre).
  { unfold T, cargo_text. by apply slice_prefix. }
  assert (E1 : slice (String.length pre) p1 T = cargo_key ws1 ws2).
  { unfold T, cargo_text. apply slice_app; [done|]. rewrite cargo_key_length. lia. }
  assert (E2 : slice p2 (S p2) T = String dq "").
  { replace T with ((pre +:+ cargo_key ws1 ws2 +:+ val) +:+ String dq "" +:+ rest)
      by (unfold T, cargo_text; reassoc).
    apply slice_app; [|cbn [String.length]; lia].
    rewrite !length_app', cargo_key_length. lia. }
  assert (E3 : drop (S p2) T = rest).
  { replace T with ((pre +:+ cargo_key ws1 ws2 +:+ val +:+ String dq "") +:+ rest)
      by (unfold T, cargo_text; reassoc).
    apply drop_app.
    rewrite !length_app', cargo_key_length. cbn [String.length]. lia. }
  rewrite E0, E1, E2, E3. unfold cargo_text. reassoc.
Qed.

Lemma search_from_none ml r :
  ∀ T prev pos,
    search_from ml r prev pos T = None ↔
    ∀ x y, T = x +:+ y →
      run ml r [] (prev_after prev x) (pos + String.length x) y = None.
Proof.
  induction T as [|c T IH]; intros prev pos; rewrite search_from_unfold.
  - split.
    + intros Hs x y Hxy. destruct x, y; try done.
      cbn [prev_after String.length]. rewrite Nat.add_0_r.
      by destruct (run ml r [] prev pos "").
    + intros Hx. specialize (Hx "" "" eq_refl).
      cbn [prev_after String.length] in Hx. rewrite Nat.add_0_r in Hx.
      by rewrite Hx.
  - split.
    + intros Hs x y Hxy.
      destruct (run ml r [] prev pos (String c T)) eqn:E; [done|].
      destruct x as [|c' x].
      * rewrite app_empty_l in Hxy. subst y.
        cbn [prev_after String.length]. by rewrite Nat.add_0_r.
      * rewrite app_String in Hxy. injection Hxy as <- ->.
        cbn [prev_after String.length]. rewrite Nat.add_succ_r.
        by apply (proj1 (IH _ _) Hs).
    + intros Hx. pose proof (Hx "" (String c T) eq_refl) as Hhere.
      cbn [prev_after String.length] in Hhere. rewrite Nat.add_0_r in Hhere.
      rewrite Hhere. apply IH. intros x y ->.
      specialize (Hx (String c x) y eq_refl).
      cbn [prev_after String.length] in Hx. by rewrite Nat.add_succ_r in Hx.
Qed.

(** A pattern of the file finds nothing exactly when no line of the text
    is a version assignment. *)
Lemma search_none_iff r T :
  (∀ prev pos t, is_Some (run true r [] prev pos t)
                 ↔ at_bol true prev = true ∧ cargo_line t) →
  search true r T = None ↔ no_version_line T.
Proof.
  intros Hr. unfold search, no_version_line. rewrite search_from_none. split.
  - intros Hn pre s -> Hat. unfold version_line_at in Hat.
    rewrite <- (Hr _ (0 + String.length pre)%nat) in Hat.
    rewrite (Hn pre s eq_refl) in Hat. by destruct Hat.
  - intros Hn x y ->. apply is_Some_None. rewrite Hr. by apply Hn.
Qed.

Lemma read_cargo_version_found path w content pre ws1 ws2 val rest :
  files w !! path = Some content →
  universal_newlines content = cargo_text pre ws1 ws2 val rest →
  all_chars is_space ws1 = true → all_chars is_space ws2 = true →
  all_chars not_dq val = true → val ≠ "" →
  first_version_line pre (cargo_key ws1 ws2 +:+ val +:+ String dq rest) →
  read_cargo_version path w = (w, Ok val).
Proof.
  intros Hf HT Hw1 Hw2 Hv Hne Hfirst. unfold read_cargo_version.
  rewrite (bind_read_text _ _ _ _ Hf), HT.
  destruct (search_read_cargo_text pre ws1 ws2 val rest) as (f & -> & ->); done.
Qed.

Lemma read_cargo_version_inv path w w' old :
  read_cargo_version path w = (w', Ok old) →
  ∃ content pre ws1 ws2 rest,
    w' = w ∧ files w !! path = Some content
    ∧ universal_newlines content = cargo_text pre ws1 ws2 old rest
    ∧ all_chars is_space ws1 = true ∧ all_chars is_space ws2 = true
    ∧ all_chars not_dq old = true ∧ old ≠ ""
    ∧ first_version_line pre (cargo_key ws1 ws2 +:+ old +:+ String dq rest).
Proof.
  unfold read_cargo_version.
  destruct (files w !! path) as [content|] eqn:Hf.
  2:{ unfold mbind, IO_bind, io_bind, read_text. by rewrite Hf. }
  rewrite (bind_read_text _ _ _ _ Hf).
  destruct (search true CARGO_READ_RE (universal_newlines content))
    as [[start f]|] eqn:Hs; [|done].
  pose proof Hs as Hs'.
  apply (search_inv_first_version_line CARGO_READ_RE) in Hs'
      as (pre & s & HT & -> & Hfirst); [|apply cargo_read_matches].
  pose proof Hfirst as [[_ Hline] _].
  apply cargo_line_elim in Hline as (ws1 & ws2 & val & rest & -> & ? & ? & ? & ?).
  rewrite <- cargo_key_line in HT, Hfirst.
  destruct (search_read_cargo_text pre ws1 ws2 val rest) as (f' & Hs2 & Hg); try done.
  unfold cargo_text in Hs2, Hg. rewrite <- HT, Hs in Hs2. injection Hs2 as <-.
  rewrite HT, Hg. intros [= <- <-].
  exists content, pre, ws1, ws2, rest. done.
Qed.

Lemma write_cargo_version_found path w content pre ws1 ws2 val rest v :
  files w !! path = Some content →
  universal_newlines content = cargo_text pre ws1 ws2 val rest →
  all_chars is_space ws1 = true → all_chars is_space ws2 = true →
  all_chars not_dq val = true → val ≠ "" →
  first_version_line pre (cargo_key ws1 ws2 +:+ val +:+ String dq rest) →
  all_chars (is_not backslash) v = true →
  write_cargo_version path (PStr v) w
  = (World (<[path := cargo_text pre ws1 ws2 v rest]> (files w)) (stdout w), Ok tt).
Proof.
  intros Hf HT Hw1 Hw2 Hv Hne Hfirst Hbs. unfold write_cargo_version.
  rewrite (bind_read_text _ _ _ _ Hf), HT. cbn [py_str].
  unfold mbind, IO_bind, io_bind, lift.
  by rewrite sub_cargo_text.
Qed.

Lemma write_cargo_version_missing path w content v :
  files w !! path = Some content →
  no_version_line (universal_newlines content) →
  all_chars (is_not backslash) v = true →
  write_cargo_version path (PStr v) w
  = (World (<[path := universal_newlines content]> (files w)) (stdout w), Ok tt).
Proof.
  intros Hf Hno Hbs. unfold write_cargo_version.
  rewrite (bind_read_text _ _ _ _ Hf). cbn [py_str].
  unfold mbind, IO_bind, io_bind, lift, sub1.
  rewrite parse_cargo_template by done. cbn [mbind result_bind rbind].
  apply (search_none_iff CARGO_WRITE_RE) in Hno as ->; [done|].
  apply cargo_write_matches.
Qed.

Lemma read_cargo_version_missing path w content :
  files w !! path = Some content →
  no_version_line (universal_newlines content) →
  read_cargo_version path w = (w, Raise (ValueError (VersionNotFound path))).
Proof.
  intros Hf Hno. unfold read_cargo_version.
  rewrite (bind_read_text _ _ _ _ Hf).
  apply (search_none_iff CARGO_READ_RE) in Hno as ->; [done|].
  apply cargo_read_matches.
Qed.

End Cargo.

(** ** The commands *)

Section Commands.
Context {R : Runtime} {J : Json}.

(** A text the pattern does not match: two lines are printed, the process
    exits with status 1, no file is touched. *)
Lemma cmd_set_rejects version w :
  rematch VERSION_RE version = None →
  cmd_set version w
  = (World (files w)
       (stdout w ++ ["❌ Invalid version format: " +:+ version;
                     "   Expected: X.Y.Z (e.g., 1.0.0)"]),
     Raise (SystemExit 1)).
Proof.
  intros Hv. unfold cmd_set. rewrite Hv. cbn.
  unfold mbind, IO_bind, io_bind, print, raise. cbn.
  by rewrite <- app_assoc.
Qed.

(** A text the pattern matches is handed to [set_all_versions]. *)
Lemma cmd_set_accepts version w :
  is_Some (rematch VERSION_RE version) →
  cmd_set version w
  = (print ("📝 Setting version to " +:+ version);;
     set_all_versions (PStr version);;
     print "✓ Done!") w.
Proof.
  intros Hv. unfold cmd_set. rewrite bool_decide_true by done. reflexivity.
Qed.

End Commands.

(** C2 (the code departs from the claim).  [cmd_set] accepts the text
    [1.2.3] followed by a newline, which is not a version text, and writes
    it, newline included, into the manifest. *)
Theorem cmd_set_accepts_trailing_newline :
  ∀ (R : Runtime) (J : Json),
    valid_version ("1.2.3" +:+ NL) = false
    ∧ cmd_set ("1.2.3" +:+ NL) (cargo_only cargo_sample)
      = (World {[ CARGO_PATH := cargo_sample_with ("1.2.3" +:+ NL) ]}
           ["📝 Setting version to 1.2.3" +:+ NL;
            "  ✓ youtube-downloader/src-tauri/Cargo.toml: 1.2.3" +:+ NL;
            "✓ Done!"],
         Ok tt).
Proof. intros R J. split; vm_compute; reflexivity. Qed.

(** C3 (the code departs from the claim).  [cmd_sync] with an explicit
    target never checks its format: a target that [cmd_set] rejects is
    written into the manifest. *)
Theorem cmd_sync_target_not_validated :
  ∀ (R : Runtime) (J : Json),
    valid_version "not-a-version" = false
    ∧ rematch VERSION_RE "not-a-version" = None
    ∧ cmd_sync (Some "not-a-version") (cargo_only cargo_sample)
      = (World {[ CARGO_PATH := cargo_sample_with "not-a-version" ]}
           ["🔄 Syncing all files to version not-a-version";
            "  ✓ youtube-downloader/src-tauri/Cargo.toml: not-a-version";
            "✓ Done!"],
         Ok tt).
Proof. intros R J. repeat split; vm_compute; reflexivity. Qed.

(** C9 (the code departs from the claim).  On a manifest without a version
    line the read raises [ValueError], but the write returns normally and
    leaves the text as it was; [set_all_versions] then reports the file as
    written. *)
Theorem write_cargo_version_without_version_line :
  ∀ (R : Runtime) (J : Json),
    read_cargo_version CARGO_PATH (cargo_only cargo_no_version)
      = (cargo_only cargo_no_version, Raise (ValueError (VersionNotFound CARGO_PATH)))
    ∧ write_cargo_version CARGO_PATH (PStr "2.3.4") (cargo_only cargo_no_version)
      = (cargo_only cargo_no_version, Ok tt)
    ∧ set_all_versions (PStr "2.3.4") (cargo_only cargo_no_version)
      = (World {[ CARGO_PATH := cargo_no_version ]}
           ["  ✓ youtube-downloader/src-tauri/Cargo.toml: 2.3.4"],
         Ok tt).
Proof. intros R J. repeat split; vm_compute; reflexivity. Qed.


(** ** Steps of the [IO] monad *)

Lemma bind_print {A} line (k : unit → IO A) w :
  (print line ≫= k) w = k tt (World (files w) (stdout w ++ [line])).
Proof. reflexivity. Qed.

Lemma bind_ret {A B} (x : A) (k : A → IO B) w : (mret x ≫= k) w = k x w.
Proof. reflexivity. Qed.

Lemma bind_lift_ok {A B} (x : A) (k : A → IO B) w : (lift (Ok x) ≫= k) w = k x w.
Proof. reflexivity. Qed.

Lemma bind_lift_raise {A B} e (k : A → IO B) w :
  (lift (Raise e) ≫= k) w = (w, Raise e).
Proof. reflexivity. Qed.

Lemma bind_path_exists {A} path (k : bool → IO A) w :
  (path_exists path ≫= k) w = k (bool_decide (is_Some (files w !! path))) w.
Proof. reflexivity. Qed.

Lemma bind_assoc {A B C} (m : IO A) (k : A → IO B) (k' : B → IO C) w :
  ((m ≫= k) ≫= k') w = (m ≫= λ x, k x ≫= k') w.
Proof.
  unfold mbind, IO_bind, io_bind. destruct (m w) as [w' [a|e]]; reflexivity.
Qed.

Lemma version_file_npm : version_file "npm" = "youtube-downloader/package.json".
Proof. reflexivity. Qed.
Lemma version_file_cargo :
  version_file "tauri_cargo" = "youtube-downloader/src-tauri/Cargo.toml".
Proof. reflexivity. Qed.
Lemma version_file_conf :
  version_file "tauri_conf" = "youtube-downloader/src-tauri/tauri.conf.json".
Proof. reflexivity. Qed.

Lemma not_is_Some_None {A} : ¬ is_Some (@None A).
Proof. by intros [? ?]. Qed.

Lemma get_all_versions_none (R : Runtime) (J : Json) (w : world) :
  Forall (λ nf, files w !! nf.2 = None) VERSION_FILES →
  get_all_versions w = (w, Ok []).
Proof.
  intros Hnone. unfold VERSION_FILES in Hnone.
  apply Forall_cons in Hnone as [H1 Hnone].
  apply Forall_cons in Hnone as [H2 Hnone].
  apply Forall_cons in Hnone as [H3 _]. cbn [snd] in H1, H2, H3.
  unfold get_all_versions.
  rewrite version_file_npm, version_file_cargo, version_file_conf.
  rewrite bind_path_exists, H1, bool_decide_false by apply not_is_Some_None.
  rewrite bind_ret.
  rewrite bind_path_exists, H2, bool_decide_false by apply not_is_Some_None.
  rewrite bind_ret.
  rewrite bind_path_exists, H3, bool_decide_false by apply not_is_Some_None.
  reflexivity.
Qed.

Lemma bind_result {A B} (m : IO A) (k : A → IO B) w w' r :
  m w = (w', r) →
  (m ≫= k) w = match r with Ok a => k a w' | Raise e => (w', Raise e) end.
Proof. intros Hm. unfold mbind, IO_bind, io_bind. by rewrite Hm. Qed.

(** C10.  When none of the three manifest files exists, [cmd_status] prints
    its two heading lines and then raises [ValueError] from [max] over the
    empty collection of names: it reports neither "synchronized" nor "out of
    sync", and the process ends with status 1. *)
Theorem cmd_status_without_manifests (R : Runtime) (J : Json) (w : world) :
  Forall (λ nf, files w !! nf.2 = None) VERSION_FILES →
  ∃ printed,
    cmd_status w
    = (World (files w) (stdout w ++ printed), Raise (ValueError MaxEmptySequence))
    ∧ printed = ["📦 YouTube Downloader Version Status"; repeat_str "━" 50]
    ∧ ("✓ All versions synchronized" ∉ printed)
    ∧ ("⚠ Versions out of sync!" ∉ printed)
    ∧ exit_status (cmd_status w).2 = 1.
Proof.
  intros Hnone.
  assert (Hrun : cmd_status w
    = (World (files w)
         (stdout w ++ ["📦 YouTube Downloader Version Status"; repeat_str "━" 50]),
       Raise (ValueError MaxEmptySequence))).
  { unfold cmd_status. rewrite !bind_print.
    cbn [files stdout].
    erewrite bind_result; [|apply (get_all_versions_none R J); exact Hnone].
    cbn. by rewrite <- app_assoc. }
  eexists. split; [exact Hrun|]. split; [reflexivity|].
  rewrite Hrun. cbn [snd exit_status].
  repeat split; try done.
  - intros Hin. apply list_elem_of_In in Hin. cbn in Hin.
    destruct Hin as [Hin|[Hin|[]]]; by vm_compute in Hin.
  - intros Hin. apply list_elem_of_In in Hin. cbn in Hin.
    destruct Hin as [Hin|[Hin|[]]]; by vm_compute in Hin.
Qed.

(** ** Round trip through the key-assignment file *)

Lemma version_char_facts c :
  is_digit c || ascii_eqb c "." = true →
  not_dq c = true ∧ is_not backslash c = true ∧ is_not CR c = true.
Proof. destruct c as [[] [] [] [] [] [] [] []]; by cbn. Qed.

Lemma valid_version_chars v :
  valid_version v = true →
  all_chars (λ c, is_digit c || ascii_eqb c ".") v = true ∧ v ≠ "".
Proof.
  intros (a & b & c & -> & Ha & Hb & Hc)%valid_version_iff.
  apply numeral_spec in Ha as [Hane Ha], Hb as [_ Hb], Hc as [_ Hc].
  split; [|by destruct a].
  assert (Hd : ∀ s, all_chars is_digit s = true →
                    all_chars (λ c, is_digit c || ascii_eqb c ".") s = true).
  { intros s. apply all_chars_impl. by intros x ->. }
  rewrite !all_chars_app. cbn [all_chars].
  rewrite (Hd a Ha), (Hd b Hb), (Hd c Hc). reflexivity.
Qed.

Lemma valid_version_safe v :
  valid_version v = true →
  all_chars not_dq v = true ∧ all_chars (is_not backslash) v = true
  ∧ all_chars (is_not CR) v = true ∧ v ≠ "".
Proof.
  intros [Hv Hne]%valid_version_chars.
  repeat split; [..|done];
    (eapply all_chars_impl; [|exact Hv]); intros c Hc;
    by destruct (version_char_facts c Hc) as (? & ? & ?).
Qed.

Lemma cargo_key_head ws1 ws2 val rest :
  cargo_key ws1 ws2 +:+ val +:+ String dq rest
  = ("version" +:+ ws1 +:+ String "=" ws2) +:+ String dq (val +:+ String dq rest).
Proof. unfold cargo_key. reassoc. Qed.

Lemma cargo_text_no_cr pre ws1 ws2 val rest v :
  all_chars (is_not CR) (cargo_text pre ws1 ws2 val rest) = true →
  all_chars (is_not CR) v = true →
  all_chars (is_not CR) (cargo_text pre ws1 ws2 v rest) = true.
Proof.
  unfold cargo_text. rewrite !all_chars_app. cbn [all_chars].
  rewrite !andb_true_iff. intros (-> & -> & _ & -> & ->) ->. done.
Qed.

Section CargoRoundTrip.
Context {R : Runtime} {J : Json}.

(** Writing a text without quote, backslash or carriage return into the
    first version line and reading the file again gives that text. *)
Lemma cargo_round_trip path w old v :
  read_cargo_version path w = (w, Ok old) →
  all_chars not_dq v = true → all_chars (is_not backslash) v = true →
  all_chars (is_not CR) v = true → v ≠ "" →
  ∃ w', write_cargo_version path (PStr v) w = (w', Ok tt)
        ∧ read_cargo_version path w' = (w', Ok v).
Proof.
  intros (content & pre & ws1 & ws2 & rest & _ & Hf & HT & Hw1 & Hw2 & Hold & Hne
          & Hfirst)%read_cargo_version_inv Hq Hbs Hcr Hv.
  eexists. split.
  - by apply (write_cargo_version_found path w content pre ws1 ws2 old rest v).
  - apply (read_cargo_version_found path _ (cargo_text pre ws1 ws2 v rest)
             pre ws1 ws2 v rest); try done.
    + cbn [files]. apply lookup_insert_eq.
    + apply universal_newlines_id.
      apply (cargo_text_no_cr pre ws1 ws2 old rest v); [|done].
      rewrite <- HT. apply universal_newlines_no_cr.
    + rewrite cargo_key_head in Hfirst |- *.
      apply (first_version_line_subst pre _ old v rest); try done.
      by exists ws1, ws2.
Qed.

End CargoRoundTrip.


(** ** Round trip through the JSON manifests *)

Lemma dict_get_set k v d : dict_get k (dict_set k v d) = Some v.
Proof.
  induction d as [|[k' v'] d IH]; simpl.
  - by rewrite String.eqb_refl.
  - destruct (String.eqb k k') eqn:E; simpl; rewrite ?String.eqb_refl, ?E; done.
Qed.

Lemma no_dup_keys_set k v d :
  ∀ seen, no_dup_keys seen d = true → k ∉ seen →
          no_dup_keys seen (dict_set k v d) = true.
Proof.
  induction d as [|[k' v'] d IH]; intros seen Hd Hk; simpl.
  - by rewrite bool_decide_false.
  - simpl in Hd. apply andb_prop in Hd as [Hk' Hd].
    destruct (String.eqb k k') eqn:E.
    + apply String.eqb_eq in E as ->. simpl. by rewrite Hk', Hd.
    + apply String.eqb_neq in E. simpl. rewrite Hk'. simpl.
      apply IH; [done|]. rewrite not_elem_of_cons. done.
Qed.

Section JsonRoundTrip.
Context {R : Runtime} {J : Json} {L : JsonLaws J}.

Lemma json_value_set k v d :
  json_value (PDict d) = true → json_value v = true →
  json_value (PDict (dict_set k v d)) = true.
Proof.
  cbn [json_value]. intros [Hk Hv]%andb_prop Hx.
  rewrite (no_dup_keys_set k v d [] Hk) by apply not_elem_of_nil.
  simpl. clear Hk. induction d as [|[k' v'] d IH]; simpl.
  - by rewrite Hx.
  - simpl in Hv. apply andb_prop in Hv as [Hv' Hv].
    destruct (String.eqb k k'); simpl; rewrite ?Hx, ?Hv', ?Hv, ?IH; done.
Qed.

Lemma json_read_inv path w w' old :
  read_package_json_version path w = (w', Ok old) →
  ∃ content d,
    w' = w ∧ files w !! path = Some content
    ∧ json_loads (universal_newlines content) = Some (PDict d).
Proof.
  unfold read_package_json_version.
  destruct (files w !! path) as [content|] eqn:Hf.
  2:{ unfold mbind, IO_bind, io_bind, read_text. by rewrite Hf. }
  rewrite (bind_read_text _ _ _ _ Hf). unfold loads.
  destruct (json_loads (universal_newlines content)) as [data|] eqn:Hl; [|done].
  rewrite bind_ret. destruct data; try done.
  intros [= <- _]. eauto.
Qed.

(** Writing a version into a JSON manifest that can be read and reading it
    again gives that version. *)
Lemma package_json_round_trip path w old v :
  read_package_json_version path w = (w, Ok old) →
  ∃ w', write_package_json_version path (PStr v) w = (w', Ok tt)
        ∧ read_package_json_version path w' = (w', Ok (PStr v)).
Proof.
  intros (content & d & _ & Hf & Hl)%json_read_inv.
  pose proof (loads_value _ _ Hl) as Hd.
  eexists. split.
  - unfold write_package_json_version.
    rewrite (bind_read_text _ _ _ _ Hf). unfold loads. rewrite Hl, bind_ret.
    cbn [setitem]. rewrite bind_lift_ok. reflexivity.
  - unfold read_package_json_version.
    erewrite bind_read_text; [|cbn [files]; apply lookup_insert_eq].
    unfold loads. rewrite loads_dumps by (by apply json_value_set).
    rewrite bind_ret. cbn [get]. by rewrite dict_get_set.
Qed.

Lemma tauri_conf_round_trip path w old v :
  read_tauri_conf_version path w = (w, Ok old) →
  ∃ w', write_tauri_conf_version path (PStr v) w = (w', Ok tt)
        ∧ read_tauri_conf_version path w' = (w', Ok (PStr v)).
Proof. apply package_json_round_trip. Qed.

End JsonRoundTrip.


(** ** The small JSON codec meets the laws *)

Import MiniJson.

Lemma pyval_ind' (P : pyval → Prop) :
  P PNone → (∀ b, P (PBool b)) → (∀ z, P (PInt z)) → (∀ q, P (PFloat q)) →
  (∀ s, P (PStr s)) →
  (∀ l, Forall P l → P (PList l)) →
  (∀ d, Forall (λ kv, P kv.2) d → P (PDict d)) →
  ∀ v, P v.
Proof.
  intros HN HB HI HF HS HL HD. fix IH 1. intros [|b|z|q|s|l|d].
  - exact HN.
  - apply HB.
  - apply HI.
  - apply HF.
  - apply HS.
  - apply HL. induction l as [|x l IHl]; constructor; [apply IH|exact IHl].
  - apply HD. induction d as [|[k x] d IHd]; constructor; [apply IH|exact IHd].
Qed.

(** *** String literals *)

Lemma hex_value_digit k : (k < 16)%N → hex_value (hex_digit k) = Some k.
Proof.
  intros Hk. destruct k as [|p]; [reflexivity|].
  do 4 (destruct p as [p|p|]; try lia; try reflexivity).
Qed.

Lemma parse_u_escape h3 h4 n t r rest :
  hex4 "0" "0" h3 h4 = Some n → (n <? 128)%N = true →
  parse_string_body t = Some (r, rest) →
  parse_string_body
    (String backslash (String "u" (String "0" (String "0" (String h3 (String h4 t))))))
  = Some (String (ascii_of_N n) r, rest).
Proof.
  intros H1 H2 H3. cbn [parse_string_body].
  change (ascii_eqb backslash dq) with false.
  change (ascii_eqb backslash backslash) with true.
  change (ascii_eqb "u" "u") with true. cbn iota.
  by rewrite H1, H2, H3.
Qed.

Lemma parse_letter_escape e x t r rest :
  ascii_eqb e "u" = false → unescape e = Some x →
  parse_string_body t = Some (r, rest) →
  parse_string_body (String backslash (String e t)) = Some (String x r, rest).
Proof.
  intros H1 H2 H3. cbn [parse_string_body].
  change (ascii_eqb backslash dq) with false.
  change (ascii_eqb backslash backslash) with true. cbn iota.
  by rewrite H1, H2, H3.
Qed.

Lemma parse_escape_char c t r rest :
  parse_string_body t = Some (r, rest) →
  parse_string_body (escape_char c +:+ t) = Some (String c r, rest).
Proof.
  intros Ht. unfold escape_char.
  destruct (ascii_eqb c dq) eqn:E1.
  { apply ascii_eqb_eq in E1 as ->. rewrite !app_String, app_empty_l.
    by apply parse_letter_escape. }
  destruct (ascii_eqb c backslash) eqn:E2.
  { apply ascii_eqb_eq in E2 as ->. rewrite !app_String, app_empty_l.
    by apply parse_letter_escape. }
  destruct (ascii_eqb c LF) eqn:E3.
  { apply ascii_eqb_eq in E3 as ->. rewrite !app_String, app_empty_l.
    by apply parse_letter_escape. }
  destruct (ascii_eqb c CR) eqn:E4.
  { apply ascii_eqb_eq in E4 as ->. rewrite !app_String, app_empty_l.
    by apply parse_letter_escape. }
  destruct (ascii_eqb c (ascii_of_nat 9)) eqn:E5.
  { apply ascii_eqb_eq in E5 as ->. rewrite !app_String, app_empty_l.
    by apply parse_letter_escape. }
  destruct (ascii_eqb c (ascii_of_nat 8)) eqn:E6.
  { apply ascii_eqb_eq in E6 as ->. rewrite !app_String, app_empty_l.
    by apply parse_letter_escape. }
  destruct (ascii_eqb c (ascii_of_nat 12)) eqn:E7.
  { apply ascii_eqb_eq in E7 as ->. rewrite !app_String, app_empty_l.
    by apply parse_letter_escape. }
  destruct (code c <? 32)%N eqn:E8.
  - apply N.ltb_lt in E8. rewrite !app_String, app_empty_l.
    rewrite <- (ascii_N_embedding c) at 3.
    apply parse_u_escape; [|apply N.ltb_lt; unfold code in E8; lia|done].
    unfold hex4. change (hex_value "0") with (Some 0%N). cbn [mbind option_bind].
    rewrite !hex_value_digit
      by first [ by apply N.mod_lt
               | apply N.Div0.div_lt_upper_bound; unfold code in *; lia ].
    cbn [mbind option_bind]. f_equal. unfold code.
    pose proof (N.div_mod (N_of_ascii c) 16). lia.
  - rewrite !app_String, app_empty_l. cbn [parse_string_body].
    by rewrite E1, E2, E8, Ht.
Qed.

Lemma parse_escape s rest :
  parse_string_body (escape s +:+ String dq rest) = Some (s, rest).
Proof.
  induction s as [|c s IH].
  - rewrite app_empty_l. reflexivity.
  - cbn [escape]. rewrite app_assoc'. by apply parse_escape_char.
Qed.

(** *** Integer literals *)

Lemma str_of_Z_sign z :
  str_of_Z z = if (z <? 0)%Z then String "-" (str_of_N (Z.abs_N z))
               else str_of_N (Z.abs_N z).
Proof. by destruct z. Qed.

Lemma parse_int_digits (negative : bool) n rest :
  tail_ok rest →
  (let digits := take_while is_digit (str_of_N n +:+ rest) in
   let rest' := lstrip is_digit (str_of_N n +:+ rest) in
   match rest' with
   | String c _ =>
       if is_float_mark c then None
       else x ← int_digits digits 0 false;
            Some (if negative then (- Z.of_N x)%Z else Z.of_N x, rest')
   | EmptyString =>
       x ← int_digits digits 0 false;
       Some (if negative then (- Z.of_N x)%Z else Z.of_N x, rest')
   end) = Some (if negative then (- Z.of_N n)%Z else Z.of_N n, rest).
Proof.
  intros Hrest. cbn zeta.
  destruct (take_while_app is_digit (str_of_N n) rest) as [-> ->].
  { apply str_of_N_digits. }
  { destruct rest; [done|]. apply Hrest. }
  rewrite int_digits_str_of_N. cbn [mbind option_bind].
  destruct rest as [|c rest]; [done|]. destruct Hrest as [_ ->]. done.
Qed.

Lemma parse_int_print z rest :
  tail_ok rest → parse_int (str_of_Z z +:+ rest) = Some (z, rest).
Proof.
  intros Hrest. rewrite str_of_Z_sign. destruct (z <? 0)%Z eqn:Hz.
  - rewrite app_String. unfold parse_int.
    change (ascii_eqb "-" "-") with true. cbn iota.
    rewrite (parse_int_digits true) by done. f_equal. f_equal. lia.
  - pose proof (str_of_N_nonempty (Z.abs_N z)) as Hne.
    pose proof (str_of_N_digits (Z.abs_N z)) as Hd.
    unfold parse_int.
    destruct (str_of_N (Z.abs_N z)) as [|c d] eqn:E; [done|].
    rewrite app_String. cbn [all_chars] in Hd. apply andb_prop in Hd as [Hc _].
    apply digit_facts in Hc as (_ & Hc & _). apply ascii_eqb_neq in Hc.
    rewrite Hc. rewrite <- app_String, <- E.
    rewrite (parse_int_digits false) by done. f_equal. f_equal. lia.
Qed.

(** *** Values *)

Lemma skip_ws_app a s : all_chars is_ws a = true → skip_ws (a +:+ s) = skip_ws s.
Proof.
  induction a as [|c a IH]; [done|]. cbn [all_chars].
  intros [Hc Ha]%andb_prop. rewrite app_String. unfold skip_ws. cbn [lstrip].
  rewrite Hc. by apply IH.
Qed.

Lemma skip_ws_head c s : is_ws c = false → skip_ws (String c s) = String c s.
Proof. intros Hc. unfold skip_ws. cbn [lstrip]. by rewrite Hc. Qed.

Lemma parse_value_ws f a s :
  all_chars is_ws a = true → parse_value f (a +:+ s) = parse_value f s.
Proof. intros Ha. destruct f; [done|]. cbn [parse_value]. by rewrite skip_ws_app. Qed.

Lemma indent_ws n : all_chars is_ws (String LF (indent n)) = true.
Proof.
  cbn [all_chars]. change (is_ws LF) with true. cbn [andb]. unfold indent.
  induction (2 * n)%nat as [|m IH]; [done|]. cbn [repeat_char all_chars].
  by rewrite IH.
Qed.

Lemma int_lead_facts c :
  is_digit c || ascii_eqb c "-" = true →
  is_ws c = false ∧ ascii_eqb c "{" = false ∧ ascii_eqb c "[" = false
  ∧ ascii_eqb c dq = false ∧ ascii_eqb c "n" = false ∧ ascii_eqb c "t" = false
  ∧ ascii_eqb c "f" = false ∧ ascii_eqb c "]" = false ∧ ascii_eqb c "}" = false.
Proof. destruct c as [[] [] [] [] [] [] [] []]; by cbn. Qed.

Lemma str_of_Z_head z :
  ∃ c t, str_of_Z z = String c t ∧ is_digit c || ascii_eqb c "-" = true.
Proof.
  rewrite str_of_Z_sign. destruct (z <? 0)%Z; [by eexists _, _|].
  pose proof (str_of_N_nonempty (Z.abs_N z)) as Hne.
  pose proof (str_of_N_digits (Z.abs_N z)) as Hd.
  destruct (str_of_N (Z.abs_N z)) as [|c d]; [done|].
  cbn [all_chars] in Hd. apply andb_prop in Hd as [Hc _].
  exists c, d. by rewrite Hc.
Qed.

(** A printed value starts with a character that is neither white space nor
    a closing bracket. *)
Lemma print_value_head level v :
  ∃ c t, print_value level v = String c t
         ∧ is_ws c = false ∧ ascii_eqb c "]" = false ∧ ascii_eqb c "}" = false.
Proof.
  destruct v as [|[]|z|q|s|[|x l]|[|[k x] d]]; try (by eexists _, _).
  destruct (str_of_Z_head z) as (c & t & Hz & Hc).
  apply int_lead_facts in Hc as (? & _ & _ & _ & _ & _ & _ & ? & ?).
  exists c, t. done.
Qed.

Lemma print_value_length level v : (1 ≤ String.length (print_value level v))%nat.
Proof.
  destruct (print_value_head level v) as (c & t & -> & _). cbn. lia.
Qed.

Lemma print_string_app k t :
  print_string k +:+ t = String dq (escape k +:+ String dq t).
Proof. unfold print_string. by rewrite app_String, app_assoc', app_String. Qed.

Lemma parse_value_atom f c s' :
  is_ws c = false →
  parse_value (S f) (String c s')
  = if ascii_eqb c "{" then
      match skip_ws s' with
      | String c' r => if ascii_eqb c' "}" then Some (PDict [], r)
                       else parse_members f s' []
      | EmptyString => None
      end
    else if ascii_eqb c "[" then
      match skip_ws s' with
      | String c' r => if ascii_eqb c' "]" then Some (PList [], r)
                       else parse_elements f s' []
      | EmptyString => None
      end
    else if ascii_eqb c dq then
      match parse_string_body s' with
      | Some (x, r) => Some (PStr x, r)
      | None => None
      end
    else if ascii_eqb c "n" then r ← strip_prefix "ull" s'; Some (PNone, r)
    else if ascii_eqb c "t" then r ← strip_prefix "rue" s'; Some (PBool true, r)
    else if ascii_eqb c "f" then r ← strip_prefix "alse" s'; Some (PBool false, r)
    else match parse_int (String c s') with
         | Some (z, r) => Some (PInt z, r)
         | None => None
         end.
Proof. intros Hc. cbn [parse_value]. by rewrite skip_ws_head. Qed.

Lemma print_more_length {A} (item : A → string) closing l :
  (1 ≤ String.length closing)%nat →
  (1 ≤ String.length (print_more item closing l))%nat.
Proof.
  intros Hc. destruct l; [done|]. cbn [print_more].
  rewrite app_String. cbn [String.length]. lia.
Qed.

Lemma close_array_skip level rest :
  skip_ws (close_array level +:+ rest) = String "]" rest.
Proof.
  unfold close_array. rewrite app_assoc', skip_ws_app by apply indent_ws.
  by rewrite app_String, skip_ws_head.
Qed.

Lemma close_object_skip level rest :
  skip_ws (close_object level +:+ rest) = String "}" rest.
Proof.
  unfold close_object. rewrite app_assoc', skip_ws_app by apply indent_ws.
  by rewrite app_String, skip_ws_head.
Qed.

Lemma close_array_length level : (1 ≤ String.length (close_array level))%nat.
Proof. unfold close_array. rewrite app_String. cbn [String.length]. lia. Qed.

Lemma close_object_length level : (1 ≤ String.length (close_object level))%nat.
Proof. unfold close_object. rewrite app_String. cbn [String.length]. lia. Qed.

Lemma parse_elements_print level :
  ∀ l x acc f rest,
    Forall round_trips (x :: l) →
    (String.length (print_value (S level) x
                    +:+ print_more (elem_item level) (close_array level) l) ≤ f)%nat →
    parse_elements f
      (elem_item level x +:+ print_more (elem_item level) (close_array level) l
       +:+ rest) acc
    = Some (PList (acc ++ x :: l), rest).
Proof.
  induction l as [|y l IH]; intros x acc f rest HF Hlen;
    apply Forall_cons in HF as [Hx HF];
    rewrite length_app' in Hlen;
    pose proof (print_value_length (S level) x) as Hx1.
  - cbn [print_more] in *.
    destruct f as [|f]; [lia|]. cbn [parse_elements].
    unfold elem_item. rewrite app_assoc', parse_value_ws by apply indent_ws.
    pose proof (close_array_length level).
    rewrite Hx; [|lia|done].
    by rewrite close_array_skip.
  - cbn [print_more] in *. rewrite !app_String, app_empty_l in Hlen.
    cbn [String.length] in Hlen. rewrite length_app' in Hlen.
    destruct f as [|f]; [lia|]. cbn [parse_elements].
    unfold elem_item at 1. rewrite app_assoc', parse_value_ws by apply indent_ws.
    rewrite !app_String, app_empty_l.
    rewrite Hx; [|lia|done].
    rewrite skip_ws_head by done.
    change (ascii_eqb "," ",") with true. cbn iota.
    rewrite app_assoc', IH; [by rewrite <- app_assoc|done|].
    rewrite length_app'. unfold elem_item in Hlen |- *. rewrite app_String in Hlen.
    cbn [String.length] in Hlen. rewrite length_app' in Hlen. lia.
Qed.

Lemma dict_set_fresh k v acc :
  k ∉ map fst acc → dict_set k v acc = acc ++ [(k, v)].
Proof.
  induction acc as [|[k' v'] acc IH]; [done|]. cbn [map fst dict_set].
  rewrite not_elem_of_cons. intros [Hk Hacc].
  apply String.eqb_neq in Hk. rewrite Hk. by rewrite (IH Hacc).
Qed.

Lemma parse_value_space f s : parse_value f (String " " s) = parse_value f s.
Proof. apply (parse_value_ws f " " s). reflexivity. Qed.

Lemma parse_members_print level :
  ∀ d k x acc f rest seen,
    Forall (λ kv, round_trips kv.2) ((k, x) :: d) →
    no_dup_keys seen ((k, x) :: d) = true →
    (∀ k', k' ∈ map fst acc → k' ∈ seen) →
    (String.length (print_string k +:+ ": " +:+ print_value (S level) x
                    +:+ print_more (member_item level) (close_object level) d)
     ≤ f)%nat →
    parse_members f
      (member_item level (k, x)
       +:+ print_more (member_item level) (close_object level) d +:+ rest) acc
    = Some (PDict (acc ++ (k, x) :: d), rest).
Proof.
  induction d as [|[k2 y] d IH]; intros k x acc f rest seen HF Hnd Hseen Hlen;
    apply Forall_cons in HF as [Hx HF]; cbn [snd] in Hx;
    cbn [no_dup_keys] in Hnd; apply andb_prop in Hnd as [Hk Hnd];
    apply negb_true_iff, bool_decide_eq_false in Hk;
    assert (Hfresh : k ∉ map fst acc) by (intros Hin; by apply Hk, Hseen);
    rewrite !length_app' in Hlen;
    pose proof (print_value_length (S level) x) as Hx1;
    (destruct f as [|f]; [cbn [String.length] in Hlen; lia|]);
    cbn [parse_members]; unfold member_item at 1; cbn [fst snd];
    rewrite !app_assoc', skip_ws_app by apply indent_ws;
    rewrite print_string_app, skip_ws_head by done;
    change (ascii_eqb dq dq) with true; cbn iota;
    rewrite parse_escape, !app_String, app_empty_l, skip_ws_head by done;
    change (ascii_eqb ":" ":") with true; cbn iota;
    rewrite parse_value_space.
  - cbn [print_more] in *. pose proof (close_object_length level).
    rewrite Hx; [|cbn [String.length] in Hlen; lia|done].
    rewrite close_object_skip.
    change (ascii_eqb "}" ",") with false. change (ascii_eqb "}" "}") with true.
    cbn iota. by rewrite dict_set_fresh.
  - cbn [print_more] in *. rewrite !app_String, app_empty_l in Hlen.
    cbn [String.length] in Hlen. rewrite !app_String, app_empty_l.
    rewrite Hx; [|lia|done].
    rewrite skip_ws_head by done.
    change (ascii_eqb "," ",") with true. cbn iota.
    rewrite dict_set_fresh by done.
    rewrite app_assoc'.
    rewrite (IH k2 y (acc ++ [(k, x)]) f rest (k :: seen)); try done.
    + by rewrite <- app_assoc.
    + intros k'. rewrite map_app, elem_of_app, elem_of_cons. cbn.
      rewrite list_elem_of_singleton. intros [Hin| ->]; auto.
    + unfold member_item at 1 in Hlen. cbn [fst snd] in Hlen.
      rewrite !app_assoc', app_String in Hlen. cbn [String.length] in Hlen.
      rewrite length_app' in Hlen. lia.
Qed.

Lemma print_list_cons level x l :
  print_value level (PList (x :: l))
  = String "[" (elem_item level x
                +:+ print_more (elem_item level) (close_array level) l).
Proof.
  cbn [print_value]. unfold elem_item at 1, close_array.
  by rewrite app_String, app_empty_l, !app_assoc'.
Qed.

Lemma print_dict_cons level k x d :
  print_value level (PDict ((k, x) :: d))
  = String "{" (member_item level (k, x)
                +:+ print_more (member_item level) (close_object level) d).
Proof.
  cbn [print_value]. unfold member_item at 1, close_object. cbn [fst snd].
  by rewrite app_String, app_empty_l, !app_assoc'.
Qed.

Lemma forallb_Forall_impl {A} (p : A → bool) (P : A → Prop) l :
  Forall (λ x, p x = true → P x) l → forallb p l = true → Forall P l.
Proof.
  induction 1 as [|x l Hx _ IH]; [done|]. cbn [forallb].
  intros [? ?]%andb_prop. constructor; auto.
Qed.

Lemma skip_ws_elem_item level x T :
  ∃ c r, skip_ws (elem_item level x +:+ T) = String c r
         ∧ ascii_eqb c "]" = false.
Proof.
  destruct (print_value_head (S level) x) as (c & t & Hx & Hws & Hc & _).
  exists c, (t +:+ T). unfold elem_item.
  rewrite !app_assoc', skip_ws_app by apply indent_ws.
  by rewrite Hx, app_String, skip_ws_head.
Qed.

Lemma skip_ws_member_item level ky T :
  ∃ r, skip_ws (member_item level ky +:+ T) = String dq r.
Proof.
  unfold member_item. eexists.
  rewrite !app_assoc', skip_ws_app by apply indent_ws.
  by rewrite print_string_app, skip_ws_head.
Qed.

(** Every JSON value is read back from its printed text. *)
Lemma print_parse v : json_value v = true → round_trips v.
Proof.
  induction v as [|b|z|q|s|l IH|d IH] using pyval_ind'; intros Hj.
  - intros level [|f] rest Hlen Htail; [cbn in Hlen; lia|]. reflexivity.
  - intros level [|f] rest Hlen Htail; [destruct b; cbn in Hlen; lia|].
    by destruct b.
  - intros level [|f] rest Hlen Htail.
    { pose proof (print_value_length level (PInt z)). lia. }
    cbn [print_value] in *.
    destruct (str_of_Z_head z) as (c & t & Hz & Hc).
    pose proof (parse_int_print z rest Htail) as Hp.
    rewrite Hz, app_String in Hp |- *.
    apply int_lead_facts in Hc as (Hws & H1 & H2 & H3 & H4 & H5 & H6 & _).
    rewrite parse_value_atom by done.
    by rewrite H1, H2, H3, H4, H5, H6, Hp.
  - done.
  - intros level [|f] rest Hlen Htail; [cbn in Hlen; lia|].
    cbn [print_value]. rewrite print_string_app, parse_value_atom by done.
    change (ascii_eqb dq "{") with false. change (ascii_eqb dq "[") with false.
    change (ascii_eqb dq dq) with true. cbn iota. by rewrite parse_escape.
  - cbn [json_value] in Hj.
    pose proof (forallb_Forall_impl _ _ _ IH Hj) as HF.
    intros level [|f] rest Hlen Htail.
    { pose proof (print_value_length level (PList l)). lia. }
    destruct l as [|x l]; [reflexivity|].
    rewrite print_list_cons in Hlen |- *. rewrite app_String.
    rewrite parse_value_atom by done.
    change (ascii_eqb "[" "{") with false. change (ascii_eqb "[" "[") with true.
    cbn iota. rewrite app_assoc'.
    destruct (skip_ws_elem_item level x
                (print_more (elem_item level) (close_array level) l +:+ rest))
      as (c & r & -> & ->).
    rewrite (parse_elements_print level l x [] f rest); [done|done|].
    cbn [String.length] in Hlen. unfold elem_item at 1 in Hlen.
    rewrite app_assoc', app_String in Hlen. cbn [String.length] in Hlen.
    rewrite length_app' in Hlen. lia.
  - cbn [json_value] in Hj. apply andb_prop in Hj as [Hnd Hj].
    assert (HF : Forall (λ kv, round_trips kv.2) d).
    { clear Hnd. induction IH as [|kv d Hkv _ IHd]; [done|].
      cbn [forallb] in Hj. apply andb_prop in Hj as [? ?]. constructor; auto. }
    intros level [|f] rest Hlen Htail.
    { pose proof (print_value_length level (PDict d)). lia. }
    destruct d as [|[k x] d]; [reflexivity|].
    rewrite print_dict_cons in Hlen |- *. rewrite app_String.
    rewrite parse_value_atom by done.
    change (ascii_eqb "{" "{") with true. cbn iota. rewrite app_assoc'.
    destruct (skip_ws_member_item level (k, x)
                (print_more (member_item level) (close_object level) d +:+ rest))
      as (r & ->).
    change (ascii_eqb dq "}") with false. cbn iota.
    rewrite (parse_members_print level d k x [] f rest []); try done.
    cbn [String.length] in Hlen. unfold member_item at 1 in Hlen.
    cbn [fst snd] in Hlen.
    rewrite !app_assoc', app_String in Hlen. cbn [String.length] in Hlen.
    rewrite length_app' in Hlen. lia.
Qed.

(** *** The printed text has no carriage return *)

Lemma escape_char_no_cr c : all_chars (is_not CR) (escape_char c) = true.
Proof. destruct c as [[] [] [] [] [] [] [] []]; reflexivity. Qed.

Lemma escape_no_cr s : all_chars (is_not CR) (escape s) = true.
Proof.
  induction s as [|c s IH]; [done|]. cbn [escape].
  by rewrite all_chars_app, escape_char_no_cr, IH.
Qed.

Lemma print_string_no_cr s : all_chars (is_not CR) (print_string s) = true.
Proof.
  unfold print_string. cbn [all_chars]. by rewrite all_chars_app, escape_no_cr.
Qed.

Lemma str_of_Z_no_cr z : all_chars (is_not CR) (str_of_Z z) = true.
Proof.
  assert (Hd : all_chars (is_not CR) (str_of_N (Z.abs_N z)) = true).
  { eapply all_chars_impl; [|apply str_of_N_digits]. intros c Hc.
    apply (version_char_facts c). by rewrite Hc. }
  rewrite str_of_Z_sign. destruct (z <? 0)%Z; [|done].
  cbn [all_chars]. by rewrite Hd.
Qed.

Lemma indent_no_cr n : all_chars (is_not CR) (String LF (indent n)) = true.
Proof.
  cbn [all_chars]. change (is_not CR LF) with true. cbn [andb]. unfold indent.
  induction (2 * n)%nat as [|m IH]; [done|]. cbn [repeat_char all_chars].
  by rewrite IH.
Qed.

Lemma print_more_no_cr {A} (item : A → string) closing l :
  Forall (λ y, all_chars (is_not CR) (item y) = true) l →
  all_chars (is_not CR) closing = true →
  all_chars (is_not CR) (print_more item closing l) = true.
Proof.
  intros Hl Hc. induction Hl as [|y l Hy _ IH]; [done|]. cbn [print_more].
  by rewrite !all_chars_app, Hy, IH.
Qed.

Lemma print_value_no_cr v :
  ∀ level, all_chars (is_not CR) (print_value level v) = true.
Proof.
  induction v as [|b|z|q|s|l IH|d IH] using pyval_ind'; intros level;
    try done.
  - by destruct b.
  - apply str_of_Z_no_cr.
  - apply print_string_no_cr.
  - destruct l as [|x l]; [done|]. apply Forall_cons in IH as [Hx IH].
    cbn [print_value]. rewrite !all_chars_app, indent_no_cr, Hx.
    rewrite print_more_no_cr; [done| |].
    + eapply Forall_impl; [exact IH|]. intros y Hy. cbn beta.
      by rewrite all_chars_app, indent_no_cr, Hy.
    + by rewrite all_chars_app, indent_no_cr.
  - destruct d as [|[k x] d]; [done|]. apply Forall_cons in IH as [Hx IH].
    cbn [print_value]. cbn [snd] in Hx.
    rewrite !all_chars_app, indent_no_cr, print_string_no_cr, Hx.
    rewrite print_more_no_cr; [done| |].
    + eapply Forall_impl; [exact IH|]. intros y Hy. cbn beta.
      by rewrite !all_chars_app, indent_no_cr, print_string_no_cr, Hy.
    + by rewrite all_chars_app, indent_no_cr.
Qed.

(** *** What the parser returns is a JSON value *)

Lemma forallb_snoc {A} (p : A → bool) l x :
  forallb p (l ++ [x]) = forallb p l && p x.
Proof. rewrite forallb_app. cbn. by rewrite andb_true_r. Qed.

Lemma parse_json_value f :
  (∀ s v r, parse_value f s = Some (v, r) → json_value v = true)
  ∧ (∀ s acc v r, forallb json_value acc = true →
                  parse_elements f s acc = Some (v, r) → json_value v = true)
  ∧ (∀ s acc v r, json_value (PDict acc) = true →
                  parse_members f s acc = Some (v, r) → json_value v = true).
Proof.
  induction f as [|f (IHv & IHe & IHm)]; [done|]. repeat split.
  - intros s v r. cbn [parse_value].
    destruct (skip_ws s) as [|c s']; [done|].
    destruct (ascii_eqb c "{").
    { destruct (skip_ws s') as [|c' r']; [done|].
      destruct (ascii_eqb c' "}"); [by intros [= <- _]|]. by apply IHm. }
    destruct (ascii_eqb c "[").
    { destruct (skip_ws s') as [|c' r']; [done|].
      destruct (ascii_eqb c' "]"); [by intros [= <- _]|]. by apply IHe. }
    destruct (ascii_eqb c dq).
    { destruct (parse_string_body s') as [[x r']|]; [|done]. by intros [= <- _]. }
    destruct (ascii_eqb c "n").
    { destruct (strip_prefix "ull" s'); [|done]. by intros [= <- _]. }
    destruct (ascii_eqb c "t").
    { destruct (strip_prefix "rue" s'); [|done]. by intros [= <- _]. }
    destruct (ascii_eqb c "f").
    { destruct (strip_prefix "alse" s'); [|done]. by intros [= <- _]. }
    destruct (parse_int (String c s')) as [[z r']|]; [|done]. by intros [= <- _].
  - intros s acc v r Hacc. cbn [parse_elements].
    destruct (parse_value f s) as [[x r1]|] eqn:Ex; [|done].
    apply IHv in Ex.
    destruct (skip_ws r1) as [|c r2]; [done|].
    destruct (ascii_eqb c ",").
    { apply IHe. by rewrite forallb_snoc, Hacc, Ex. }
    destruct (ascii_eqb c "]"); [|done]. intros [= <- _].
    cbn [json_value]. by rewrite forallb_snoc, Hacc, Ex.
  - intros s acc v r Hacc. cbn [parse_members].
    destruct (skip_ws s) as [|c s1]; [done|].
    destruct (ascii_eqb c dq); [|done].
    destruct (parse_string_body s1) as [[k r1]|]; [|done].
    destruct (skip_ws r1) as [|c' r2]; [done|].
    destruct (ascii_eqb c' ":"); [|done].
    destruct (parse_value f r2) as [[x r3]|] eqn:Ex; [|done].
    apply IHv in Ex.
    destruct (skip_ws r3) as [|c'' r4]; [done|].
    destruct (ascii_eqb c'' ",").
    { apply IHm. by apply json_value_set. }
    destruct (ascii_eqb c'' "}"); [|done]. intros [= <- _].
    by apply json_value_set.
Qed.

(** The small codec meets the laws of the interface. *)
Lemma mini_json_laws : JsonLaws mini_json.
Proof.
  split.
  - intros s v. cbn [json_loads mini_json]. unfold loads.
    destruct (parse_value (String.length s) s) as [[x r]|] eqn:E; [|done].
    destruct (String.eqb (skip_ws r) ""); [|done]. intros [= <-].
    by apply (proj1 (parse_json_value _)) in E.
  - intros v Hv. cbn [json_loads json_dumps mini_json]. unfold loads, dumps.
    rewrite universal_newlines_id
      by (by rewrite all_chars_app, print_value_no_cr).
    rewrite (print_parse v Hv 0%nat).
    + reflexivity.
    + rewrite length_app'. lia.
    + done.
Qed.

(** ** Round trip of a version through each manifest *)

(** C4.  For every valid version text [v] and every manifest whose version
    can be read, writing [v] with the write function of its format and
    reading with its read function gives exactly [v]: for the package
    manifest, for the application configuration and for the key-assignment
    file.  The JSON library is any one that meets [JsonLaws]. *)
Theorem version_round_trip (R : Runtime) (J : Json) (L : JsonLaws J)
    (v : string) (w : world) (path : string) :
  valid_version v = true →
  (∀ old, read_package_json_version path w = (w, Ok old) →
     ∃ w', write_package_json_version path (PStr v) w = (w', Ok tt)
           ∧ read_package_json_version path w' = (w', Ok (PStr v)))
  ∧ (∀ old, read_tauri_conf_version path w = (w, Ok old) →
       ∃ w', write_tauri_conf_version path (PStr v) w = (w', Ok tt)
             ∧ read_tauri_conf_version path w' = (w', Ok (PStr v)))
  ∧ (∀ old, read_cargo_version path w = (w, Ok old) →
       ∃ w', write_cargo_version path (PStr v) w = (w', Ok tt)
             ∧ read_cargo_version path w' = (w', Ok v)).
Proof.
  intros (Hq & Hbs & Hcr & Hne)%valid_version_safe. repeat split.
  - intros old. apply package_json_round_trip.
  - intros old. apply tauri_conf_round_trip.
  - intros old Hold. by apply (cargo_round_trip path w old v).
Qed.

Lemma version_round_trip_witness :
  (∃ w', @write_package_json_version mini_json NPM_PATH (PStr "2.3.4") sample_world
         = (w', Ok tt)
         ∧ @read_package_json_version mini_json NPM_PATH w' = (w', Ok (PStr "2.3.4")))
  ∧ (∃ w', @write_tauri_conf_version mini_json CONF_PATH (PStr "2.3.4") sample_world
           = (w', Ok tt)
           ∧ @read_tauri_conf_version mini_json CONF_PATH w' = (w', Ok (PStr "2.3.4")))
  ∧ (∃ w', @write_cargo_version sample_runtime CARGO_PATH (PStr "2.3.4") sample_world
           = (w', Ok tt)
           ∧ read_cargo_version CARGO_PATH w' = (w', Ok "2.3.4")).
Proof.
  repeat split.
  - apply (proj1 (version_round_trip sample_runtime mini_json mini_json_laws
                    "2.3.4" sample_world NPM_PATH eq_refl) (PStr "0.1.0")).
    vm_compute. reflexivity.
  - apply (proj1 (proj2 (version_round_trip sample_runtime mini_json mini_json_laws
                    "2.3.4" sample_world CONF_PATH eq_refl)) (PStr "0.1.0")).
    vm_compute. reflexivity.
  - apply (proj2 (proj2 (version_round_trip sample_runtime mini_json mini_json_laws
                    "2.3.4" sample_world CARGO_PATH eq_refl)) "0.1.0").
    vm_compute. reflexivity.
Defined.

Lemma cmd_status_without_manifests_witness :
  ∃ printed,
    @cmd_status sample_runtime mini_json (World ∅ [])
    = (World ∅ printed, Raise (ValueError MaxEmptySequence))
    ∧ printed = ["📦 YouTube Downloader Version Status"; repeat_str "━" 50]
    ∧ ("✓ All versions synchronized" ∉ printed)
    ∧ ("⚠ Versions out of sync!" ∉ printed)
    ∧ exit_status (@cmd_status sample_runtime mini_json (World ∅ [])).2 = 1.
Proof.
  apply (cmd_status_without_manifests sample_runtime mini_json (World ∅ [])).
  repeat constructor.
Defined.

(** ** Classification of the format descriptors *)

Import Formats.

Section Report.
Context {R : Runtime}.

Lemma classify_dict d :
  classify (PDict d)
  = Ok (if is_video (PDict d) then Video
        else if is_audio (PDict d) then Audio else Neither).
Proof.
  unfold classify, is_audio, is_video, codec_present, field, get.
  cbn [mbind result_bind rbind].
  destruct (dict_get "vcodec" d) as [[| | | |s| |]|];
    destruct (dict_get "acodec" d) as [[| | | |s'| |]|]; cbn;
    try reflexivity;
    repeat match goal with
           | |- context [String.eqb ?x "none"] => destruct (String.eqb x "none")
           end; reflexivity.
Qed.

Lemma partition_dicts formats :
  Forall (λ f, is_dict f = true) formats →
  ∀ video audio,
    partition formats video audio
    = Ok (video ++ List.filter is_video formats,
          audio ++ List.filter is_audio formats).
Proof.
  induction 1 as [|f formats Hf _ IH]; intros video audio.
  - cbn. by rewrite !app_nil_r.
  - destruct f as [| | | | | |d]; try done. cbn [partition].
    rewrite classify_dict. cbn [mbind result_bind rbind List.filter].
    unfold is_audio at 1 2.
    destruct (is_video (PDict d)) eqn:Hv; cbn [negb andb].
    + rewrite IH. by rewrite <- app_assoc.
    + destruct (codec_present "acodec" (PDict d)); rewrite IH;
        by rewrite <- ?app_assoc.
Qed.

End Report.

(** C5.  Every descriptor of a fetch result goes to the video table when its
    video codec is present, not "none" and not null; else to the audio table
    when its audio codec is so; else to neither.  The tables keep the order
    of the result, and no descriptor is in both. *)
Theorem partition_spec (formats : list pyval) :
  Forall (λ f, is_dict f = true) formats →
  ∃ video audio,
    partition formats [] [] = Ok (video, audio)
    ∧ video = List.filter is_video formats
    ∧ audio = List.filter is_audio formats
    ∧ (∀ f, f ∈ video ↔ f ∈ formats ∧ is_video f = true)
    ∧ (∀ f, f ∈ audio ↔ f ∈ formats ∧ is_video f = false
                                    ∧ codec_present "acodec" f = true)
    ∧ (∀ f, ¬ (f ∈ video ∧ f ∈ audio)).
Proof.
  intros Hd. exists (List.filter is_video formats), (List.filter is_audio formats).
  split; [by rewrite partition_dicts|]. split; [done|]. split; [done|].
  assert (Hv : ∀ f, f ∈ List.filter is_video formats
                    ↔ f ∈ formats ∧ is_video f = true).
  { intros f. rewrite !list_elem_of_In. apply filter_In. }
  assert (Ha : ∀ f, f ∈ List.filter is_audio formats
                    ↔ f ∈ formats ∧ is_video f = false
                      ∧ codec_present "acodec" f = true).
  { intros f. rewrite !list_elem_of_In, filter_In. unfold is_audio.
    by rewrite andb_true_iff, negb_true_iff. }
  split; [exact Hv|]. split; [exact Ha|].
  intros f [[_ H1]%Hv (_ & H2 & _)%Ha]. congruence.
Qed.

Lemma partition_spec_witness :
  ∃ video audio,
    partition example_formats [] [] = Ok (video, audio)
    ∧ video = List.filter is_video example_formats
    ∧ audio = List.filter is_audio example_formats
    ∧ (∀ f, f ∈ video ↔ f ∈ example_formats ∧ is_video f = true)
    ∧ (∀ f, f ∈ audio ↔ f ∈ example_formats ∧ is_video f = false
                                    ∧ codec_present "acodec" f = true)
    ∧ (∀ f, ¬ (f ∈ video ∧ f ∈ audio)).
Proof. apply (partition_spec example_formats). repeat constructor. Defined.

(** ** Computations that only print *)

Lemma emits_ret {A} (a : A) : emits (mret a) [] a.
Proof. intros [f o]. unfold mret, IO_ret, io_ret. cbn. by rewrite app_nil_r. Qed.

Lemma emits_lift {A} (a : A) : emits (lift (Ok a)) [] a.
Proof. intros [f o]. unfold lift. cbn. by rewrite app_nil_r. Qed.

Lemma emits_print line : emits (print line) [line] tt.
Proof. by intros w. Qed.

Lemma emits_bind {A B} (m : IO A) (k : A → IO B) l1 l2 a b :
  emits m l1 a → emits (k a) l2 b → emits (m ≫= k) (l1 ++ l2) b.
Proof.
  intros Hm Hk w. unfold mbind, IO_bind, io_bind. rewrite Hm, Hk. cbn.
  by rewrite <- app_assoc.
Qed.

Lemma emits_print_then {A} line (k : unit → IO A) l a :
  emits (k tt) l a → emits (print line ≫= k) (line :: l) a.
Proof. intros Hk. apply (emits_bind _ _ [line] l tt a); [apply emits_print|done]. Qed.

Lemma emits_lift_then {A B} (x : A) (k : A → IO B) l b :
  emits (k x) l b → emits (lift (Ok x) ≫= k) l b.
Proof. intros Hk. apply (emits_bind _ _ [] l x b); [apply emits_lift|done]. Qed.

Lemma emits_ret_then {A B} (x : A) (k : A → IO B) l b :
  emits (k x) l b → emits (mret x ≫= k) l b.
Proof. intros Hk. apply (emits_bind _ _ [] l x b); [apply emits_ret|done]. Qed.

Lemma fails_bind {A B} (m : IO A) (k : A → IO B) l1 l2 a e :
  emits m l1 a → fails_after (k a) l2 e → fails_after (m ≫= k) (l1 ++ l2) e.
Proof.
  intros Hm Hk w. unfold mbind, IO_bind, io_bind. rewrite Hm, Hk. cbn.
  by rewrite <- app_assoc.
Qed.

(** ** The order of the tables *)

Section Sorting.
Context {K : Type} (geb : K → K → bool).
Hypothesis geb_total : ∀ a b, geb a b = true ∨ geb b a = true.
Hypothesis geb_trans : ∀ a b c, geb a b = true → geb b c = true → geb a c = true.

Lemma insert_desc_perm x l : insert_desc geb x l ≡ₚ x :: l.
Proof.
  induction l as [|y l IH]; [done|]. cbn.
  destruct (geb x.1 y.1); [done|]. rewrite IH. apply Permutation_swap.
Qed.

Lemma sort_desc_perm l : sort_desc geb l ≡ₚ l.
Proof.
  induction l as [|x l IH]; [done|]. cbn. by rewrite insert_desc_perm, IH.
Qed.

Lemma insert_desc_sorted x l :
  StronglySorted (key_ge geb) l → StronglySorted (key_ge geb) (insert_desc geb x l).
Proof.
  induction 1 as [|y l Hs IH Hy]; cbn.
  - by repeat constructor.
  - destruct (geb x.1 y.1) eqn:Hxy.
    + constructor; [by constructor|]. constructor; [done|].
      eapply Forall_impl; [exact Hy|]. intros z Hz. by eapply geb_trans.
    + constructor; [done|]. rewrite insert_desc_perm. constructor; [|done].
      destruct (geb_total x.1 y.1) as [Hc|Hc]; [congruence|done].
Qed.

Lemma sort_desc_sorted l : StronglySorted (key_ge geb) (sort_desc geb l).
Proof.
  induction l as [|x l IH]; cbn; [constructor|]. by apply insert_desc_sorted.
Qed.

End Sorting.

Lemma sorted_by_keys {K} (R : K * pyval → K * pyval → Prop)
    (P : K * pyval → Prop) (S : pyval → pyval → Prop) ks :
  (∀ a b, P a → P b → R a b → S a.2 b.2) →
  Forall P ks → StronglySorted R ks → StronglySorted S (map snd ks).
Proof.
  intros HRS HP Hs. induction Hs as [|a l Hs IH Ha]; cbn; [constructor|].
  apply Forall_cons in HP as [Pa Pl]. constructor; [by apply IH|].
  apply Forall_map. rewrite Forall_forall in Ha, Pl |- *.
  intros b Hb. apply HRS; auto.
Qed.

Lemma Q_geb_total a b : Q_geb a b = true ∨ Q_geb b a = true.
Proof.
  unfold Q_geb. rewrite !Qle_bool_iff.
  destruct (Qlt_le_dec a b) as [Hl|Hl]; [right; by apply Qlt_le_weak|by left].
Qed.

Lemma Q_geb_trans a b c : Q_geb a b = true → Q_geb b c = true → Q_geb a c = true.
Proof. unfold Q_geb. rewrite !Qle_bool_iff. intros ??. by eapply Qle_trans. Qed.

Lemma pair_geb_iff a b :
  pair_geb a b = true ↔ (b.1 < a.1)%Q ∨ ((b.1 == a.1)%Q ∧ (b.2 <= a.2)%Q).
Proof.
  unfold pair_geb. destruct (Qeq_bool a.1 b.1) eqn:He.
  - apply Qeq_bool_iff in He. rewrite Qle_bool_iff. split.
    + intros Hl. right. split; [by symmetry|done].
    + intros [Hl|[_ Hl]]; [|done]. rewrite He in Hl. by apply Qlt_irrefl in Hl.
  - apply Qeq_bool_neq in He. rewrite Qle_bool_iff. split.
    + intros Hl. left. apply Qle_lt_or_eq in Hl as [Hl|Hl]; [done|].
      destruct He. by symmetry.
    + intros [Hl|[Hl _]]; [by apply Qlt_le_weak|]. destruct He. by symmetry.
Qed.

Lemma pair_geb_total a b : pair_geb a b = true ∨ pair_geb b a = true.
Proof.
  rewrite !pair_geb_iff.
  destruct (Q_dec a.1 b.1) as [[Hl|Hl]|He]; [right; by left|left; by left|].
  destruct (Qlt_le_dec a.2 b.2) as [Hl|Hl].
  - right. right. split; [done|by apply Qlt_le_weak].
  - left. right. split; [by symmetry|done].
Qed.

Lemma pair_geb_trans a b c :
  pair_geb a b = true → pair_geb b c = true → pair_geb a c = true.
Proof.
  rewrite !pair_geb_iff. intros [H1|[H1 H1']] [H2|[H2 H2']].
  - left. by eapply Qlt_trans.
  - left. by rewrite H2.
  - left. by rewrite <- H1.
  - right. split; [by rewrite H2|by eapply Qle_trans].
Qed.

(** ** The keys and the rows of the tables *)

Section Tables.
Context {R : Runtime}.

Lemma get_dict d k dflt : get (PDict d) k dflt = Ok (default dflt (dict_get k d)).
Proof. unfold get. by destruct (dict_get k d). Qed.

Lemma rbind_ok {A B} (a : A) (k : A → result B) : (Ok a ≫= k) = k a.
Proof. reflexivity. Qed.

Lemma or_0_value o :
  opt_num_or_none o = true →
  ∃ q, num_value (py_or (default PNone o) (PInt 0)) = Some q
       ∧ (q == match o with
               | Some v => match num_value v with Some q => q | None => 0 end
               | None => 0
               end)%Q.
Proof.
  destruct o as [[| |z|q| | |]|]; try done; intros _; unfold py_or;
    cbn [default from_option id truthy].
  - exists (inject_Z 0). by cbn.
  - destruct (z =? 0)%Z eqn:E; cbn.
    + apply Z.eqb_eq in E. subst. by exists (inject_Z 0).
    + by exists (inject_Z z).
  - destruct (Qeq_bool q 0) eqn:E; cbn.
    + apply Qeq_bool_iff in E. exists (inject_Z 0). split; [done|by symmetry].
    + by exists q.
  - by exists (inject_Z 0).
Qed.

Lemma audio_key_ok f :
  is_dict f = true → opt_num_or_none (field "abr" f) = true →
  ∃ q, audio_key f = Ok (Some q) ∧ (q == bitrate f)%Q.
Proof.
  destruct f as [| | | | | |d]; try done. intros _ Hn.
  destruct (or_0_value _ Hn) as (q & Hq & He). exists q. cbn [field] in Hq.
  unfold audio_key, get_or_0. rewrite get_dict, !rbind_ok, Hq. done.
Qed.

Lemma video_key_ok f :
  is_dict f = true →
  opt_num_or_none (field "height" f) = true →
  opt_num_or_none (field "fps" f) = true →
  ∃ k, video_key f = Ok (Some k)
       ∧ (k.1 == height f)%Q ∧ (k.2 == frame_rate f)%Q.
Proof.
  destruct f as [| | | | | |d]; try done. intros _ Hh Hr.
  destruct (or_0_value _ Hh) as (a & Ha & Ea).
  destruct (or_0_value _ Hr) as (b & Hb & Eb). exists (a, b).
  cbn [field] in Ha, Hb.
  unfold video_key, get_or_0. rewrite !get_dict, !rbind_ok.
  rewrite ?get_dict, ?rbind_ok, Ha, Hb. done.
Qed.

Lemma keys_of_ok {K} (key : pyval → result (option K)) (P : K → pyval → Prop) l :
  Forall (λ f, ∃ k, key f = Ok (Some k) ∧ P k f) l →
  ∃ ks, keys_of key l = Ok (Some ks) ∧ map snd ks = l
        ∧ Forall (λ kf, P kf.1 kf.2) ks.
Proof.
  induction 1 as [|f l (k & Hk & HP) _ (ks & Hks & Hm & HF)].
  - by exists [].
  - exists ((k, f) :: ks). cbn [keys_of]. rewrite Hk, rbind_ok, Hks, rbind_ok.
    split; [done|]. split; [cbn; by rewrite Hm|by constructor].
Qed.

Lemma sorted_desc_ok {K} (geb : K → K → bool) key (P : K → pyval → Prop)
    (S : pyval → pyval → Prop) l :
  (∀ a b, geb a b = true ∨ geb b a = true) →
  (∀ a b c, geb a b = true → geb b c = true → geb a c = true) →
  (∀ a b x y, P a x → P b y → geb a b = true → S x y) →
  Forall (λ f, ∃ k, key f = Ok (Some k) ∧ P k f) l →
  ∃ rows, sorted_desc geb key l = Ok rows ∧ rows ≡ₚ l ∧ StronglySorted S rows.
Proof.
  intros Htot Htr HS Hl.
  destruct (keys_of_ok key P l Hl) as (ks & Hks & Hm & HF).
  exists (map snd (sort_desc geb ks)). unfold sorted_desc.
  rewrite Hks, rbind_ok. split; [done|]. split.
  - by rewrite sort_desc_perm, Hm.
  - apply (sorted_by_keys (key_ge geb) (λ kf, P kf.1 kf.2)).
    + intros [a x] [b y]. apply HS.
    + by rewrite sort_desc_perm.
    + by apply sort_desc_sorted.
Qed.

Lemma descriptor_ok_inv f :
  descriptor_ok f = true →
  is_dict f = true
  ∧ (∃ id, field "format_id" f = Some (PStr id))
  ∧ opt_str (field "ext" f) = true
  ∧ opt_str_or_none (field "vcodec" f) = true
  ∧ opt_str_or_none (field "acodec" f) = true
  ∧ opt_str_or_none (field "resolution" f) = true
  ∧ opt_num_or_none (field "filesize" f) = true
  ∧ opt_num_or_none (field "filesize_approx" f) = true
  ∧ opt_num_or_none (field "abr" f) = true
  ∧ opt_num_or_none (field "height" f) = true
  ∧ opt_num_or_none (field "fps" f) = true.
Proof.
  unfold descriptor_ok. rewrite !andb_true_iff.
  intros ((((((((((Hd & Hid) & Hext) & Hvc) & Hac) & Hres) & Hfs) & Hfa) & Ha)
           & Hh) & Hr).
  repeat split; try done.
  destruct (field "format_id" f) as [[| | | |id| |]|]; try done. by exists id.
Qed.

Lemma opt_num_weaken o : opt_num o = true → opt_num_or_none o = true.
Proof. by destruct o as [[]|]. Qed.

Lemma size_str_ok fs fa :
  opt_num_or_none fs = true → opt_num_or_none fa = true →
  ∃ s, size_str (py_or (py_or (default PNone fs) (default PNone fa)) (PInt 0))
       = Ok s.
Proof.
  destruct fs as [[| |z|q| | |]|]; try done;
    destruct fa as [[| |z'|q'| | |]|]; try done; intros _ _;
    unfold py_or, size_str; cbn [default from_option id truthy];
    repeat match goal with
           | |- context [(?x =? 0)%Z] => destruct (x =? 0)%Z; cbn
           | |- context [Qeq_bool ?x 0] => destruct (Qeq_bool x 0); cbn
           end; eauto.
Qed.

(** An audio row is printed whatever its bitrate: a number, null or
    missing. *)
Lemma audio_row_ok f :
  descriptor_ok f = true → is_audio f = true → ∃ line, audio_row f = Ok line.
Proof.
  intros Hok Ha. destruct f as [| | | | | |d]; try done.
  destruct (descriptor_ok_inv _ Hok)
    as (_ & [fid Hid] & Hext & _ & Hac & _ & Hfs & Hfa & Habr & _).
  unfold is_audio in Ha. apply andb_true_iff in Ha as [_ Ha].
  unfold codec_present in Ha. cbn [field] in *.
  destruct (size_str_ok _ _ Hfs Hfa) as [size Hsize].
  unfold audio_row. rewrite !get_dict, Hid.
  destruct (dict_get "acodec" d) as [[| | | |ac| |]|]; try done.
  destruct (dict_get "ext" d) as [[| | | |ext| |]|]; try done;
    destruct (dict_get "abr" d) as [[| |z|q| | |]|]; try done;
    cbn [default from_option id]; rewrite !rbind_ok; cbn [truthy];
    repeat match goal with
           | |- context [if negb ?b then _ else _] => destruct b; cbn [negb]
           end;
    cbn [format_fixed num_value]; rewrite ?rbind_ok;
    rewrite Hsize; cbn [format_right]; rewrite ?rbind_ok; eauto.
Qed.

(** A video row is printed when its frame rate is a number or missing,
    whatever its height; with a frame rate that is null the format of the
    frame rate column raises [TypeError]. *)
Lemma video_row_cases f :
  descriptor_ok f = true → is_video f = true →
  if null_field "fps" f then video_row f = Raise TypeError
  else ∃ line, video_row f = Ok line.
Proof.
  intros Hok Hv. destruct f as [| | | | | |d]; try done.
  destruct (descriptor_ok_inv _ Hok)
    as (_ & [fid Hid] & Hext & Hvc & _ & Hres & Hfs & Hfa & _ & Hh & Hr).
  unfold is_video, codec_present in Hv. unfold null_field. cbn [field] in *.
  destruct (size_str_ok _ _ Hfs Hfa) as [size Hsize].
  unfold video_row. rewrite !get_dict, Hid.
  destruct (dict_get "vcodec" d) as [[| | | |vc| |]|]; try done.
  cbn [default from_option id]. rewrite !rbind_ok.
  destruct (truthy (PStr vc) && contains "." (py_str (PStr vc)));
    rewrite !rbind_ok, Hsize, !rbind_ok; cbn [format_right]; rewrite !rbind_ok.
  all: destruct (dict_get "ext" d) as [[| | | |ext| |]|]; try done;
    destruct (dict_get "resolution" d) as [[| | | |res| |]|]; try done;
    destruct (dict_get "fps" d) as [[| |z|q| | |]|]; try done;
    unfold py_or; cbn [default from_option id truthy format_right];
    repeat match goal with
           | |- context [if negb ?b then _ else _] => destruct b; cbn [negb]
           end;
    cbn [format_right]; rewrite ?rbind_ok; eauto.
Qed.

Lemma video_row_ok f :
  descriptor_ok f = true → is_video f = true → null_field "fps" f = false →
  ∃ line, video_row f = Ok line.
Proof.
  intros Hok Hv Hn. pose proof (video_row_cases f Hok Hv) as H.
  by rewrite Hn in H.
Qed.

Lemma video_row_null f :
  descriptor_ok f = true → is_video f = true → null_field "fps" f = true →
  video_row f = Raise TypeError.
Proof.
  intros Hok Hv Hn. pose proof (video_row_cases f Hok Hv) as H.
  by rewrite Hn in H.
Qed.

Lemma print_rows_emits row rows lines :
  Forall2 (λ f line, row f = Ok line) rows lines →
  emits (print_rows row rows) lines tt.
Proof.
  induction 1 as [|f line rows lines Hf _ IH]; cbn [print_rows].
  - apply emits_ret.
  - rewrite Hf. apply emits_lift_then. by apply emits_print_then.
Qed.

Lemma rows_ok (row : pyval → result string) (P : pyval → Prop) l :
  (∀ f, P f → ∃ line, row f = Ok line) →
  Forall P l → ∃ lines, Forall2 (λ f line, row f = Ok line) l lines.
Proof.
  intros Hrow. induction 1 as [|f l Hf _ [lines IH]]; [by exists []|].
  destruct (Hrow f Hf) as [line Hl]. exists (line :: lines). by constructor.
Qed.

Lemma audio_table_emits audio rows lines :
  sorted_desc Q_geb audio_key audio = Ok rows → rows ≡ₚ audio →
  Forall2 (λ f line, audio_row f = Ok line) rows lines →
  emits (audio_table audio) (table_lines audio_heading lines) tt.
Proof.
  intros Hs Hp Hl. destruct audio as [|f audio].
  - apply Permutation_nil_r in Hp. subst. inversion Hl. apply emits_ret.
  - assert (lines ≠ []) as Hne.
    { intros ->. inversion Hl. subst. by apply Permutation_nil_cons in Hp. }
    unfold table_lines. destruct lines as [|l0 lines]; [done|].
    unfold audio_table, audio_heading. cbn [app].
    do 4 apply emits_print_then. rewrite Hs. apply emits_lift_then.
    apply (emits_bind _ _ (l0 :: lines) [""] tt tt);
      [by apply print_rows_emits|apply emits_print].
Qed.

Lemma video_table_emits video rows lines :
  sorted_desc pair_geb video_key video = Ok rows → rows ≡ₚ video →
  Forall2 (λ f line, video_row f = Ok line) rows lines →
  emits (video_table video) (table_lines video_heading lines) tt.
Proof.
  intros Hs Hp Hl. destruct video as [|f video].
  - apply Permutation_nil_r in Hp. subst. inversion Hl. apply emits_ret.
  - assert (lines ≠ []) as Hne.
    { intros ->. inversion Hl. subst. by apply Permutation_nil_cons in Hp. }
    unfold table_lines. destruct lines as [|l0 lines]; [done|].
    unfold video_table, video_heading. cbn [app].
    do 4 apply emits_print_then. rewrite Hs. apply emits_lift_then.
    apply (emits_bind _ _ (l0 :: lines) [""] tt tt);
      [by apply print_rows_emits|apply emits_print].
Qed.

Lemma print_rows_fails row before f after lines e :
  Forall2 (λ g line, row g = Ok line) before lines → row f = Raise e →
  fails_after (print_rows row (before ++ f :: after)) lines e.
Proof.
  intros Hl Hf. induction Hl as [|g line before lines Hg _ IH]; cbn [app print_rows].
  - rewrite Hf. intros [fs out]. unfold mbind, IO_bind, io_bind, lift. cbn.
    by rewrite app_nil_r.
  - rewrite Hg. apply (fails_bind _ _ [] (line :: lines) line); [apply emits_lift|].
    by apply (fails_bind _ _ [line] lines tt); [apply emits_print|].
Qed.

Lemma video_table_fails video before f after lines e :
  sorted_desc pair_geb video_key video = Ok (before ++ f :: after) →
  before ++ f :: after ≡ₚ video →
  Forall2 (λ g line, video_row g = Ok line) before lines →
  video_row f = Raise e →
  fails_after (video_table video) (video_heading ++ lines) e.
Proof.
  intros Hs Hp Hl Hf. destruct video as [|g video].
  - apply Permutation_nil_r in Hp. by destruct before.
  - unfold video_table, video_heading. cbn [app].
    do 4 (apply (fails_bind _ _ [_] _ tt); [apply emits_print|]).
    rewrite Hs. apply (fails_bind _ _ [] lines (before ++ f :: after));
      [apply emits_lift|].
    replace lines with (lines ++ []) by apply app_nil_r.
    intros w. unfold mbind, IO_bind, io_bind.
    rewrite (print_rows_fails video_row before f after lines e Hl Hf w).
    by rewrite app_nil_r.
Qed.

(** The rows of a list up to the first one that cannot be printed. *)
Lemma rows_split (row : pyval → result string) (P : pyval → Prop)
    (q : pyval → bool) e l :
  (∀ f, P f → if q f then row f = Raise e else ∃ line, row f = Ok line) →
  Forall P l →
  (Forall (λ f, q f = false) l
   ∧ ∃ lines, Forall2 (λ f line, row f = Ok line) l lines)
  ∨ (∃ before f after lines,
        l = before ++ f :: after
        ∧ Forall (λ g, q g = false) before ∧ q f = true
        ∧ Forall2 (λ g line, row g = Ok line) before lines
        ∧ row f = Raise e).
Proof.
  intros Hrow. induction 1 as [|f l Hf _ IH]; [left; split; [done|by exists []]|].
  specialize (Hrow f Hf). destruct (q f) eqn:Hq.
  - right. exists [], f, l, []. by repeat split.
  - destruct Hrow as [line Hl].
    destruct IH as [[Hall [lines IH]]|(before & g & after & lines & -> & Hb & Hg
                                        & Hls & He)].
    + left. split; [by constructor|]. exists (line :: lines). by constructor.
    + right. exists (f :: before), g, after, (line :: lines).
      split; [done|]. split; [by constructor|]. split; [done|].
      split; [by constructor|done].
Qed.

Lemma descriptor_ok_dict f : descriptor_ok f = true → is_dict f = true.
Proof. unfold descriptor_ok. rewrite !andb_true_iff. tauto. Qed.

Lemma audio_sorted audio :
  Forall (λ f, descriptor_ok f = true ∧ is_audio f = true) audio →
  ∃ rows, sorted_desc Q_geb audio_key audio = Ok rows ∧ rows ≡ₚ audio
          ∧ StronglySorted audio_order rows.
Proof.
  intros Ha.
  apply (sorted_desc_ok Q_geb audio_key (λ q f, (q == bitrate f)%Q)).
  - apply Q_geb_total.
  - apply Q_geb_trans.
  - intros a b x y Hx Hy Hab. unfold audio_order. rewrite <- Hx, <- Hy.
    by apply Qle_bool_iff.
  - eapply Forall_impl; [exact Ha|]. intros f [Hok Hf]. apply audio_key_ok.
    + by apply descriptor_ok_dict.
    + by apply (descriptor_ok_inv f Hok).
Qed.

Lemma video_sorted video :
  Forall (λ f, descriptor_ok f = true ∧ is_video f = true) video →
  ∃ rows, sorted_desc pair_geb video_key video = Ok rows ∧ rows ≡ₚ video
          ∧ StronglySorted video_order rows.
Proof.
  intros Hv.
  apply (sorted_desc_ok pair_geb video_key
           (λ k f, (k.1 == height f)%Q ∧ (k.2 == frame_rate f)%Q)).
  - apply pair_geb_total.
  - apply pair_geb_trans.
  - intros a b x y [Hx Hx'] [Hy Hy'] Hab. unfold video_order.
    rewrite <- Hx, <- Hy, <- Hx', <- Hy'. by apply pair_geb_iff.
  - eapply Forall_impl; [exact Hv|]. intros f [Hok Hf].
    destruct (descriptor_ok_inv f Hok)
      as (Hd & _ & _ & _ & _ & _ & _ & _ & _ & Hh & Hr).
    by apply video_key_ok.
Qed.

(** What the video table prints, given the order of its rows: all of them
    when no frame rate is null, else those before the first row whose frame
    rate is null. *)
Lemma video_table_run video rows :
  Forall (λ f, descriptor_ok f = true ∧ is_video f = true) video →
  sorted_desc pair_geb video_key video = Ok rows → rows ≡ₚ video →
  (∃ lines,
      Forall (λ f, null_field "fps" f = false) video
      ∧ Forall2 (λ f line, video_row f = Ok line) rows lines
      ∧ emits (video_table video) (table_lines video_heading lines) tt)
  ∨ (∃ before f after lines,
        rows = before ++ f :: after
        ∧ Forall (λ g, null_field "fps" g = false) before
        ∧ null_field "fps" f = true
        ∧ Forall2 (λ g line, video_row g = Ok line) before lines
        ∧ fails_after (video_table video) (video_heading ++ lines) TypeError).
Proof.
  intros Hv Hs Hp.
  destruct (rows_split video_row
              (λ f, descriptor_ok f = true ∧ is_video f = true)
              (null_field "fps") TypeError rows)
    as [[Hall [lines Hl]]|(before & f & after & lines & -> & Hb & Hf & Hl & He)].
  - intros f [Hok Hf]. by apply video_row_cases.
  - by rewrite Hp.
  - left. exists lines. split; [by rewrite <- Hp|]. split; [done|].
    by apply (video_table_emits video rows lines).
  - right. exists before, f, after, lines. repeat split; try done.
    by apply (video_table_fails video before f after lines).
Qed.

Lemma audio_table_run audio rows :
  Forall (λ f, descriptor_ok f = true ∧ is_audio f = true) audio →
  sorted_desc Q_geb audio_key audio = Ok rows → rows ≡ₚ audio →
  ∃ lines,
    Forall2 (λ f line, audio_row f = Ok line) rows lines
    ∧ emits (audio_table audio) (table_lines audio_heading lines) tt.
Proof.
  intros Ha Hs Hp.
  destruct (rows_ok audio_row
              (λ f, descriptor_ok f = true ∧ is_audio f = true) rows)
    as [lines Hl].
  - intros f [??]. by apply audio_row_ok.
  - by rewrite Hp.
  - exists lines. split; [done|]. by apply (audio_table_emits audio rows lines).
Qed.

End Tables.



(** The audio table of the example lists 251 before 140, and its video
    table lists both descriptors of height 1080. *)
Example example_tables :
  stdout (@audio_table sample_runtime (List.filter is_audio example_formats)
            (World ∅ [])).1
  = audio_heading
    ++ ["   251 |  webm |       160k |         opus |          ?";
        "   140 |   m4a |       128k |    mp4a.40.2 |          ?"; ""]
  ∧ stdout (@video_table sample_runtime (List.filter is_video example_formats)
              (World ∅ [])).1
    = video_heading
      ++ ["   137 |     ? |       ?x1080 |   30 |       avc1 |          ?";
          "   248 |     ? |       ?x1080 |   30 |        vp9 |          ?"; ""].
Proof. split; vm_compute; reflexivity. Qed.

(** An audio format whose bitrate is null is the last row of its table; a
    video format whose height is null is the last row of its table, and a
    video format whose frame rate is null ends the table where it would be
    printed. *)
Example example_null_rows :
  @audio_table sample_runtime (List.filter is_audio mixed_formats) (World ∅ [])
  = (World ∅
       (audio_heading
        ++ ["   251 |  webm |       160k |         opus |          ?";
            "   140 |   m4a |       128k |    mp4a.40.2 |          ?";
            "   233 |   mp4 |          ? |    mp4a.40.5 |          ?"; ""]),
     Ok tt)
  ∧ @video_table sample_runtime (List.filter is_video mixed_formats) (World ∅ [])
    = (World ∅
         (video_heading
          ++ ["   137 |     ? |       ?x1080 |   30 |       avc1 |          ?"]),
       Raise TypeError)
  ∧ @video_table sample_runtime (List.filter is_video tie_formats) (World ∅ [])
    = (World ∅
         (video_heading
          ++ ["   299 |     ? |       ?x1080 |   60 |       avc1 |          ?";
              "   137 |     ? |       ?x1080 |   30 |       avc1 |          ?";
              "   248 |     ? |       ?x1080 |   30 |        vp9 |          ?";
              "   136 |     ? |        ?x720 |   30 |       avc1 |          ?";
              "   135 |     ? |        ?x480 |   30 |       avc1 |          ?";
              "   616 |     ? |       ?xNone |   60 |       vp09 |          ?";
              ""]),
       Ok tt).
Proof. repeat split; vm_compute; reflexivity. Qed.

(** ** The recommendation *)

Lemma best_of_step cand k seen acc f :
  best_of cand k seen acc → best_of cand k (seen ++ [f]) (better cand k acc f).
Proof.
  unfold better. intros Hb. destruct (cand f) eqn:Hc.
  - destruct acc as [x|]; cbn [best_of] in *.
    + destruct Hb as (Hin & Hx & Hall).
      destruct (Qle_bool (number_or_0 k f) (number_or_0 k x)) eqn:Hle;
        cbn [negb].
      * split; [apply elem_of_app; by left|]. split; [done|].
        apply Forall_app. split; [done|]. constructor; [|done].
        intros _. by apply Qle_bool_iff.
      * assert (number_or_0 k x < number_or_0 k f)%Q as Hlt.
        { apply Qnot_le_lt. intros Hl. apply Qle_bool_iff in Hl. congruence. }
        split; [apply elem_of_app; right; by apply list_elem_of_singleton|].
        split; [done|]. apply Forall_app. split.
        -- eapply Forall_impl; [exact Hall|]. intros g Hg Hcg.
           eapply Qle_trans; [by apply Hg|by apply Qlt_le_weak].
        -- constructor; [|done]. intros _. apply Qle_refl.
    + split; [apply elem_of_app; right; by apply list_elem_of_singleton|].
      split; [done|]. apply Forall_app. split.
      * eapply Forall_impl; [exact Hb|]. intros g Hg Hcg. congruence.
      * constructor; [|done]. intros _. apply Qle_refl.
  - destruct acc as [x|]; cbn [best_of] in *.
    + destruct Hb as (Hin & Hx & Hall).
      split; [apply elem_of_app; by left|]. split; [done|].
      apply Forall_app. split; [done|]. constructor; [|done]. congruence.
    + apply Forall_app. split; [done|]. by constructor.
Qed.

Lemma best_of_fold cand k l :
  ∀ seen acc, best_of cand k seen acc →
              best_of cand k (seen ++ l) (fold_left (better cand k) l acc).
Proof.
  induction l as [|f l IH]; intros seen acc Hb; cbn [fold_left].
  - by rewrite app_nil_r.
  - replace (seen ++ f :: l) with ((seen ++ [f]) ++ l)
      by (by rewrite <- app_assoc).
    apply IH. by apply best_of_step.
Qed.

Section Recommendation.
Context {R : Runtime}.

Lemma num_default_0 k d :
  opt_num (dict_get k d) = true →
  num_value (default (PInt 0) (dict_get k d)) = Some (number_or_0 k (PDict d)).
Proof.
  unfold number_or_0. cbn [field]. by destruct (dict_get k d) as [[]|].
Qed.

Lemma descriptor_truthy f : descriptor_ok f = true → truthy f = true.
Proof.
  intros Hok. destruct (descriptor_ok_inv f Hok) as (Hd & [id Hid] & _).
  destruct f as [| | | | | |[|kv d]]; done.
Qed.

Lemma improves_ok k b f :
  is_dict f = true → is_dict b = true → truthy b = true →
  opt_num (field k f) = true → opt_num (field k b) = true →
  improves k (Some b) f
  = Ok (negb (Qle_bool (number_or_0 k f) (number_or_0 k b))).
Proof.
  destruct f as [| | | | | |d]; try done.
  destruct b as [| | | | | |d']; try done. intros _ _ Ht Hf Hb.
  unfold improves. rewrite Ht. cbn [negb field] in *.
  rewrite !get_dict, rbind_ok, rbind_ok. unfold py_gt.
  by rewrite !num_default_0.
Qed.

Lemma has_field_truthy k f : has_field k f = true → truthy f = true.
Proof.
  unfold has_field. destruct f as [| | | | | |[|kv d]]; done.
Qed.

Lemma video_scannable_inv f :
  video_scannable f = true →
  is_dict f = true ∧ opt_str (field "vcodec" f) = true
  ∧ (is_avc1 f = true →
     has_field "format_id" f = true ∧ opt_num (field "height" f) = true).
Proof.
  unfold video_scannable. rewrite !andb_true_iff. intros [[Hd Hc] Hk].
  split; [done|]. split; [done|]. intros Ha. rewrite Ha in Hk.
  by apply andb_true_iff in Hk.
Qed.

Lemma audio_scannable_inv f :
  audio_scannable f = true →
  is_dict f = true
  ∧ (is_m4a f = true →
     has_field "format_id" f = true ∧ opt_num (field "abr" f) = true).
Proof.
  unfold audio_scannable. rewrite !andb_true_iff. intros [Hd Hk].
  split; [done|]. intros Ha. rewrite Ha in Hk. by apply andb_true_iff in Hk.
Qed.

Lemma scan_video_step f rest acc :
  video_scannable f = true →
  (∀ x, acc = Some x → video_scannable x = true ∧ is_avc1 x = true) →
  scan_video (f :: rest) acc = scan_video rest (better is_avc1 "height" acc f).
Proof.
  intros (Hd & Hvc & Hcand)%video_scannable_inv Hacc.
  destruct f as [| | | | | |d]; try done.
  cbn [scan_video]. rewrite get_dict, rbind_ok.
  unfold better. unfold is_avc1 in *. cbn [field] in *.
  destruct (dict_get "vcodec" d) as [[| | | |c| |]|]; try done.
  cbn [default from_option id].
  destruct (startswith "avc1" c); [|done].
  destruct (Hcand eq_refl) as [Hid Hh].
  destruct acc as [x|]; [|done].
  destruct (Hacc x eq_refl) as [(Hdx & _ & Hx)%video_scannable_inv Hxa].
  destruct (Hx Hxa) as [Hidx Hhx].
  rewrite (improves_ok "height" x (PDict d)), rbind_ok;
    [done..|by apply (has_field_truthy "format_id")|done|done].
Qed.

Lemma better_typed (P : pyval → Prop) cand k acc f :
  (cand f = true → P f) → (∀ x, acc = Some x → P x) →
  ∀ x, better cand k acc f = Some x → P x.
Proof.
  intros Hf Hacc x. unfold better. destruct (cand f); [|by apply Hacc].
  destruct acc as [y|]; [|intros [= <-]; by apply Hf].
  destruct (negb _); [intros [= <-]; by apply Hf|by apply Hacc].
Qed.

Lemma scan_video_ok l :
  Forall (λ f, video_scannable f = true) l →
  ∀ acc, (∀ x, acc = Some x → video_scannable x = true ∧ is_avc1 x = true) →
         scan_video l acc = Ok (fold_left (better is_avc1 "height") l acc).
Proof.
  induction 1 as [|f l Hok _ IH]; intros acc Hacc; [done|].
  rewrite scan_video_step by done. cbn [fold_left]. apply IH.
  by apply (better_typed (λ f, video_scannable f = true ∧ is_avc1 f = true)).
Qed.

Lemma scan_audio_step f rest acc :
  audio_scannable f = true →
  (∀ x, acc = Some x → audio_scannable x = true ∧ is_m4a x = true) →
  scan_audio (f :: rest) acc = scan_audio rest (better is_m4a "abr" acc f).
Proof.
  intros (Hd & Hcand)%audio_scannable_inv Hacc.
  destruct f as [| | | | | |d]; try done.
  cbn [scan_audio]. rewrite get_dict, rbind_ok.
  unfold better. unfold is_m4a in *. cbn [field] in *.
  destruct (dict_get "ext" d) as [[| |z|q|e| |]|]; try done.
  cbn [default from_option id py_eqb].
  destruct (String.eqb e "m4a"); [|done].
  destruct (Hcand eq_refl) as [Hid Hh].
  destruct acc as [x|]; [|done].
  destruct (Hacc x eq_refl) as [(Hdx & Hx)%audio_scannable_inv Hxa].
  destruct (Hx Hxa) as [Hidx Hhx].
  rewrite (improves_ok "abr" x (PDict d)), rbind_ok;
    [done..|by apply (has_field_truthy "format_id")|done|done].
Qed.

Lemma scan_audio_ok l :
  Forall (λ f, audio_scannable f = true) l →
  ∀ acc, (∀ x, acc = Some x → audio_scannable x = true ∧ is_m4a x = true) →
         scan_audio l acc = Ok (fold_left (better is_m4a "abr") l acc).
Proof.
  induction 1 as [|f l Hok _ IH]; intros acc Hacc; [done|].
  rewrite scan_audio_step by done. cbn [fold_left]. apply IH.
  by apply (better_typed (λ f, audio_scannable f = true ∧ is_m4a f = true)).
Qed.

(** The best candidate of a scan is a candidate with an identifier. *)
Lemma fold_better_typed cand k (P : pyval → Prop) l :
  Forall (λ f, cand f = true → P f) l →
  ∀ acc, (∀ x, acc = Some x → P x) →
         ∀ x, fold_left (better cand k) l acc = Some x → P x.
Proof.
  induction 1 as [|f l Hf _ IH]; intros acc Hacc x; cbn [fold_left].
  - apply Hacc.
  - apply IH. by apply better_typed.
Qed.

End Recommendation.

(** ** The report *)

Section Reports.
Context {R : Runtime}.

Lemma field_text_get k d :
  py_str (default PNone (dict_get k d)) = field_text k (PDict d).
Proof. unfold field_text. cbn [field]. by destruct (dict_get k d). Qed.

Lemma text_or_get dflt k d :
  py_str (default (PStr dflt) (dict_get k d)) = text_or dflt k (PDict d).
Proof. unfold text_or. cbn [field]. by destruct (dict_get k d). Qed.

Lemma best_pair_emits d bv ba :
  (∀ x, bv = Some x → has_field "format_id" x = true) →
  (∀ x, ba = Some x → has_field "format_id" x = true) →
  emits
    match bv, ba with
    | Some bv, Some ba =>
        if truthy bv && truthy ba then
          print "   Лучшее H.264 + AAC (совместимо везде):";;
          vid ← lift (getitem bv "format_id");
          aid ← lift (getitem ba "format_id");
          url ← lift (get (PDict d) "webpage_url" PNone);
          print (combined_command (py_str vid) (py_str aid) (py_str url));;
          print ""
        else mret tt
    | _, _ => mret tt
    end
    (best_pair_lines (PDict d) bv ba) tt.
Proof.
  intros Hv Ha. unfold best_pair_lines.
  destruct bv as [x|]; [|apply emits_ret].
  destruct ba as [y|]; [|apply emits_ret].
  specialize (Hv x eq_refl). specialize (Ha y eq_refl).
  rewrite (has_field_truthy _ x Hv), (has_field_truthy _ y Ha). cbn [andb].
  unfold has_field in Hv, Ha. unfold field_text at 1 2.
  destruct x as [| | | | | |dx]; try done.
  destruct y as [| | | | | |dy]; try done.
  cbn [field getitem] in *.
  destruct (dict_get "format_id" dx) as [idx|]; [|done].
  destruct (dict_get "format_id" dy) as [idy|]; [|done].
  rewrite get_dict.
  apply emits_print_then. do 3 apply emits_lift_then.
  rewrite field_text_get. apply emits_print_then. apply emits_print.
Qed.

(** The lines of the recommendation, given what the two scans return. *)
Lemma recommendations_scanned d video audio bv ba :
  scan_video video None = Ok bv → scan_audio audio None = Ok ba →
  (∀ x, bv = Some x → has_field "format_id" x = true) →
  (∀ x, ba = Some x → has_field "format_id" x = true) →
  emits (recommendations (PDict d) video audio)
    (recommendation_lines (PDict d) bv ba) tt.
Proof.
  intros Hsv Hsa Hv Ha.
  unfold recommendations, recommendation_lines. cbn [app].
  do 3 apply emits_print_then.
  rewrite Hsv. apply emits_lift_then. rewrite Hsa. apply emits_lift_then.
  apply (emits_bind _ _ (best_pair_lines (PDict d) bv ba)
           (generic_lines (PDict d)) tt tt).
  - by apply (best_pair_emits d bv ba).
  - unfold generic_lines. rewrite !get_dict, <- !field_text_get.
    apply emits_print_then. apply emits_lift_then.
    do 3 apply emits_print_then. apply emits_lift_then.
    apply emits_print_then. apply emits_print.
Qed.

Lemma best_video_id video :
  Forall (λ f, video_scannable f = true) video →
  ∀ x, fold_left (better is_avc1 "height") video None = Some x →
       has_field "format_id" x = true.
Proof.
  intros Hv. apply (fold_better_typed is_avc1 "height"); [|done].
  eapply Forall_impl; [exact Hv|].
  intros f (_ & _ & Hc)%video_scannable_inv Hf. by apply Hc.
Qed.

Lemma best_audio_id audio :
  Forall (λ f, audio_scannable f = true) audio →
  ∀ x, fold_left (better is_m4a "abr") audio None = Some x →
       has_field "format_id" x = true.
Proof.
  intros Ha. apply (fold_better_typed is_m4a "abr"); [|done].
  eapply Forall_impl; [exact Ha|].
  intros f (_ & Hc)%audio_scannable_inv Hf. by apply Hc.
Qed.

Lemma recommendations_emits d video audio :
  Forall (λ f, video_scannable f = true) video →
  Forall (λ f, audio_scannable f = true) audio →
  ∃ bv ba,
    best_of is_avc1 "height" video bv ∧ best_of is_m4a "abr" audio ba
    ∧ emits (recommendations (PDict d) video audio)
        (recommendation_lines (PDict d) bv ba) tt.
Proof.
  intros Hv Ha.
  exists (fold_left (better is_avc1 "height") video None),
         (fold_left (better is_m4a "abr") audio None).
  split; [apply (best_of_fold is_avc1 "height" video [] None); constructor|].
  split; [apply (best_of_fold is_m4a "abr" audio [] None); constructor|].
  apply recommendations_scanned.
  - by apply scan_video_ok.
  - by apply scan_audio_ok.
  - by apply best_video_id.
  - by apply best_audio_id.
Qed.

Lemma format_duration_ok d :
  match dict_get "duration" d with None | Some (PInt _) => true | _ => false end
  = true →
  format_duration (default (PInt 0) (dict_get "duration" d))
  = Ok (duration_text (PDict d)).
Proof.
  unfold duration_text. cbn [field].
  by destruct (dict_get "duration" d) as [[]|].
Qed.

Lemma video_descriptor_scannable f :
  descriptor_ok f = true → is_video f = true → no_null_number f = true →
  null_field "fps" f = false ∧ video_scannable f = true.
Proof.
  intros Hok Hv Hn.
  destruct (descriptor_ok_inv f Hok)
    as (Hd & [id Hid] & _ & Hvc & _ & _ & _ & _ & _ & Hh & _).
  unfold no_null_number in Hn. rewrite Hv in Hn.
  apply andb_true_iff in Hn as [Hfps Hheight].
  split; [by destruct (null_field "fps" f)|].
  unfold video_scannable, has_field. rewrite Hd, Hid.
  unfold is_video, codec_present in Hv. unfold is_avc1, null_field in *.
  destruct (field "vcodec" f) as [[| | | |c| |]|]; try done.
  cbn [andb opt_str].
  destruct (startswith "avc1" c); [|done].
  by destruct (field "height" f) as [[]|].
Qed.

Lemma audio_descriptor_scannable f :
  descriptor_ok f = true → is_audio f = true → no_null_number f = true →
  audio_scannable f = true.
Proof.
  intros Hok Ha Hn.
  destruct (descriptor_ok_inv f Hok)
    as (Hd & [id Hid] & _ & _ & _ & _ & _ & _ & Habr & _).
  unfold no_null_number in Hn. rewrite Ha in Hn.
  assert (is_video f = false) as Hv.
  { unfold is_audio in Ha. by destruct (is_video f). }
  rewrite Hv in Hn. unfold audio_scannable, has_field. rewrite Hd, Hid.
  cbn [andb].
  destruct (is_m4a f); [|done]. unfold null_field in Hn.
  by destruct (field "abr" f) as [[]|].
Qed.

Lemma forallb_descriptors l :
  forallb descriptor_ok l = true →
  Forall (λ f, is_dict f = true) l
  ∧ Forall (λ f, descriptor_ok f = true ∧ is_video f = true)
      (List.filter is_video l)
  ∧ Forall (λ f, descriptor_ok f = true ∧ is_audio f = true)
      (List.filter is_audio l).
Proof.
  intros Hl. rewrite forallb_forall in Hl. repeat split.
  - apply Forall_forall. intros f Hf%list_elem_of_In.
    by apply descriptor_ok_dict, Hl.
  - apply Forall_forall. intros f Hf%list_elem_of_In.
    apply filter_In in Hf as [Hf Hv]. split; [by apply Hl|done].
  - apply Forall_forall. intros f Hf%list_elem_of_In.
    apply filter_In in Hf as [Hf Hv]. split; [by apply Hl|done].
Qed.

Lemma forallb_no_null l :
  forallb descriptor_ok l = true → forallb no_null_number l = true →
  Forall (λ f, (descriptor_ok f = true ∧ is_video f = true)
               ∧ null_field "fps" f = false) (List.filter is_video l)
  ∧ Forall (λ f, video_scannable f = true) (List.filter is_video l)
  ∧ Forall (λ f, audio_scannable f = true) (List.filter is_audio l).
Proof.
  intros Hl Hn. rewrite forallb_forall in Hl, Hn. repeat split.
  - apply Forall_forall. intros f Hf%list_elem_of_In.
    apply filter_In in Hf as [Hf Hv].
    split; [split; [by apply Hl|done]|].
    by apply video_descriptor_scannable; [apply Hl| |apply Hn].
  - apply Forall_forall. intros f Hf%list_elem_of_In.
    apply filter_In in Hf as [Hf Hv].
    by apply video_descriptor_scannable; [apply Hl| |apply Hn].
  - apply Forall_forall. intros f Hf%list_elem_of_In.
    apply filter_In in Hf as [Hf Ha].
    by apply audio_descriptor_scannable; [apply Hl| |apply Hn].
Qed.

(** The report of a fetch result without formats. *)
Lemma print_formats_empty info :
  info_ok info = true → formats_of info = [] →
  emits (print_formats info) (report_head info ++ [NO_FORMATS]) tt.
Proof.
  intros Hok He. unfold info_ok in Hok. rewrite !andb_true_iff in Hok.
  destruct Hok as [[[Hd Ht] Hdur] Hf].
  destruct info as [| | | | | |d]; try done.
  unfold formats_of in He. cbn [field] in *.
  unfold print_formats, report_head. rewrite !get_dict, <- !text_or_get.
  cbn [app].
  do 3 apply emits_lift_then. do 3 apply emits_print_then.
  rewrite format_duration_ok by done. apply emits_lift_then. do 3 apply emits_print_then. apply emits_lift_then.
  destruct (dict_get "formats" d) as [[| | | | |l|]|]; try discriminate;
    cbn [default from_option id]; [subst l|]; apply emits_print.
Qed.

(** The report of a fetch result with formats, none of which has a null
    where a number is formatted or compared. *)
Lemma print_formats_emits info :
  info_ok info = true → forallb no_null_number (formats_of info) = true →
  formats_of info ≠ [] →
  ∃ best_video best_audio audio_rows video_rows,
    best_of is_avc1 "height" (List.filter is_video (formats_of info)) best_video
    ∧ best_of is_m4a "abr" (List.filter is_audio (formats_of info)) best_audio
    ∧ length audio_rows = length (List.filter is_audio (formats_of info))
    ∧ length video_rows = length (List.filter is_video (formats_of info))
    ∧ emits (print_formats info)
        (report_head info
         ++ table_lines audio_heading audio_rows
         ++ table_lines video_heading video_rows
         ++ recommendation_lines info best_video best_audio) tt.
Proof.
  intros Hok Hnn Hne. unfold info_ok in Hok. rewrite !andb_true_iff in Hok.
  destruct Hok as [[[Hd Ht] Hdur] Hf].
  destruct info as [| | | | | |d]; try done.
  unfold formats_of in *. cbn [field] in *.
  destruct (dict_get "formats" d) as [[| | | | |l|]|] eqn:Hfs; try done.
  destruct (forallb_descriptors l Hf) as (Hdicts & Hv & Ha).
  destruct (forallb_no_null l Hf Hnn) as (Hvn & Hvs & Has').
  destruct (recommendations_emits d _ _ Hvs Has') as (bv & ba & Hbv & Hba & Hrec).
  destruct (audio_sorted _ Ha) as (arows & Has & Hap & _).
  destruct (rows_ok audio_row
              (λ f, descriptor_ok f = true ∧ is_audio f = true) arows)
    as [alines Hal];
    [intros f [??]; by apply audio_row_ok|by rewrite Hap|].
  destruct (video_sorted _ Hv) as (vrows & Hvs' & Hvp & _).
  destruct (rows_ok video_row
              (λ f, (descriptor_ok f = true ∧ is_video f = true)
                    ∧ null_field "fps" f = false) vrows)
    as [vlines Hvl];
    [intros f [[??] ?]; by apply video_row_ok|by rewrite Hvp|].
  exists bv, ba, alines, vlines. split; [done|]. split; [done|].
  split; [by rewrite <- (Forall2_length _ _ _ Hal), Hap|].
  split; [by rewrite <- (Forall2_length _ _ _ Hvl), Hvp|].
  unfold print_formats, report_head. rewrite !get_dict, Hfs, <- !text_or_get.
  cbn [app].
  do 3 apply emits_lift_then. do 3 apply emits_print_then.
  rewrite format_duration_ok by done. apply emits_lift_then. do 3 apply emits_print_then. apply emits_lift_then.
  cbn [default from_option id].
  assert (truthy (PList l) = true) as -> by (by destruct l).
  cbn [negb iterate]. apply emits_lift_then.
  rewrite partition_dicts by done. cbn [app]. apply emits_lift_then.
  eapply emits_bind; [by apply (audio_table_emits _ arows alines)|].
  eapply emits_bind; [by apply (video_table_emits _ vrows vlines)|].
  exact Hrec.
Qed.

End Reports.

(** C7 (the code departs from the claim).  The scan for the best audio
    compares the bitrates as they are: with two m4a audio formats, the
    bitrate of the second one null, the comparison raises [TypeError].  The
    report stops after the heading of the recommendation: no best audio is
    selected, and neither the command of the pair nor the two generic
    commands are printed.  The tables above, which take a null bitrate
    for 0, are complete. *)
Theorem recommendations_null_bitrate :
  ∀ R : Runtime,
    info_ok null_abr_info = true
    ∧ scan_audio (List.filter is_audio (formats_of null_abr_info)) None
      = Raise TypeError
    ∧ recommendations null_abr_info
        (List.filter is_video (formats_of null_abr_info))
        (List.filter is_audio (formats_of null_abr_info)) (World ∅ [])
      = (World ∅ [RULE; "💡 РЕКОМЕНДАЦИИ по скачиванию:"; ""],
         Raise TypeError)
    ∧ @print_formats sample_runtime null_abr_info (World ∅ [])
      = (World ∅
           (@report_head sample_runtime null_abr_info
            ++ audio_heading
            ++ ["   140 |   m4a |       128k |    mp4a.40.2 |          ?";
                "   233 |   m4a |          ? |    mp4a.40.5 |          ?"; ""]
            ++ video_heading
            ++ ["   137 |     ? |       ?x1080 |   30 |       avc1 |          ?";
                ""]
            ++ [RULE; "💡 РЕКОМЕНДАЦИИ по скачиванию:"; ""]),
         Raise TypeError).
Proof. intros R. repeat split; vm_compute; reflexivity. Qed.

(** With the bitrate of that format missing instead of null the scan takes
    it for 0 and the first format stays the best audio. *)
Example example_missing_bitrate :
  @scan_audio
    [PDict [("format_id", PStr "140"); ("acodec", PStr "mp4a.40.2");
            ("ext", PStr "m4a"); ("abr", PInt 128)];
     PDict [("format_id", PStr "233"); ("acodec", PStr "mp4a.40.5");
            ("ext", PStr "m4a")]] None
  = Ok (Some (PDict [("format_id", PStr "140"); ("acodec", PStr "mp4a.40.2");
                     ("ext", PStr "m4a"); ("abr", PInt 128)])).
Proof. vm_compute. reflexivity. Qed.

(** The recommendation of the example pairs the video 137 with the
    audio 140. *)
Example example_recommendation :
  @scan_video (List.filter is_video example_formats) None
  = Ok (nth_error example_formats 2)
  ∧ @scan_audio (List.filter is_audio example_formats) None
    = Ok (nth_error example_formats 0)
  ∧ stdout (@recommendations sample_runtime example_info
              (List.filter is_video example_formats)
              (List.filter is_audio example_formats) (World ∅ [])).1
    = [RULE; "💡 РЕКОМЕНДАЦИИ по скачиванию:"; "";
       "   Лучшее H.264 + AAC (совместимо везде):";
       "   yt-dlp --cookies cookies.txt -f 137+140 " +:+ DQ
         +:+ "https://youtu.be/nt8cBMecQR0" +:+ DQ;
       "";
       "   Авто-выбор лучшего:";
       "   yt-dlp --cookies cookies.txt -f " +:+ DQ
         +:+ "bv*[vcodec^=avc1]+ba[ext=m4a]/b" +:+ DQ +:+ " " +:+ DQ
         +:+ "https://youtu.be/nt8cBMecQR0" +:+ DQ;
       "";
       "   Только аудио (MP3):";
       "   yt-dlp --cookies cookies.txt -x --audio-format mp3 " +:+ DQ
         +:+ "https://youtu.be/nt8cBMecQR0" +:+ DQ;
       RULE].
Proof. repeat split; vm_compute; reflexivity. Qed.


(** ** The run of the format reporter *)

Section Run.
Context {R : Runtime} {Y : Ydl}.

Lemma url_emits argv :
  emits
    match argv with
    | u :: _ => mret u
    | [] =>
        print ("ℹ️  Используем тестовый URL: " +:+ DEFAULT_URL);;
        print "   Можно указать свой: python3 formats.py <URL>";;
        print "";;
        mret DEFAULT_URL
    end
    (url_lines argv) (chosen_url argv).
Proof.
  destruct argv as [|u argv]; cbn [url_lines chosen_url].
  - do 3 apply emits_print_then. apply emits_ret.
  - apply emits_ret.
Qed.

Lemma check_cookies_emits env :
  emits (check_cookies env) (cookie_lines env) (has_cookies env).
Proof.
  unfold check_cookies, cookie_lines, has_cookies.
  destruct (cookies_size env) as [size|].
  - destruct (size <? 100)%N; cbn [negb].
    + do 2 apply emits_print_then. apply emits_ret.
    + apply emits_print_then. apply emits_ret.
  - do 8 apply emits_print_then. apply emits_ret.
Qed.

Lemma cookies_emits env :
  emits
    (if has_cookies env && bool_decide (is_Some (cookies_size env)) then
       print ("🍪 Используем cookies: " +:+ cookies_name env);;
       mret (Some (COOKIES_FILE env))
     else
       print "🔓 Запрос без cookies";;
       mret None)
    [if has_cookies env then "🍪 Используем cookies: " +:+ cookies_name env
     else "🔓 Запрос без cookies"]
    (cookie_file env).
Proof.
  unfold cookie_file, has_cookies. destruct (cookies_size env) as [size|].
  - rewrite bool_decide_eq_true_2 by eauto. rewrite andb_true_r.
    destruct (negb (size <? 100)%N); apply emits_print_then, emits_ret.
  - cbn [andb]. apply emits_print_then, emits_ret.
Qed.

Lemma get_formats_returned env url info :
  extract_info url (cookie_file env) = Returned info →
  emits (get_formats env url (has_cookies env)) (fetch_lines env url) info.
Proof.
  intros Hf. unfold get_formats, fetch_lines.
  apply (emits_bind _ _ [_] _ (cookie_file env) info); [apply cookies_emits|].
  do 4 apply emits_print_then. rewrite Hf. apply emits_ret.
Qed.

Lemma hint_emits msg :
  emits
    (if contains "403" msg then
       print "💡 Подсказка: HTTP 403 = YouTube блокирует запрос";;
       print "   Попробуй:";;
       print "   - Обновить cookies (залогиниться заново)";;
       print "   - Использовать VPN/прокси";;
       print "   - Подождать 5-10 минут"
     else if contains "Sign in" msg || contains "login" (lower msg) then
       print "💡 Подсказка: Требуется авторизация";;
       print "   Убедись, что cookies экспортированы с залогиненного аккаунта"
     else mret tt)
    (hint msg) tt.
Proof.
  unfold hint. destruct (contains "403" msg).
  - unfold HINT_403. do 4 apply emits_print_then. apply emits_print.
  - destruct (contains "Sign in" msg || contains "login" (lower msg)).
    + unfold HINT_AUTH. apply emits_print_then. apply emits_print.
    + apply emits_ret.
Qed.

Lemma get_formats_failed env url msg :
  extract_info url (cookie_file env) = Failed msg →
  emits (get_formats env url (has_cookies env))
    (fetch_lines env url ++ ["❌ Ошибка: " +:+ msg; ""] ++ hint msg) PNone.
Proof.
  intros Hf. unfold get_formats, fetch_lines.
  apply (emits_bind _ _ [_] _ (cookie_file env) PNone); [apply cookies_emits|].
  cbn [app]. do 4 apply emits_print_then. rewrite Hf.
  do 2 apply emits_print_then.
  replace (hint msg) with (hint msg ++ []) by apply app_nil_r.
  eapply emits_bind; [apply hint_emits|apply emits_ret].
Qed.

Lemma emits_eq {A} (m : IO A) l l' a : emits m l a → l = l' → emits m l' a.
Proof. by intros ? <-. Qed.

Lemma fails_eq {A} (m : IO A) l l' e :
  fails_after m l e → l = l' → fails_after m l' e.
Proof. by intros ? <-. Qed.

Lemma main_failed env argv msg :
  extract_info (chosen_url argv) (cookie_file env) = Failed msg →
  fails_after (main env argv) (prelude env argv ++ failure_lines msg)
    (SystemExit 1).
Proof.
  intros Hf. unfold main.
  eapply fails_eq.
  - eapply fails_bind; [apply url_emits|].
    eapply fails_bind; [apply check_cookies_emits|].
    eapply (fails_bind _ _ [""] _ tt); [apply emits_print|].
    eapply fails_bind; [by apply get_formats_failed|].
    cbn [truthy].
    apply (fails_bind _ _ [FETCH_FAILED] [] tt); [apply emits_print|].
    intros [fs out]. unfold raise. cbn. by rewrite app_nil_r.
  - unfold prelude, failure_lines. by rewrite <- !app_assoc.
Qed.

Lemma main_returned env argv info report :
  extract_info (chosen_url argv) (cookie_file env) = Returned info →
  truthy info = true →
  emits (print_formats info) report tt →
  emits (main env argv) (prelude env argv ++ report) tt.
Proof.
  intros Hf Ht Hrep. unfold main.
  eapply emits_eq.
  - eapply emits_bind; [apply url_emits|].
    eapply emits_bind; [apply check_cookies_emits|].
    eapply (emits_bind _ _ [""] _ tt); [apply emits_print|].
    eapply emits_bind; [by apply get_formats_returned|].
    rewrite Ht. exact Hrep.
  - unfold prelude. by rewrite <- !app_assoc.
Qed.

End Run.

(** What a run prints and how it ends.  When the fetch raises an error, the
    run prints the error, the hint for 403 when the text of the error has
    403 in it, else the hint for authorization when it has a sign-in or
    login phrase in it, and the line of the failure; it prints no report
    and ends with status 1.  When the fetch returns a record of the data
    model none of whose formats has a null where a number is formatted or
    compared, the run prints the report and ends with status 0, also when
    the record has no formats or none that is video or audio. *)
Lemma main_exit_status (R : Runtime) (Y : Ydl) (env : environment)
    (argv : list string) :
  (∀ msg,
     extract_info (chosen_url argv) (cookie_file env) = Failed msg →
     fails_after (main env argv) (prelude env argv ++ failure_lines msg)
       (SystemExit 1)
     ∧ ∀ w, exit_status (main env argv w).2 = 1)
  ∧ (∀ info,
       extract_info (chosen_url argv) (cookie_file env) = Returned info →
       info_ok info = true →
       forallb no_null_number (formats_of info) = true →
       ∃ report,
         emits (main env argv) (prelude env argv ++ report_head info ++ report) tt
         ∧ (formats_of info = [] → report = [NO_FORMATS])
         ∧ (formats_of info ≠ [] →
            List.filter is_video (formats_of info) = [] →
            List.filter is_audio (formats_of info) = [] →
            report = [RULE; "💡 РЕКОМЕНДАЦИИ по скачиванию:"; ""]
                     ++ generic_lines info)
         ∧ ∀ w, exit_status (main env argv w).2 = 0).
Proof.
  split.
  - intros msg Hf. pose proof (main_failed env argv msg Hf) as Hm.
    split; [done|]. intros w. by rewrite Hm.
  - intros info Hf Hok Hnn.
    assert (truthy info = true) as Ht.
    { unfold info_ok in Hok. rewrite !andb_true_iff in Hok. tauto. }
    destruct (formats_of info) as [|f fs] eqn:Hfs.
    + exists [NO_FORMATS].
      pose proof (main_returned env argv info _ Hf Ht
                    (print_formats_empty info Hok Hfs)) as Hm.
      split; [done|]. split; [done|]. split; [done|].
      intros w. by rewrite Hm.
    + destruct (print_formats_emits info Hok)
        as (bv & ba & alines & vlines & Hbv & Hba & Hla & Hlv & Hrep);
        [by rewrite Hfs|by rewrite Hfs|].
      rewrite Hfs in *.
      pose proof (main_returned env argv info _ Hf Ht Hrep) as Hm.
      eexists. split; [exact Hm|]. split; [done|]. split.
      * intros _ Hv Ha. rewrite Hv in *. rewrite Ha in *.
        destruct alines; [|done]. destruct vlines; [|done].
        destruct bv as [x|]; [destruct Hbv as [Hin _]; by inversion Hin|].
        reflexivity.
      * intros w. by rewrite Hm.
Qed.

(** C8 (the code departs from the claim).  A fetch that succeeds does not
    always end with status 0: when the record it returns has a video format
    whose frame rate is null, the run prints the head of the report and the
    heading of the video table, the format of the frame rate column raises
    [TypeError], nothing catches it, and the run ends with status 1. *)
Theorem main_successful_fetch_exits_1 :
  ∀ R : Runtime,
    @extract_info null_fps_ydl (chosen_url []) (cookie_file example_env)
    = Returned null_fps_info
    ∧ info_ok null_fps_info = true
    ∧ @main R null_fps_ydl example_env [] (World ∅ [])
      = (World ∅ (prelude example_env [] ++ report_head null_fps_info
                  ++ video_heading),
         Raise TypeError)
    ∧ exit_status (@main R null_fps_ydl example_env [] (World ∅ [])).2 = 1.
Proof. intros R. repeat split; vm_compute; reflexivity. Qed.

(** The runs of the example: a refused fetch ends with status 1, the fetch
    of the example with status 0. *)
Example example_exit_status :
  exit_status
    (@main sample_runtime forbidden_ydl example_env [] (World ∅ [])).2 = 1
  ∧ exit_status
      (@main sample_runtime example_ydl example_env [] (World ∅ [])).2 = 0.
Proof. split; vm_compute; reflexivity. Qed.

(** A refused fetch prints the hint for 403 and no line of a report. *)
Example example_forbidden :
  @main sample_runtime forbidden_ydl example_env [] (World ∅ [])
  = (World ∅ (prelude example_env []
              ++ ["❌ Ошибка: HTTP Error 403: Forbidden"; ""]
              ++ HINT_403 ++ [FETCH_FAILED]),
     Raise (SystemExit 1))
  ∧ forallb (λ line, negb (String.eqb line RULE))
      (stdout (@main sample_runtime forbidden_ydl example_env []
                 (World ∅ [])).1) = true.
Proof. split; vm_compute; reflexivity. Qed.

(** Outside the data model: a frame rate that is there but null has no
    right-aligned format, so the row of such a video descriptor raises
    [TypeError] after the heading of the table. *)
Example null_frame_rate :
  @video_row sample_runtime
    (PDict [("format_id", PStr "137"); ("vcodec", PStr "avc1.640028");
            ("height", PInt 1080); ("fps", PNone)])
  = Raise TypeError.
Proof. reflexivity. Qed.

(** * Further properties of the scripts *)

(** ** The project root *)

Lemma find_root_some exists_in current root :
  find_root exists_in current = Some root →
  ∃ below,
    current = below ++ root ∧ root ≠ []
    ∧ exists_in root "youtube-downloader" = true
    ∧ ∀ b1 b2, below = b1 ++ b2 → b2 ≠ [] →
               exists_in (b2 ++ root) "youtube-downloader" = false.
Proof.
  induction current as [|c up IH]; [done|]. cbn [find_root].
  destruct (exists_in (c :: up) "youtube-downloader") eqn:He.
  - intros [= <-]. exists []. repeat split; try done.
    intros b1 b2 Hb. by destruct b1, b2.
  - intros (below & -> & Hne & Hr & Hmin)%IH. exists (c :: below).
    repeat split; try done. intros b1 b2 Hb Hb2.
    destruct b1 as [|c' b1]; cbn in Hb.
    + subst b2. exact He.
    + injection Hb as -> ->. by apply (Hmin b1 b2).
Qed.

Lemma find_root_none exists_in current :
  find_root exists_in current = None →
  ∀ b1 b2, current = b1 ++ b2 → b2 ≠ [] →
           exists_in b2 "youtube-downloader" = false.
Proof.
  induction current as [|c up IH]; cbn [find_root].
  - intros _ b1 b2 Hb. by destruct b1, b2.
  - destruct (exists_in (c :: up) "youtube-downloader") eqn:He; [done|].
    intros Hn b1 b2 Hb Hb2. destruct b1 as [|c' b1]; cbn in Hb.
    + by subst b2.
    + injection Hb as -> ->. by apply (IH Hn b1 b2).
Qed.

(** The project root is the nearest directory, from the directory of the
    script upwards and short of the root of the file system, that has an
    entry youtube-downloader; when there is none (the root of the file
    system is not looked at), it is the parent of the script's directory. *)
Theorem get_project_root_nearest (exists_in : path → string → bool)
    (script_dir : path) :
  let root := get_project_root exists_in script_dir in
  (∃ below,
      script_dir = below ++ root ∧ root ≠ []
      ∧ exists_in root "youtube-downloader" = true
      ∧ ∀ b1 b2, below = b1 ++ b2 → b2 ≠ [] →
                 exists_in (b2 ++ root) "youtube-downloader" = false)
  ∨ ((∀ b1 b2, script_dir = b1 ++ b2 → b2 ≠ [] →
               exists_in b2 "youtube-downloader" = false)
     ∧ root = parent script_dir).
Proof.
  unfold get_project_root.
  destruct (find_root exists_in script_dir) as [root|] eqn:Hf.
  - left. by apply find_root_some.
  - right. split; [|done]. by apply find_root_none.
Qed.

(** ** More on [bump_version] *)

Lemma lstrip_all (p q : ascii → bool) s :
  (∀ c, p c = true → q c = true) →
  all_chars q (lstrip p s) = true → all_chars q s = true.
Proof.
  intros Hpq. induction s as [|c s IH]; [done|]. cbn [lstrip].
  destruct (p c) eqn:Hc; [|done]. intros Hs. cbn [all_chars].
  by rewrite (Hpq c Hc), (IH Hs).
Qed.

Lemma rstrip_all (p q : ascii → bool) s :
  (∀ c, p c = true → q c = true) →
  all_chars q (rstrip p s) = true → all_chars q s = true.
Proof.
  intros Hpq. induction s as [|c s IH]; [done|]. cbn [rstrip].
  destruct (rstrip p s) as [|d r] eqn:Hr.
  - destruct (p c) eqn:Hc.
    + intros _. cbn [all_chars]. by rewrite (Hpq c Hc), IH.
    + cbn [all_chars]. intros [-> _]%andb_prop. by rewrite IH.
  - cbn [all_chars]. intros [-> Hs]%andb_prop. by rewrite IH.
Qed.

Lemma int_digits_no_dot s :
  ∀ acc after, is_Some (int_digits s acc after) →
               all_chars (is_not ".") s = true.
Proof.
  induction s as [|c s IH]; [done|]. intros acc after. cbn [int_digits all_chars].
  destruct (is_digit c) eqn:Hd.
  - intros Hs%IH. rewrite Hs, andb_true_r.
    apply digit_facts in Hd as (_ & _ & _ & Hd). unfold is_not.
    apply negb_true_iff. by apply ascii_eqb_neq.
  - destruct (ascii_eqb c "_" && after) eqn:Hu; [|by intros []].
    intros Hs%IH. rewrite Hs, andb_true_r.
    apply andb_prop in Hu as [Hu%ascii_eqb_eq _]. by subst c.
Qed.

Lemma int_space_no_dot c : is_int_space c = true → is_not "." c = true.
Proof. destruct c as [[] [] [] [] [] [] [] []]; by cbn. Qed.

(** A text that [int()] accepts has no dot in it. *)
Lemma py_int_no_dot s : is_Some (py_int s) → all_chars (is_not ".") s = true.
Proof.
  unfold py_int. intros Hs.
  apply (lstrip_all is_int_space); [apply int_space_no_dot|].
  apply (rstrip_all is_int_space); [apply int_space_no_dot|].
  destruct (rstrip is_int_space (lstrip is_int_space s)) as [|c d]; [done|].
  assert (Hd : is_Some (int_digits d 0 false) → c = "-"%char ∨ c = "+"%char →
               all_chars (is_not ".") (String c d) = true).
  { intros Hd%int_digits_no_dot [-> | ->]; cbn [all_chars]; by rewrite Hd. }
  destruct c as [[] [] [] [] [] [] [] []]; cbv beta iota in Hs;
    apply fmap_is_Some in Hs;
    first [ by apply (int_digits_no_dot _ 0%N false)
          | apply Hd; auto ].
Qed.

Lemma split_dotted a b c :
  all_chars (is_not ".") a = true → all_chars (is_not ".") b = true →
  all_chars (is_not ".") c = true →
  split "." (dotted a b c) = [a; b; c].
Proof.
  intros Ha Hb Hc. unfold dotted.
  change (a +:+ "." +:+ b +:+ "." +:+ c)
    with (a +:+ String "." (b +:+ String "." c)).
  by rewrite !split_app, split_without.
Qed.

Lemma bump_version_dotted a b c x y z kind :
  py_int a = Some x → py_int b = Some y → py_int c = Some z →
  bump_version (dotted a b c) kind
  = if String.eqb kind "major" then Ok (dotted (str_of_Z (x + 1)) "0" "0")
    else if String.eqb kind "minor"
         then Ok (dotted (str_of_Z x) (str_of_Z (y + 1)) "0")
    else if String.eqb kind "patch"
         then Ok (dotted (str_of_Z x) (str_of_Z y) (str_of_Z (z + 1)))
    else Raise (ValueError (UnknownBumpType kind)).
Proof.
  intros Ha Hb Hc. unfold bump_version.
  rewrite split_dotted by (apply py_int_no_dot; by rewrite ?Ha, ?Hb, ?Hc).
  cbn [length Nat.eqb negb]. unfold int. rewrite Ha, Hb, Hc.
  cbn [mbind result_bind rbind].
  destruct (String.eqb kind "major"); [done|].
  destruct (String.eqb kind "minor"); [done|].
  by destruct (String.eqb kind "patch").
Qed.

(** [bump_version] reads its three components the way [int()] does (white
    space around, a sign, single underscores between digits, leading zeros)
    and writes the result in plain decimal, so it also normalises the
    version; with components that are read, any kind but the three known
    ones raises [ValueError] for the kind. *)
Theorem bump_version_normalises (a b c : string) (x y z : Z) :
  py_int a = Some x → py_int b = Some y → py_int c = Some z →
  bump_version (dotted a b c) "patch"
  = Ok (dotted (str_of_Z x) (str_of_Z y) (str_of_Z (z + 1)))
  ∧ bump_version (dotted a b c) "minor"
    = Ok (dotted (str_of_Z x) (str_of_Z (y + 1)) "0")
  ∧ bump_version (dotted a b c) "major"
    = Ok (dotted (str_of_Z (x + 1)) "0" "0")
  ∧ ∀ kind, kind ≠ "major" → kind ≠ "minor" → kind ≠ "patch" →
            bump_version (dotted a b c) kind
            = Raise (ValueError (UnknownBumpType kind)).
Proof.
  intros Ha Hb Hc. repeat split.
  - by rewrite (bump_version_dotted a b c x y z).
  - by rewrite (bump_version_dotted a b c x y z).
  - by rewrite (bump_version_dotted a b c x y z).
  - intros kind H1 H2 H3. rewrite (bump_version_dotted a b c x y z) by done.
    apply String.eqb_neq in H1, H2, H3. by rewrite H1, H2, H3.
Qed.

Lemma bump_version_normalises_witness :
  bump_version (dotted " 01" "1_0" "-9 ") "patch" = Ok (dotted "1" "10" "-8")
  ∧ bump_version (dotted " 01" "1_0" "-9 ") "minor" = Ok (dotted "1" "11" "0")
  ∧ bump_version (dotted " 01" "1_0" "-9 ") "major" = Ok (dotted "2" "0" "0")
  ∧ ∀ kind, kind ≠ "major" → kind ≠ "minor" → kind ≠ "patch" →
            bump_version (dotted " 01" "1_0" "-9 ") kind
            = Raise (ValueError (UnknownBumpType kind)).
Proof.
  apply (bump_version_normalises " 01" "1_0" "-9 " 1 10 (-9)); reflexivity.
Defined.

Lemma version_string_dotted X Y Z :
  version_string X Y Z = dotted (str_of_N X) (str_of_N Y) (str_of_N Z).
Proof. reflexivity. Qed.

Lemma bump_version_string X Y Z kind :
  bump_version (version_string X Y Z) kind
  = if String.eqb kind "major" then Ok (version_string (X + 1) 0 0)
    else if String.eqb kind "minor" then Ok (version_string X (Y + 1) 0)
    else if String.eqb kind "patch" then Ok (version_string X Y (Z + 1))
    else Raise (ValueError (UnknownBumpType kind)).
Proof.
  rewrite version_string_dotted.
  rewrite (bump_version_dotted _ _ _ (Z.of_N X) (Z.of_N Y) (Z.of_N Z))
    by apply py_int_str_of_N.
  rewrite !version_string_dotted, <- !(N2Z.inj_add _ 1), !str_of_Z_of_N.
  reflexivity.
Qed.

(** A bump of a higher part absorbs an earlier bump of a lower part: patch
    then minor is minor, and patch or minor then major is major; a patch
    after a minor bump starts from the zero the minor bump wrote. *)
Theorem bump_version_absorbs (X Y Z : N) :
  let v := version_string X Y Z in
  (bump_version v "patch" ≫= λ v', bump_version v' "minor")
  = bump_version v "minor"
  ∧ (bump_version v "patch" ≫= λ v', bump_version v' "major")
    = bump_version v "major"
  ∧ (bump_version v "minor" ≫= λ v', bump_version v' "major")
    = bump_version v "major"
  ∧ (bump_version v "minor" ≫= λ v', bump_version v' "patch")
    = Ok (version_string X (Y + 1) 1)
  ∧ (bump_version v "patch" ≫= λ v', bump_version v' "patch")
    = Ok (version_string X Y (Z + 2)).
Proof.
  cbn zeta. rewrite !bump_version_string.
  cbn [String.eqb Ascii.eqb Bool.eqb mbind result_bind rbind].
  rewrite !bump_version_string.
  cbn [String.eqb Ascii.eqb Bool.eqb].
  repeat split. by rewrite <- N.add_assoc.
Qed.

(** ** The duration line *)

Lemma py_int_str_of_Z z : py_int (str_of_Z z) = Some z.
Proof.
  rewrite str_of_Z_sign. destruct (z <? 0)%Z eqn:E.
  - apply Z.ltb_lt in E. unfold py_int.
    rewrite lstrip_id by done. rewrite rstrip_id.
    + cbv beta iota. rewrite int_digits_str_of_N. cbn. f_equal.
      rewrite N2Z.inj_abs_N. lia.
    + cbn [all_chars]. eapply all_chars_impl; [|apply str_of_N_digits].
      intros c Hc. cbn beta. by apply digit_facts in Hc as [-> _].
  - apply Z.ltb_ge in E. rewrite py_int_str_of_N. f_equal.
    rewrite N2Z.inj_abs_N. lia.
Qed.

Lemma format_02d_seconds r :
  (0 ≤ r < 60)%Z →
  String.length (format_02d r) = 2%nat
  ∧ all_chars is_digit (format_02d r) = true
  ∧ py_int (format_02d r) = Some r.
Proof.
  intros Hr.
  assert (Hall :
    forallb (λ n, let s := format_02d (Z.of_nat n) in
                  (String.length s =? 2)%nat && all_chars is_digit s
                  && match py_int s with
                     | Some x => (x =? Z.of_nat n)%Z
                     | None => false
                     end) (seq 0 60) = true) by (vm_compute; reflexivity).
  rewrite forallb_forall in Hall.
  specialize (Hall (Z.to_nat r)). rewrite Z2Nat.id in Hall by lia.
  cbn zeta in Hall.
  assert (In (Z.to_nat r) (seq 0 60)) as Hin by (apply in_seq; lia).
  apply Hall in Hin. apply andb_prop in Hin as [[Hl Hd]%andb_prop Hp].
  apply Nat.eqb_eq in Hl.
  destruct (py_int (format_02d r)) as [x|]; [|done].
  apply Z.eqb_eq in Hp. by subst x.
Qed.

(** The duration line reads back: for every integer duration the text is
    the minutes, a colon and exactly two digits of seconds below 60, and
    60 times the minutes plus the seconds is the duration (the minutes
    carry the sign of a negative duration). *)
Theorem format_duration_reads_back (duration : Z) :
  ∃ m s : string,
    format_duration (PInt duration) = Ok (m +:+ ":" +:+ s)
    ∧ String.length s = 2%nat ∧ all_chars is_digit s = true
    ∧ ∃ minutes seconds : Z,
        py_int m = Some minutes ∧ py_int s = Some seconds
        ∧ (0 ≤ seconds < 60)%Z ∧ (60 * minutes + seconds = duration)%Z.
Proof.
  exists (str_of_Z (duration / 60)), (format_02d (duration mod 60)).
  pose proof (Z.mod_pos_bound duration 60 ltac:(lia)) as Hr.
  destruct (format_02d_seconds _ Hr) as (Hl & Hd & Hp).
  split; [done|]. split; [done|]. split; [done|].
  exists (duration / 60)%Z, (duration mod 60)%Z.
  split; [apply py_int_str_of_Z|]. split; [done|]. split; [done|].
  symmetry. apply Z.div_mod. lia.
Qed.

(** ** A fetch that returns nothing *)

Section EmptyFetch.
Context {R : Runtime} {Y : Ydl}.

Lemma main_empty env argv info :
  extract_info (chosen_url argv) (cookie_file env) = Returned info →
  truthy info = false →
  fails_after (main env argv) (prelude env argv ++ [FETCH_FAILED])
    (SystemExit 1).
Proof.
  intros Hf Ht. unfold main.
  eapply fails_eq.
  - eapply fails_bind; [apply url_emits|].
    eapply fails_bind; [apply check_cookies_emits|].
    eapply (fails_bind _ _ [""] _ tt); [apply emits_print|].
    eapply fails_bind; [by apply get_formats_returned|].
    rewrite Ht.
    apply (fails_bind _ _ [FETCH_FAILED] [] tt); [apply emits_print|].
    intros [fs out]. unfold raise. cbn. by rewrite app_nil_r.
  - unfold prelude. by rewrite <- !app_assoc.
Qed.

End EmptyFetch.

(** A fetch that returns without an error but with an empty result (an
    empty record, or no record at all) is treated like a failed fetch: no
    report and no error text, only the line of the failure, and status 1. *)
Theorem main_empty_result (R : Runtime) (Y : Ydl) (env : environment)
    (argv : list string) (info : pyval) :
  extract_info (chosen_url argv) (cookie_file env) = Returned info →
  truthy info = false →
  fails_after (main env argv) (prelude env argv ++ [FETCH_FAILED])
    (SystemExit 1)
  ∧ ∀ w, exit_status (main env argv w).2 = 1.
Proof.
  intros Hf Ht. pose proof (main_empty env argv info Hf Ht) as Hm.
  split; [done|]. intros w. by rewrite Hm.
Qed.

Lemma main_empty_result_witness :
  fails_after
    (@main sample_runtime
       {| extract_info := λ _ _, Returned (PDict []) |} example_env [])
    (prelude example_env [] ++ [FETCH_FAILED]) (SystemExit 1)
  ∧ ∀ w, exit_status
           (@main sample_runtime
              {| extract_info := λ _ _, Returned (PDict []) |}
              example_env [] w).2 = 1.
Proof.
  apply (main_empty_result sample_runtime
           {| extract_info := λ _ _, Returned (PDict []) |}
           example_env [] (PDict [])); reflexivity.
Defined.

(** ** Rows with equal keys *)

Section Stability.
Context {K : Type} (geb : K → K → bool).
Hypothesis geb_trans : ∀ a b c, geb a b = true → geb b c = true → geb a c = true.

Lemma insert_desc_filter c x l :
  List.filter (λ y : K * pyval, same_key geb c y.1) (insert_desc geb x l)
  = List.filter (λ y : K * pyval, same_key geb c y.1) (x :: l).
Proof.
  induction l as [|y l IH]; [done|]. cbn [insert_desc].
  destruct (geb x.1 y.1) eqn:Hxy; [done|].
  cbn [List.filter] in *. rewrite IH.
  destruct (same_key geb c x.1) eqn:Hx; [|done].
  destruct (same_key geb c y.1) eqn:Hy; [|done].
  unfold same_key in Hx, Hy.
  apply andb_prop in Hx as [_ Hx], Hy as [Hy _].
  rewrite (geb_trans _ _ _ Hx Hy) in Hxy. done.
Qed.

Lemma sort_desc_filter c l :
  List.filter (λ y : K * pyval, same_key geb c y.1) (sort_desc geb l)
  = List.filter (λ y : K * pyval, same_key geb c y.1) l.
Proof.
  induction l as [|x l IH]; [done|]. cbn [sort_desc].
  rewrite insert_desc_filter. cbn [List.filter]. by rewrite IH.
Qed.

End Stability.

Lemma filter_map_snd {K} (p : pyval → bool) (ks : list (K * pyval)) :
  List.filter p (map snd ks) = map snd (List.filter (λ kf, p kf.2) ks).
Proof.
  induction ks as [|kf ks IH]; [done|]. cbn. destruct (p kf.2); cbn; by rewrite IH.
Qed.

Lemma filter_ext_Forall {A} (p q : A → bool) (P : A → Prop) l :
  (∀ x, P x → p x = q x) → Forall P l → List.filter p l = List.filter q l.
Proof.
  intros Hpq. induction 1 as [|x l Hx _ IH]; [done|]. cbn.
  by rewrite (Hpq x Hx), IH.
Qed.

Lemma sorted_desc_stable {K} (geb : K → K → bool) key (P : K → pyval → Prop)
    (cls : K → pyval → bool) l :
  (∀ a b c, geb a b = true → geb b c = true → geb a c = true) →
  (∀ c k f, P k f → cls c f = same_key geb c k) →
  Forall (λ f, ∃ k, key f = Ok (Some k) ∧ P k f) l →
  ∃ rows, sorted_desc geb key l = Ok rows
          ∧ rows ≡ₚ l
          ∧ ∀ c, List.filter (cls c) rows = List.filter (cls c) l.
Proof.
  intros Htr Hcls Hl.
  destruct (keys_of_ok key P l Hl) as (ks & Hks & Hm & HF).
  exists (map snd (sort_desc geb ks)). unfold sorted_desc.
  rewrite Hks, rbind_ok. split; [done|]. split.
  - by rewrite sort_desc_perm, Hm.
  - intros c. rewrite <- Hm, !filter_map_snd. f_equal.
    rewrite (filter_ext_Forall (λ kf, cls c kf.2)
               (λ kf : K * pyval, same_key geb c kf.1)
               (λ kf, P kf.1 kf.2) (sort_desc geb ks)).
    + rewrite sort_desc_filter by done. symmetry.
      apply (filter_ext_Forall _ _ (λ kf, P kf.1 kf.2)); [|done].
      intros [k f] Hp. by apply Hcls.
    + intros [k f] Hp. by apply Hcls.
    + by rewrite sort_desc_perm.
Qed.

Lemma Qeq_bool_comp a b c d :
  (a == b)%Q → (c == d)%Q → Qeq_bool a c = Qeq_bool b d.
Proof.
  intros Hab Hcd. destruct (Qeq_bool b d) eqn:E.
  - apply Qeq_bool_iff in E. apply Qeq_bool_iff. by rewrite Hab, Hcd.
  - apply Qeq_bool_neq in E. destruct (Qeq_bool a c) eqn:E'; [|done].
    apply Qeq_bool_iff in E'. destruct E. by rewrite <- Hab, <- Hcd.
Qed.

Lemma same_key_Q a b : same_key Q_geb a b = Qeq_bool b a.
Proof.
  unfold same_key, Q_geb. destruct (Qeq_bool b a) eqn:E.
  - apply Qeq_bool_iff in E. apply andb_true_iff.
    split; apply Qle_bool_iff; rewrite E; apply Qle_refl.
  - apply Qeq_bool_neq in E. apply andb_false_iff.
    destruct (Qle_bool b a) eqn:H1; [|by left].
    destruct (Qle_bool a b) eqn:H2; [|by right].
    apply Qle_bool_iff in H1, H2. destruct E. by apply Qle_antisym.
Qed.

Lemma same_key_pair a b :
  same_key pair_geb a b = Qeq_bool b.1 a.1 && Qeq_bool b.2 a.2.
Proof.
  unfold same_key.
  destruct (Qeq_bool b.1 a.1 && Qeq_bool b.2 a.2) eqn:E.
  - apply andb_prop in E as [E1%Qeq_bool_iff E2%Qeq_bool_iff].
    apply andb_true_iff. split; apply pair_geb_iff; right.
    + split; [done|]. rewrite E2. apply Qle_refl.
    + split; [by symmetry|]. rewrite E2. apply Qle_refl.
  - apply andb_false_iff.
    destruct (pair_geb a b) eqn:H1; [|by left].
    destruct (pair_geb b a) eqn:H2; [|by right].
    apply pair_geb_iff in H1, H2. apply andb_false_iff in E.
    destruct H1 as [H1|[H1 H1']], H2 as [H2|[H2 H2']].
    + destruct (Qlt_irrefl a.1). by eapply Qlt_trans.
    + rewrite H2 in H1. by destruct (Qlt_irrefl b.1).
    + rewrite H1 in H2. by destruct (Qlt_irrefl a.1).
    + destruct E as [E|E]; apply Qeq_bool_neq in E; destruct E; [done|].
      by apply Qle_antisym.
Qed.

Section Stable.
Context {R : Runtime}.

Lemma audio_stable audio :
  Forall (λ f, descriptor_ok f = true ∧ is_audio f = true) audio →
  ∃ rows, sorted_desc Q_geb audio_key audio = Ok rows ∧ rows ≡ₚ audio
          ∧ ∀ q, List.filter (has_bitrate q) rows
                 = List.filter (has_bitrate q) audio.
Proof.
  intros Ha.
  apply (sorted_desc_stable Q_geb audio_key (λ q f, (q == bitrate f)%Q)).
  - apply Q_geb_trans.
  - intros c k f Hk. unfold has_bitrate. rewrite same_key_Q.
    by apply Qeq_bool_comp.
  - eapply Forall_impl; [exact Ha|]. intros f [Hok Hf]. apply audio_key_ok.
    + by apply descriptor_ok_dict.
    + by apply (descriptor_ok_inv f Hok).
Qed.

Lemma video_stable video :
  Forall (λ f, descriptor_ok f = true ∧ is_video f = true) video →
  ∃ rows, sorted_desc pair_geb video_key video = Ok rows ∧ rows ≡ₚ video
          ∧ ∀ hr, List.filter (has_size hr) rows
                  = List.filter (has_size hr) video.
Proof.
  intros Hv.
  apply (sorted_desc_stable pair_geb video_key
           (λ k f, (k.1 == height f)%Q ∧ (k.2 == frame_rate f)%Q)).
  - apply pair_geb_trans.
  - intros c k f [Hh Hr]. unfold has_size. rewrite same_key_pair.
    f_equal; by apply Qeq_bool_comp.
  - eapply Forall_impl; [exact Hv|]. intros f [Hok Hf].
    destruct (descriptor_ok_inv f Hok)
      as (Hd & _ & _ & _ & _ & _ & _ & _ & _ & Hh & Hr).
    by apply video_key_ok.
Qed.

End Stable.

(** The order of the tables is stable: the audio rows of one bitrate, and
    the video rows of one height and frame rate (a number that is null or
    missing counting as 0), keep the order in which the fetch result lists
    them.  The audio table prints all its rows in that order; so does the
    video table unless a frame rate is null, and then it prints the rows
    before the first such row and raises [TypeError]. *)
Theorem tables_stable (R : Runtime) (audio video : list pyval) :
  Forall (λ f, descriptor_ok f = true ∧ is_audio f = true) audio →
  Forall (λ f, descriptor_ok f = true ∧ is_video f = true) video →
  (∃ rows lines,
      (∀ q, List.filter (has_bitrate q) rows
            = List.filter (has_bitrate q) audio)
      ∧ Forall2 (λ f line, audio_row f = Ok line) rows lines
      ∧ emits (audio_table audio) (table_lines audio_heading lines) tt)
  ∧ (∃ rows,
      (∀ hr, List.filter (has_size hr) rows
             = List.filter (has_size hr) video)
      ∧ ((∃ lines,
             Forall (λ f, null_field "fps" f = false) video
             ∧ Forall2 (λ f line, video_row f = Ok line) rows lines
             ∧ emits (video_table video) (table_lines video_heading lines) tt)
         ∨ (∃ before f after lines,
               rows = before ++ f :: after
               ∧ Forall (λ g, null_field "fps" g = false) before
               ∧ null_field "fps" f = true
               ∧ Forall2 (λ g line, video_row g = Ok line) before lines
               ∧ fails_after (video_table video) (video_heading ++ lines)
                   TypeError))).
Proof.
  intros Ha Hv. split.
  - destruct (audio_stable audio Ha) as (rows & Hs & Hp & Hst).
    destruct (audio_table_run audio rows Ha Hs Hp) as (lines & Hl & He).
    by exists rows, lines.
  - destruct (video_stable video Hv) as (rows & Hs & Hp & Hst).
    exists rows. split; [done|]. by apply video_table_run.
Qed.

Lemma tables_stable_witness :
  (∃ rows lines,
      (∀ q, List.filter (has_bitrate q) rows
            = List.filter (has_bitrate q) (List.filter is_audio tie_formats))
      ∧ Forall2 (λ f line, @audio_row sample_runtime f = Ok line) rows lines
      ∧ emits (@audio_table sample_runtime (List.filter is_audio tie_formats))
          (table_lines audio_heading lines) tt)
  ∧ (∃ rows,
      (∀ hr, List.filter (has_size hr) rows
             = List.filter (has_size hr) (List.filter is_video tie_formats))
      ∧ ((∃ lines,
             Forall (λ f, null_field "fps" f = false)
               (List.filter is_video tie_formats)
             ∧ Forall2 (λ f line, @video_row sample_runtime f = Ok line)
                 rows lines
             ∧ emits (@video_table sample_runtime
                        (List.filter is_video tie_formats))
                 (table_lines video_heading lines) tt)
         ∨ (∃ before f after lines,
               rows = before ++ f :: after
               ∧ Forall (λ g, null_field "fps" g = false) before
               ∧ null_field "fps" f = true
               ∧ Forall2 (λ g line, @video_row sample_runtime g = Ok line)
                   before lines
               ∧ fails_after (@video_table sample_runtime
                                (List.filter is_video tie_formats))
                   (video_heading ++ lines) TypeError))).
Proof.
  apply (tables_stable sample_runtime
           (List.filter is_audio tie_formats)
           (List.filter is_video tie_formats));
    repeat constructor.
Defined.

(** Rows with the same key: the audio formats 140 and 141 have the same
    bitrate and the video formats 137 and 248 the same height and frame
    rate; each pair is printed in the order of the fetch result. *)
Example example_stable_rows :
  @audio_table sample_runtime (List.filter is_audio tie_formats) (World ∅ [])
  = (World ∅
       (audio_heading
        ++ ["   140 |   m4a |       128k |    mp4a.40.2 |          ?";
            "   141 |   m4a |       128k |    mp4a.40.2 |          ?";
            "   139 |   m4a |        48k |    mp4a.40.5 |          ?";
            "   251 |  webm |          ? |         opus |          ?"; ""]),
     Ok tt)
  ∧ stdout (@video_table sample_runtime (List.filter is_video tie_formats)
              (World ∅ [])).1
    = video_heading
      ++ ["   299 |     ? |       ?x1080 |   60 |       avc1 |          ?";
          "   137 |     ? |       ?x1080 |   30 |       avc1 |          ?";
          "   248 |     ? |       ?x1080 |   30 |        vp9 |          ?";
          "   136 |     ? |        ?x720 |   30 |       avc1 |          ?";
          "   135 |     ? |        ?x480 |   30 |       avc1 |          ?";
          "   616 |     ? |       ?xNone |   60 |       vp09 |          ?";
          ""].
Proof. split; vm_compute; reflexivity. Qed.

(** ** The first of the best candidates *)

Lemma first_best_step cand k seen acc f :
  first_best cand k seen acc →
  first_best cand k (seen ++ [f]) (better cand k acc f).
Proof.
  unfold better. intros Hb. destruct (cand f) eqn:Hc.
  - destruct acc as [x|]; cbn [first_best] in *.
    + destruct Hb as (l1 & l2 & -> & Hx & H1 & H2).
      destruct (Qle_bool (number_or_0 k f) (number_or_0 k x)) eqn:Hle;
        cbn [negb].
      * exists l1, (l2 ++ [f]). split; [by rewrite <- app_assoc|].
        split; [done|]. split; [done|]. apply Forall_app. split; [done|].
        constructor; [|done]. intros _. by apply Qle_bool_iff.
      * assert (number_or_0 k x < number_or_0 k f)%Q as Hlt.
        { apply Qnot_le_lt. intros Hl. apply Qle_bool_iff in Hl. congruence. }
        exists (l1 ++ x :: l2), []. split; [done|]. split; [done|].
        split; [|done]. apply Forall_app. split.
        -- eapply Forall_impl; [exact H1|]. intros g Hg Hcg.
           eapply Qlt_trans; [by apply Hg|done].
        -- constructor; [done|].
           eapply Forall_impl; [exact H2|]. intros g Hg Hcg.
           eapply Qle_lt_trans; [by apply Hg|done].
    + exists seen, []. split; [done|]. split; [done|]. split; [|done].
      eapply Forall_impl; [exact Hb|]. intros g Hg Hcg. congruence.
  - destruct acc as [x|]; cbn [first_best] in *.
    + destruct Hb as (l1 & l2 & -> & Hx & H1 & H2).
      exists l1, (l2 ++ [f]). split; [by rewrite <- app_assoc|].
      split; [done|]. split; [done|]. apply Forall_app. split; [done|].
      constructor; [|done]. congruence.
    + apply Forall_app. split; [done|]. by constructor.
Qed.

Lemma first_best_fold cand k l :
  ∀ seen acc, first_best cand k seen acc →
              first_best cand k (seen ++ l) (fold_left (better cand k) l acc).
Proof.
  induction l as [|f l IH]; intros seen acc Hb; cbn [fold_left].
  - by rewrite app_nil_r.
  - replace (seen ++ f :: l) with ((seen ++ [f]) ++ l)
      by (by rewrite <- app_assoc).
    apply IH. by apply first_best_step.
Qed.

Lemma first_best_elem cand k l x : first_best cand k l (Some x) → x ∈ l.
Proof.
  intros (l1 & l2 & -> & _). apply elem_of_app. right. by left.
Qed.

(** Among the candidates of the greatest height (bitrate) the
    recommendation takes the one that the fetch result lists first: no
    avc1 video before the best one is as high, no m4a audio before the best
    one has its bitrate, and none after them exceeds them.  This is so when
    every avc1 video has an identifier and a height that is a number or
    missing, and every m4a audio an identifier and a bitrate that is a
    number or missing; the other descriptors may have any height and
    bitrate, also null.  The recommendation then prints the command of the
    pair, with the two identifiers, and the two generic commands. *)
Theorem recommendations_first_best (R : Runtime) (info : pyval)
    (video audio : list pyval) :
  is_dict info = true →
  Forall (λ f, video_scannable f = true) video →
  Forall (λ f, audio_scannable f = true) audio →
  ∃ best_video best_audio,
    scan_video video None = Ok best_video
    ∧ scan_audio audio None = Ok best_audio
    ∧ first_best is_avc1 "height" video best_video
    ∧ first_best is_m4a "abr" audio best_audio
    ∧ emits (recommendations info video audio)
        ([RULE; "💡 РЕКОМЕНДАЦИИ по скачиванию:"; ""]
         ++ match best_video, best_audio with
            | Some bv, Some ba =>
                ["   Лучшее H.264 + AAC (совместимо везде):";
                 "   yt-dlp --cookies cookies.txt -f "
                   +:+ field_text "format_id" bv +:+ "+"
                   +:+ field_text "format_id" ba +:+ " " +:+ DQ
                   +:+ field_text "webpage_url" info +:+ DQ;
                 ""]
            | _, _ => []
            end
         ++ generic_lines info) tt.
Proof.
  intros Hd Hv Ha. destruct info as [| | | | | |d]; try done.
  set (bv := fold_left (better is_avc1 "height") video None).
  set (ba := fold_left (better is_m4a "abr") audio None).
  exists bv, ba.
  assert (Hsv : scan_video video None = Ok bv) by (by apply scan_video_ok).
  assert (Hsa : scan_audio audio None = Ok ba) by (by apply scan_audio_ok).
  split; [done|]. split; [done|].
  split; [apply (first_best_fold is_avc1 "height" video [] None); constructor|].
  split; [apply (first_best_fold is_m4a "abr" audio [] None); constructor|].
  apply (recommendations_scanned d video audio bv ba Hsv Hsa).
  - by apply best_video_id.
  - by apply best_audio_id.
Qed.

Lemma recommendations_first_best_witness :
  ∃ best_video best_audio,
    scan_video (List.filter is_video tie_formats) None = Ok best_video
    ∧ scan_audio (List.filter is_audio tie_formats) None = Ok best_audio
    ∧ first_best is_avc1 "height" (List.filter is_video tie_formats)
        best_video
    ∧ first_best is_m4a "abr" (List.filter is_audio tie_formats)
        best_audio
    ∧ emits (@recommendations sample_runtime tie_info
               (List.filter is_video tie_formats)
               (List.filter is_audio tie_formats))
        ([RULE; "💡 РЕКОМЕНДАЦИИ по скачиванию:"; ""]
         ++ match best_video, best_audio with
            | Some bv, Some ba =>
                ["   Лучшее H.264 + AAC (совместимо везде):";
                 "   yt-dlp --cookies cookies.txt -f "
                   +:+ @field_text sample_runtime "format_id" bv +:+ "+"
                   +:+ @field_text sample_runtime "format_id" ba +:+ " " +:+ DQ
                   +:+ @field_text sample_runtime "webpage_url" tie_info +:+ DQ;
                 ""]
            | _, _ => []
            end
         ++ @generic_lines sample_runtime tie_info) tt.
Proof.
  apply (recommendations_first_best sample_runtime tie_info
           (List.filter is_video tie_formats)
           (List.filter is_audio tie_formats));
    repeat constructor.
Defined.

(** With several candidates: the video 137 replaces the lower 136 and is
    kept against the later 299 of the same height; the audio 140 replaces
    the lower 139 and is kept against the later 141 of the same bitrate.
    The formats 616 and 251, whose height and bitrate are null, are no
    candidates. *)
Example example_first_best :
  @scan_video (List.filter is_video tie_formats) None
  = Ok (nth_error tie_formats 6)
  ∧ @scan_audio (List.filter is_audio tie_formats) None
    = Ok (nth_error tie_formats 2)
  ∧ @recommendations sample_runtime tie_info
      (List.filter is_video tie_formats) (List.filter is_audio tie_formats)
      (World ∅ [])
    = (World ∅
         [RULE; "💡 РЕКОМЕНДАЦИИ по скачиванию:"; "";
          "   Лучшее H.264 + AAC (совместимо везде):";
          "   yt-dlp --cookies cookies.txt -f 137+140 " +:+ DQ
            +:+ "https://youtu.be/nt8cBMecQR0" +:+ DQ;
          "";
          "   Авто-выбор лучшего:";
          "   yt-dlp --cookies cookies.txt -f " +:+ DQ
            +:+ "bv*[vcodec^=avc1]+ba[ext=m4a]/b" +:+ DQ +:+ " " +:+ DQ
            +:+ "https://youtu.be/nt8cBMecQR0" +:+ DQ;
          "";
          "   Только аудио (MP3):";
          "   yt-dlp --cookies cookies.txt -x --audio-format mp3 " +:+ DQ
            +:+ "https://youtu.be/nt8cBMecQR0" +:+ DQ;
          RULE],
       Ok tt).
Proof. repeat split; vm_compute; reflexivity. Qed.

(** ** What the version commands do to the files *)

Lemma touches_refl P w : touches_only P w w.
Proof. repeat split; try done. exists []. by rewrite app_nil_r. Qed.

Lemma touches_trans P w1 w2 w3 :
  touches_only P w1 w2 → touches_only P w2 w3 → touches_only P w1 w3.
Proof.
  intros (H1 & H1' & [o1 Ho1]) (H2 & H2' & [o2 Ho2]). repeat split.
  - intros p Hp. by rewrite H2, H1.
  - intros p Hp. by apply H2', H1'.
  - exists (o1 ++ o2). by rewrite Ho2, Ho1, app_assoc.
Qed.

Lemma keeps_mono {A} (P Q : string → Prop) (m : IO A) :
  (∀ p, P p → Q p) → keeps P m → keeps Q m.
Proof.
  intros HPQ Hm w. destruct (Hm w) as (H1 & H2 & H3).
  repeat split; [|done..]. intros p Hp. apply H1. intros HP. by apply Hp, HPQ.
Qed.

Lemma keeps_ret {A} P (a : A) : keeps P (mret a).
Proof. intros w. apply touches_refl. Qed.

Lemma keeps_raise {A} P e : keeps P (@raise A e).
Proof. intros w. apply touches_refl. Qed.

Lemma keeps_lift {A} P (r : result A) : keeps P (lift r).
Proof. intros w. apply touches_refl. Qed.

Lemma keeps_path_exists P p : keeps P (path_exists p).
Proof. intros w. apply touches_refl. Qed.

Lemma keeps_read_text P p : keeps P (read_text p).
Proof.
  intros w. unfold read_text. destruct (files w !! p); apply touches_refl.
Qed.

Lemma keeps_print P line : keeps P (print line).
Proof. intros w. repeat split; try done. by exists [line]. Qed.

Lemma keeps_bind {A B} P (m : IO A) (k : A → IO B) :
  keeps P m → (∀ a, keeps P (k a)) → keeps P (m ≫= k).
Proof.
  intros Hm Hk w. specialize (Hm w). unfold mbind, IO_bind, io_bind.
  destruct (m w) as [w1 [a|e]]; cbn [fst] in *; [|done].
  eapply touches_trans; [exact Hm|apply Hk].
Qed.

Lemma keeps_write_text (path text : string) w :
  is_Some (files w !! path) →
  touches_only (eq path) w (write_text path text w).1.
Proof.
  intros Hf. unfold write_text. cbn. repeat split.
  - intros p Hp. by apply lookup_insert_ne.
  - intros p Hp. apply lookup_insert_None. split; [done|].
    intros ->. rewrite Hp in Hf. by destruct Hf.
  - exists []. by rewrite app_nil_r.
Qed.

Ltac keeps_steps :=
  repeat first
    [ apply keeps_ret | apply keeps_raise | apply keeps_lift
    | apply keeps_print | apply keeps_path_exists | apply keeps_read_text
    | match goal with
      | |- keeps _ (_ ≫= _) => apply keeps_bind; [|intros ?]
      | |- keeps _ (if ?b then _ else _) => destruct b
      | |- keeps _ (match ?x with _ => _ end) => destruct x
      end ].

Section Frames.
Context {R : Runtime} {J : Json}.

Lemma write_cargo_version_keeps path v :
  keeps (eq path) (write_cargo_version path v).
Proof.
  intros w. unfold write_cargo_version, mbind, IO_bind, io_bind, read_text.
  destruct (files w !! path) as [content|] eqn:Hf; [|apply touches_refl].
  unfold lift.
  match goal with
  | |- context [sub1 ?a ?b ?c ?d ?t] => destruct (sub1 a b c d t) as [new|e]
  end; [|apply touches_refl].
  apply keeps_write_text. by rewrite Hf.
Qed.

Lemma write_package_json_version_keeps path v :
  keeps (eq path) (write_package_json_version path v).
Proof.
  intros w. unfold write_package_json_version, mbind, IO_bind, io_bind, read_text.
  destruct (files w !! path) as [content|] eqn:Hf; [|apply touches_refl].
  unfold Version.loads.
  destruct (json_loads (universal_newlines content)) as [data|];
    [|apply touches_refl].
  cbn. unfold lift. destruct (setitem data "version" v) as [data'|e];
    [|apply touches_refl].
  apply keeps_write_text. by rewrite Hf.
Qed.

Lemma write_tauri_conf_version_keeps path v :
  keeps (eq path) (write_tauri_conf_version path v).
Proof. apply write_package_json_version_keeps. Qed.

Lemma loads_keeps P text : keeps P (Version.loads text).
Proof. unfold Version.loads. destruct (json_loads text); keeps_steps. Qed.

Lemma read_package_json_version_keeps P path :
  keeps P (read_package_json_version path).
Proof.
  unfold read_package_json_version. keeps_steps. apply loads_keeps.
Qed.

Lemma read_tauri_conf_version_keeps P path :
  keeps P (read_tauri_conf_version path).
Proof. apply read_package_json_version_keeps. Qed.

Lemma read_cargo_version_keeps P path : keeps P (read_cargo_version path).
Proof. unfold read_cargo_version. keeps_steps. Qed.

Lemma get_all_versions_keeps P : keeps P get_all_versions.
Proof.
  unfold get_all_versions. cbn zeta.
  keeps_steps;
    first [ apply loads_keeps
          | apply read_package_json_version_keeps
          | apply read_cargo_version_keeps
          | apply read_tauri_conf_version_keeps ].
Qed.

Lemma is_manifest_file name :
  name ∈ ["npm"; "tauri_cargo"; "tauri_conf"] → is_manifest (version_file name).
Proof.
  unfold is_manifest. rewrite !elem_of_cons, elem_of_nil.
  intros [->|[->|[->|[]]]]; vm_compute; set_solver.
Qed.

Lemma set_all_versions_keeps v : keeps is_manifest (set_all_versions v).
Proof.
  unfold set_all_versions. cbn zeta.
  keeps_steps;
    (eapply keeps_mono;
     [|first [ apply write_package_json_version_keeps
             | apply write_cargo_version_keeps
             | apply write_tauri_conf_version_keeps ]]);
    intros p <-; apply is_manifest_file; set_solver.
Qed.

Lemma for_each_keeps {A} P (l : list A) (body : A → IO unit) :
  (∀ x, keeps P (body x)) → keeps P (for_each l body).
Proof.
  intros Hb. induction l as [|x l IH]; cbn [for_each]; keeps_steps; auto.
Qed.

Lemma cmd_status_keeps P : keeps P cmd_status.
Proof.
  unfold cmd_status. keeps_steps.
  - apply get_all_versions_keeps.
  - apply for_each_keeps. intros x. keeps_steps.
Qed.

Lemma cmd_sync_keeps t : keeps is_manifest (cmd_sync t).
Proof.
  unfold cmd_sync. keeps_steps;
    first [ apply loads_keeps
          | apply read_package_json_version_keeps
          | apply set_all_versions_keeps ].
Qed.

Lemma cmd_bump_keeps t : keeps is_manifest (cmd_bump t).
Proof.
  unfold cmd_bump. keeps_steps;
    first [ apply loads_keeps
          | apply read_package_json_version_keeps
          | apply set_all_versions_keeps ].
Qed.

Lemma cmd_set_keeps v : keeps is_manifest (cmd_set v).
Proof. unfold cmd_set. keeps_steps. apply set_all_versions_keeps. Qed.

End Frames.

(** Whatever the command, its arguments and the contents of the files, and
    however the run ends, the version script changes no file but the three
    manifests, creates no file, and only adds lines to its output; the
    status command changes no file at all. *)
Theorem version_main_frame (R : Runtime) (J : Json) (args : command)
    (w : world) :
  touches_only is_manifest w (Version.main args w).1
  ∧ (args = Status → files (Version.main args w).1 = files w).
Proof.
  split.
  - destruct args; cbn [Version.main].
    + apply cmd_status_keeps.
    + apply cmd_sync_keeps.
    + apply cmd_bump_keeps.
    + apply cmd_set_keeps.
  - intros ->. cbn [Version.main].
    destruct (cmd_status_keeps (λ _, False) w) as (H1 & _).
    apply map_eq. intros p. apply H1. tauto.
Qed.

(** ** Setting a version and reading it back from every manifest *)

Lemma bind_ok_inv {A B} (m : IO A) (k : A → IO B) w w' b :
  (m ≫= k) w = (w', Ok b) → ∃ w1 a, m w = (w1, Ok a) ∧ k a w1 = (w', Ok b).
Proof.
  unfold mbind, IO_bind, io_bind. destruct (m w) as [w1 [a|e]]; [eauto|done].
Qed.

Section Synchronise.
Context {R : Runtime} {J : Json} {L : JsonLaws J}.

(** The readers leave the world as it is, and their result depends on the
    file at their path only. *)
Lemma read_json_fun path :
  ∃ f, ∀ w, read_package_json_version path w = (w, f (files w !! path)).
Proof.
  exists (λ o, match o with
               | Some content =>
                   match json_loads (universal_newlines content) with
                   | Some data => get data "version" (PStr "0.0.0")
                   | None => Raise JSONDecodeError
                   end
               | None => Raise (FileNotFoundError path)
               end).
  intros w. unfold read_package_json_version, mbind, IO_bind, io_bind, read_text.
  destruct (files w !! path) as [content|]; [|done]. unfold Version.loads.
  by destruct (json_loads (universal_newlines content)).
Qed.

Lemma read_cargo_fun path :
  ∃ f, ∀ w, read_cargo_version path w = (w, f (files w !! path)).
Proof.
  exists (λ o, match o with
               | Some content =>
                   match search true CARGO_READ_RE (universal_newlines content) with
                   | Some (start, f) =>
                       match group (universal_newlines content) start f 1 with
                       | Some v => Ok v
                       | None => Raise OutOfModel
                       end
                   | None => Raise (ValueError (VersionNotFound path))
                   end
               | None => Raise (FileNotFoundError path)
               end).
  intros w. unfold read_cargo_version, mbind, IO_bind, io_bind, read_text.
  destruct (files w !! path) as [content|]; [|done].
  destruct (search true CARGO_READ_RE (universal_newlines content))
    as [[start f]|]; [|done].
  by destruct (group (universal_newlines content) start f 1).
Qed.

Lemma local_world {A} path (read : string → IO A) w w' r :
  local path read → read path w = (w', r) → w' = w.
Proof. intros [f Hf]. rewrite Hf. by intros [= <- _]. Qed.

Lemma local_same {A} path (read : string → IO A) w w' r :
  local path read → files w' !! path = files w !! path →
  read path w = (w, r) → read path w' = (w', r).
Proof. intros [f Hf] Hp. rewrite !Hf, Hp. by intros [= <-]. Qed.

Lemma file_reads_same {A} path (read : string → IO A) w w' o :
  local path read → files w' !! path = files w !! path →
  file_reads path read w o → file_reads path read w' o.
Proof.
  intros Hl Hp. destruct o as [v|]; cbn [file_reads]; rewrite Hp; [|done].
  intros [Hs Hr]. split; [done|]. by apply (local_same path read w).
Qed.

(** *** Reading all versions *)

Lemma read_block {A B} path (read : string → IO A) (f : A → pyval) name
    versions (k : list (string * pyval) → IO B) w o :
  file_reads path read w o →
  (e ← path_exists path;
   vs ← (if e : bool then v ← read path; mret (versions ++ [(name, f v)])
         else mret versions);
   k vs) w
  = k (versions ++ entry name (f <$> o)) w.
Proof.
  intros Ho. rewrite bind_path_exists. destruct o as [v|]; cbn [file_reads] in Ho.
  - destruct Ho as [Hs Hr]. rewrite bool_decide_true by done.
    rewrite bind_assoc. by rewrite (bind_result _ _ _ _ _ Hr).
  - rewrite Ho, bool_decide_false by apply not_is_Some_None.
    cbn [fmap option_fmap option_map entry]. by rewrite app_nil_r.
Qed.

Lemma read_block_inv {A B} path (read : string → IO A) (f : A → pyval) name
    versions (k : list (string * pyval) → IO B) w w' b :
  local path read →
  (e ← path_exists path;
   vs ← (if e : bool then v ← read path; mret (versions ++ [(name, f v)])
         else mret versions);
   k vs) w = (w', Ok b) →
  ∃ o, file_reads path read w o
       ∧ k (versions ++ entry name (f <$> o)) w = (w', Ok b).
Proof.
  intros Hl. rewrite bind_path_exists.
  destruct (files w !! path) as [content|] eqn:Hf.
  - rewrite bool_decide_true by done. rewrite bind_assoc.
    intros (w1 & v & Hr & Hk)%bind_ok_inv.
    pose proof (local_world _ _ _ _ _ Hl Hr) as ->.
    exists (Some v). split; [|done]. cbn [file_reads]. rewrite Hf. eauto.
  - rewrite bool_decide_false by apply not_is_Some_None.
    intros Hk. exists None. split; [done|].
    cbn [fmap option_fmap option_map entry]. by rewrite app_nil_r.
Qed.

Lemma get_all_versions_intro w on oc ot :
  file_reads NPM_PATH read_package_json_version w on →
  file_reads CARGO_PATH read_cargo_version w oc →
  file_reads CONF_PATH read_tauri_conf_version w ot →
  get_all_versions w
  = (w, Ok (entry "npm" on ++ entry "tauri_cargo" (PStr <$> oc)
            ++ entry "tauri_conf" ot)).
Proof.
  intros Hn Hc Ht. unfold get_all_versions. cbn zeta.
  rewrite version_file_npm, version_file_cargo, version_file_conf.
  rewrite (read_block NPM_PATH read_package_json_version (λ x, x) "npm" []
             _ w on Hn).
  rewrite (read_block CARGO_PATH read_cargo_version PStr "tauri_cargo"
             _ _ w oc Hc).
  rewrite (read_block CONF_PATH read_tauri_conf_version (λ x, x) "tauri_conf"
             _ _ w ot Ht).
  cbn [app]. rewrite <- app_assoc.
  by destruct on, ot.
Qed.

Lemma get_all_versions_inv w w' versions :
  get_all_versions w = (w', Ok versions) →
  w' = w
  ∧ ∃ on oc ot,
      file_reads NPM_PATH read_package_json_version w on
      ∧ file_reads CARGO_PATH read_cargo_version w oc
      ∧ file_reads CONF_PATH read_tauri_conf_version w ot
      ∧ versions = entry "npm" on ++ entry "tauri_cargo" (PStr <$> oc)
                   ++ entry "tauri_conf" ot.
Proof.
  unfold get_all_versions. cbn zeta.
  rewrite version_file_npm, version_file_cargo, version_file_conf.
  intros H.
  apply (read_block_inv NPM_PATH read_package_json_version (λ x, x) "npm" [])
    in H as (on & Hn & H); [|apply read_json_fun].
  apply (read_block_inv CARGO_PATH read_cargo_version PStr "tauri_cargo")
    in H as (oc & Hc & H); [|apply read_cargo_fun].
  apply (read_block_inv CONF_PATH read_tauri_conf_version (λ x, x) "tauri_conf")
    in H as (ot & Ht & H); [|apply read_json_fun].
  injection H as <- <-. split; [done|]. exists on, oc, ot.
  repeat split; try done. cbn [app]. rewrite <- app_assoc. by destruct on, ot.
Qed.

(** *** Writing one manifest *)

Lemma json_write_read path w old v :
  read_package_json_version path w = (w, Ok old) → json_value v = true →
  ∃ text,
    write_package_json_version path v w
    = (World (<[path := text]> (files w)) (stdout w), Ok tt)
    ∧ ∀ w', files w' !! path = Some text →
            read_package_json_version path w' = (w', Ok v).
Proof.
  intros (content & d & _ & Hf & Hl)%json_read_inv Hv.
  pose proof (loads_value _ _ Hl) as Hd.
  exists (json_dumps (PDict (dict_set "version" v d)) +:+ String LF "").
  split.
  - unfold write_package_json_version.
    rewrite (bind_read_text _ _ _ _ Hf). unfold Version.loads.
    rewrite Hl, bind_ret. cbn [setitem]. by rewrite bind_lift_ok.
  - intros w' Hf'. unfold read_package_json_version.
    rewrite (bind_read_text _ _ _ _ Hf'). unfold Version.loads.
    rewrite loads_dumps by (by apply json_value_set).
    rewrite bind_ret. cbn [get]. by rewrite dict_get_set.
Qed.

Lemma plain_version_inv v :
  plain_version v = true →
  v ≠ "" ∧ all_chars not_dq v = true
  ∧ all_chars (is_not backslash) v = true ∧ all_chars (is_not CR) v = true.
Proof.
  unfold plain_version. rewrite !andb_true_iff, negb_true_iff.
  intros [[[Hne ?] ?] ?]. repeat split; try done.
  intros ->. done.
Qed.

Lemma cargo_write_read path w old v :
  read_cargo_version path w = (w, Ok old) → plain_version v = true →
  ∃ text,
    write_cargo_version path (PStr v) w
    = (World (<[path := text]> (files w)) (stdout w), Ok tt)
    ∧ ∀ w', files w' !! path = Some text →
            read_cargo_version path w' = (w', Ok v).
Proof.
  intros (content & pre & ws1 & ws2 & rest & _ & Hf & HT & Hw1 & Hw2 & Hold & Hne
          & Hfirst)%read_cargo_version_inv (Hv & Hq & Hbs & Hcr)%plain_version_inv.
  exists (cargo_text pre ws1 ws2 v rest). split.
  - by apply (write_cargo_version_found path w content pre ws1 ws2 old rest v).
  - intros w' Hf'.
    apply (read_cargo_version_found path w' (cargo_text pre ws1 ws2 v rest)
             pre ws1 ws2 v rest); try done.
    + apply universal_newlines_id.
      apply (cargo_text_no_cr pre ws1 ws2 old rest v); [|done].
      rewrite <- HT. apply universal_newlines_no_cr.
    + rewrite cargo_key_head in Hfirst |- *.
      apply (first_version_line_subst pre _ old v rest); try done.
      by exists ws1, ws2.
Qed.

Lemma write_block {A} path (read : string → IO A) (write : IO unit) line w o
    (v' : A) :
  file_reads path read w o →
  (∀ old, read path w = (w, Ok old) →
          ∃ text,
            write w = (World (<[path := text]> (files w)) (stdout w), Ok tt)
            ∧ ∀ w', files w' !! path = Some text → read path w' = (w', Ok v')) →
  ∃ w1,
    (e ← path_exists path; if e : bool then write;; print line else mret tt) w
    = (w1, Ok tt)
    ∧ (∀ p, p ≠ path → files w1 !! p = files w !! p)
    ∧ stdout w1 = stdout w ++ if_present o [line]
    ∧ ∀ w', files w' !! path = files w1 !! path →
            file_reads path read w' ((λ _, v') <$> o).
Proof.
  intros Ho Hw. rewrite bind_path_exists.
  destruct o as [v0|]; cbn [file_reads] in Ho.
  - destruct Ho as [Hs Hr]. rewrite bool_decide_true by done.
    destruct (Hw v0 Hr) as (text & Hwrite & Hread).
    rewrite (bind_result _ _ _ _ _ Hwrite).
    eexists. split; [reflexivity|]. cbn [files stdout].
    split; [|split; [done|]].
    + intros p Hp. by apply lookup_insert_ne.
    + intros w' Hf'. rewrite lookup_insert_eq in Hf'.
      cbn. split; [by rewrite Hf'|by apply Hread].
  - rewrite Ho, bool_decide_false by apply not_is_Some_None.
    exists w. split; [done|]. split; [done|].
    split; [by rewrite app_nil_r|]. intros w' Hf'. cbn. by rewrite Hf'.
Qed.

Lemma block_then {B} (m : IO bool) (blk : bool → IO unit) (k : IO B) w w1 :
  (m ≫= blk) w = (w1, Ok tt) → (e ← m; blk e;; k) w = k w1.
Proof.
  intros Hm. rewrite <- (bind_assoc m blk (λ _, k)).
  by rewrite (bind_result _ _ _ _ _ Hm).
Qed.

Lemma set_all_versions_ok v w on oc ot :
  plain_version v = true →
  file_reads NPM_PATH read_package_json_version w on →
  file_reads CARGO_PATH read_cargo_version w oc →
  file_reads CONF_PATH read_tauri_conf_version w ot →
  ∃ w',
    set_all_versions (PStr v) w = (w', Ok tt)
    ∧ file_reads NPM_PATH read_package_json_version w' ((λ _, PStr v) <$> on)
    ∧ file_reads CARGO_PATH read_cargo_version w' ((λ _, v) <$> oc)
    ∧ file_reads CONF_PATH read_tauri_conf_version w' ((λ _, PStr v) <$> ot)
    ∧ stdout w'
      = stdout w
        ++ if_present on [updated_line "npm" (PStr v)]
        ++ if_present oc [updated_line "tauri_cargo" (PStr v)]
        ++ if_present ot [updated_line "tauri_conf" (PStr v)].
Proof.
  intros Hv Hn Hc Ht. unfold set_all_versions. cbn zeta.
  rewrite version_file_npm, version_file_cargo, version_file_conf.
  destruct (write_block NPM_PATH read_package_json_version
              (write_package_json_version NPM_PATH (PStr v))
              ("  ✓ " +:+ NPM_PATH +:+ ": " +:+ py_str (PStr v)) w on (PStr v) Hn)
    as (w1 & H1 & Hf1 & Ho1 & Hr1).
  { intros old Hr. by apply (json_write_read NPM_PATH w old). }
  rewrite (block_then _ _ _ w w1 H1).
  assert (Hc1 : file_reads CARGO_PATH read_cargo_version w1 oc).
  { apply (file_reads_same _ _ w); [apply read_cargo_fun|by apply Hf1|done]. }
  assert (Ht1 : file_reads CONF_PATH read_tauri_conf_version w1 ot).
  { apply (file_reads_same _ _ w); [apply read_json_fun|by apply Hf1|done]. }
  destruct (write_block CARGO_PATH read_cargo_version
              (write_cargo_version CARGO_PATH (PStr v))
              ("  ✓ " +:+ CARGO_PATH +:+ ": " +:+ py_str (PStr v)) w1 oc v Hc1)
    as (w2 & H2 & Hf2 & Ho2 & Hr2).
  { intros old Hr. by apply (cargo_write_read CARGO_PATH w1 old). }
  rewrite (block_then _ _ _ w1 w2 H2).
  assert (Ht2 : file_reads CONF_PATH read_tauri_conf_version w2 ot).
  { apply (file_reads_same _ _ w1); [apply read_json_fun|by apply Hf2|done]. }
  destruct (write_block CONF_PATH read_tauri_conf_version
              (write_tauri_conf_version CONF_PATH (PStr v))
              ("  ✓ " +:+ CONF_PATH +:+ ": " +:+ py_str (PStr v)) w2 ot (PStr v) Ht2)
    as (w3 & H3 & Hf3 & Ho3 & Hr3).
  { intros old Hr. by apply (json_write_read CONF_PATH w2 old). }
  exists w3. split; [exact H3|]. split; [|split; [|split]].
  - apply Hr1. rewrite Hf3, Hf2; done.
  - apply Hr2. by rewrite Hf3.
  - by apply Hr3.
  - rewrite Ho3, Ho2, Ho1, <- !app_assoc. reflexivity.
Qed.

Lemma set_all_versions_sync v w versions :
  plain_version v = true →
  get_all_versions w = (w, Ok versions) →
  ∃ w',
    set_all_versions (PStr v) w = (w', Ok tt)
    ∧ get_all_versions w' = (w', Ok (map (λ nv, (nv.1, PStr v)) versions))
    ∧ stdout w'
      = stdout w ++ map (λ nv, updated_line nv.1 (PStr v)) versions.
Proof.
  intros Hv (_ & on & oc & ot & Hn & Hc & Ht & ->)%get_all_versions_inv.
  destruct (set_all_versions_ok v w on oc ot Hv Hn Hc Ht)
    as (w' & Hset & Hn' & Hc' & Ht' & Hout).
  exists w'. split; [done|]. split.
  - rewrite (get_all_versions_intro w' _ _ _ Hn' Hc' Ht').
    by destruct on, oc, ot.
  - rewrite Hout. by destruct on, oc, ot.
Qed.

End Synchronise.

(** After [set_all_versions] with a plain version text, on manifests that
    can all be read, every manifest that exists reads that version, and
    one line is printed for each of them: the versions are synchronised. *)
Theorem set_all_versions_synchronises (R : Runtime) (J : Json)
    (L : JsonLaws J) (v : string) (w : world)
    (versions : list (string * pyval)) :
  plain_version v = true →
  get_all_versions w = (w, Ok versions) →
  ∃ w',
    set_all_versions (PStr v) w = (w', Ok tt)
    ∧ get_all_versions w' = (w', Ok (map (λ nv, (nv.1, PStr v)) versions))
    ∧ stdout w'
      = stdout w ++ map (λ nv, updated_line nv.1 (PStr v)) versions.
Proof. apply set_all_versions_sync. Qed.

Lemma set_all_versions_synchronises_witness :
  ∃ w',
    @set_all_versions sample_runtime mini_json (PStr "2.3.4") sample_world
    = (w', Ok tt)
    ∧ @get_all_versions mini_json w'
      = (w', Ok (map (λ nv, (nv.1, PStr "2.3.4"))
                   [("npm", PStr "0.1.0"); ("tauri_cargo", PStr "0.1.0");
                    ("tauri_conf", PStr "0.1.0")]))
    ∧ stdout w'
      = stdout sample_world
        ++ map (λ nv, @updated_line sample_runtime nv.1 (PStr "2.3.4"))
             [("npm", PStr "0.1.0"); ("tauri_cargo", PStr "0.1.0");
              ("tauri_conf", PStr "0.1.0")].
Proof.
  apply (set_all_versions_synchronises sample_runtime mini_json mini_json_laws
           "2.3.4" sample_world); [reflexivity|].
  vm_compute. reflexivity.
Defined.

(** ** The status report *)

Lemma distinct_length seen l :
  (length seen ≤ length (distinct seen l))%nat
  ∧ (length (distinct seen l) = length seen
     ↔ Forall (λ v, existsb (py_eqb v) seen = true) l).
Proof.
  revert seen. induction l as [|v l IH]; intros seen; cbn [distinct].
  - split; [done|]. split; [by constructor|done].
  - destruct (existsb (py_eqb v) seen) eqn:Hv.
    + destruct (IH seen) as [Hle Hiff]. split; [done|].
      rewrite Hiff. split; [by constructor|by inversion 1].
    + destruct (IH (seen ++ [v])) as [Hle _]. rewrite length_app in Hle.
      cbn in Hle. split; [lia|]. split; [lia|].
      inversion 1; congruence.
Qed.

Lemma distinct_one v l :
  (∀ x, x ∈ v :: l → ∃ s, x = PStr s) →
  length (distinct [] (v :: l)) = 1%nat ↔ ∀ x, x ∈ l → x = v.
Proof.
  intros Hs. cbn [distinct existsb app].
  destruct (distinct_length [v] l) as [_ Hiff]. cbn [length] in Hiff.
  rewrite Hiff, Forall_forall.
  destruct (Hs v) as [sv ->]; [by left|].
  split; intros H x Hx; specialize (H x Hx);
    (destruct (Hs x) as [sx ->]; [by right|]); cbn in *.
  - rewrite orb_false_r in H. by apply String.eqb_eq in H as ->.
  - injection H as ->. by rewrite String.eqb_refl.
Qed.

Lemma foldl_max_spec x xs :
  (∀ y, y ∈ x :: xs → (y ≤ foldl Nat.max x xs)%nat)
  ∧ foldl Nat.max x xs ∈ x :: xs.
Proof.
  revert x. induction xs as [|z xs IH]; intros x; cbn [foldl].
  - split; [|by left]. intros y ->%list_elem_of_singleton. done.
  - destruct (IH (Nat.max x z)) as [Hle Hin]. split.
    + intros y Hy. apply elem_of_cons in Hy as [->|Hy].
      * etrans; [|apply Hle; by left]. lia.
      * apply elem_of_cons in Hy as [->|Hy].
        -- etrans; [|apply Hle; by left]. lia.
        -- apply Hle. by right.
    + apply elem_of_cons in Hin as [Hin|Hin].
      * rewrite Hin. destruct (Nat.max_spec x z) as [[_ ->]|[_ ->]];
          [right; by left|by left].
      * by do 2 right.
Qed.

Lemma for_each_emits {A} (l : list A) (g : A → string) :
  emits (for_each l (λ x, print (g x))) (map g l) tt.
Proof.
  induction l as [|x l IH]; cbn [for_each map]; [apply emits_ret|].
  by apply emits_print_then.
Qed.

Section Status.
Context {R : Runtime} {J : Json}.

Lemma get_all_versions_same w w' versions :
  files w' = files w →
  get_all_versions w = (w, Ok versions) →
  get_all_versions w' = (w', Ok versions).
Proof.
  intros Hf (_ & on & oc & ot & Hn & Hc & Ht & ->)%get_all_versions_inv.
  apply get_all_versions_intro.
  - apply (file_reads_same _ _ w); [apply read_json_fun|by rewrite Hf|done].
  - apply (file_reads_same _ _ w); [apply read_cargo_fun|by rewrite Hf|done].
  - apply (file_reads_same _ _ w); [apply read_json_fun|by rewrite Hf|done].
Qed.

Lemma status_lines_emits versions :
  versions ≠ [] → Forall (λ nv, ∃ s, nv.2 = PStr s) versions →
  ∃ width verdict,
    emits
      (unique_versions ←
         (if forallb (λ nv, hashable nv.2) versions
          then mret (distinct [] (map snd versions))
          else raise TypeError);
       max_path_len ← lift (py_max (map (λ nv, len (version_file nv.1)) versions));
       for_each versions (λ nv,
         let file_path := version_file nv.1 in
         print ("  " +:+ ljust max_path_len file_path +:+ " : " +:+ py_str nv.2));;
       print "";;
       if (length unique_versions =? 1)%nat then
         print "✓ All versions synchronized"
       else
         print "⚠ Versions out of sync!";;
         print "";;
         print "To fix, run:";;
         print "  macOS:   make version-sync";;
         print "  Or:      python3 scripts/version.py sync")
      (map (status_row width) versions ++ [""] ++ verdict) tt
    ∧ (∀ nv, nv ∈ versions → (len (version_file nv.1) ≤ width)%nat)
    ∧ (∃ nv, nv ∈ versions ∧ len (version_file nv.1) = width)
    ∧ ((synchronised versions ∧ verdict = IN_SYNC)
       ∨ (¬ synchronised versions ∧ verdict = OUT_OF_SYNC)).
Proof.
  intros Hne Hs. destruct versions as [|nv rest]; [done|].
  set (versions := nv :: rest) in *.
  set (width := foldl Nat.max (len (version_file nv.1))
                  (map (λ nv, len (version_file nv.1)) rest)).
  assert (Hh : forallb (λ nv, hashable nv.2) versions = true).
  { apply forallb_forall. intros x Hx%list_elem_of_In.
    rewrite Forall_forall in Hs. by destruct (Hs x Hx) as [sx ->]. }
  assert (Hone : length (distinct [] (map snd versions)) = 1%nat
                 ↔ synchronised versions).
  { unfold versions. cbn [map]. rewrite distinct_one.
    - split.
      + intros Hall a b Ha Hb.
        assert (∀ x, x ∈ nv :: rest → x.2 = nv.2) as Hx.
        { intros x [->|Hx]%elem_of_cons; [done|].
          apply Hall. apply list_elem_of_fmap. eauto. }
        by rewrite (Hx a Ha), (Hx b Hb).
      + intros Hsync x (y & -> & Hy)%list_elem_of_fmap.
        apply Hsync; [by right|by left].
    - intros x Hx. change (nv.2 :: map snd rest) with (map snd versions) in Hx.
      apply list_elem_of_fmap in Hx as (y & -> & Hy).
      rewrite Forall_forall in Hs. by apply Hs. }
  destruct (foldl_max_spec (len (version_file nv.1))
              (map (λ nv, len (version_file nv.1)) rest)) as [Hle Hin].
  fold width in Hle, Hin.
  exists width,
    (if (length (distinct [] (map snd versions)) =? 1)%nat
     then IN_SYNC else OUT_OF_SYNC).
  split; [|split; [|split]].
  - rewrite Hh. apply emits_ret_then. cbn [map py_max].
    apply emits_lift_then. fold width.
    eapply emits_bind.
    { apply (for_each_emits versions (status_row width)). }
    apply emits_print_then.
    destruct (length (distinct [] (map snd versions)) =? 1)%nat.
    + apply emits_print.
    + unfold OUT_OF_SYNC. do 4 apply emits_print_then. apply emits_print.
  - intros x Hx. apply Hle.
    change (len (version_file nv.1) :: map (λ nv, len (version_file nv.1)) rest)
      with (map (λ nv : string * pyval, len (version_file nv.1)) versions).
    apply list_elem_of_fmap. eauto.
  - change (len (version_file nv.1) :: map (λ nv, len (version_file nv.1)) rest)
      with (map (λ nv : string * pyval, len (version_file nv.1)) versions) in Hin.
    apply list_elem_of_fmap in Hin as (y & Hy & Hin). eauto.
  - destruct (length (distinct [] (map snd versions)) =? 1)%nat eqn:E.
    + apply Nat.eqb_eq in E. left. split; [by apply Hone|done].
    + apply Nat.eqb_neq in E. right. split; [|done]. intros Hsync.
      by apply E, Hone.
Qed.

Lemma cmd_status_from w versions :
  get_all_versions w = (w, Ok versions) →
  versions ≠ [] → Forall (λ nv, ∃ s, nv.2 = PStr s) versions →
  ∃ width verdict,
    cmd_status w
    = (World (files w)
         (stdout w ++ STATUS_HEADING ++ map (status_row width) versions
          ++ [""] ++ verdict), Ok tt)
    ∧ (∀ nv, nv ∈ versions → (len (version_file nv.1) ≤ width)%nat)
    ∧ (∃ nv, nv ∈ versions ∧ len (version_file nv.1) = width)
    ∧ ((synchronised versions ∧ verdict = IN_SYNC)
       ∨ (¬ synchronised versions ∧ verdict = OUT_OF_SYNC)).
Proof.
  intros Hget Hne Hs.
  destruct (status_lines_emits versions Hne Hs)
    as (width & verdict & Hem & Hw1 & Hw2 & Hv).
  exists width, verdict. split; [|done].
  unfold cmd_status. rewrite !bind_print. cbn [files stdout].
  erewrite bind_result; [|by apply (get_all_versions_same w)].
  rewrite Hem. cbn [files stdout]. unfold STATUS_HEADING.
  by rewrite <- !app_assoc.
Qed.

End Status.

(** When every manifest that exists can be read, at least one exists and
    the versions are texts, the status command prints its heading, one
    line for each manifest with the paths padded to the longest one, an
    empty line and its verdict: all synchronised exactly when all the
    versions are the same, else out of sync with the hint; in both cases it
    returns normally (status 0) and changes no file. *)
Theorem cmd_status_report (R : Runtime) (J : Json) (w : world)
    (versions : list (string * pyval)) :
  get_all_versions w = (w, Ok versions) →
  versions ≠ [] → Forall (λ nv, ∃ s, nv.2 = PStr s) versions →
  ∃ width verdict,
    cmd_status w
    = (World (files w)
         (stdout w ++ STATUS_HEADING ++ map (status_row width) versions
          ++ [""] ++ verdict), Ok tt)
    ∧ (∀ nv, nv ∈ versions → (len (version_file nv.1) ≤ width)%nat)
    ∧ (∃ nv, nv ∈ versions ∧ len (version_file nv.1) = width)
    ∧ ((synchronised versions ∧ verdict = IN_SYNC)
       ∨ (¬ synchronised versions ∧ verdict = OUT_OF_SYNC))
    ∧ exit_status (cmd_status w).2 = 0.
Proof.
  intros Hget Hne Hs.
  destruct (cmd_status_from w versions Hget Hne Hs)
    as (width & verdict & Hrun & Hw1 & Hw2 & Hv).
  exists width, verdict. repeat split; try done. by rewrite Hrun.
Qed.

Lemma cmd_status_report_witness :
  ∃ width verdict,
    @cmd_status sample_runtime mini_json sample_world
    = (World (files sample_world)
         (stdout sample_world ++ STATUS_HEADING
          ++ map (@status_row sample_runtime width)
               [("npm", PStr "0.1.0"); ("tauri_cargo", PStr "0.1.0");
                ("tauri_conf", PStr "0.1.0")]
          ++ [""] ++ verdict), Ok tt)
    ∧ (∀ nv, nv ∈ [("npm", PStr "0.1.0"); ("tauri_cargo", PStr "0.1.0");
                   ("tauri_conf", PStr "0.1.0")] →
             (len (version_file nv.1) ≤ width)%nat)
    ∧ (∃ nv, nv ∈ [("npm", PStr "0.1.0"); ("tauri_cargo", PStr "0.1.0");
                   ("tauri_conf", PStr "0.1.0")]
             ∧ len (version_file nv.1) = width)
    ∧ ((synchronised [("npm", PStr "0.1.0"); ("tauri_cargo", PStr "0.1.0");
                      ("tauri_conf", PStr "0.1.0")]
        ∧ verdict = IN_SYNC)
       ∨ (¬ synchronised [("npm", PStr "0.1.0"); ("tauri_cargo", PStr "0.1.0");
                          ("tauri_conf", PStr "0.1.0")]
          ∧ verdict = OUT_OF_SYNC))
    ∧ exit_status (@cmd_status sample_runtime mini_json sample_world).2 = 0.
Proof.
  apply (cmd_status_report sample_runtime mini_json sample_world).
  - vm_compute. reflexivity.
  - discriminate.
  - repeat constructor; eexists; reflexivity.
Defined.

(** ** The commands that set a version *)

Lemma numeral_str_of_N n : numeral (str_of_N n) = true.
Proof.
  unfold numeral. rewrite str_of_N_digits, andb_true_r.
  apply negb_true_iff, String.eqb_neq, str_of_N_nonempty.
Qed.

Lemma valid_version_string X Y Z : valid_version (version_string X Y Z) = true.
Proof.
  unfold valid_version. rewrite split_version_string.
  by rewrite !numeral_str_of_N.
Qed.

Lemma valid_version_plain v : valid_version v = true → plain_version v = true.
Proof.
  intros (Hq & Hbs & Hcr & Hne)%valid_version_safe. unfold plain_version.
  rewrite Hq, Hbs, Hcr, !andb_true_r.
  by apply negb_true_iff, String.eqb_neq.
Qed.

Lemma all_set_synchronised v versions : synchronised (all_set v versions).
Proof.
  intros a b (x & -> & _)%list_elem_of_fmap (y & -> & _)%list_elem_of_fmap.
  done.
Qed.

Section SetCommands.
Context {R : Runtime} {J : Json} {L : JsonLaws J}.

(** The common end of the three commands: a line, [set_all_versions], the
    line of success; afterwards the status command finds the manifests
    synchronised. *)
Lemma set_and_done line v w versions :
  plain_version v = true →
  get_all_versions w = (w, Ok versions) →
  ∃ w',
    (print line;; set_all_versions (PStr v);; print "✓ Done!") w = (w', Ok tt)
    ∧ get_all_versions w' = (w', Ok (all_set v versions))
    ∧ stdout w'
      = stdout w ++ [line] ++ map (λ nv, updated_line nv.1 (PStr v)) versions
        ++ ["✓ Done!"]
    ∧ (versions ≠ [] →
       ∃ width,
         cmd_status w'
         = (World (files w')
              (stdout w' ++ STATUS_HEADING
               ++ map (status_row width) (all_set v versions)
               ++ [""] ++ IN_SYNC), Ok tt)).
Proof.
  intros Hv Hget. rewrite bind_print.
  set (w1 := World (files w) (stdout w ++ [line])).
  assert (Hget1 : get_all_versions w1 = (w1, Ok versions))
    by (by apply (get_all_versions_same w)).
  destruct (set_all_versions_sync v w1 versions Hv Hget1)
    as (w2 & Hset & Hget2 & Hout).
  rewrite (bind_result _ _ _ _ _ Hset). unfold print at 1.
  set (w3 := World (files w2) (stdout w2 ++ ["✓ Done!"])).
  assert (Hget3 : get_all_versions w3 = (w3, Ok (all_set v versions)))
    by (by apply (get_all_versions_same w2)).
  exists w3. split; [done|]. split; [done|]. split.
  - unfold w3. cbn [stdout]. rewrite Hout. unfold w1. cbn [stdout].
    by rewrite <- !app_assoc.
  - intros Hne.
    destruct (cmd_status_from w3 (all_set v versions) Hget3)
      as (width & verdict & Hrun & _ & _ & Hverdict).
    + unfold all_set. by destruct versions.
    + apply Forall_forall. intros x (y & -> & _)%list_elem_of_fmap. eauto.
    + exists width. destruct Hverdict as [[_ ->]|[Hn _]]; [done|].
      destruct Hn. apply all_set_synchronised.
Qed.

Lemma cmd_set_sync v w versions :
  valid_version v = true →
  get_all_versions w = (w, Ok versions) →
  ∃ w',
    cmd_set v w = (w', Ok tt)
    ∧ get_all_versions w' = (w', Ok (all_set v versions))
    ∧ stdout w'
      = stdout w ++ ["📝 Setting version to " +:+ v]
        ++ map (λ nv, updated_line nv.1 (PStr v)) versions ++ ["✓ Done!"]
    ∧ (versions ≠ [] →
       ∃ width,
         cmd_status w'
         = (World (files w')
              (stdout w' ++ STATUS_HEADING
               ++ map (status_row width) (all_set v versions)
               ++ [""] ++ IN_SYNC), Ok tt)).
Proof.
  intros Hv Hget. rewrite cmd_set_accepts.
  - apply set_and_done; [by apply valid_version_plain|done].
  - apply VERSION_RE_accepts. by left.
Qed.

Lemma cmd_bump_sync X Y Z kind new w versions :
  bump_version (version_string X Y Z) kind = Ok new →
  read_package_json_version (version_file "npm") w
  = (w, Ok (PStr (version_string X Y Z))) →
  get_all_versions w = (w, Ok versions) →
  ∃ w',
    cmd_bump kind w = (w', Ok tt)
    ∧ get_all_versions w' = (w', Ok (all_set new versions))
    ∧ stdout w'
      = stdout w
        ++ ["⬆️  Bumping version: " +:+ version_string X Y Z +:+ " → " +:+ new]
        ++ map (λ nv, updated_line nv.1 (PStr new)) versions ++ ["✓ Done!"]
    ∧ (versions ≠ [] →
       ∃ width,
         cmd_status w'
         = (World (files w')
              (stdout w' ++ STATUS_HEADING
               ++ map (status_row width) (all_set new versions)
               ++ [""] ++ IN_SYNC), Ok tt)).
Proof.
  intros Hb Hr Hget. unfold cmd_bump.
  rewrite (bind_result _ _ _ _ _ Hr), Hb, bind_lift_ok. cbn [py_str].
  apply set_and_done; [|done]. apply valid_version_plain.
  rewrite bump_version_string in Hb.
  destruct (String.eqb kind "major");
    [injection Hb as <-; apply valid_version_string|].
  destruct (String.eqb kind "minor");
    [injection Hb as <-; apply valid_version_string|].
  destruct (String.eqb kind "patch");
    [injection Hb as <-; apply valid_version_string|done].
Qed.

Lemma cmd_sync_sync target v w versions :
  plain_version v = true →
  match target with
  | Some t => if String.eqb t "" then
                read_package_json_version (version_file "npm") w
                = (w, Ok (PStr v))
              else t = v
  | None => read_package_json_version (version_file "npm") w = (w, Ok (PStr v))
  end →
  get_all_versions w = (w, Ok versions) →
  ∃ w',
    cmd_sync target w = (w', Ok tt)
    ∧ get_all_versions w' = (w', Ok (all_set v versions))
    ∧ stdout w'
      = stdout w ++ ["🔄 Syncing all files to version " +:+ v]
        ++ map (λ nv, updated_line nv.1 (PStr v)) versions ++ ["✓ Done!"]
    ∧ (versions ≠ [] →
       ∃ width,
         cmd_status w'
         = (World (files w')
              (stdout w' ++ STATUS_HEADING
               ++ map (status_row width) (all_set v versions)
               ++ [""] ++ IN_SYNC), Ok tt)).
Proof.
  intros Hv Hsrc Hget. unfold cmd_sync.
  assert (Hversion :
    ∀ B (k : pyval → IO B),
      (match target with
       | Some t =>
           if truthy (PStr t) then mret (PStr t)
           else read_package_json_version (version_file "npm")
       | None => read_package_json_version (version_file "npm")
       end ≫= k) w = k (PStr v) w).
  { intros B k. destruct target as [t|].
    - cbn [truthy]. destruct (String.eqb t "") eqn:E; cbn [negb].
      + by rewrite (bind_result _ _ _ _ _ Hsrc).
      + subst t. by rewrite bind_ret.
    - by rewrite (bind_result _ _ _ _ _ Hsrc). }
  rewrite Hversion. cbn [py_str]. by apply set_and_done.
Qed.

End SetCommands.

(** The set command with a version of three numerals, on manifests that
    can all be read, writes that version into every manifest that exists;
    reading all versions afterwards gives it for each of them, and the
    status command then reports them synchronised. *)
Theorem cmd_set_synchronises (R : Runtime) (J : Json) (L : JsonLaws J)
    (v : string) (w : world) (versions : list (string * pyval)) :
  valid_version v = true →
  get_all_versions w = (w, Ok versions) →
  ∃ w',
    cmd_set v w = (w', Ok tt)
    ∧ get_all_versions w' = (w', Ok (all_set v versions))
    ∧ stdout w'
      = stdout w ++ ["📝 Setting version to " +:+ v]
        ++ map (λ nv, updated_line nv.1 (PStr v)) versions ++ ["✓ Done!"]
    ∧ (versions ≠ [] →
       ∃ width,
         cmd_status w'
         = (World (files w')
              (stdout w' ++ STATUS_HEADING
               ++ map (status_row width) (all_set v versions)
               ++ [""] ++ IN_SYNC), Ok tt)).
Proof. apply cmd_set_sync. Qed.

Lemma cmd_set_synchronises_witness :
  ∃ w',
    @cmd_set sample_runtime mini_json "2.3.4" sample_world = (w', Ok tt)
    ∧ @get_all_versions mini_json w'
      = (w', Ok (all_set "2.3.4"
                   [("npm", PStr "0.1.0"); ("tauri_cargo", PStr "0.1.0");
                    ("tauri_conf", PStr "0.1.0")]))
    ∧ stdout w'
      = stdout sample_world ++ ["📝 Setting version to " +:+ "2.3.4"]
        ++ map (λ nv, @updated_line sample_runtime nv.1 (PStr "2.3.4"))
             [("npm", PStr "0.1.0"); ("tauri_cargo", PStr "0.1.0");
              ("tauri_conf", PStr "0.1.0")]
        ++ ["✓ Done!"]
    ∧ ([("npm", PStr "0.1.0"); ("tauri_cargo", PStr "0.1.0");
        ("tauri_conf", PStr "0.1.0")] ≠ [] →
       ∃ width,
         @cmd_status sample_runtime mini_json w'
         = (World (files w')
              (stdout w' ++ STATUS_HEADING
               ++ map (@status_row sample_runtime width)
                    (all_set "2.3.4"
                       [("npm", PStr "0.1.0"); ("tauri_cargo", PStr "0.1.0");
                        ("tauri_conf", PStr "0.1.0")])
               ++ [""] ++ IN_SYNC), Ok tt)).
Proof.
  apply (cmd_set_synchronises sample_runtime mini_json mini_json_laws
           "2.3.4" sample_world); [reflexivity|].
  vm_compute. reflexivity.
Defined.

(** The bump command reads the version of the package manifest (0.0.0 when
    the manifest has no version field), bumps it and writes the result
    into every manifest that exists, whatever version the other manifests
    had; afterwards all of them read the new version and the status
    command reports them synchronised. *)
Theorem cmd_bump_synchronises (R : Runtime) (J : Json) (L : JsonLaws J)
    (X Y Z : N) (kind new : string) (w : world)
    (versions : list (string * pyval)) :
  bump_version (version_string X Y Z) kind = Ok new →
  read_package_json_version (version_file "npm") w
  = (w, Ok (PStr (version_string X Y Z))) →
  get_all_versions w = (w, Ok versions) →
  ∃ w',
    cmd_bump kind w = (w', Ok tt)
    ∧ get_all_versions w' = (w', Ok (all_set new versions))
    ∧ stdout w'
      = stdout w
        ++ ["⬆️  Bumping version: " +:+ version_string X Y Z +:+ " → " +:+ new]
        ++ map (λ nv, updated_line nv.1 (PStr new)) versions ++ ["✓ Done!"]
    ∧ (versions ≠ [] →
       ∃ width,
         cmd_status w'
         = (World (files w')
              (stdout w' ++ STATUS_HEADING
               ++ map (status_row width) (all_set new versions)
               ++ [""] ++ IN_SYNC), Ok tt)).
Proof. apply cmd_bump_sync. Qed.

Lemma cmd_bump_synchronises_witness :
  let w := World {[ NPM_PATH := package_without_version;
                    CARGO_PATH := cargo_sample ]} [] in
  let versions := [("npm", PStr "0.0.0"); ("tauri_cargo", PStr "0.1.0")] in
  ∃ w',
    @cmd_bump sample_runtime mini_json "patch" w = (w', Ok tt)
    ∧ @get_all_versions mini_json w' = (w', Ok (all_set "0.0.1" versions))
    ∧ stdout w'
      = stdout w
        ++ ["⬆️  Bumping version: " +:+ version_string 0 0 0 +:+ " → " +:+ "0.0.1"]
        ++ map (λ nv, @updated_line sample_runtime nv.1 (PStr "0.0.1")) versions
        ++ ["✓ Done!"]
    ∧ (versions ≠ [] →
       ∃ width,
         @cmd_status sample_runtime mini_json w'
         = (World (files w')
              (stdout w' ++ STATUS_HEADING
               ++ map (@status_row sample_runtime width)
                    (all_set "0.0.1" versions)
               ++ [""] ++ IN_SYNC), Ok tt)).
Proof.
  cbv zeta.
  apply (cmd_bump_synchronises sample_runtime mini_json mini_json_laws
           0 0 0 "patch" "0.0.1").
  - reflexivity.
  - vm_compute. reflexivity.
  - vm_compute. reflexivity.
Defined.

(** The sync command takes its target when one is given and not empty, and
    else the version of the package manifest; with a plain version text it
    writes it into every manifest that exists, and afterwards all of them
    read it and the status command reports them synchronised. *)
Theorem cmd_sync_synchronises (R : Runtime) (J : Json) (L : JsonLaws J)
    (target : option string) (v : string) (w : world)
    (versions : list (string * pyval)) :
  plain_version v = true →
  match target with
  | Some t => if String.eqb t "" then
                read_package_json_version (version_file "npm") w
                = (w, Ok (PStr v))
              else t = v
  | None => read_package_json_version (version_file "npm") w = (w, Ok (PStr v))
  end →
  get_all_versions w = (w, Ok versions) →
  ∃ w',
    cmd_sync target w = (w', Ok tt)
    ∧ get_all_versions w' = (w', Ok (all_set v versions))
    ∧ stdout w'
      = stdout w ++ ["🔄 Syncing all files to version " +:+ v]
        ++ map (λ nv, updated_line nv.1 (PStr v)) versions ++ ["✓ Done!"]
    ∧ (versions ≠ [] →
       ∃ width,
         cmd_status w'
         = (World (files w')
              (stdout w' ++ STATUS_HEADING
               ++ map (status_row width) (all_set v versions)
               ++ [""] ++ IN_SYNC), Ok tt)).
Proof. apply cmd_sync_sync. Qed.

Lemma cmd_sync_synchronises_witness :
  let w := World {[ NPM_PATH := package_sample;
                    CARGO_PATH := cargo_sample_with "9.9.9-rc1" ]} [] in
  let versions := [("npm", PStr "0.1.0"); ("tauri_cargo", PStr "9.9.9-rc1")] in
  ∃ w',
    @cmd_sync sample_runtime mini_json None w = (w', Ok tt)
    ∧ @get_all_versions mini_json w' = (w', Ok (all_set "0.1.0" versions))
    ∧ stdout w'
      = stdout w ++ ["🔄 Syncing all files to version " +:+ "0.1.0"]
        ++ map (λ nv, @updated_line sample_runtime nv.1 (PStr "0.1.0")) versions
        ++ ["✓ Done!"]
    ∧ (versions ≠ [] →
       ∃ width,
         @cmd_status sample_runtime mini_json w'
         = (World (files w')
              (stdout w' ++ STATUS_HEADING
               ++ map (@status_row sample_runtime width)
                    (all_set "0.1.0" versions)
               ++ [""] ++ IN_SYNC), Ok tt)).
Proof.
  cbv zeta.
  apply (cmd_sync_synchronises sample_runtime mini_json mini_json_laws
           None "0.1.0").
  - reflexivity.
  - vm_compute. reflexivity.
  - vm_compute. reflexivity.
Defined.

(** ** The key-assignment manifest *)

Section CargoFile.
Context {R : Runtime}.

Lemma read_cargo_version_iff path w content val :
  files w !! path = Some content →
  read_cargo_version path w = (w, Ok val)
  ↔ ∃ pre ws1 ws2 rest,
      universal_newlines content = cargo_text pre ws1 ws2 val rest
      ∧ all_chars is_space ws1 = true ∧ all_chars is_space ws2 = true
      ∧ all_chars not_dq val = true ∧ val ≠ ""
      ∧ first_version_line pre (cargo_key ws1 ws2 +:+ val +:+ String dq rest).
Proof.
  intros Hf. split.
  - intros (content' & pre & ws1 & ws2 & rest & _ & Hf' & HT & H1 & H2 & H3 & H4
            & H5)%read_cargo_version_inv.
    rewrite Hf in Hf'. injection Hf' as <-.
    exists pre, ws1, ws2, rest. done.
  - intros (pre & ws1 & ws2 & rest & HT & H1 & H2 & H3 & H4 & H5).
    by apply (read_cargo_version_found path w content pre ws1 ws2 val rest).
Qed.

Lemma read_cargo_version_not_found path w content :
  files w !! path = Some content →
  read_cargo_version path w = (w, Raise (ValueError (VersionNotFound path)))
  ↔ no_version_line (universal_newlines content).
Proof.
  intros Hf. split; [|by apply read_cargo_version_missing].
  unfold read_cargo_version. rewrite (bind_read_text _ _ _ _ Hf).
  destruct (search true CARGO_READ_RE (universal_newlines content))
    as [[start f]|] eqn:Hs.
  - by destruct (group (universal_newlines content) start f 1).
  - intros _. apply (search_none_iff CARGO_READ_RE); [|done].
    apply cargo_read_matches.
Qed.

Lemma write_cargo_version_value path w old v :
  read_cargo_version path w = (w, Ok old) →
  all_chars (is_not backslash) v = true →
  ∃ content pre ws1 ws2 rest,
    files w !! path = Some content
    ∧ universal_newlines content = cargo_text pre ws1 ws2 old rest
    ∧ all_chars is_space ws1 = true ∧ all_chars is_space ws2 = true
    ∧ all_chars not_dq old = true ∧ old ≠ ""
    ∧ first_version_line pre (cargo_key ws1 ws2 +:+ old +:+ String dq rest)
    ∧ write_cargo_version path (PStr v) w
      = (World (<[path := cargo_text pre ws1 ws2 v rest]> (files w)) (stdout w),
         Ok tt).
Proof.
  intros (content & pre & ws1 & ws2 & rest & _ & Hf & HT & Hw1 & Hw2 & Hold & Hne
          & Hfirst)%read_cargo_version_inv Hbs.
  exists content, pre, ws1, ws2, rest. do 7 (split; [done|]).
  by apply (write_cargo_version_found path w content pre ws1 ws2 old rest v).
Qed.

End CargoFile.

(** Reading the key-assignment manifest gives the value of its first
    version line: a line that starts with version, white space, an equals
    sign, white space and a quoted value that is not empty; and it raises
    [ValueError] exactly when the file has no such line.  The file is read
    with universal newlines and is not changed. *)
Theorem read_cargo_version_first_line (path : string) (w : world)
    (content : string) :
  files w !! path = Some content →
  (∀ val,
     read_cargo_version path w = (w, Ok val)
     ↔ ∃ pre ws1 ws2 rest,
         universal_newlines content = cargo_text pre ws1 ws2 val rest
         ∧ all_chars is_space ws1 = true ∧ all_chars is_space ws2 = true
         ∧ all_chars not_dq val = true ∧ val ≠ ""
         ∧ first_version_line pre
             (cargo_key ws1 ws2 +:+ val +:+ String dq rest))
  ∧ (read_cargo_version path w
     = (w, Raise (ValueError (VersionNotFound path)))
     ↔ no_version_line (universal_newlines content)).
Proof.
  intros Hf. split.
  - intros val. by apply read_cargo_version_iff.
  - by apply read_cargo_version_not_found.
Qed.

Lemma read_cargo_version_first_line_witness :
  (∀ val,
     read_cargo_version CARGO_PATH (cargo_only cargo_sample)
     = (cargo_only cargo_sample, Ok val)
     ↔ ∃ pre ws1 ws2 rest,
         universal_newlines cargo_sample = cargo_text pre ws1 ws2 val rest
         ∧ all_chars is_space ws1 = true ∧ all_chars is_space ws2 = true
         ∧ all_chars not_dq val = true ∧ val ≠ ""
         ∧ first_version_line pre
             (cargo_key ws1 ws2 +:+ val +:+ String dq rest))
  ∧ (read_cargo_version CARGO_PATH (cargo_only cargo_sample)
     = (cargo_only cargo_sample, Raise (ValueError (VersionNotFound CARGO_PATH)))
     ↔ no_version_line (universal_newlines cargo_sample)).
Proof.
  apply (read_cargo_version_first_line CARGO_PATH (cargo_only cargo_sample)
           cargo_sample).
  vm_compute. reflexivity.
Defined.

(** Writing a version without a backslash into a key-assignment manifest
    that has a version line replaces the quoted value of the first version
    line and nothing else.  The text that was read is the text before that
    line, the key [version], white space, an equals sign, white space, the
    old value between double quotes, and the rest; the line is the first
    one that starts with such an assignment, and the old value is the one
    that the read operation returns.  The text that is written is the same
    with the new value in place of the old one (with universal newlines);
    no other file changes and nothing is printed. *)
Theorem write_cargo_version_replaces_value (R : Runtime) (path : string)
    (w : world) (old v : string) :
  read_cargo_version path w = (w, Ok old) →
  all_chars (is_not backslash) v = true →
  ∃ content pre ws1 ws2 rest,
    files w !! path = Some content
    ∧ universal_newlines content = cargo_text pre ws1 ws2 old rest
    ∧ all_chars is_space ws1 = true ∧ all_chars is_space ws2 = true
    ∧ all_chars not_dq old = true ∧ old ≠ ""
    ∧ first_version_line pre (cargo_key ws1 ws2 +:+ old +:+ String dq rest)
    ∧ write_cargo_version path (PStr v) w
      = (World (<[path := cargo_text pre ws1 ws2 v rest]> (files w)) (stdout w),
         Ok tt).
Proof. apply write_cargo_version_value. Qed.

Lemma write_cargo_version_replaces_value_witness :
  ∃ content pre ws1 ws2 rest,
    files (cargo_only (cargo_two_versions "0.1.0")) !! CARGO_PATH = Some content
    ∧ universal_newlines content = cargo_text pre ws1 ws2 "0.1.0" rest
    ∧ all_chars is_space ws1 = true ∧ all_chars is_space ws2 = true
    ∧ all_chars not_dq "0.1.0" = true ∧ "0.1.0" ≠ ""
    ∧ first_version_line pre
        (cargo_key ws1 ws2 +:+ "0.1.0" +:+ String dq rest)
    ∧ @write_cargo_version sample_runtime CARGO_PATH (PStr "2.3.4")
        (cargo_only (cargo_two_versions "0.1.0"))
      = (World (<[CARGO_PATH := cargo_text pre ws1 ws2 "2.3.4" rest]>
                  (files (cargo_only (cargo_two_versions "0.1.0"))))
           (stdout (cargo_only (cargo_two_versions "0.1.0"))),
         Ok tt).
Proof.
  apply (write_cargo_version_replaces_value sample_runtime CARGO_PATH
           (cargo_only (cargo_two_versions "0.1.0")) "0.1.0" "2.3.4").
  - vm_compute. reflexivity.
  - reflexivity.
Defined.

(** In a manifest with two version lines only the first one is rewritten. *)
Example example_write_first_version_line :
  @write_cargo_version sample_runtime CARGO_PATH (PStr "2.3.4")
    (cargo_only (cargo_two_versions "0.1.0"))
  = (cargo_only (cargo_two_versions "2.3.4"), Ok tt).
Proof. vm_compute. reflexivity. Qed.

(** ** The JSON manifests *)

Lemma dict_get_set_ne k k' v d :
  k' ≠ k → dict_get k' (dict_set k v d) = dict_get k' d.
Proof.
  intros Hk. induction d as [|[k0 v0] d IH]; cbn [dict_set dict_get].
  - apply String.eqb_neq in Hk. by rewrite Hk.
  - destruct (String.eqb k k0) eqn:E; cbn [dict_get].
    + apply String.eqb_eq in E as <-. apply String.eqb_neq in Hk.
      by rewrite Hk.
    + by rewrite IH.
Qed.

Lemma dict_set_keys k v d :
  map fst (dict_set k v d)
  = if bool_decide (k ∈ map fst d) then map fst d else map fst d ++ [k].
Proof.
  induction d as [|[k0 v0] d IH]; cbn [dict_set map fst].
  - by rewrite bool_decide_false by apply not_elem_of_nil.
  - destruct (String.eqb k k0) eqn:E.
    + apply String.eqb_eq in E as <-. cbn [map fst].
      by rewrite bool_decide_true by (by left).
    + apply String.eqb_neq in E. cbn [map fst]. rewrite IH.
      destruct (bool_decide (k ∈ map fst d)) eqn:B.
      * apply bool_decide_eq_true in B.
        by rewrite bool_decide_true by (by right).
      * apply bool_decide_eq_false in B.
        rewrite bool_decide_false; [done|].
        by intros [?|?]%elem_of_cons.
Qed.

Section JsonFile.
Context {R : Runtime} {J : Json} {L : JsonLaws J}.

Lemma write_json_fields path w content d v :
  files w !! path = Some content →
  json_loads (universal_newlines content) = Some (PDict d) →
  json_value v = true →
  ∃ text,
    write_package_json_version path v w
    = (World (<[path := text]> (files w)) (stdout w), Ok tt)
    ∧ write_tauri_conf_version path v w
      = (World (<[path := text]> (files w)) (stdout w), Ok tt)
    ∧ json_loads (universal_newlines text)
      = Some (PDict (dict_set "version" v d))
    ∧ dict_get "version" (dict_set "version" v d) = Some v
    ∧ (∀ k, k ≠ "version" →
            dict_get k (dict_set "version" v d) = dict_get k d)
    ∧ map fst (dict_set "version" v d)
      = if bool_decide ("version" ∈ map fst d) then map fst d
        else map fst d ++ ["version"].
Proof.
  intros Hf Hl Hv. pose proof (loads_value _ _ Hl) as Hd.
  exists (json_dumps (PDict (dict_set "version" v d)) +:+ String LF "").
  assert (Hw : write_package_json_version path v w
               = (World (<[path := json_dumps (PDict (dict_set "version" v d))
                                   +:+ String LF ""]> (files w)) (stdout w),
                  Ok tt)).
  { unfold write_package_json_version.
    rewrite (bind_read_text _ _ _ _ Hf). unfold Version.loads.
    rewrite Hl, bind_ret. cbn [setitem]. by rewrite bind_lift_ok. }
  split; [exact Hw|]. split; [exact Hw|].
  split; [apply loads_dumps; by apply json_value_set|].
  split; [apply dict_get_set|].
  split; [intros k Hk; by apply dict_get_set_ne|apply dict_set_keys].
Qed.

End JsonFile.

(** Writing a version into a JSON manifest (package manifest or application
    configuration) whose text is an object rewrites the whole file from the
    parsed object: read again, the file is the same object with the version
    field set, every other field with its value and the fields in their
    order, and a version field is added at the end when there was none. *)
Theorem write_json_keeps_fields (R : Runtime) (J : Json) (L : JsonLaws J)
    (path : string) (w : world) (content : string)
    (d : list (string * pyval)) (v : pyval) :
  files w !! path = Some content →
  json_loads (universal_newlines content) = Some (PDict d) →
  json_value v = true →
  ∃ text,
    write_package_json_version path v w
    = (World (<[path := text]> (files w)) (stdout w), Ok tt)
    ∧ write_tauri_conf_version path v w
      = (World (<[path := text]> (files w)) (stdout w), Ok tt)
    ∧ json_loads (universal_newlines text)
      = Some (PDict (dict_set "version" v d))
    ∧ dict_get "version" (dict_set "version" v d) = Some v
    ∧ (∀ k, k ≠ "version" →
            dict_get k (dict_set "version" v d) = dict_get k d)
    ∧ map fst (dict_set "version" v d)
      = if bool_decide ("version" ∈ map fst d) then map fst d
        else map fst d ++ ["version"].
Proof. apply write_json_fields. Qed.

Lemma write_json_keeps_fields_witness :
  let d := [("name", PStr "youtube-downloader"); ("private", PBool true)] in
  let w := World {[ NPM_PATH := package_without_version ]} [] in
  ∃ text,
    @write_package_json_version mini_json NPM_PATH (PStr "2.3.4") w
    = (World (<[NPM_PATH := text]> (files w)) (stdout w), Ok tt)
    ∧ @write_tauri_conf_version mini_json NPM_PATH (PStr "2.3.4") w
      = (World (<[NPM_PATH := text]> (files w)) (stdout w), Ok tt)
    ∧ @json_loads mini_json (universal_newlines text)
      = Some (PDict (dict_set "version" (PStr "2.3.4") d))
    ∧ dict_get "version" (dict_set "version" (PStr "2.3.4") d)
      = Some (PStr "2.3.4")
    ∧ (∀ k, k ≠ "version" →
            dict_get k (dict_set "version" (PStr "2.3.4") d) = dict_get k d)
    ∧ map fst (dict_set "version" (PStr "2.3.4") d)
      = if bool_decide ("version" ∈ map fst d) then map fst d
        else map fst d ++ ["version"].
Proof.
  cbv zeta.
  apply (write_json_keeps_fields sample_runtime mini_json mini_json_laws
           NPM_PATH (World {[ NPM_PATH := package_without_version ]} [])
           package_without_version).
  - vm_compute. reflexivity.
  - vm_compute. reflexivity.
  - reflexivity.
Defined.

(** ** A frame rate that is null *)

Lemma no_exit_ok {A} (a : A) : no_exit (Ok a).
Proof. by intros e. Qed.

Lemma no_exit_raise {A} e : is_exit e = false → no_exit (@Raise A e).
Proof. intros He e' [= <-]. done. Qed.

Lemma no_exit_bind {A B} (m : result A) (k : A → result B) :
  no_exit m → (∀ a, no_exit (k a)) → no_exit (m ≫= k).
Proof.
  intros Hm Hk e. destruct m as [a|e']; cbn.
  - apply Hk.
  - intros [= <-]. by apply Hm.
Qed.

Create HintDb no_exit.

Ltac no_exit_steps :=
  repeat first
    [ apply no_exit_ok
    | apply no_exit_raise; reflexivity
    | match goal with
      | |- no_exit (_ ≫= _) => apply no_exit_bind; [|intros ?]
      | |- no_exit (if ?b then _ else _) => destruct b
      | |- no_exit (match ?x with _ => _ end) => destruct x
      end
    | solve [eauto with no_exit] ].

Section NoExit.
Context {R : Runtime} {Y : Ydl}.

Lemma get_no_exit x k dflt : no_exit (get x k dflt).
Proof. unfold get. no_exit_steps. Qed.

Lemma getitem_no_exit x k : no_exit (getitem x k).
Proof. unfold getitem. no_exit_steps. Qed.

Lemma format_right_no_exit n v : no_exit (format_right n v).
Proof. unfold format_right. no_exit_steps. Qed.

Lemma format_fixed_no_exit n v : no_exit (format_fixed n v).
Proof. unfold format_fixed. no_exit_steps. Qed.

Lemma format_duration_no_exit v : no_exit (format_duration v).
Proof. unfold format_duration. no_exit_steps. Qed.

Lemma size_str_no_exit v : no_exit (size_str v).
Proof. unfold size_str. no_exit_steps. Qed.

Lemma py_gt_no_exit x y : no_exit (py_gt x y).
Proof. unfold py_gt. no_exit_steps. Qed.

Lemma iterate_no_exit v : no_exit (iterate v).
Proof. unfold iterate. no_exit_steps. Qed.

Hint Resolve get_no_exit getitem_no_exit format_right_no_exit
  format_fixed_no_exit format_duration_no_exit size_str_no_exit
  py_gt_no_exit iterate_no_exit : no_exit.

Lemma classify_no_exit f : no_exit (classify f).
Proof. unfold classify. no_exit_steps. Qed.

Hint Resolve classify_no_exit : no_exit.

Lemma partition_no_exit l : ∀ v a, no_exit (partition l v a).
Proof.
  induction l as [|f l IH]; intros v a; cbn [partition]; no_exit_steps; apply IH.
Qed.

Lemma get_or_0_no_exit x k : no_exit (get_or_0 x k).
Proof. unfold get_or_0. no_exit_steps. Qed.

Hint Resolve partition_no_exit get_or_0_no_exit : no_exit.

Lemma audio_key_no_exit x : no_exit (audio_key x).
Proof. unfold audio_key. no_exit_steps. Qed.

Lemma video_key_no_exit x : no_exit (video_key x).
Proof. unfold video_key. no_exit_steps. Qed.

Lemma keys_of_no_exit {K} (key : pyval → result (option K)) l :
  (∀ x, no_exit (key x)) → no_exit (keys_of key l).
Proof.
  intros Hk. induction l as [|x l IH]; cbn [keys_of]; no_exit_steps; auto.
Qed.

Lemma sorted_desc_no_exit {K} (geb : K → K → bool) key l :
  (∀ x, no_exit (key x)) → no_exit (sorted_desc geb key l).
Proof.
  intros Hk. unfold sorted_desc. no_exit_steps. by apply keys_of_no_exit.
Qed.

Lemma audio_row_no_exit f : no_exit (audio_row f).
Proof. unfold audio_row. cbn zeta. no_exit_steps. Qed.

Lemma video_row_no_exit f : no_exit (video_row f).
Proof. unfold video_row. cbn zeta. no_exit_steps. Qed.

Lemma improves_no_exit k b f : no_exit (improves k b f).
Proof. unfold improves. no_exit_steps. Qed.

Hint Resolve improves_no_exit : no_exit.

Lemma scan_video_no_exit l : ∀ b, no_exit (scan_video l b).
Proof.
  induction l as [|f l IH]; intros b; cbn [scan_video]; no_exit_steps; apply IH.
Qed.

Lemma scan_audio_no_exit l : ∀ b, no_exit (scan_audio l b).
Proof.
  induction l as [|f l IH]; intros b; cbn [scan_audio]; no_exit_steps; apply IH.
Qed.

End NoExit.

Lemma never_exits_ret {A} (a : A) : never_exits (mret a).
Proof. by intros w w' e. Qed.

Lemma never_exits_print line : never_exits (print line).
Proof. by intros w w' e. Qed.

Lemma never_exits_lift {A} (r : result A) : no_exit r → never_exits (lift r).
Proof. intros Hr w w' e [= _ ->]. by apply Hr. Qed.

Lemma never_exits_bind {A B} (m : IO A) (k : A → IO B) :
  never_exits m → (∀ a, never_exits (k a)) → never_exits (m ≫= k).
Proof.
  intros Hm Hk w w' e. unfold mbind, IO_bind, io_bind.
  destruct (m w) as [w1 [a|e1]] eqn:Hmw.
  - apply Hk.
  - intros [= <- <-]. by apply (Hm w w1).
Qed.

Ltac never_exits_steps :=
  repeat first
    [ apply never_exits_ret
    | apply never_exits_print
    | match goal with
      | |- never_exits (_ ≫= _) => apply never_exits_bind; [|intros ?]
      | |- never_exits (lift _) => apply never_exits_lift
      | |- never_exits (if ?b then _ else _) => destruct b
      | |- never_exits (match ?x with _ => _ end) => destruct x
      end ].

Section NeverExits.
Context {R : Runtime} {Y : Ydl}.

Lemma print_rows_never_exits row l :
  (∀ f, no_exit (row f)) → never_exits (print_rows row l).
Proof.
  intros Hr. induction l as [|f l IH]; cbn [print_rows]; never_exits_steps; auto.
Qed.

Lemma audio_table_never_exits l : never_exits (audio_table l).
Proof.
  unfold audio_table. never_exits_steps.
  - apply sorted_desc_no_exit, audio_key_no_exit.
  - apply print_rows_never_exits, audio_row_no_exit.
Qed.

Lemma video_table_never_exits l : never_exits (video_table l).
Proof.
  unfold video_table. never_exits_steps.
  - apply sorted_desc_no_exit, video_key_no_exit.
  - apply print_rows_never_exits, video_row_no_exit.
Qed.

Lemma recommendations_never_exits info v a :
  never_exits (recommendations info v a).
Proof.
  unfold recommendations. never_exits_steps;
    first [ apply scan_video_no_exit | apply scan_audio_no_exit
          | apply getitem_no_exit | apply get_no_exit ].
Qed.

(** Whatever the fetch result, [print_formats] does not end the process
    with [sys.exit]. *)
Lemma print_formats_never_exits info : never_exits (print_formats info).
Proof.
  unfold print_formats. never_exits_steps;
    first [ apply get_no_exit | apply format_duration_no_exit
          | apply iterate_no_exit | apply partition_no_exit
          | apply audio_table_never_exits | apply video_table_never_exits
          | apply recommendations_never_exits ].
Qed.

End NeverExits.

Lemma not_ok_raise {A} e : not_ok (@Raise A e).
Proof. by intros a. Qed.

Lemma not_ok_bind_l {A B} (m : result A) (k : A → result B) :
  not_ok m → not_ok (m ≫= k).
Proof. intros Hm b. destruct m as [a|e]; [by destruct (Hm a)|done]. Qed.

Lemma not_ok_bind_r {A B} (m : result A) (k : A → result B) :
  (∀ a, not_ok (k a)) → not_ok (m ≫= k).
Proof. intros Hk b. destruct m as [a|e]; [apply Hk|done]. Qed.

Lemma never_returns_bind_l {A B} (m : IO A) (k : A → IO B) :
  never_returns m → never_returns (m ≫= k).
Proof.
  intros Hm w w' b. unfold mbind, IO_bind, io_bind.
  destruct (m w) as [w1 [a|e]] eqn:Hmw; [by destruct (Hm w w1 a)|done].
Qed.

Lemma never_returns_bind_r {A B} (m : IO A) (k : A → IO B) :
  (∀ a, never_returns (k a)) → never_returns (m ≫= k).
Proof.
  intros Hk w w' b. unfold mbind, IO_bind, io_bind.
  destruct (m w) as [w1 [a|e]]; [apply Hk|done].
Qed.

Lemma never_returns_lift_ok {A B} (x : A) (k : A → IO B) :
  never_returns (k x) → never_returns (lift (Ok x) ≫= k).
Proof. intros Hk w w' b. apply Hk. Qed.

Lemma never_returns_lift {A} (r : result A) : not_ok r → never_returns (lift r).
Proof. intros Hr w w' a [= _ Ha]. by destruct (Hr a). Qed.

Section NullFrameRate.
Context {R : Runtime} {Y : Ydl}.

(** The row of a video descriptor whose frame rate is null cannot be
    formatted. *)
Lemma video_row_null_fps d :
  dict_get "fps" d = Some PNone → not_ok (video_row (PDict d)).
Proof.
  intros Hfps. unfold video_row. cbn zeta. rewrite !get_dict, Hfps.
  cbn [default from_option id]. rewrite !rbind_ok.
  apply not_ok_bind_r. intros vcodec. rewrite !rbind_ok.
  apply not_ok_bind_r. intros size.
  apply not_ok_bind_r. intros c1.
  apply not_ok_bind_r. intros c2.
  apply not_ok_bind_r. intros c3.
  apply not_ok_bind_l. cbn [format_right]. apply not_ok_raise.
Qed.

Lemma print_rows_never_returns row rows f :
  f ∈ rows → not_ok (row f) → never_returns (print_rows row rows).
Proof.
  intros Hin Hf. induction rows as [|g rows IH]; [by inversion Hin|].
  cbn [print_rows]. apply elem_of_cons in Hin as [<-|Hin].
  - apply never_returns_bind_l, never_returns_lift, Hf.
  - apply never_returns_bind_r. intros line.
    apply never_returns_bind_r. intros []. by apply IH.
Qed.

Lemma sortable_inv f :
  sortable f = true →
  is_dict f = true ∧ opt_num_or_none (field "abr" f) = true
  ∧ opt_num_or_none (field "height" f) = true
  ∧ opt_num_or_none (field "fps" f) = true.
Proof. unfold sortable. rewrite !andb_true_iff. tauto. Qed.

Lemma video_table_never_returns video f :
  Forall (λ g, sortable g = true) video →
  f ∈ video → field "fps" f = Some PNone →
  never_returns (video_table video).
Proof.
  intros Hs Hin Hfps.
  destruct (sorted_desc_ok pair_geb video_key
              (λ k g, (k.1 == height g)%Q ∧ (k.2 == frame_rate g)%Q)
              video_order video) as (rows & Hrows & Hp & _).
  - apply pair_geb_total.
  - apply pair_geb_trans.
  - intros a b x y [Hx Hx'] [Hy Hy'] Hab. unfold video_order.
    rewrite <- Hx, <- Hy, <- Hx', <- Hy'. by apply pair_geb_iff.
  - eapply Forall_impl; [exact Hs|]. intros g (? & _ & ? & ?)%sortable_inv.
    by apply video_key_ok.
  - destruct video as [|g video]; [by inversion Hin|].
    unfold video_table. rewrite Hrows.
    do 4 (apply never_returns_bind_r; intros []).
    apply never_returns_lift_ok. apply never_returns_bind_l.
    apply (print_rows_never_returns video_row rows f).
    + by rewrite Hp.
    + destruct f as [| | | | | |d]; try done. by apply video_row_null_fps.
Qed.

Lemma print_formats_never_returns d fs f :
  dict_get "formats" d = Some (PList fs) →
  Forall (λ g, sortable g = true) fs →
  f ∈ fs → is_video f = true → field "fps" f = Some PNone →
  never_returns (print_formats (PDict d)).
Proof.
  intros Hfs Hs Hin Hv Hfps. unfold print_formats.
  rewrite !get_dict, Hfs. cbn [default from_option id].
  do 3 apply never_returns_lift_ok.
  do 3 (apply never_returns_bind_r; intros []).
  apply never_returns_bind_r. intros dur.
  do 3 (apply never_returns_bind_r; intros []).
  apply never_returns_lift_ok.
  assert (truthy (PList fs) = true) as -> by (by destruct fs; [inversion Hin|]).
  cbn [negb iterate]. apply never_returns_lift_ok.
  rewrite partition_dicts.
  2:{ eapply Forall_impl; [exact Hs|]. by intros g (? & _)%sortable_inv. }
  cbn [app]. apply never_returns_lift_ok.
  apply never_returns_bind_r. intros [].
  apply never_returns_bind_l.
  apply (video_table_never_returns _ f); [|by apply list_elem_of_In, filter_In;
    split; [apply list_elem_of_In|]|done].
  apply Forall_forall. intros g Hg%list_elem_of_In.
  apply filter_In in Hg as [Hg%list_elem_of_In _].
  rewrite Forall_forall in Hs. by apply Hs.
Qed.

Lemma emits_run {A B} (m : IO A) (k : A → IO B) l a w :
  emits m l a → (m ≫= k) w = k a (World (files w) (stdout w ++ l)).
Proof. intros Hm. unfold mbind, IO_bind, io_bind. by rewrite Hm. Qed.

(** A fetch result that is not empty is handed to [print_formats] after
    the lines of the preamble. *)
Lemma main_runs_report env argv info w :
  extract_info (chosen_url argv) (cookie_file env) = Returned info →
  truthy info = true →
  main env argv w
  = print_formats info (World (files w) (stdout w ++ prelude env argv)).
Proof.
  intros Hf Ht. unfold main.
  rewrite (emits_run _ _ _ _ _ (url_emits argv)).
  rewrite (emits_run _ _ _ _ _ (check_cookies_emits env)).
  rewrite (emits_run _ _ _ _ _ (emits_print "")).
  rewrite (emits_run _ _ _ _ _ (get_formats_returned env _ info Hf)).
  rewrite Ht. cbn [files stdout]. unfold prelude.
  by rewrite <- !app_assoc.
Qed.

Lemma main_null_fps env argv info fs f w :
  extract_info (chosen_url argv) (cookie_file env) = Returned info →
  is_dict info = true → field "formats" info = Some (PList fs) →
  Forall (λ g, sortable g = true) fs →
  f ∈ fs → is_video f = true → field "fps" f = Some PNone →
  ∃ w' e, main env argv w = (w', Raise e) ∧ is_exit e = false
          ∧ exit_status (main env argv w).2 = 1.
Proof.
  intros Hf Hd Hfs Hs Hin Hv Hfps.
  destruct info as [| | | | | |d]; try done. cbn [field] in Hfs.
  rewrite (main_runs_report env argv (PDict d) w Hf) by (by destruct d).
  set (w1 := World (files w) (stdout w ++ prelude env argv)).
  destruct (print_formats (PDict d) w1) as [w' [[]|e]] eqn:Hrun.
  - by destruct (print_formats_never_returns d fs f Hfs Hs Hin Hv Hfps w1 w' tt).
  - exists w', e. pose proof (print_formats_never_exits _ _ _ _ Hrun) as He.
    split; [done|]. split; [done|]. by destruct e.
Qed.

End NullFrameRate.

(** A video format whose frame rate is there but null cannot be shown: when
    the fetch result has such a format (the sort keys of all formats being
    numbers, null or missing), the run never completes the report; it ends
    with an uncaught exception, not with [sys.exit], and so with status 1. *)
Theorem main_null_frame_rate (R : Runtime) (Y : Ydl) (env : environment)
    (argv : list string) (info : pyval) (fs : list pyval) (f : pyval)
    (w : world) :
  extract_info (chosen_url argv) (cookie_file env) = Returned info →
  is_dict info = true → field "formats" info = Some (PList fs) →
  Forall (λ g, sortable g = true) fs →
  f ∈ fs → is_video f = true → field "fps" f = Some PNone →
  ∃ w' e, main env argv w = (w', Raise e) ∧ is_exit e = false
          ∧ exit_status (main env argv w).2 = 1.
Proof. apply main_null_fps. Qed.

Lemma main_null_frame_rate_witness :
  ∃ w' e,
    @main sample_runtime null_fps_ydl example_env [] (World ∅ [])
    = (w', Raise e)
    ∧ is_exit e = false
    ∧ exit_status
        (@main sample_runtime null_fps_ydl example_env [] (World ∅ [])).2 = 1.
Proof.
  apply (main_null_frame_rate sample_runtime null_fps_ydl example_env []
           null_fps_info
           [PDict [("format_id", PStr "137"); ("vcodec", PStr "avc1.640028");
                   ("height", PInt 1080); ("fps", PNone)]]
           (PDict [("format_id", PStr "137"); ("vcodec", PStr "avc1.640028");
                   ("height", PInt 1080); ("fps", PNone)])).
  - reflexivity.
  - reflexivity.
  - reflexivity.
  - repeat constructor.
  - apply list_elem_of_here.
  - reflexivity.
  - reflexivity.
Defined.

(** ** More on reading and setting all versions *)

Section AllVersions.
Context {R : Runtime} {J : Json} {L : JsonLaws J}.

Lemma json_read_exists path w v :
  read_package_json_version path w = (w, Ok v) → is_Some (files w !! path).
Proof. intros (content & d & _ & Hf & _)%json_read_inv. by rewrite Hf. Qed.

Lemma cargo_read_exists path w v :
  read_cargo_version path w = (w, Ok v) → is_Some (files w !! path).
Proof.
  intros (content & pre & ws1 & ws2 & rest & _ & Hf & _)%read_cargo_version_inv.
  by rewrite Hf.
Qed.

Lemma set_all_versions_partial v w old oc content :
  plain_version v = true →
  read_package_json_version NPM_PATH w = (w, Ok old) →
  file_reads CARGO_PATH read_cargo_version w oc →
  files w !! CONF_PATH = Some content →
  json_loads (universal_newlines content) = None →
  ∃ w',
    set_all_versions (PStr v) w = (w', Raise JSONDecodeError)
    ∧ read_package_json_version NPM_PATH w' = (w', Ok (PStr v))
    ∧ file_reads CARGO_PATH read_cargo_version w' ((λ _, v) <$> oc)
    ∧ files w' !! CONF_PATH = Some content.
Proof.
  intros Hv Hr Hc Hf Hl. unfold set_all_versions. cbn zeta.
  rewrite version_file_npm, version_file_cargo, version_file_conf.
  assert (Hn : file_reads NPM_PATH read_package_json_version w (Some old)).
  { split; [by apply (json_read_exists _ _ old)|done]. }
  destruct (write_block NPM_PATH read_package_json_version
              (write_package_json_version NPM_PATH (PStr v))
              ("  ✓ " +:+ NPM_PATH +:+ ": " +:+ py_str (PStr v)) w (Some old)
              (PStr v) Hn)
    as (w1 & H1 & Hf1 & Ho1 & Hr1).
  { intros old' Hr'. by apply (json_write_read NPM_PATH w old'). }
  rewrite (block_then _ _ _ w w1 H1).
  assert (Hc1 : file_reads CARGO_PATH read_cargo_version w1 oc).
  { apply (file_reads_same _ _ w); [apply read_cargo_fun|by apply Hf1|done]. }
  destruct (write_block CARGO_PATH read_cargo_version
              (write_cargo_version CARGO_PATH (PStr v))
              ("  ✓ " +:+ CARGO_PATH +:+ ": " +:+ py_str (PStr v)) w1 oc v Hc1)
    as (w2 & H2 & Hf2 & Ho2 & Hr2).
  { intros old' Hr'. by apply (cargo_write_read CARGO_PATH w1 old'). }
  rewrite (block_then _ _ _ w1 w2 H2).
  assert (Hf' : files w2 !! CONF_PATH = Some content).
  { rewrite Hf2, Hf1; done. }
  exists w2. split; [|split; [|split]].
  - unfold CONF_PATH in Hf'.
    rewrite bind_path_exists, Hf', bool_decide_true by done.
    unfold write_tauri_conf_version.
    rewrite bind_assoc, (bind_read_text _ _ _ _ Hf'). unfold Version.loads.
    by rewrite Hl.
  - destruct (Hr1 w2) as [_ Hread]; [by rewrite Hf2|done].
  - by apply Hr2.
  - done.
Qed.

(** *** Setting the same version again *)

Lemma dict_set_same k v d : dict_get k d = Some v → dict_set k v d = d.
Proof.
  induction d as [|[k0 v0] d IH]; [done|]. cbn [dict_get dict_set].
  destruct (String.eqb k k0) eqn:E.
  - apply String.eqb_eq in E as ->. by intros [= ->].
  - intros Hd. by rewrite IH.
Qed.

Lemma world_insert_id w path text :
  files w !! path = Some text →
  World (<[path := text]> (files w)) (stdout w) = w.
Proof. intros Hf. rewrite insert_id by done. by destruct w. Qed.

Lemma json_write_again path w old v :
  read_package_json_version path w = (w, Ok old) → json_value v = true →
  ∃ text,
    write_package_json_version path v w
    = (World (<[path := text]> (files w)) (stdout w), Ok tt)
    ∧ ∀ w', files w' !! path = Some text →
            read_package_json_version path w' = (w', Ok v)
            ∧ write_package_json_version path v w' = (w', Ok tt).
Proof.
  intros (content & d & _ & Hf & Hl)%json_read_inv Hv.
  pose proof (loads_value _ _ Hl) as Hd.
  exists (json_dumps (PDict (dict_set "version" v d)) +:+ String LF "").
  split.
  - unfold write_package_json_version.
    rewrite (bind_read_text _ _ _ _ Hf). unfold Version.loads.
    rewrite Hl, bind_ret. cbn [setitem]. by rewrite bind_lift_ok.
  - intros w' Hf'. split.
    + unfold read_package_json_version.
      rewrite (bind_read_text _ _ _ _ Hf'). unfold Version.loads.
      rewrite loads_dumps by (by apply json_value_set).
      rewrite bind_ret. cbn [get]. by rewrite dict_get_set.
    + unfold write_package_json_version.
      rewrite (bind_read_text _ _ _ _ Hf'). unfold Version.loads.
      rewrite loads_dumps by (by apply json_value_set).
      rewrite bind_ret. cbn [setitem].
      rewrite (dict_set_same "version" v) by apply dict_get_set.
      rewrite bind_lift_ok. unfold write_text. by rewrite world_insert_id.
Qed.

Lemma cargo_write_again path w old v :
  read_cargo_version path w = (w, Ok old) → plain_version v = true →
  ∃ text,
    write_cargo_version path (PStr v) w
    = (World (<[path := text]> (files w)) (stdout w), Ok tt)
    ∧ ∀ w', files w' !! path = Some text →
            read_cargo_version path w' = (w', Ok v)
            ∧ write_cargo_version path (PStr v) w' = (w', Ok tt).
Proof.
  intros (content & pre & ws1 & ws2 & rest & _ & Hf & HT & Hw1 & Hw2 & Hold & Hne
          & Hfirst)%read_cargo_version_inv (Hv & Hq & Hbs & Hcr)%plain_version_inv.
  exists (cargo_text pre ws1 ws2 v rest). split.
  - by apply (write_cargo_version_found path w content pre ws1 ws2 old rest v).
  - intros w' Hf'.
    assert (HT' : universal_newlines (cargo_text pre ws1 ws2 v rest)
                  = cargo_text pre ws1 ws2 v rest).
    { apply universal_newlines_id.
      apply (cargo_text_no_cr pre ws1 ws2 old rest v); [|done].
      rewrite <- HT. apply universal_newlines_no_cr. }
    assert (Hfirst' : first_version_line pre
                        (cargo_key ws1 ws2 +:+ v +:+ String dq rest)).
    { rewrite cargo_key_head in Hfirst |- *.
      apply (first_version_line_subst pre _ old v rest); try done.
      by exists ws1, ws2. }
    split.
    + by apply (read_cargo_version_found path w' (cargo_text pre ws1 ws2 v rest)
                  pre ws1 ws2 v rest).
    + rewrite (write_cargo_version_found path w' (cargo_text pre ws1 ws2 v rest)
                 pre ws1 ws2 v rest v); try done.
      by rewrite world_insert_id.
Qed.

Lemma write_block_again {A} path (read : string → IO A) (write : IO unit) line
    w o :
  file_reads path read w o →
  (∀ old, read path w = (w, Ok old) →
          ∃ text,
            write w = (World (<[path := text]> (files w)) (stdout w), Ok tt)
            ∧ ∀ w', files w' !! path = Some text → write w' = (w', Ok tt)) →
  ∃ w1,
    (e ← path_exists path; if e : bool then write;; print line else mret tt) w
    = (w1, Ok tt)
    ∧ (∀ p, p ≠ path → files w1 !! p = files w !! p)
    ∧ ∀ w', files w' !! path = files w1 !! path →
            (e ← path_exists path;
             if e : bool then write;; print line else mret tt) w'
            = (World (files w') (stdout w' ++ if_present o [line]), Ok tt).
Proof.
  intros Ho Hw. rewrite bind_path_exists.
  destruct o as [v0|]; cbn [file_reads] in Ho.
  - destruct Ho as [Hs Hr]. rewrite bool_decide_true by done.
    destruct (Hw v0 Hr) as (text & Hwrite & Hagain).
    rewrite (bind_result _ _ _ _ _ Hwrite).
    eexists. split; [reflexivity|]. cbn [files stdout].
    split.
    + intros p Hp. by apply lookup_insert_ne.
    + intros w' Hf'. rewrite lookup_insert_eq in Hf'.
      rewrite bind_path_exists, Hf', bool_decide_true by done.
      by rewrite (bind_result _ _ _ _ _ (Hagain w' Hf')).
  - rewrite Ho, bool_decide_false by apply not_is_Some_None.
    exists w. split; [done|]. split; [done|].
    intros w' Hf'.
    rewrite bind_path_exists, Hf', Ho, bool_decide_false
      by apply not_is_Some_None.
    cbn. unfold mret, IO_ret, io_ret. rewrite app_nil_r. by destruct w'.
Qed.

Lemma set_all_versions_again v w versions :
  plain_version v = true →
  get_all_versions w = (w, Ok versions) →
  ∃ w1 w2,
    set_all_versions (PStr v) w = (w1, Ok tt)
    ∧ set_all_versions (PStr v) w1 = (w2, Ok tt)
    ∧ files w2 = files w1.
Proof.
  intros Hv (_ & on & oc & ot & Hn & Hc & Ht & ->)%get_all_versions_inv.
  unfold set_all_versions. cbn zeta.
  rewrite version_file_npm, version_file_cargo, version_file_conf.
  destruct (write_block_again NPM_PATH read_package_json_version
              (write_package_json_version NPM_PATH (PStr v))
              ("  ✓ " +:+ NPM_PATH +:+ ": " +:+ py_str (PStr v)) w on Hn)
    as (w1 & H1 & Hf1 & Ha1).
  { intros old Hr.
    destruct (json_write_again NPM_PATH w old (PStr v) Hr eq_refl)
      as (text & Hw & Hag).
    exists text. split; [done|]. intros w' Hf'. by apply Hag. }
  assert (Hc1 : file_reads CARGO_PATH read_cargo_version w1 oc).
  { apply (file_reads_same _ _ w); [apply read_cargo_fun|by apply Hf1|done]. }
  assert (Ht1 : file_reads CONF_PATH read_tauri_conf_version w1 ot).
  { apply (file_reads_same _ _ w); [apply read_json_fun|by apply Hf1|done]. }
  destruct (write_block_again CARGO_PATH read_cargo_version
              (write_cargo_version CARGO_PATH (PStr v))
              ("  ✓ " +:+ CARGO_PATH +:+ ": " +:+ py_str (PStr v)) w1 oc Hc1)
    as (w2 & H2 & Hf2 & Ha2).
  { intros old Hr.
    destruct (cargo_write_again CARGO_PATH w1 old v Hr Hv) as (text & Hw & Hag).
    exists text. split; [done|]. intros w' Hf'. by apply Hag. }
  assert (Ht2 : file_reads CONF_PATH read_tauri_conf_version w2 ot).
  { apply (file_reads_same _ _ w1); [apply read_json_fun|by apply Hf2|done]. }
  destruct (write_block_again CONF_PATH read_tauri_conf_version
              (write_tauri_conf_version CONF_PATH (PStr v))
              ("  ✓ " +:+ CONF_PATH +:+ ": " +:+ py_str (PStr v)) w2 ot Ht2)
    as (w3 & H3 & Hf3 & Ha3).
  { intros old Hr.
    destruct (json_write_again CONF_PATH w2 old (PStr v) Hr eq_refl)
      as (text & Hw & Hag).
    exists text. split; [done|]. intros w' Hf'. by apply Hag. }
  exists w3. eexists. split; [|split].
  - rewrite (block_then _ _ _ w w1 H1), (block_then _ _ _ w1 w2 H2). exact H3.
  - erewrite (block_then _ _ _ w3); [|apply Ha1; by rewrite Hf3, Hf2].
    erewrite (block_then _ _ _ _); [|apply Ha2; cbn [files]; by rewrite Hf3].
    apply Ha3. done.
  - done.
Qed.

End AllVersions.

(** [get_all_versions] returns normally exactly when every manifest that
    exists can be read; the dictionary then has one entry for each of them,
    in the order package manifest, native-build manifest, application
    configuration, missing manifests are left out, and no file or output
    is changed. *)
Theorem get_all_versions_entries (J : Json) (w w' : world)
    (versions : list (string * pyval)) :
  get_all_versions w = (w', Ok versions)
  ↔ w' = w
    ∧ ∃ on oc ot,
        file_reads NPM_PATH read_package_json_version w on
        ∧ file_reads CARGO_PATH read_cargo_version w oc
        ∧ file_reads CONF_PATH read_tauri_conf_version w ot
        ∧ versions = entry "npm" on ++ entry "tauri_cargo" (PStr <$> oc)
                     ++ entry "tauri_conf" ot.
Proof.
  split; [apply get_all_versions_inv|].
  intros (-> & on & oc & ot & Hn & Hc & Ht & ->).
  by apply get_all_versions_intro.
Qed.

(** [set_all_versions] is not atomic: when the package manifest can be
    read but the application configuration is not JSON, the call raises
    the decoding error after the manifests before it have been written;
    the package manifest (and the native-build manifest, when it is there)
    already reads the new version, and nothing is rolled back. *)
Theorem set_all_versions_not_atomic (R : Runtime) (J : Json)
    (L : JsonLaws J) (v : string) (w : world) (old : pyval)
    (oc : option string) (content : string) :
  plain_version v = true →
  read_package_json_version NPM_PATH w = (w, Ok old) →
  file_reads CARGO_PATH read_cargo_version w oc →
  files w !! CONF_PATH = Some content →
  json_loads (universal_newlines content) = None →
  ∃ w',
    set_all_versions (PStr v) w = (w', Raise JSONDecodeError)
    ∧ read_package_json_version NPM_PATH w' = (w', Ok (PStr v))
    ∧ file_reads CARGO_PATH read_cargo_version w' ((λ _, v) <$> oc)
    ∧ files w' !! CONF_PATH = Some content.
Proof. apply set_all_versions_partial. Qed.

Lemma set_all_versions_not_atomic_witness :
  ∃ w',
    @set_all_versions sample_runtime mini_json (PStr "2.3.4") broken_conf_world
    = (w', Raise JSONDecodeError)
    ∧ @read_package_json_version mini_json NPM_PATH w'
      = (w', Ok (PStr "2.3.4"))
    ∧ file_reads CARGO_PATH read_cargo_version w' None
    ∧ files w' !! CONF_PATH = Some "{ not json".
Proof.
  apply (set_all_versions_not_atomic sample_runtime mini_json mini_json_laws
           "2.3.4" broken_conf_world (PStr "0.1.0") None "{ not json").
  - reflexivity.
  - vm_compute. reflexivity.
  - vm_compute. reflexivity.
  - vm_compute. reflexivity.
  - vm_compute. reflexivity.
Defined.

(** Setting the same plain version a second time changes no file: the
    first call may re-format the JSON manifests, the second one writes
    back exactly what it reads. *)
Theorem set_all_versions_idempotent (R : Runtime) (J : Json)
    (L : JsonLaws J) (v : string) (w : world)
    (versions : list (string * pyval)) :
  plain_version v = true →
  get_all_versions w = (w, Ok versions) →
  ∃ w1 w2,
    set_all_versions (PStr v) w = (w1, Ok tt)
    ∧ set_all_versions (PStr v) w1 = (w2, Ok tt)
    ∧ files w2 = files w1.
Proof. apply set_all_versions_again. Qed.

Lemma set_all_versions_idempotent_witness :
  ∃ w1 w2,
    @set_all_versions sample_runtime mini_json (PStr "2.3.4") sample_world
    = (w1, Ok tt)
    ∧ @set_all_versions sample_runtime mini_json (PStr "2.3.4") w1 = (w2, Ok tt)
    ∧ files w2 = files w1.
Proof.
  apply (set_all_versions_idempotent sample_runtime mini_json mini_json_laws
           "2.3.4" sample_world
           [("npm", PStr "0.1.0"); ("tauri_cargo", PStr "0.1.0");
            ("tauri_conf", PStr "0.1.0")]); [reflexivity|].
  vm_compute. reflexivity.
Defined.
